(* ===== verification/_CoqProject ===== *)
-Q . S2P
Prelude.v
Machine.v
RustStr.v
Timed.v
Relational.v
Config.v
Errors.v
Types.v
Router.v
CircuitBreaker.v
Retry.v
Vault.v
Sse.v
Complexity.v
Storage.v
Http.v
Handlers.v
Frames.v
Billing.v
Liveness.v
Stranded.v
Disconnect.v
Logging.v
Streaming.v
Reservations.v
Service.v
TypeSafety.v
Agreement.v
Query.v
Server.v
Cli.v
Serde.v
JsonCodec.v
JsonRoundTrip.v
Wire.v
Testing.v
VaultJson.v
Replies.v
App.v
Masks.v
ConfigFile.v
BreakerTests.v
RouterTests.v
RetryTests.v
ConfigTests.v
StreamTests.v
ApiTests.v
StorageTests.v
ScorerTests.v
TestApp.v
ServerTests.v
QueryTests.v
VaultTests.v
SetupTests.v
