(* ===== verification/Prelude.v ===== *)
(** * arbstr: a verification development

    arbstr is an OpenAI-compatible proxy that routes chat completion requests to the cheapest
    suitable provider, retries and falls back on failure, opens circuits on failing providers
    and bills requests against a vault.  This library models its Rust sources (under
    [src/src/]) as executable definitions and proves what each part promises.

    ** How the program is put together

    A request enters [proxy/server.rs] (bearer check, routes) and [proxy/handlers.rs]
    ([chat_completions]).  The handler scores the request ([router/complexity.rs]), asks the
    router for candidates at the resulting tier ([router/selector.rs]), acquires circuit
    breaker permits ([proxy/circuit_breaker.rs]), escalates the tier when nobody is left,
    reserves funds ([proxy/vault.rs]), and then either streams from the first candidate
    ([proxy/stream.rs] observes the bytes) or runs the retry loop ([proxy/retry.rs]) under a
    30 s deadline.  Outcomes go to the breakers, to the bounded database writer
    ([storage/writer.rs]) and to background tasks that settle or release the reservation; a
    reconciliation loop replays the settlements the vault did not take.  Two endpoints list
    and aggregate the log ([proxy/logs.rs], [proxy/stats.rs]).

    ** Files

    - [Prelude]: results and their bind, tactics, the hint database [arb], lemmas on lists,
      stable sorting by key, deduplication, and [star] (reachability).
    - [Machine]: fixed-width integers with their wrap-around, and binary64 ([SpecFloat]) with
      the casts and the decimal formatting the program uses.
    - [RustStr]: [str] operations on byte strings, UTF-8 validity, case ([UnicodeCase]).
    - [Timed]: programs over a shared state and a clock, deadlines that drop a program at an
      await, locals with a [Drop], panics and hangs.  Its logics: [wp] (ends with a value),
      [wpd] (so before a deadline), [safe] (does not panic, and correct if it ends), [cut]
      (correct when it ends or is dropped), [evolves] (a relation holds between the states
      before and after, however it ends), [steady] (a deadline only cuts it short, at one of
      its awaits).  [Relational]: two programs side by side ([agree]).
    - [Config], [Errors], [Types]: [config.rs], [error.rs], [proxy/types.rs].
    - [Router]: [router/selector.rs].  [Complexity]: [router/complexity.rs].
    - [CircuitBreaker]: one breaker as a transition system, the registry with its watch
      channels (class [Watch]), permits with queue-and-wait, probe guards.
    - [Retry]: [retry_with_fallback] and the retries header.
    - [Vault]: the client with its retries, the table of pending settlements,
      reconciliation, the settle and release tasks.
    - [Sse]: the SSE observer.  [Streaming]: the background task of a streaming response.
    - [Storage]: the requests table, the bounded writer, the queries (class [SqlEngine]).
    - [Http]: responses and the [x-arbstr-*] headers.
    - [Handlers]: [chat_completions] and everything it calls.  [Frames]: which parts of the
      shared state its programs leave alone (classes [Apart], [Undisturbed]).
    - [Billing], [Liveness], [Disconnect], [Logging]: its theorems: what a request reserves
      and pays, that it ends and which probes it leaves (class [Ledger]), what it leaves when
      its client goes away, what it logs.  [Stranded]: the two ways a probe is lost for good.
    - [Reservations]: handler, tasks and reconciliation as one transition system (class
      [VaultInvariant]).  [TypeSafety]: the types of its state.  [Service]: concurrent
      requests of a deployment with one provider.
    - [Query]: validation, the log listing and the statistics.
    - [Server]: discovery, startup, authentication, models, health, cost, providers.
      [Replies]: the JSON of every reply, and query strings.  [App]: [create_router], from an
      HTTP request to its reply (class [AxumDeps]).
    - [Cli]: [main.rs], as programs with output (scope [program_scope]).
    - [Agreement], [Masks]: the handler, and the application, of two servers that differ in
      secrets.
    - [Serde]: the trees a self-describing format reads and writes (class [Format]: JSON and
      TOML differ in whether an absent member can be [null]), and the readers the derive
      macros compose: struct members, flattened maps, defaults, options, variants.
      [JsonCodec]: a JSON reader and printer, the instance [TextJson] of [SerdeJson];
      [JsonRoundTrip]: what it prints it reads.
    - [Wire]: the derived impls of [proxy/types.rs] (class [JsonValue]).  [VaultJson]: those
      of [proxy/vault.rs], which discharge [VaultSerde], and the bodies posted to the vault.
      [ConfigFile]: those of [config.rs].
    - [Testing] and [BreakerTests], [RouterTests], [RetryTests], [ConfigTests],
      [StreamTests], [ApiTests], [StorageTests], [ScorerTests]: the [#[cfg(test)]] modules of
      the sources, run on the models.  [TestApp], [ServerTests], [QueryTests], [VaultTests],
      [SetupTests]: the integration tests of [src/tests/], run on [App.app] and the tasks it
      spawns.

    Names are those of the sources; a record field whose name is taken has a prefix.

    ** State, time and other tasks

    An asynchronous function is a [Timed] program: instants are nanoseconds, an await adds
    its duration and is cut at the nearest deadline: that of an enclosing [timeout_at], or
    that of the caller.  A client that goes away is a deadline of the whole handler: it ends
    at an await, without a value, and its locals are dropped ([t_on_drop], the probe guard).  [AppWorld]
    (Handlers) is the state tasks share.  Other tasks run at each await and, since the runtime
    has many threads, before each access to the breakers: [others], arbitrary operations on
    breakers and writer; [vault_others], settlements other tasks insert.  A request that finds
    a probe in flight waits ([wait_for_probe]) for as long as [others] say, while they act on
    the registry; if nothing they do resolves the probe it waits forever.  [AppWorld] keeps
    the log of the program's own accesses to the breakers ([aw_accesses]), from which [Service]
    composes requests that run at the same time.
    Theorems quantify over them, over the providers ([upstream]), the vault ([post]), failing
    SQL statements ([db_error]), clients ([client]) and clocks.  Spawned tasks are recorded in
    the state; their bodies are [spawn_vault_settle], [spawn_vault_release] and
    [run_stream_task].

    [Reservations] closes the loop: [system_step] answers a request, drops one, runs a task
    or a reconciliation pass, to its end or until the process is killed, or restarts the
    process (the table of pending settlements survives, tasks do not), in any order and with
    any providers, clients and interference.
    There the vault's tasks run one at a time ([no_inserts]); that a pass and the inserts of
    other tasks overlap is covered by the theorems of [Vault].  A request that waits forever
    is not a step.

    Code that is not in [src/] is a parameter: JSON ([SerdeJson], [JsonValue], [SerdeText],
    [JsonText]; [VaultSerde] is what the vault's client needs of it), the TOML parser,
    regular expressions and [exp] ([ScorerDeps]), header validation ([HttpDeps]), [chrono]
    ([Chrono]), hash order ([HashOrder]), what SQL leaves open ([SqlEngine], [SqlOrder]), routing
    and extraction ([AxumDeps]: a route gets the requests with its method and path, rejections
    are client errors), how long the rate limit holds a request.
    Their laws are documented behaviour, and each class has an instance that the witnesses
    run.

    ** What the theorems show

    - Handling ([Billing], [Handlers], [Logging]): no panic; a provider is called only with
      an accepted reservation and each reservation goes to exactly one billing task
      ([billing_contract]); what a non-streaming request pays; what candidate resolution
      offers; the escalation loop ends in three turns; every answered request is logged once,
      and the entry agrees with the response.
    - The application ([App]): every HTTP request is answered in time and in shape
      ([every_http_request_is_answered]); only an admitted completion request changes anything
      ([only_admitted_completions_act]).
    - Secrets ([Cli], [Masks]): the commands print, and clients and the request log are told,
      of a key its mask and of the tokens nothing ([secrets_stay_masked],
      [clients_learn_masks]), unless a key makes the mask panic or its reference is not closed.
    - Reservations end to end ([Reservations], [TypeSafety]): over every history no
      reservation is forgotten, all calls that end one reservation are the same call, and the
      billing state is well typed; a crash while a settlement is retried forgets it
      ([crash_forgets_settlement]).
    - Disconnects ([Disconnect]): a request whose client goes away leaves no billing task, so
      an accepted reservation is on nobody's books; without billing it leaves no probe.
    - Liveness ([Liveness], [Stranded], [Service]): if the probes it waits for are resolved
      within [D], or nobody else takes one, every request is answered, within three waits per
      provider and its timeouts ([every_request_is_answered]); without billing it leaves no
      probe behind when at most one breaker is due ([unbilled_request_leaves_no_probe]).  When
      two are due ([second_probe_is_stranded]), or billing refuses the request
      ([refused_request_strands_probe]), a probe stays in flight and whoever selects its
      provider never ends.  With one provider and no billing, concurrent requests end every
      probe they take ([lone_provider_never_wedges]).
    - Streaming: the client gets the bytes unaltered; the shared result is read too early,
      so no stream is ever recorded as complete or settled
      ([stream_result_read_too_early]).
    - Billing ([Vault]): reconciliation loses nothing, even when it is cut short, and drains
      against a healthy vault, a settle or release task leaves its reservation ended or
      stored, storage round trips, the reservation covers the cost within 64 bits.
    - Routing ([Router], [Complexity]): what is selected and when selection fails; tiers are
      monotone in the score, which is in [0, 1] or NaN.
    - Resilience ([CircuitBreaker], [Retry]): the breaker invariant, when it opens, its
      window and single probe, waiting requests, the registry under interleaving; the retry
      loop is a fixed schedule, and completes when the deadline leaves room.
    - Observation ([Sse], [Storage], [Http], [Query], [Server]): chunking does not matter,
      the writer applies commands in order and completes the rows of streams, listings are sorted and,
      but for rows that tie, complete ([listing_is_complete]), statistics add up, headers and health are as documented.
    - On the wire ([Wire], [VaultJson]): every member of a request, known to the proxy or
      not, reaches the provider ([unknown_fields_are_forwarded]), requests round trip, a message
      with a null content is refused; a settle or release call that had to be stored is
      replayed as it was ([stored_call_is_replayed]).
    - Configuration ([Config], [ConfigFile], [Cli]): environment expansion is template evaluation, key
      resolution is per provider; [serve] runs what it loaded; [check] is a verdict with the error, or a
      report of every key; the loader that looks at the environment and the one that does not
      agree when it has no say, but for the text of one error ([loaders_agree]).
    - Tests: each unit and each integration suite passes on the models, by evaluation.

    ** Bounds and fuel

    [resolve_loop] has fuel 3: there are three tiers and every turn goes up or returns
    ([escalation_terminates]).  [drain_lines] has the length of the buffer as fuel, and every
    turn shortens it ([drain_lines_fuel]).  [expand_loop] has the length of its input, every
    turn consumes a byte ([expand_loop_fuel]).  Retry loops run over their literal ranges.

    ** Not modelled

    The argument parser, the set-up of the log subscriber and the log lines of a running server
    (those of the commands and of the server's start and end are in [Cli]); opening the SQLite pools and migrations; the text of
    TOML files, TLS and HTTP framing; the trace layer and the signal handlers, which are
    the libraries'; the one unit test that looks
    at a derived [Debug] text.  The body of a streaming response is the channel of
    [Streaming]. *)

From stdpp Require Export base tactics list gmap strings pretty option.
From Stdlib Require Export ZArith Lia Ascii Sorting.Sorted Sorting.Permutation.
Open Scope char_scope.
Open Scope string_scope.
Open Scope list_scope.
Open Scope Z_scope.

(** ** Results *)

(** Rust's [Result<T, E>]. *)
Inductive result (T E : Type) : Type :=
| Ok (x : T)
| Err (e : E).

Arguments Ok {T E} x.
Arguments Err {T E} e.

#[export] Instance result_eq_dec {T E} `{EqDecision T, EqDecision E} :
  EqDecision (result T E).
Proof. solve_decision. Defined.

Declare Scope arb_scope.
Delimit Scope arb_scope with arb.
Open Scope arb_scope.

Definition result_bind {T U E} (r : result T E) (k : T -> result U E) : result U E :=
  match r with Ok x => k x | Err e => Err e end.

Definition map_err {T E F} (f : E -> F) (r : result T E) : result T F :=
  match r with Ok x => Ok x | Err e => Err (f e) end.

Definition ok_or {T E} (o : option T) (e : E) : result T E :=
  match o with Some x => Ok x | None => Err e end.

(** [let? x := e in k] is the source's [let x = e?; k]. *)
Notation "'let?' x ':=' r 'in' k" := (result_bind r (fun x => k))
  (at level 10, x pattern, r at level 100, k at level 200,
   format "'[v' 'let?'  x  ':='  r  'in' '/' k ']'") : arb_scope.

Definition is_Ok {T E} (r : result T E) : Prop := exists x, r = Ok x.

(** ** Automation *)

Create HintDb arb.
#[export] Hint Constants Opaque : arb.

(** [inv_res] splits a hypothesis that a result computation succeeded. *)
Ltac inv_res :=
  repeat match goal with
  | H : result_bind ?r _ = Ok _ |- _ =>
      let E := fresh "E" in destruct r eqn:E; cbn [result_bind] in H; [| discriminate H]
  end; simplify_eq.

(** [break_match] destructs the first scrutinee found in the goal or context. *)
Ltac break_match :=
  match goal with
  | |- context [match ?x with _ => _ end] =>
      let E := fresh "E" in destruct x eqn:E
  | H : context [match ?x with _ => _ end] |- _ =>
      let E := fresh "E" in destruct x eqn:E
  end.

(** Boolean comparisons on [Z] and [nat] to propositions. *)
Ltac breflect :=
  repeat match goal with
  | H : (_ && _)%bool = true |- _ => apply andb_true_iff in H; destruct H
  | H : (_ || _)%bool = false |- _ => apply orb_false_iff in H; destruct H
  | H : negb _ = true |- _ => apply negb_true_iff in H
  | H : negb _ = false |- _ => apply negb_false_iff in H
  | H : (_ =? _)%Z = true |- _ => apply Z.eqb_eq in H
  | H : (_ =? _)%Z = false |- _ => apply Z.eqb_neq in H
  | H : (_ <=? _)%Z = true |- _ => apply Z.leb_le in H
  | H : (_ <=? _)%Z = false |- _ => apply Z.leb_gt in H
  | H : (_ <? _)%Z = true |- _ => apply Z.ltb_lt in H
  | H : (_ <? _)%Z = false |- _ => apply Z.ltb_ge in H
  | H : (_ =? _)%string = true |- _ => apply String.eqb_eq in H
  | H : (_ =? _)%string = false |- _ => apply String.eqb_neq in H
  end.

(** ** Lists *)

(** [Vec::retain] and [Iterator::filter] with a boolean predicate. *)
Abbreviation retain := List.filter.

Lemma retain_In {A} (f : A -> bool) (l : list A) x :
  In x (retain f l) <-> In x l /\ f x = true.
Proof. apply filter_In. Qed.

Lemma retain_sublist {A} (f : A -> bool) (l : list A) : sublist (retain f l) l.
Proof. induction l as [|x l IH]; simpl; [constructor|]. destruct (f x); constructor; done. Qed.

Lemma sublist_In {A} (l k : list A) x : sublist l k -> In x l -> In x k.
Proof. induction 1; simpl; intuition. Qed.

Lemma sublist_StronglySorted {A} (R : A -> A -> Prop) (l k : list A) :
  sublist l k -> StronglySorted R k -> StronglySorted R l.
Proof.
  induction 1 as [|x l k Hs IH|x l k Hs IH]; intros HS; [constructor| |].
  - inversion HS as [|? ? HS' HF]; subst. constructor; [auto|].
    rewrite List.Forall_forall in HF |- *. intros y Hy. apply HF. eapply sublist_In; eauto.
  - inversion HS; subst; auto.
Qed.

Lemma NoDup_snoc {A} (l : list A) x : List.NoDup l -> ~ In x l -> List.NoDup (l ++ [x]).
Proof.
  intros Hl Hx. apply List.NoDup_app; [done|repeat constructor; simpl; tauto|].
  intros y Hy [<-|[]]. done.
Qed.

Lemma existsb_false {A} (f : A -> bool) (l : list A) x :
  existsb f l = false -> In x l -> f x = false.
Proof.
  intros Hf Hx. destruct (f x) eqn:E; [|done].
  rewrite <- Hf. symmetry. apply existsb_exists. eauto.
Qed.

Lemma NoDup_map_filter {A B} (g : A -> B) (f : A -> bool) (l : list A) :
  List.NoDup (map g l) -> List.NoDup (map g (List.filter f l)).
Proof.
  induction l as [|x l IH]; simpl; [done|]. inversion 1 as [|? ? Hx Hl]; subst.
  destruct (f x); [|auto]. simpl. constructor; [|auto].
  rewrite in_map_iff in *. intros (y & Hy & Hin). apply filter_In in Hin as [? _]. eauto.
Qed.

Lemma existsb_find_some {A} (f : A -> bool) (l : list A) :
  existsb f l = true -> exists x, List.find f l = Some x.
Proof.
  induction l as [|a l IH]; simpl; [discriminate|].
  destruct (f a); [eauto|]. exact IH.
Qed.

(** The reflexive and transitive closure of a step relation. *)
Inductive star {S : Type} (R : S -> S -> Prop) : S -> S -> Prop :=
| star_nil s : star R s s
| star_cons s1 s2 s3 : R s1 s2 -> star R s2 s3 -> star R s1 s3.

Lemma star_snoc {S} (R : S -> S -> Prop) s1 s2 s3 : star R s1 s2 -> R s2 s3 -> star R s1 s3.
Proof. induction 1; intros; [eapply star_cons; [eauto|constructor]|eapply star_cons; eauto]. Qed.

Lemma star_app {S} (R : S -> S -> Prop) s1 s2 s3 : star R s1 s2 -> star R s2 s3 -> star R s1 s3.
Proof. induction 1; intros; [done|]. eapply star_cons; eauto. Qed.

(** An invariant of the steps holds in every state the closure reaches. *)
Lemma star_invariant {S} (R : S -> S -> Prop) (I : S -> Prop) :
  (forall s s', I s -> R s s' -> I s') -> forall s s', star R s s' -> I s -> I s'.
Proof. intros Hstep s s'. induction 1; eauto. Qed.

(** ** [slice::sort_by_key]

    A stable sort by an integer key: insertion from the right, before the first element
    whose key is not smaller. *)

Section SortByKey.
Context {A : Type} (key : A -> Z).

Fixpoint insert_by_key (x : A) (l : list A) : list A :=
  match l with
  | [] => [x]
  | y :: l' => if (key x <=? key y)%Z then x :: y :: l' else y :: insert_by_key x l'
  end.

Definition sort_by_key (l : list A) : list A := fold_right insert_by_key [] l.

Definition key_le (x y : A) : Prop := (key x <= key y)%Z.

Lemma insert_by_key_perm x l : Permutation (x :: l) (insert_by_key x l).
Proof.
  induction l as [|y l IH]; simpl; [done|]. destruct (key x <=? key y)%Z; [done|].
  rewrite perm_swap. by constructor.
Qed.

Lemma sort_by_key_perm l : Permutation l (sort_by_key l).
Proof.
  induction l as [|x l IH]; simpl; [done|]. etransitivity; [|apply insert_by_key_perm].
  by constructor.
Qed.

Lemma sort_by_key_In l x : In x (sort_by_key l) <-> In x l.
Proof.
  split; apply Permutation_in; [symmetry|]; apply sort_by_key_perm.
Qed.

Lemma insert_by_key_sorted x l :
  StronglySorted key_le l -> StronglySorted key_le (insert_by_key x l).
Proof.
  induction 1 as [|y l Hs IH Hall]; simpl; [repeat constructor|].
  destruct (Z.leb_spec (key x) (key y)).
  - constructor; [by constructor|]. constructor; [done|].
    eapply List.Forall_impl; [|exact Hall]. unfold key_le. intros; lia.
  - constructor; [done|]. rewrite List.Forall_forall in Hall |- *. intros z Hz.
    apply (Permutation_in z (Permutation_sym (insert_by_key_perm x l))) in Hz.
    destruct Hz as [<-|Hz]; [unfold key_le; lia|auto].
Qed.

Lemma sort_by_key_sorted l : StronglySorted key_le (sort_by_key l).
Proof. induction l; simpl; [constructor|]. by apply insert_by_key_sorted. Qed.

(** Stability: elements of one key keep their order. *)
Lemma insert_by_key_stable k x l :
  List.filter (fun y => key y =? k)%Z (insert_by_key x l)
  = List.filter (fun y => key y =? k)%Z (x :: l).
Proof.
  induction l as [|y l IH]; [reflexivity|]. cbn [insert_by_key].
  destruct (Z.leb_spec (key x) (key y)); [reflexivity|]. cbn [List.filter] in IH |- *.
  rewrite IH. destruct (Z.eqb_spec (key x) k), (Z.eqb_spec (key y) k); try reflexivity; lia.
Qed.

Lemma sort_by_key_stable k l :
  List.filter (fun y => key y =? k)%Z (sort_by_key l) = List.filter (fun y => key y =? k)%Z l.
Proof.
  induction l as [|x l IH]; [reflexivity|]. cbn [sort_by_key fold_right].
  rewrite insert_by_key_stable. cbn [List.filter]. unfold sort_by_key in IH. by rewrite IH.
Qed.

End SortByKey.

(** ** First occurrences

    [HashSet::insert] returns whether the value is new: filtering with it keeps the first
    element of each name. *)

#[export] Instance List_In_dec {A} `{EqDecision A} (x : A) (l : list A) : Decision (In x l) :=
  List.in_dec (fun a b => decide (a = b)) x l.

Section FirstBy.
Context {A K : Type} `{EqDecision K} (key : A -> K).

Fixpoint first_by (seen : list K) (l : list A) : list A :=
  match l with
  | [] => []
  | x :: l' => if bool_decide (In (key x) seen) then first_by seen l'
               else x :: first_by (key x :: seen) l'
  end.

Lemma first_by_sublist seen l : sublist (first_by seen l) l.
Proof.
  revert seen. induction l as [|x l IH]; intros seen; simpl; [constructor|].
  case_bool_decide; by constructor.
Qed.

Lemma first_by_not_seen seen l x : In x (first_by seen l) -> ~ In (key x) seen.
Proof.
  revert seen. induction l as [|y l IH]; intros seen; simpl; [done|].
  case_bool_decide as Hy; [apply IH|]. intros [<-|Hin]; [done|].
  apply IH in Hin. simpl in Hin. tauto.
Qed.

Lemma first_by_NoDup seen l : List.NoDup (map key (first_by seen l)).
Proof.
  revert seen. induction l as [|x l IH]; intros seen; simpl; [constructor|].
  case_bool_decide as Hx; [apply IH|]. simpl. constructor; [|apply IH].
  intros Hin. apply in_map_iff in Hin as (y & Hy & Hin). apply first_by_not_seen in Hin.
  simpl in Hin. rewrite Hy in Hin. tauto.
Qed.

Lemma first_by_snoc seen l x :
  first_by seen (l ++ [x])
  = first_by seen l ++ (if bool_decide (In (key x) seen \/ In (key x) (map key l)) then [] else [x]).
Proof.
  revert seen. induction l as [|y l IH]; intros seen; simpl.
  - destruct (bool_decide (In (key x) seen)) eqn:E.
    + apply bool_decide_eq_true_1 in E. rewrite bool_decide_eq_true_2 by auto. done.
    + apply bool_decide_eq_false_1 in E. rewrite bool_decide_eq_false_2 by tauto. done.
  - destruct (bool_decide (In (key y) seen)) eqn:E; rewrite IH.
    + apply bool_decide_eq_true_1 in E. f_equal.
      erewrite bool_decide_ext; [reflexivity|]. split; [tauto|]. intros [?|[He|?]]; [tauto| |tauto].
      left. by rewrite <- He.
    + simpl. f_equal. f_equal. erewrite bool_decide_ext; [reflexivity|]. simpl. tauto.
Qed.

Lemma first_by_keys seen l k :
  In k (map key (first_by seen l)) <-> In k (map key l) /\ ~ In k seen.
Proof.
  revert seen. induction l as [|x l IH]; intros seen; simpl; [tauto|].
  destruct (bool_decide (In (key x) seen)) eqn:E.
  - apply bool_decide_eq_true_1 in E. rewrite IH. split; [tauto|].
    intros [[<-|?] ?]; [done|tauto].
  - apply bool_decide_eq_false_1 in E. simpl. rewrite IH. simpl. split.
    + intros [<-|?]; tauto.
    + intros [[?|?] ?]; [by left|]. destruct (decide (key x = k)); tauto.
Qed.

(** Each element is represented by the first element of its name, which is not after it. *)
Lemma first_by_represents R `{!Reflexive R} seen l x :
  StronglySorted R l -> In x l -> ~ In (key x) seen ->
  exists y, In y (first_by seen l) /\ key y = key x /\ R y x.
Proof.
  intros Hs. revert seen. induction Hs as [|z l Hs IH Hall]; intros seen Hin Hns; [done|].
  simpl in *. case_bool_decide as Hz.
  - destruct Hin as [->|Hin]; [done|]. auto.
  - destruct (decide (key z = key x)) as [Hk|Hk].
    + exists z. split_and!; [by left|done|]. destruct Hin as [->|Hin]; [reflexivity|].
      rewrite List.Forall_forall in Hall. auto.
    + destruct Hin as [->|Hin]; [done|].
      destruct (IH (key z :: seen)) as (y & ? & ? & ?); [done|simpl; tauto|].
      exists y. split_and!; [by right|done..].
Qed.

End FirstBy.
