(* ===== verification/Machine.v ===== *)
(** * Machine integers and binary64 floats

    The integer widths of the program ([u16], [u32], [u64], [i64]) are [Z] with the
    wrap-around written out: [+] and [*] wrap (the release profile of [Cargo.toml] does
    not turn overflow checks on), [as] casts truncate.  [f64] is the binary64 instance of
    [SpecFloat], which is executable and bit exact; casts between [f64] and integers and
    the [{:.k}] formatting of [core::fmt] are written out on it. *)

From S2P Require Import Prelude.
From Stdlib Require Export Floats.SpecFloat.
Open Scope Z_scope.



(** ** Integers *)

Definition U16_MAX : Z := 2 ^ 16 - 1.
Definition U32_MAX : Z := 2 ^ 32 - 1.
Definition U64_MAX : Z := 2 ^ 64 - 1.

Definition in_u16 (z : Z) : Prop := 0 <= z <= U16_MAX.
Definition in_u32 (z : Z) : Prop := 0 <= z <= U32_MAX.
Definition in_u64 (z : Z) : Prop := 0 <= z <= U64_MAX.

Definition as_u32 (z : Z) : Z := z mod 2 ^ 32.
Definition as_u64 (z : Z) : Z := z mod 2 ^ 64.
(** Two's complement: [z as i64]. *)
Definition as_i64 (z : Z) : Z := (z + 2 ^ 63) mod 2 ^ 64 - 2 ^ 63.

Definition u32_add (a b : Z) : Z := as_u32 (a + b).
Definition u32_sub (a b : Z) : Z := as_u32 (a - b).
Definition u32_mul (a b : Z) : Z := as_u32 (a * b).
Definition u64_add (a b : Z) : Z := as_u64 (a + b).
Definition u64_mul (a b : Z) : Z := as_u64 (a * b).

Lemma as_u32_id z : in_u32 z -> as_u32 z = z.
Proof. unfold in_u32, U32_MAX, as_u32. intros. apply Z.mod_small. lia. Qed.

Lemma as_u64_id z : in_u64 z -> as_u64 z = z.
Proof. unfold in_u64, U64_MAX, as_u64. intros. apply Z.mod_small. lia. Qed.

Lemma as_u32_range z : in_u32 (as_u32 z).
Proof. unfold in_u32, U32_MAX, as_u32. pose proof (Z.mod_pos_bound z (2 ^ 32)). lia. Qed.

Lemma as_u64_range z : in_u64 (as_u64 z).
Proof. unfold in_u64, U64_MAX, as_u64. pose proof (Z.mod_pos_bound z (2 ^ 64)). lia. Qed.

(** Storing a [u64] as [i64] and reading it back is lossless. *)
Definition in_i64 (z : Z) : Prop := - 2 ^ 63 <= z < 2 ^ 63.

Lemma as_i64_range z : in_i64 (as_i64 z).
Proof. unfold in_i64, as_i64. pose proof (Z.mod_pos_bound (z + 2 ^ 63) (2 ^ 64)). lia. Qed.

Lemma as_i64_u64 z : in_u64 z -> as_u64 (as_i64 z) = z.
Proof.
  unfold in_u64, U64_MAX, as_u64, as_i64. intros H.
  destruct (Z_lt_le_dec z (2 ^ 63)).
  - rewrite (Z.mod_small (z + 2 ^ 63)) by lia.
    replace (z + 2 ^ 63 - 2 ^ 63) with z by lia. apply Z.mod_small. lia.
  - replace (z + 2 ^ 63) with ((z - 2 ^ 63) + 1 * 2 ^ 64) by lia.
    rewrite Z_mod_plus_full, (Z.mod_small (z - 2 ^ 63)) by lia.
    replace (z - 2 ^ 63 - 2 ^ 63) with (z + (-1) * 2 ^ 64) by lia.
    rewrite Z_mod_plus_full. apply Z.mod_small. lia.
Qed.

#[export] Hint Resolve as_u32_id as_u64_id as_u32_range as_u64_range : arb.

(** ** Floats *)

Definition f64 : Type := spec_float.

Definition f64_add : f64 -> f64 -> f64 := SFadd 53 1024.
Definition f64_sub : f64 -> f64 -> f64 := SFsub 53 1024.
Definition f64_mul : f64 -> f64 -> f64 := SFmul 53 1024.
Definition f64_div : f64 -> f64 -> f64 := SFdiv 53 1024.
Definition f64_opp : f64 -> f64 := SFopp.
Definition f64_eqb : f64 -> f64 -> bool := SFeqb.
Definition f64_ltb : f64 -> f64 -> bool := SFltb.
Definition f64_leb : f64 -> f64 -> bool := SFleb.
(** [a > b] is [b < a]. *)
Definition f64_gtb (a b : f64) : bool := f64_ltb b a.

Definition f64_is_nan (x : f64) : bool := match x with S754_nan => true | _ => false end.
Definition f64_is_finite (x : f64) : bool :=
  match x with S754_nan | S754_infinity _ => false | _ => true end.

(** [n as f64] of an integer: round to nearest even. *)
Definition f64_of_Z (n : Z) : f64 := binary_normalize 53 1024 n 0 false.

Definition f64_zero : f64 := S754_zero false.
Definition f64_one : f64 := f64_of_Z 1.

(** A decimal literal [n / d], with [n] and [d] exact: the nearest double. *)
Definition f64_lit (n d : Z) : f64 := f64_div (f64_of_Z n) (f64_of_Z d).

(** [f64::min]: the other operand when one is NaN. *)
Definition f64_min (a b : f64) : f64 :=
  if f64_is_nan a then b else if f64_is_nan b then a else if f64_ltb b a then b else a.

(** [f64::clamp] (for [lo <= hi]): NaN stays NaN. *)
Definition f64_clamp (x lo hi : f64) : f64 :=
  let x := if f64_ltb x lo then lo else x in
  if f64_gtb x hi then hi else x.

(** The integer part of a finite float's magnitude. *)
Definition mantissa_trunc (m : positive) (e : Z) : Z := Z.shiftl (Zpos m) e.

(** [x as u64]: truncate toward zero, saturate, NaN to 0. *)
Definition f64_to_u64 (x : f64) : Z :=
  match x with
  | S754_nan | S754_zero _ | S754_infinity true => 0
  | S754_infinity false => U64_MAX
  | S754_finite true _ _ => 0
  | S754_finite false m e => Z.min (mantissa_trunc m e) U64_MAX
  end.

Lemma f64_to_u64_range x : in_u64 (f64_to_u64 x).
Proof.
  unfold in_u64, f64_to_u64, mantissa_trunc.
  destruct x as [s|[]| |[] m e]; unfold U64_MAX; try lia.
  pose proof (proj2 (Z.shiftl_nonneg (Zpos m) e)). lia.
Qed.

(** [x as i64]: likewise. *)
Definition f64_to_i64 (x : f64) : Z :=
  match x with
  | S754_nan | S754_zero _ => 0
  | S754_infinity s => if s then - 2 ^ 63 else 2 ^ 63 - 1
  | S754_finite true m e => Z.max (- mantissa_trunc m e) (- 2 ^ 63)
  | S754_finite false m e => Z.min (mantissa_trunc m e) (2 ^ 63 - 1)
  end.

(** [a.div_ceil(b)] on [u32], for [b > 0]. *)
Definition div_ceil (a b : Z) : Z := if (a mod b =? 0)%Z then a / b else a / b + 1.

Lemma div_ceil_spec a b : 0 <= a -> 0 < b -> a <= div_ceil a b * b /\ (div_ceil a b - 1) * b < a \/ a = 0.
Proof.
  intros Ha Hb. unfold div_ceil. pose proof (Z.div_mod a b ltac:(lia)) as Hdm.
  pose proof (Z.mod_pos_bound a b Hb). destruct (Z.eqb_spec (a mod b) 0); nia.
Qed.

Definition pretty_Z (z : Z) : string := pretty z.

(** Round [n / d] to the nearest integer, ties to even. *)
Definition round_half_even (n d : Z) : Z :=
  let q := n / d in
  let r := n mod d in
  if 2 * r <? d then q else if d <? 2 * r then q + 1
  else if Z.even q then q else q + 1.

(** Left-pad with zeros to [k] characters. *)
Definition pad_left (k : nat) (s : string) : string :=
  Nat.iter (k - String.length s) (String "0"%char) s.

(** [format!("{:.k}", x)]: the exact decimal value, rounded half to even. *)
Definition fmt_fixed (k : nat) (x : f64) : string :=
  match x with
  | S754_nan => "NaN"
  | S754_infinity s => if s then "-inf" else "inf"
  | S754_zero s =>
      ((if s then "-" else "") +:+ "0" +:+ (if k is O then "" else "." +:+ pad_left k ""))%string
  | S754_finite s m e =>
      let scale := 10 ^ Z.of_nat k in
      let n := if 0 <=? e then Zpos m * 2 ^ e * scale
               else round_half_even (Zpos m * scale) (2 ^ (- e)) in
      ((if s then "-" else "") +:+ pretty_Z (n / scale) +:+
       (if k is O then "" else "." +:+ pad_left k (pretty_Z (n mod scale))))%string
  end.

Example fmt_fixed_42_35 : fmt_fixed 2 (f64_lit 4235 100) = "42.35"%string.
Proof. vm_compute. reflexivity. Qed.
Example fmt_fixed_0_10 : fmt_fixed 2 (f64_lit 1 10) = "0.10"%string.
Proof. vm_compute. reflexivity. Qed.

(** *** The order of floats *)

Lemma f64_ltb_nan_l y : f64_ltb S754_nan y = false.
Proof. reflexivity. Qed.

Lemma f64_ltb_nan_r x : f64_ltb x S754_nan = false.
Proof. destruct x as [[]|[]| |[]]; reflexivity. Qed.

Lemma f64_ltb_irrefl x : f64_ltb x x = false.
Proof.
  destruct x as [[]|[]| |[] m e]; try reflexivity; unfold f64_ltb, SFltb; simpl;
    rewrite Z.compare_refl; change (Pos.compare_cont Eq m m) with (m ?= m)%positive;
    rewrite Pos.compare_refl; reflexivity.
Qed.

(** A finite float as a lexicographic key: sign, exponent, mantissa. *)
Ltac cmp_cases :=
  repeat match goal with
  | |- context [(?a ?= ?b)%Z] => destruct (Z.compare_spec a b); subst; simpl
  | H : context [(?a ?= ?b)%Z] |- _ => destruct (Z.compare_spec a b); subst; simpl in H
  | |- context [Pos.compare_cont Eq ?a ?b] =>
      change (Pos.compare_cont Eq a b) with (a ?= b)%positive;
      destruct (Pos.compare_spec a b); subst; simpl
  | H : context [Pos.compare_cont Eq ?a ?b] |- _ =>
      change (Pos.compare_cont Eq a b) with (a ?= b)%positive in H;
      destruct (Pos.compare_spec a b); subst; simpl in H
  end; try done; try lia.

Lemma f64_ltb_trans x y z : f64_ltb x y = true -> f64_ltb y z = true -> f64_ltb x z = true.
Proof.
  destruct x as [[]|[]| |[] mx ex], y as [[]|[]| |[] my ey], z as [[]|[]| |[] mz ez];
    unfold f64_ltb, SFltb; simpl; intros H1 H2; try done; cmp_cases.
Qed.

Lemma f64_leb_ltb_trans x y z : f64_leb x y = true -> f64_ltb y z = true -> f64_ltb x z = true.
Proof.
  destruct x as [[]|[]| |[] mx ex], y as [[]|[]| |[] my ey], z as [[]|[]| |[] mz ez];
    unfold f64_ltb, f64_leb, SFltb, SFleb; simpl; intros H1 H2; try done; cmp_cases.
Qed.

Lemma f64_ltb_leb_trans x y z : f64_ltb x y = true -> f64_leb y z = true -> f64_ltb x z = true.
Proof.
  destruct x as [[]|[]| |[] mx ex], y as [[]|[]| |[] my ey], z as [[]|[]| |[] mz ez];
    unfold f64_ltb, f64_leb, SFltb, SFleb; simpl; intros H1 H2; try done; cmp_cases.
Qed.

Lemma f64_leb_trans x y z : f64_leb x y = true -> f64_leb y z = true -> f64_leb x z = true.
Proof.
  destruct x as [[]|[]| |[] mx ex], y as [[]|[]| |[] my ey], z as [[]|[]| |[] mz ez];
    unfold f64_leb, SFleb; simpl; intros H1 H2; try done; cmp_cases.
Qed.

(** Total, but for NaN. *)
Lemma f64_leb_total x y : f64_is_nan x = false -> f64_is_nan y = false -> f64_leb x y = true \/ f64_leb y x = true.
Proof.
  destruct x as [[]|[]| |[] mx ex], y as [[]|[]| |[] my ey];
    unfold f64_leb, SFleb; simpl; intros Hx Hy; try done; auto; cmp_cases; auto.
Qed.

Lemma f64_ltb_false_leb x y :
  f64_is_nan x = false -> f64_is_nan y = false -> f64_ltb x y = false -> f64_leb y x = true.
Proof.
  destruct x as [[]|[]| |[] mx ex], y as [[]|[]| |[] my ey];
    unfold f64_ltb, f64_leb, SFltb, SFleb; simpl; intros Hx Hy H; try done; cmp_cases.
Qed.

(** [clamp] lands in its bounds, or is NaN when its argument is. *)
Lemma f64_clamp_bounds x lo hi :
  f64_is_nan lo = false -> f64_is_nan hi = false -> f64_leb lo hi = true ->
  f64_is_nan x = false ->
  f64_leb lo (f64_clamp x lo hi) = true /\ f64_leb (f64_clamp x lo hi) hi = true.
Proof.
  intros Hlo Hhi Hle Hx. unfold f64_clamp, f64_gtb.
  assert (Href : forall y, f64_is_nan y = false -> f64_leb y y = true).
  { intros y Hy. apply f64_ltb_false_leb; auto using f64_ltb_irrefl. }
  destruct (f64_ltb x lo) eqn:E1; destruct (f64_ltb hi _) eqn:E2; split; auto;
    try (apply f64_ltb_false_leb; assumption).
Qed.

Lemma f64_clamp_nan lo hi : f64_clamp S754_nan lo hi = S754_nan.
Proof. unfold f64_clamp, f64_gtb. rewrite f64_ltb_nan_l, f64_ltb_nan_r. reflexivity. Qed.
