(* ===== verification/RustStr.v ===== *)
(** * Rust strings

    [&str], [String] and byte slices as Rocq [string]s of UTF-8 bytes, with the operations
    of [core::str] and [alloc::string] that the program calls, with their byte semantics.
    Unicode case mapping is table driven in the Rust library; it is the interface
    [UnicodeCase], of which the program's theorems use only the behaviour on ASCII. *)

From S2P Require Import Prelude.

#[global] Arguments String.append : simpl nomatch.

(** [s.len()]: bytes, not characters. *)
Definition str_len (s : string) : Z := Z.of_nat (String.length s).

Definition str_is_empty (s : string) : bool := match s with "" => true | _ => false end.

(** [s.starts_with(p)]. *)
Fixpoint str_starts_with (p s : string) : bool :=
  match p, s with
  | EmptyString, _ => true
  | String a p', String b s' => Ascii.eqb a b && str_starts_with p' s'
  | String _ _, EmptyString => false
  end.

Fixpoint str_drop (n : nat) (s : string) : string :=
  match n, s with
  | O, _ => s
  | S n', String _ s' => str_drop n' s'
  | S _, EmptyString => EmptyString
  end.

Fixpoint str_take (n : nat) (s : string) : string :=
  match n, s with
  | O, _ => EmptyString
  | S n', String c s' => String c (str_take n' s')
  | S _, EmptyString => EmptyString
  end.

(** [s.strip_prefix(p)]. *)
Definition str_strip_prefix (p s : string) : option string :=
  if str_starts_with p s then Some (str_drop (String.length p) s) else None.

(** [s.find(p)]: the byte index of the first occurrence. *)
Fixpoint str_find (p s : string) : option nat :=
  if str_starts_with p s then Some O
  else match s with
       | EmptyString => None
       | String _ s' => match str_find p s' with Some i => Some (S i) | None => None end
       end.

(** [s.contains(p)]. *)
Definition str_contains (s p : string) : bool :=
  match str_find p s with Some _ => true | None => false end.

(** [s.trim_end_matches(c)]. *)
Fixpoint str_trim_end_char (c : ascii) (s : string) : string :=
  match s with
  | EmptyString => EmptyString
  | String a s' =>
      match str_trim_end_char c s' with
      | EmptyString => if Ascii.eqb a c then EmptyString else String a EmptyString
      | t => String a t
      end
  end.

(** [parts.join(sep)]. *)
Definition str_join (sep : string) (parts : list string) : string :=
  String.concat sep parts.

Fixpoint str_map (f : ascii -> ascii) (s : string) : string :=
  match s with EmptyString => EmptyString | String c s' => String (f c) (str_map f s') end.

(** ** ASCII case *)

Definition is_ascii_upper (c : ascii) : bool :=
  let n := nat_of_ascii c in (65 <=? n)%nat && (n <=? 90)%nat.
Definition is_ascii_lower (c : ascii) : bool :=
  let n := nat_of_ascii c in (97 <=? n)%nat && (n <=? 122)%nat.
Definition ascii_lower (c : ascii) : ascii :=
  if is_ascii_upper c then ascii_of_nat (nat_of_ascii c + 32) else c.
Definition ascii_upper (c : ascii) : ascii :=
  if is_ascii_lower c then ascii_of_nat (nat_of_ascii c - 32) else c.

Definition is_ascii (c : ascii) : bool := (nat_of_ascii c <? 128)%nat.

Fixpoint str_is_ascii (s : string) : bool :=
  match s with EmptyString => true | String c s' => is_ascii c && str_is_ascii s' end.

(** [a.eq_ignore_ascii_case(b)]; also SQLite's [LOWER(a) = LOWER(b)], which folds ASCII only. *)
Definition str_eq_ignore_ascii_case (a b : string) : bool :=
  String.eqb (str_map ascii_lower a) (str_map ascii_lower b).

(** [str::to_lowercase] and [str::to_uppercase]: on ASCII text they are the ASCII maps. *)
Class UnicodeCase := {
  to_lowercase : string -> string;
  to_uppercase : string -> string;
  to_lowercase_ascii : forall s, str_is_ascii s = true -> to_lowercase s = str_map ascii_lower s;
  to_uppercase_ascii : forall s, str_is_ascii s = true -> to_uppercase s = str_map ascii_upper s;
}.

(** The ASCII-only instance, for evaluating the definitions on concrete input. *)
Definition AsciiCase : UnicodeCase := {|
  to_lowercase := str_map ascii_lower;
  to_uppercase := str_map ascii_upper;
  to_lowercase_ascii := fun _ _ => eq_refl;
  to_uppercase_ascii := fun _ _ => eq_refl;
|}.

(** ** UTF-8 *)

Definition byte_nat (c : ascii) : nat := nat_of_ascii c.
Definition in_range (lo hi : nat) (c : ascii) : bool :=
  (lo <=? byte_nat c)%nat && (byte_nat c <=? hi)%nat.
Definition is_cont (c : ascii) : bool := in_range 128 191 c.

(** [s.is_char_boundary(i)]. *)
Definition is_char_boundary (i : nat) (s : string) : bool :=
  match i with
  | O => true
  | _ => match String.get i s with
         | Some c => negb (is_cont c)
         | None => (i =? String.length s)%nat
         end
  end.

(** [&s[..i]]: [None] is the panic of a slice that is out of range or off a boundary. *)
Definition str_slice_to (i : nat) (s : string) : option string :=
  if is_char_boundary i s then Some (str_take i s) else None.

(** [std::str::from_utf8(bytes).is_ok()], by the table of well-formed sequences. *)
Fixpoint valid_utf8 (bs : list ascii) : bool :=
  match bs with
  | [] => true
  | b :: bs1 =>
    if in_range 0 127 b then valid_utf8 bs1 else
    match bs1 with
    | [] => false
    | c1 :: bs2 =>
      if in_range 194 223 b then is_cont c1 && valid_utf8 bs2 else
      match bs2 with
      | [] => false
      | c2 :: bs3 =>
        if in_range 224 239 b then
          (if (byte_nat b =? 224)%nat then in_range 160 191 c1
           else if (byte_nat b =? 237)%nat then in_range 128 159 c1 else is_cont c1)
          && is_cont c2 && valid_utf8 bs3
        else
        match bs3 with
        | [] => false
        | c3 :: bs4 =>
          in_range 240 244 b &&
          (if (byte_nat b =? 240)%nat then in_range 144 191 c1
           else if (byte_nat b =? 244)%nat then in_range 128 143 c1 else is_cont c1)
          && is_cont c2 && is_cont c3 && valid_utf8 bs4
        end
      end
    end
  end.

(** [std::str::from_utf8(bytes).ok()]. *)
Definition from_utf8 (bs : list ascii) : option string :=
  if valid_utf8 bs then Some (String.string_of_list_ascii bs) else None.

(** The UTF-8 encodings of the characters with the White_Space property. *)
Definition bytes_str (l : list nat) : string := String.string_of_list_ascii (map ascii_of_nat l).

Definition whitespace_encodings : list string :=
  map bytes_str
    ([[9]; [10]; [11]; [12]; [13]; [32]; [194; 133]; [194; 160]; [225; 154; 128]]
     ++ map (fun n => [226; 128; n]) (seq 128 11)
     ++ [[226; 128; 168]; [226; 128; 169]; [226; 128; 175]; [226; 129; 159]; [227; 128; 128]])%nat%list.

Definition strip_one_ws (s : string) : option string :=
  fold_right (fun w acc => match str_strip_prefix w s with Some t => Some t | None => acc end)
    None whitespace_encodings.

Fixpoint trim_start_fuel (fuel : nat) (s : string) : string :=
  match fuel with
  | O => s
  | S f => match strip_one_ws s with Some t => trim_start_fuel f t | None => s end
  end.

(** [s.trim_start()]: every removal shortens the string, so its length is fuel enough. *)
Definition str_trim_start (s : string) : string := trim_start_fuel (String.length s) s.

Definition str_rev (s : string) : string := String.string_of_list_ascii (rev (String.list_ascii_of_string s)).

Definition strip_one_ws_end (s : string) : option string :=
  fold_right (fun w acc => match str_strip_prefix (str_rev w) s with
                           | Some t => Some t | None => acc end)
    None whitespace_encodings.

Fixpoint trim_end_fuel (fuel : nat) (r : string) : string :=
  match fuel with
  | O => r
  | S f => match strip_one_ws_end r with Some t => trim_end_fuel f t | None => r end
  end.

Definition str_trim_end (s : string) : string :=
  str_rev (trim_end_fuel (String.length s) (str_rev s)).

Definition str_trim (s : string) : string := str_trim_end (str_trim_start s).

Example trim_ex : str_trim (bytes_str [32; 194; 160; 91; 93; 226; 128; 168; 13]%nat) = "[]".
Proof. vm_compute. reflexivity. Qed.

(** ** Lemmas *)

Lemma str_app_assoc (a b c : string) : (a +:+ b) +:+ c = a +:+ (b +:+ c).
Proof. induction a; simpl; congruence. Qed.

Lemma str_app_nil_r (a : string) : a +:+ "" = a.
Proof. induction a; simpl; congruence. Qed.

Lemma str_length_app (a b : string) :
  String.length (a +:+ b) = (String.length a + String.length b)%nat.
Proof. induction a; simpl; congruence. Qed.

Lemma str_drop_app (a b : string) : str_drop (String.length a) (a +:+ b) = b.
Proof. induction a; simpl; auto. Qed.

Lemma str_take_app (a b : string) : str_take (String.length a) (a +:+ b) = a.
Proof. induction a; simpl; congruence. Qed.

Lemma str_take_drop n s : str_take n s +:+ str_drop n s = s.
Proof. revert s; induction n; intros [|c s]; simpl; try reflexivity. f_equal. apply IHn. Qed.

Lemma str_starts_with_app (p s : string) : str_starts_with p (p +:+ s) = true.
Proof. induction p; simpl; [reflexivity|]. rewrite Ascii.eqb_refl. exact IHp. Qed.

Lemma str_starts_with_inv (p s : string) :
  str_starts_with p s = true -> s = p +:+ str_drop (String.length p) s.
Proof.
  revert s. induction p as [|a p IH]; intros [|b s]; simpl; try done.
  intros H. apply andb_true_iff in H as [->%Ascii.eqb_eq H]. f_equal. auto.
Qed.

Lemma str_strip_prefix_Some (p s t : string) : str_strip_prefix p s = Some t <-> s = p +:+ t.
Proof.
  unfold str_strip_prefix. split.
  - destruct (str_starts_with p s) eqn:E; [|done]. intros [= <-]. by apply str_starts_with_inv.
  - intros ->. by rewrite str_starts_with_app, str_drop_app.
Qed.

Lemma str_find_Some p s i :
  str_find p s = Some i -> s = str_take i s +:+ p +:+ str_drop (String.length p) (str_drop i s).
Proof.
  revert i. induction s as [|c s IH]; intros i; cbn [str_find].
  - destruct (str_starts_with p "") eqn:E; [|discriminate]. intros [= <-].
    simpl. apply str_starts_with_inv in E. exact E.
  - destruct (str_starts_with p (String c s)) eqn:E.
    + intros [= <-]. simpl. apply str_starts_with_inv in E. exact E.
    + destruct (str_find p s) as [j|]; [|discriminate]. intros [= <-]. simpl. f_equal. auto.
Qed.

Lemma str_drop_length n s : String.length (str_drop n s) = (String.length s - n)%nat.
Proof. revert s. induction n; intros [|c s]; simpl; auto. Qed.

Lemma str_contains_take (p s : string) :
  str_contains s p = false -> str_find p s = None.
Proof. unfold str_contains. destruct (str_find p s); congruence. Qed.

(** A string that does not contain ["${"] and ends anywhere is searched through unchanged:
    the first ["${"] of [a ++ "${" ++ b] is right after [a]. *)
Lemma str_find_skip (a b : string) :
  str_contains a "${" = false -> str_find "${" (a +:+ "${" +:+ b) = Some (String.length a).
Proof.
  unfold str_contains.
  induction a as [|c a IH]; intros H; [reflexivity|].
  cbn [String.length]. change (String c a +:+ "${" +:+ b) with (String c (a +:+ "${" +:+ b)).
  cbn [str_find] in H |- *.
  assert (Hs : str_starts_with "${" (String c (a +:+ "${" +:+ b)) = false).
  { destruct (str_starts_with "${" (String c a)) eqn:E; [discriminate|].
    destruct a as [|d a]; cbn [str_starts_with String.append] in E |- *; [|exact E].
    destruct (Ascii.eqb "$" c); reflexivity. }
  rewrite Hs. destruct (str_starts_with "${" (String c a)); [discriminate|].
  destruct (str_find "${" a); [discriminate|]. rewrite IH by reflexivity. reflexivity.
Qed.

Lemma str_find_char_skip (x : ascii) (a b : string) :
  str_contains a (String x "") = false ->
  str_find (String x "") (a +:+ String x b) = Some (String.length a).
Proof.
  unfold str_contains. induction a as [|c a IH]; intros H.
  - cbn. rewrite Ascii.eqb_refl. reflexivity.
  - cbn [String.length]. change (String c a +:+ String x b) with (String c (a +:+ String x b)).
    cbn [str_find str_starts_with] in H |- *. rewrite andb_true_r in H |- *.
    destruct (Ascii.eqb x c); [discriminate|].
    destruct (str_find (String x "") a); [discriminate|]. rewrite IH by reflexivity. reflexivity.
Qed.

Lemma str_eq_ignore_ascii_case_refl s : str_eq_ignore_ascii_case s s = true.
Proof. apply String.eqb_refl. Qed.

Create Rewrite HintDb str.
#[export] Hint Rewrite str_app_assoc str_app_nil_r str_length_app str_drop_app : str.
