(* ===== verification/Timed.v ===== *)
(** * Timed computations

    The asynchronous functions of the program as programs over a shared state and a clock.
    A computation runs under an optional deadline, the instant its future is dropped
    ([tokio::time::timeout_at], or a server whose client goes away): an [await] that would end
    after it is cut there, what the state recorded before is kept, and the locals with a
    [Drop] are dropped.  A panic (an index out of range, [expect] on [None]) is an exit of its own, and
    so is a future that never completes. *)

From S2P Require Import Prelude.

Definition Instant : Type := Z.
Definition Duration : Type := Z.
(** Instants and durations are nanoseconds. *)
Definition secs (n : Z) : Duration := n * 1000000000.
Definition millis (n : Z) : Duration := n * 1000000.

Inductive exit (A : Type) : Type :=
| Done (a : A)
| Elapsed
| Panicked
| Hung.

Arguments Done {A} a.
Arguments Elapsed {A}.
Arguments Panicked {A}.
Arguments Hung {A}.

Definition Timed (S A : Type) : Type :=
  option Instant -> Instant * S -> exit A * (Instant * S).

Section Timed.
Context {S : Type}.
Implicit Types (st : Instant * S) (deadline : option Instant).

Definition t_ret {A} (a : A) : Timed S A := fun _ st => (Done a, st).

Definition t_bind {A B} (m : Timed S A) (k : A -> Timed S B) : Timed S B :=
  fun deadline st =>
    match m deadline st with
    | (Done a, st') => k a deadline st'
    | (Elapsed, st') => (Elapsed, st')
    | (Panicked, st') => (Panicked, st')
    | (Hung, st') => (Hung, st')
    end.

Definition t_panic {A} : Timed S A := fun _ st => (Panicked, st).
(** A future that never completes: only its deadline ends it. *)
Definition t_hang {A} : Timed S A :=
  fun deadline st =>
    match deadline with
    | Some dl => (Elapsed, (Z.max (fst st) dl, snd st))
    | None => (Hung, st)
    end.
Definition t_get : Timed S S := fun _ st => (Done (snd st), st).
Definition t_now : Timed S Instant := fun _ st => (Done (fst st), st).
Definition t_modify (f : S -> S) : Timed S unit := fun _ st => (Done tt, (fst st, f (snd st))).

(** Wait for something that takes [d].  [timeout_at] polls the future before the timer, so
    an await that ends exactly at the deadline still ends. *)
Definition t_await (d : Duration) : Timed S unit :=
  fun deadline st =>
    match deadline with
    | Some dl => if (fst st + d <=? dl)%Z then (Done tt, (fst st + d, snd st))
                 else (Elapsed, (Z.max (fst st) dl, snd st))
    | None => (Done tt, (fst st + d, snd st))
    end.

(** [timeout_at(deadline, future).await]: [None] is [Err(Elapsed)].  When the deadline of the
    caller comes first, the caller is cut. *)
Definition t_timeout_at {A} (dl : Instant) (m : Timed S A) : Timed S (option A) :=
  fun outer st =>
    let first : Instant := match outer with Some o => Z.min o dl | None => dl end in
    match m (Some first) st with
    | (Done a, st') => (Done (Some a), st')
    | (Elapsed, st') => (if (dl <=? first)%Z then Done None else Elapsed, st')
    | (Panicked, st') => (Panicked, st')
    | (Hung, st') => (Hung, st')
    end.

(** A local whose [Drop] acts on the shared state ([cleanup]) while [m] runs: it is dropped
    when the future is (its deadline) and by a panic; [m] hands it on when it ends. *)
Definition t_on_drop {A} (cleanup : Instant -> S -> S) (m : Timed S A) : Timed S A :=
  fun deadline st =>
    match m deadline st with
    | (Done a, st') => (Done a, st')
    | (Elapsed, (t, s)) => (Elapsed, (t, cleanup t s))
    | (Panicked, (t, s)) => (Panicked, (t, cleanup t s))
    | (Hung, st') => (Hung, st')
    end.

(** Runs [m] on a part of the state. *)
Definition t_zoom {S' A} (get : S -> S') (put : S -> S' -> S) (m : Timed S' A) : Timed S A :=
  fun deadline st =>
    match m deadline (fst st, get (snd st)) with
    | (r, (t, s')) => (r, (t, put (snd st) s'))
    end.

(** [v[i]] *)
Definition t_index {A} (l : list A) (i : nat) : Timed S A :=
  match l !! i with Some x => t_ret x | None => t_panic end.

End Timed.

Notation "'let!' x ':=' m 'in' k" := (t_bind m (fun x => k))
  (at level 10, x pattern, m at level 100, k at level 200,
   format "'[v' 'let!'  x  ':='  m  'in' '/' k ']'") : arb_scope.

Section Lemmas.
Context {S A B : Type}.

Lemma t_bind_done (m : Timed S A) (k : A -> Timed S B) dl st a st' :
  m dl st = (Done a, st') -> t_bind m k dl st = k a dl st'.
Proof. unfold t_bind. by intros ->. Qed.

Lemma t_bind_elapsed (m : Timed S A) (k : A -> Timed S B) dl st st' :
  m dl st = (Elapsed, st') -> t_bind m k dl st = (Elapsed, st').
Proof. unfold t_bind. by intros ->. Qed.

Lemma t_bind_ext (m : Timed S A) (k k' : A -> Timed S B) dl st :
  (forall a dl st, k a dl st = k' a dl st) -> t_bind m k dl st = t_bind m k' dl st.
Proof. intros Hk. unfold t_bind. destruct (m dl st) as [[a| | |] p]; auto. Qed.

(** What a timeout makes of the end of the program under it. *)
Definition timed_out {A} (p : exit A * (Instant * S)) : exit (option A) * (Instant * S) :=
  match p with
  | (Done a, st') => (Done (Some a), st')
  | (Elapsed, st') => (Done None, st')
  | (Panicked, st') => (Panicked, st')
  | (Hung, st') => (Hung, st')
  end.

(** A timeout that no other deadline precedes. *)
Lemma t_timeout_at_first (dl : Instant) (m : Timed S A) outer st :
  (forall o, outer = Some o -> dl <= o) -> t_timeout_at dl m outer st = timed_out (m (Some dl) st).
Proof.
  intros Ho. unfold t_timeout_at. cbv zeta.
  destruct outer as [o|]; [specialize (Ho o eq_refl); rewrite Z.min_r by lia|]; rewrite Z.leb_refl; unfold timed_out.
  all: destruct (m (Some dl) st) as [[a| | |] p]; reflexivity.
Qed.

(** A timeout after the caller's own deadline never fires. *)
Lemma t_timeout_at_later (dl o : Instant) (m : Timed S A) st :
  o < dl -> t_timeout_at dl m (Some o) st
  = t_bind m (fun a => t_ret (Some a)) (Some o) st.
Proof.
  intros Ho. unfold t_timeout_at, t_bind. cbv zeta. rewrite Z.min_l by lia.
  rewrite (proj2 (Z.leb_gt dl o)) by lia. by destruct (m (Some o) st) as [[a| | |] p].
Qed.

(** An await either ends in time or is cut at the deadline. *)
Lemma t_await_cases (d : Duration) (dl : Instant) (st : Instant * S) :
  fst st <= dl ->
  (fst st + d <= dl /\ t_await d (Some dl) st = (Done tt, (fst st + d, snd st))) \/
  (dl < fst st + d /\ t_await d (Some dl) st = (Elapsed, (dl, snd st))).
Proof.
  intros Hle. unfold t_await. destruct (Z.leb_spec (fst st + d) dl); [by left|].
  right. split; [lia|]. by rewrite Z.max_r by lia.
Qed.

End Lemmas.

(** ** Total computations

    [wpd deadline m st Q]: under the deadline, [m] ends from [st] with a value and a state
    that satisfy [Q]; it is not cut, neither panics nor runs forever.  [wp] is without a
    deadline. *)

Definition wpd {S A} (deadline : option Instant) (m : Timed S A) (st : Instant * S)
    (Q : A -> Instant * S -> Prop) : Prop :=
  exists a st', m deadline st = (Done a, st') /\ Q a st'.
Notation wp m st Q := (wpd None m st Q).

Section Total.
Context {S : Type}.
Implicit Types (st : Instant * S) (dl : option Instant).

Lemma wp_mono {A} {dl} (m : Timed S A) st (Q Q' : A -> Instant * S -> Prop) :
  wpd dl m st Q -> (forall a st', Q a st' -> Q' a st') -> wpd dl m st Q'.
Proof. intros (a & st' & ? & ?) HQ. exists a, st'. auto. Qed.

Lemma wp_bind {A B} {dl} (m : Timed S A) (k : A -> Timed S B) st Q :
  wpd dl m st (fun a st' => wpd dl (k a) st' Q) -> wpd dl (t_bind m k) st Q.
Proof.
  intros (a & st' & Hrun & b & st'' & Hk & HQ). exists b, st''.
  split; [by rewrite (t_bind_done _ _ _ _ _ _ Hrun)|done].
Qed.

Lemma wp_ret {A} {dl} (a : A) st (Q : A -> Instant * S -> Prop) : Q a st -> wpd dl (t_ret a) st Q.
Proof. intros HQ. by exists a, st. Qed.

Lemma wp_get {dl} st (Q : S -> Instant * S -> Prop) : Q (snd st) st -> wpd dl t_get st Q.
Proof. intros HQ. by exists (snd st), st. Qed.

Lemma wp_now {dl} st (Q : Instant -> Instant * S -> Prop) : Q (fst st) st -> wpd dl t_now st Q.
Proof. intros HQ. by exists (fst st), st. Qed.

Lemma wp_modify {dl} f st (Q : unit -> Instant * S -> Prop) :
  Q tt (fst st, f (snd st)) -> wpd dl (t_modify f) st Q.
Proof. intros HQ. by exists tt, (fst st, f (snd st)). Qed.

Lemma wp_await d st (Q : unit -> Instant * S -> Prop) :
  Q tt (fst st + d, snd st) -> wp (t_await d) st Q.
Proof. intros HQ. by exists tt, (fst st + d, snd st). Qed.

Lemma wp_zoom {S' A} {dl} (get : S -> S') (put : S -> S' -> S) (m : Timed S' A) st Q :
  wpd dl m (fst st, get (snd st)) (fun a p => Q a (fst p, put (snd st) (snd p))) ->
  wpd dl (t_zoom get put m) st Q.
Proof.
  intros (a & [t s'] & Hr & HQ). exists a, (t, put (snd st) s'). split; [|exact HQ].
  unfold t_zoom. by rewrite Hr.
Qed.

Lemma wp_if {A} {dl} (b : bool) (m1 m2 : Timed S A) st Q :
  (b = true -> wpd dl m1 st Q) -> (b = false -> wpd dl m2 st Q) -> wpd dl (if b then m1 else m2) st Q.
Proof. destruct b; auto. Qed.

Lemma wp_on_drop {A} {dl} cleanup (m : Timed S A) st (Q : A -> Instant * S -> Prop) :
  wpd dl m st Q -> wpd dl (t_on_drop cleanup m) st Q.
Proof. intros (a & st' & Hr & HQ). exists a, st'. split; [|done]. unfold t_on_drop. by rewrite Hr. Qed.

End Total.

(** Runs the primitive steps at the head of a [wp] or [wpd] goal. *)
Ltac wp_step :=
  lazymatch goal with
  | |- wpd _ (t_bind _ _) _ _ => apply wp_bind
  | |- wpd _ (t_ret _) _ _ => apply wp_ret
  | |- wpd _ t_get _ _ => apply wp_get; cbn [fst snd]
  | |- wpd _ t_now _ _ => apply wp_now; cbn [fst snd]
  | |- wpd _ (t_modify _) _ _ => apply wp_modify; cbn [fst snd]
  | |- wpd _ (t_await _) _ _ => apply wp_await; cbn [fst snd]
  end.
Ltac wp_steps := repeat (cbv beta zeta; wp_step).

(** ** Safe computations

    [safe m st Q]: without a deadline, [m] does not panic, and if it ends its value and
    state satisfy [Q]; it may wait forever. *)

Section Safe.
Context {S : Type}.

Definition safe {A} (m : Timed S A) (st : Instant * S) (Q : A -> Instant * S -> Prop) : Prop :=
  match m None st with
  | (Done a, st') => Q a st'
  | (Hung, _) => True
  | _ => False
  end.

Implicit Types (st : Instant * S).

Lemma wp_safe {A} (m : Timed S A) st Q : wp m st Q -> safe m st Q.
Proof. intros (a & p & Hr & HQ). unfold safe. by rewrite Hr. Qed.

Lemma safe_mono {A} (m : Timed S A) st (Q Q' : A -> Instant * S -> Prop) :
  safe m st Q -> (forall a st', Q a st' -> Q' a st') -> safe m st Q'.
Proof. unfold safe. destruct (m None st) as [[a| | |] p]; auto. Qed.

Lemma safe_bind {A B} (m : Timed S A) (k : A -> Timed S B) st Q :
  safe m st (fun a st' => safe (k a) st' Q) -> safe (t_bind m k) st Q.
Proof. unfold safe, t_bind. destruct (m None st) as [[a| | |] p]; auto. Qed.

Lemma safe_on_drop {A} cleanup (m : Timed S A) st (Q : A -> Instant * S -> Prop) :
  safe m st Q -> safe (t_on_drop cleanup m) st Q.
Proof. unfold safe, t_on_drop. by destruct (m None st) as [[a| | |] [t s]]. Qed.

Lemma safe_ret {A} (a : A) st (Q : A -> Instant * S -> Prop) : Q a st -> safe (t_ret a) st Q.
Proof. done. Qed.

Lemma safe_hang {A} st (Q : A -> Instant * S -> Prop) : safe t_hang st Q.
Proof. exact I. Qed.

(** What a safe computation that ended has established. *)
Lemma safe_done {A} (m : Timed S A) st Q a st' :
  safe m st Q -> m None st = (Done a, st') -> Q a st'.
Proof. unfold safe. intros Hs Hr. by rewrite Hr in Hs. Qed.

End Safe.

Ltac safe_step :=
  lazymatch goal with
  | |- safe (t_bind _ _) _ _ => apply safe_bind
  | |- safe (t_ret _) _ _ => apply safe_ret
  | |- safe t_hang _ _ => apply safe_hang
  | |- safe t_get _ _ => apply wp_safe, wp_get; cbn [fst snd]
  | |- safe t_now _ _ => apply wp_safe, wp_now; cbn [fst snd]
  | |- safe (t_modify _) _ _ => apply wp_safe, wp_modify; cbn [fst snd]
  | |- safe (t_await _) _ _ => apply wp_safe, wp_await; cbn [fst snd]
  end.
Ltac safe_steps := repeat (cbv beta zeta; safe_step).

(** ** Evolution of the state

    [evolves R m]: however [m] ends, under any deadline, the state it leaves is related to
    the one it started from.  [leaves f m]: the part [f] of the state is as it was. *)

Definition evolves {S A} (R : relation S) (m : Timed S A) : Prop :=
  forall dl st, R (snd st) (snd (snd (m dl st))).

Definition same_part {S X} (f : S -> X) : relation S := fun s s' => f s' = f s.
Notation leaves f m := (evolves (same_part f) m).

#[export] Instance same_part_preorder {S X} (f : S -> X) : PreOrder (same_part f).
Proof. split; unfold same_part; [by intros s|intros s1 s2 s3; congruence]. Qed.

(** An invariant, as such a relation. *)
Definition invariant {S} (I : S -> Prop) : relation S := fun s s' => I s -> I s'.

#[export] Instance invariant_preorder {S} (I : S -> Prop) : PreOrder (invariant I).
Proof. split; unfold invariant; auto. Qed.

Section Evolves.
Context {S : Type} (R : relation S) `{!PreOrder R}.

Lemma evolves_bind {A B} (m : Timed S A) (k : A -> Timed S B) :
  evolves R m -> (forall a, evolves R (k a)) -> evolves R (t_bind m k).
Proof.
  intros Hm Hk dl st. specialize (Hm dl st). unfold t_bind.
  destruct (m dl st) as [[a| | |] p]; cbn [snd] in *; [|done..]. etransitivity; [exact Hm|apply (Hk a dl p)].
Qed.

Lemma evolves_modify g : (forall s, R s (g s)) -> evolves R (t_modify g).
Proof. intros Hg dl [t s]. apply Hg. Qed.

Lemma evolves_ret {A} (a : A) : evolves R (t_ret a).
Proof. by intros dl st. Qed.

Lemma evolves_now : evolves R t_now.
Proof. by intros dl st. Qed.

Lemma evolves_get : evolves R t_get.
Proof. by intros dl st. Qed.

Lemma evolves_hang {A} : evolves R (t_hang : Timed S A).
Proof. by intros [dl|] st. Qed.

Lemma evolves_panic {A} : evolves R (t_panic : Timed S A).
Proof. by intros dl st. Qed.

Lemma evolves_await d : evolves R (t_await d).
Proof. intros [dl|] st; unfold t_await; [by destruct (_ <=? _)%Z|done]. Qed.

Lemma evolves_index {A} (l : list A) i : evolves R (t_index l i).
Proof. intros dl st. unfold t_index. by destruct (l !! i). Qed.

Lemma evolves_on_drop {A} cleanup (m : Timed S A) :
  (forall t s, R s (cleanup t s)) -> evolves R m -> evolves R (t_on_drop cleanup m).
Proof.
  intros Hc Hm dl st. specialize (Hm dl st). unfold t_on_drop.
  destruct (m dl st) as [[a| | |] [t s]]; cbn [snd] in *; [done| | |done]; (etransitivity; [exact Hm|apply Hc]).
Qed.

(** On a part of the state: what [m] does to it, or nothing at all. *)
Lemma evolves_zoom {S' A} (R' : relation S') (get : S -> S') put (m : Timed S' A) :
  evolves R' m -> (forall s s', R' (get s) s' -> R s (put s s')) -> evolves R (t_zoom get put m).
Proof.
  intros Hm Hp dl [t s]. specialize (Hm dl (t, get s)). unfold t_zoom. cbn [fst snd] in *.
  destruct (m dl _) as [r [t' s']]. by apply Hp.
Qed.

Lemma evolves_zoom_any {S' A} (get : S -> S') put (m : Timed S' A) :
  (forall s s', R s (put s s')) -> evolves R (t_zoom get put m).
Proof. intros Hp. by apply (evolves_zoom (fun _ _ => True)). Qed.

(** What a run left. *)
Lemma evolves_run {A} (m : Timed S A) dl st r st' : evolves R m -> m dl st = (r, st') -> R (snd st) (snd st').
Proof. intros Hm Hr. specialize (Hm dl st). by rewrite Hr in Hm. Qed.

End Evolves.

(** The continuation may use what the invariant says of the value. *)
Lemma evolves_bind_value {S A B} (I : S -> Prop) (V : A -> Prop) (m : Timed S A) (k : A -> Timed S B) :
  evolves (invariant I) m ->
  (forall dl st a st', I (snd st) -> m dl st = (Done a, st') -> V a) ->
  (forall a, V a -> evolves (invariant I) (k a)) -> evolves (invariant I) (t_bind m k).
Proof.
  intros Hm HV Hk dl st HI. pose proof (Hm dl st HI) as HI'. specialize (HV dl st). unfold t_bind.
  destruct (m dl st) as [[a| | |] p]; cbn [snd] in *; [|done..]. by apply (Hk a (HV a p HI eq_refl) dl p).
Qed.

#[export] Hint Resolve evolves_ret evolves_now evolves_get evolves_hang evolves_panic evolves_await evolves_index
  same_part_preorder invariant_preorder : arb.

(** Runs through a program that is made of such steps. *)
Ltac evolves_tac :=
  repeat first
    [ progress eauto with arb
    | apply evolves_bind; [exact _| |intros ?]
    | apply evolves_modify; intros ?; (reflexivity || done)
    | case_match ].

(** [returns V m]: when [m] ends with a value, under any deadline, [V] holds of it. *)
Definition returns {S A} (V : A -> Prop) (m : Timed S A) : Prop :=
  forall dl st a st', m dl st = (Done a, st') -> V a.

Lemma returns_ret {S A} (V : A -> Prop) (a : A) : V a -> returns V (t_ret a : Timed S A).
Proof. by intros HV dl st b st' [= <- <-]. Qed.

Lemma returns_bind {S A B} (U : A -> Prop) (V : B -> Prop) (m : Timed S A) (k : A -> Timed S B) :
  returns U m -> (forall a, U a -> returns V (k a)) -> returns V (t_bind m k).
Proof.
  intros Hm Hk dl st b st'. unfold t_bind. destruct (m dl st) as [[a| | |] p] eqn:E; [|done..].
  apply (Hk a (Hm _ _ _ _ E)).
Qed.

Lemma returns_any {S A} (m : Timed S A) : returns (fun _ => True) m.
Proof. done. Qed.

(** What runs before does not matter. *)
Lemma returns_after {S A B} (V : B -> Prop) (m : Timed S A) (k : A -> Timed S B) :
  (forall a, returns V (k a)) -> returns V (t_bind m k).
Proof. intros Hk. eapply returns_bind; [apply returns_any|auto]. Qed.

Lemma returns_mono {S A} (U V : A -> Prop) (m : Timed S A) : returns U m -> (forall a, U a -> V a) -> returns V m.
Proof. intros Hm HV dl st a st' Hr. by eapply HV, Hm. Qed.

Lemma returns_zoom {S S' A} (V : A -> Prop) (get : S -> S') put (m : Timed S' A) :
  returns V m -> returns V (t_zoom get put m).
Proof.
  intros Hm dl [t s] a st'. unfold t_zoom. destruct (m dl _) as [r [t' s']] eqn:E. intros [= -> <-].
  by eapply Hm.
Qed.

Lemma returns_on_drop {S A} (V : A -> Prop) cleanup (m : Timed S A) : returns V m -> returns V (t_on_drop cleanup m).
Proof.
  intros Hm dl st a st'. unfold t_on_drop. destruct (m dl st) as [[b| | |] [t s]] eqn:E; [|done..].
  intros [= <- <-]. by eapply Hm.
Qed.

Lemma returns_timeout {S A} (V : A -> Prop) dl (m : Timed S A) :
  returns V m -> returns (fun r => match r with Some a => V a | None => True end) (t_timeout_at dl m).
Proof.
  intros Hm outer st a st'. unfold t_timeout_at. cbv zeta.
  destruct (m _ st) as [[b| | |] p] eqn:E; [|destruct (_ <=? _)%Z; [by intros [= <- <-]|done]|done..].
  intros [= <- <-]. by eapply Hm.
Qed.

(** ** Cut computations

    [cut dl m st Q R]: run until its future is dropped at [dl], [m] neither panics nor hangs;
    if it ends in time, its value and state satisfy [Q], and if it is cut the state it leaves,
    drops included, satisfies [R]. *)

Section Cut.
Context {S : Type}.

Definition cut {A} (dl : Instant) (m : Timed S A) (st : Instant * S) (Q : A -> Instant * S -> Prop)
    (R : Instant * S -> Prop) : Prop :=
  match m (Some dl) st with
  | (Done a, st') => Q a st'
  | (Elapsed, st') => R st'
  | _ => False
  end.

Implicit Types (st : Instant * S) (dl : Instant).

Lemma cut_wpd {A} dl (m : Timed S A) st Q R : wpd (Some dl) m st Q -> cut dl m st Q R.
Proof. intros (a & p & Hr & HQ). unfold cut. by rewrite Hr. Qed.

Lemma cut_elapsed {A} dl (m : Timed S A) st st' Q (R : Instant * S -> Prop) :
  cut dl m st Q R -> m (Some dl) st = (Elapsed, st') -> R st'.
Proof. unfold cut. intros Hc Hr. by rewrite Hr in Hc. Qed.

Lemma cut_mono {A} dl (m : Timed S A) st (Q Q' : A -> Instant * S -> Prop) (R R' : Instant * S -> Prop) :
  cut dl m st Q R -> (forall a st', Q a st' -> Q' a st') -> (forall st', R st' -> R' st') -> cut dl m st Q' R'.
Proof. unfold cut. destruct (m (Some dl) st) as [[a| | |] p]; auto. Qed.

Lemma cut_bind {A B} dl (m : Timed S A) (k : A -> Timed S B) st Q R :
  cut dl m st (fun a st' => cut dl (k a) st' Q R) R -> cut dl (t_bind m k) st Q R.
Proof. unfold cut, t_bind. destruct (m (Some dl) st) as [[a| | |] p]; auto. Qed.

Lemma cut_await dl d st (Q : unit -> Instant * S -> Prop) (R : Instant * S -> Prop) :
  fst st <= dl -> (fst st + d <= dl -> Q tt (fst st + d, snd st)) -> R (dl, snd st) ->
  cut dl (t_await d) st Q R.
Proof.
  intros Hle HQ HR. unfold cut. destruct (t_await_cases d dl st Hle) as [[Hd ->]|[_ ->]]; auto.
Qed.

Lemma cut_on_drop {A} dl cleanup (m : Timed S A) st Q (R : Instant * S -> Prop) :
  cut dl m st Q (fun st' => R (fst st', cleanup (fst st') (snd st'))) -> cut dl (t_on_drop cleanup m) st Q R.
Proof. unfold cut, t_on_drop. by destruct (m (Some dl) st) as [[a| | |] [t s]]. Qed.

Lemma cut_zoom {S' A} (get : S' -> S) (put : S' -> S -> S') dl (m : Timed S A) (st : Instant * S') Q R :
  cut dl m (fst st, get (snd st)) (fun a p => Q a (fst p, put (snd st) (snd p)))
    (fun p => R (fst p, put (snd st) (snd p))) ->
  match t_zoom get put m (Some dl) st with
  | (Done a, st') => Q a st'
  | (Elapsed, st') => R st'
  | _ => False
  end.
Proof. unfold cut, t_zoom. by destruct (m (Some dl) (fst st, get (snd st))) as [[a| | |] [t s]]. Qed.

End Cut.

(** ** Deadlines only cut

    [steady m]: a deadline can cut [m], and does nothing else to it.  So what [m] does when it
    is left alone ([wp]) and what it does at any point ([evolves]) are together what it does
    under a deadline ([cut_steady]). *)

Section Steady.
Context {S : Type}.
Implicit Types (st : Instant * S) (dl : Instant).

Definition steady {A} (m : Timed S A) : Prop :=
  forall dl st, m (Some dl) st = m None st \/ exists st', m (Some dl) st = (Elapsed, st').

(** [at_once m]: no deadline cuts [m]. *)
Definition at_once {A} (m : Timed S A) : Prop := forall dl st, m (Some dl) st = m None st.

Lemma at_once_steady {A} (m : Timed S A) : at_once m -> steady m.
Proof. intros Hm dl st. by left. Qed.

Lemma steady_bind {A B} (m : Timed S A) (k : A -> Timed S B) :
  steady m -> (forall a, steady (k a)) -> steady (t_bind m k).
Proof.
  intros Hm Hk dl st. unfold t_bind. destruct (Hm dl st) as [->|[st' ->]]; [|by right; eexists].
  destruct (m None st) as [[a| | |] p]; [apply Hk|by left..].
Qed.

Lemma steady_await d : steady (t_await d : Timed S unit).
Proof. intros dl st. unfold t_await. destruct (_ <=? _)%Z; [by left|by right; eexists]. Qed.

Lemma steady_hang {A} : steady (t_hang : Timed S A).
Proof. intros dl st. right. by eexists. Qed.

Lemma steady_zoom {S' A} (get : S -> S') put (m : Timed S' A) :
  (forall dl (p : Instant * S'), m (Some dl) p = m None p \/ exists q, m (Some dl) p = (Elapsed, q)) ->
  steady (t_zoom get put m).
Proof.
  intros Hm dl [t s]. unfold t_zoom. cbn [fst snd].
  destruct (Hm dl (t, get s)) as [->|[[t' s'] ->]]; [by left|by right; eexists].
Qed.

Lemma at_once_bind {A B} (m : Timed S A) (k : A -> Timed S B) :
  at_once m -> (forall a, at_once (k a)) -> at_once (t_bind m k).
Proof.
  intros Hm Hk dl st. unfold t_bind. rewrite Hm. destruct (m None st) as [[a| | |] p]; [apply Hk|done..].
Qed.

Lemma at_once_ret {A} (a : A) : at_once (t_ret a : Timed S A).
Proof. done. Qed.
Lemma at_once_get : at_once (t_get : Timed S S).
Proof. done. Qed.
Lemma at_once_now : at_once (t_now : Timed S Instant).
Proof. done. Qed.
Lemma at_once_modify f : at_once (t_modify f : Timed S unit).
Proof. done. Qed.

Lemma cut_at_once {A} dl (m : Timed S A) st Q R : at_once m -> wp m st Q -> cut dl m st Q R.
Proof. intros Hm (a & p & Hr & HQ). unfold cut. by rewrite Hm, Hr. Qed.

Lemma cut_steady {A} dl (m : Timed S A) st (R : relation S) Q :
  steady m -> wp m st Q -> evolves R m -> cut dl m st Q (fun st' => R (snd st) (snd st')).
Proof.
  intros Hm (a & p & Hr & HQ) HR. unfold cut. specialize (HR (Some dl) st).
  destruct (Hm dl st) as [Heq|[st' Heq]]; rewrite Heq in *; [by rewrite Hr|exact HR].
Qed.

Lemma cut_run {A} dl (m : Timed S A) st Q :
  steady m -> wp m st Q -> cut dl m st Q (fun st' => m (Some dl) st = (Elapsed, st')).
Proof.
  intros Hm (a & p & Hr & HQ). unfold cut. destruct (Hm dl st) as [Heq|[st' Heq]]; rewrite Heq; [by rewrite Hr|done].
Qed.

End Steady.

#[export] Hint Resolve at_once_ret at_once_get at_once_now at_once_modify steady_await steady_hang : arb.
#[export] Hint Extern 3 (steady _) => (apply at_once_steady; solve [auto with arb]) : arb.

Ltac steady_tac :=
  repeat first
    [ progress eauto with arb
    | apply steady_bind; [|intros ?]
    | apply at_once_bind; [|intros ?]
    | case_match ].

(** Runs the primitive steps at the head of a [cut] goal that do not wait. *)
Ltac cut_step :=
  lazymatch goal with
  | |- cut _ (t_bind _ _) _ _ _ => apply cut_bind
  | |- cut _ (t_ret _) _ _ _ => apply cut_wpd, wp_ret
  | |- cut _ t_get _ _ _ => apply cut_wpd, wp_get; cbn [fst snd]
  | |- cut _ t_now _ _ _ => apply cut_wpd, wp_now; cbn [fst snd]
  | |- cut _ (t_modify _) _ _ _ => apply cut_wpd, wp_modify; cbn [fst snd]
  end.
Ltac cut_steps := repeat (cbv beta zeta; cut_step).
