(* ===== verification/Relational.v ===== *)
(** * Two runs side by side

    [agree E V m1 m2]: from equal instants and states related by [E], under any deadline, the
    two programs end the same way at the same instant in states related by [E], and their
    values, if they have them, are related by [V].  The rules follow the programs; relations on
    lists of candidates and on routers that differ in what the clients must not learn are built
    on it. *)

From S2P Require Import Prelude Timed.

Section Agree.
Context {S1 S2 : Type} (E : S1 -> S2 -> Prop).

Definition exits {A B} (V : A -> B -> Prop) (x : exit A) (y : exit B) : Prop :=
  match x, y with
  | Done a, Done b => V a b
  | Elapsed, Elapsed | Panicked, Panicked | Hung, Hung => True
  | _, _ => False
  end.

Definition outcomes {A B} (V : A -> B -> Prop) (p : exit A * (Instant * S1)) (q : exit B * (Instant * S2)) : Prop :=
  exits V (fst p) (fst q) /\ fst (snd p) = fst (snd q) /\ E (snd (snd p)) (snd (snd q)).

Definition agree {A B} (V : A -> B -> Prop) (m1 : Timed S1 A) (m2 : Timed S2 B) : Prop :=
  forall dl t s1 s2, E s1 s2 -> outcomes V (m1 dl (t, s1)) (m2 dl (t, s2)).

Lemma agree_mono {A B} (V V' : A -> B -> Prop) m1 m2 :
  agree V m1 m2 -> (forall a b, V a b -> V' a b) -> agree V' m1 m2.
Proof.
  intros Hm HV dl t s1 s2 HE. destruct (Hm dl t s1 s2 HE) as (Hx & Hrest). split; [|exact Hrest].
  unfold exits in *. destruct (fst (m1 _ _)), (fst (m2 _ _)); auto.
Qed.

Lemma agree_ret {A B} (V : A -> B -> Prop) a b : V a b -> agree V (t_ret a) (t_ret b).
Proof. by intros HV dl t s1 s2 HE. Qed.

Lemma agree_bind {A B A' B'} (U : A -> B -> Prop) (V : A' -> B' -> Prop) m1 m2 k1 k2 :
  agree U m1 m2 -> (forall a b, U a b -> agree V (k1 a) (k2 b)) -> agree V (t_bind m1 k1) (t_bind m2 k2).
Proof.
  intros Hm Hk dl t s1 s2 HE. destruct (Hm dl t s1 s2 HE) as (Hx & Ht & HE'). unfold t_bind.
  destruct (m1 dl (t, s1)) as [[a| | |] [t1 s1']], (m2 dl (t, s2)) as [[b| | |] [t2 s2']]; try done.
  cbn [fst snd exits] in *. subst t2. by apply Hk.
Qed.

(** The same value on both sides. *)
Lemma agree_bind_eq {A A' B'} (V : A' -> B' -> Prop) (m1 : Timed S1 A) m2 k1 k2 :
  agree eq m1 m2 -> (forall a, agree V (k1 a) (k2 a)) -> agree V (t_bind m1 k1) (t_bind m2 k2).
Proof. intros Hm Hk. eapply agree_bind; [exact Hm|]. by intros a b ->. Qed.

Lemma agree_get : agree E t_get t_get.
Proof. by intros dl t s1 s2 HE. Qed.

Lemma agree_now : agree eq t_now t_now.
Proof. by intros dl t s1 s2 HE. Qed.

Lemma agree_modify f1 f2 : (forall s1 s2, E s1 s2 -> E (f1 s1) (f2 s2)) -> agree eq (t_modify f1) (t_modify f2).
Proof. intros Hf dl t s1 s2 HE. split_and!; [done..|]. by apply Hf. Qed.

Lemma agree_await d : agree eq (t_await d) (t_await d).
Proof. intros dl t s1 s2 HE. unfold t_await. destruct dl as [dl|]; [destruct (_ <=? _)%Z|]; done. Qed.

Lemma agree_hang {A B} (V : A -> B -> Prop) : agree V t_hang t_hang.
Proof. by intros [dl|] t s1 s2 HE. Qed.

Lemma agree_panic {A B} (V : A -> B -> Prop) : agree V t_panic t_panic.
Proof. by intros dl t s1 s2 HE. Qed.

Lemma agree_index {A B} (V : A -> B -> Prop) l1 l2 i : Forall2 V l1 l2 -> agree V (t_index l1 i) (t_index l2 i).
Proof.
  intros Hl. unfold t_index. destruct (l1 !! i) as [a|] eqn:Ea.
  - destruct (Forall2_lookup_l _ _ _ _ _ Hl Ea) as (b & -> & HV). by apply agree_ret.
  - rewrite (proj2 (lookup_ge_None l2 i)); [apply agree_panic|].
    apply lookup_ge_None in Ea. by rewrite <- (Forall2_length Hl).
Qed.

Lemma agree_on_drop {A B} (V : A -> B -> Prop) f1 f2 m1 m2 :
  agree V m1 m2 -> (forall t s1 s2, E s1 s2 -> E (f1 t s1) (f2 t s2)) ->
  agree V (t_on_drop f1 m1) (t_on_drop f2 m2).
Proof.
  intros Hm Hf dl t s1 s2 HE. destruct (Hm dl t s1 s2 HE) as (Hx & Ht & HE'). unfold t_on_drop.
  destruct (m1 dl (t, s1)) as [[a| | |] [t1 s1']], (m2 dl (t, s2)) as [[b| | |] [t2 s2']]; try done;
    cbn [fst snd exits] in *; subst t2; split_and!; auto; by apply Hf.
Qed.

End Agree.

(** Two programs on parts of the two states. *)
Lemma agree_zoom {S1 S2 P1 P2 A B} (E : S1 -> S2 -> Prop) (F : P1 -> P2 -> Prop) get1 put1 get2 put2
    (V : A -> B -> Prop) m1 m2 :
  (forall s1 s2, E s1 s2 -> F (get1 s1) (get2 s2) /\ forall p1 p2, F p1 p2 -> E (put1 s1 p1) (put2 s2 p2)) ->
  agree F V m1 m2 -> agree E V (t_zoom get1 put1 m1) (t_zoom get2 put2 m2).
Proof.
  intros HE Hm dl t s1 s2 Hs. destruct (HE s1 s2 Hs) as [Hg Hp]. unfold t_zoom. cbn [fst snd].
  destruct (Hm dl t _ _ Hg) as (Hx & Ht & Hf).
  destruct (m1 dl (t, get1 s1)) as [r1 [t1 p1]], (m2 dl (t, get2 s2)) as [r2 [t2 p2]]. cbn [fst snd] in *.
  split_and!; [done..|]. by apply Hp.
Qed.

(** A program on a part that the two states have in common. *)
Lemma agree_part {S1 S2 P A} (E : S1 -> S2 -> Prop) get1 put1 get2 put2 (m : Timed P A) :
  (forall s1 s2, E s1 s2 -> get1 s1 = get2 s2 /\ forall p, E (put1 s1 p) (put2 s2 p)) ->
  agree E eq (t_zoom get1 put1 m) (t_zoom get2 put2 m).
Proof.
  intros HE dl t s1 s2 Hs. destruct (HE s1 s2 Hs) as [Hg Hp]. unfold t_zoom. cbn [fst snd]. rewrite Hg.
  destruct (m dl (t, get2 s2)) as [[a| | |] [t' p]]; split_and!; cbn [fst snd]; done || apply Hp.
Qed.

(** One program on both sides, from equal states. *)
Lemma agree_refl {S A} (m1 m2 : Timed S A) : (forall dl st, m1 dl st = m2 dl st) <-> agree eq eq m1 m2.
Proof.
  split.
  - intros Hm dl t s1 s2 <-. rewrite Hm. destruct (m2 dl (t, s1)) as [[a| | |] [t' s']]; by split_and!.
  - intros Hm dl [t s]. destruct (Hm dl t s s eq_refl) as (Hx & Ht & Hs).
    destruct (m1 dl (t, s)) as [[a| | |] [t1 s1]], (m2 dl (t, s)) as [[b| | |] [t2 s2]]; cbn in *; congruence || done.
Qed.

Create HintDb agree.
#[export] Hint Resolve agree_get agree_now agree_await agree_hang agree_panic : agree.

(** Follows two programs of the same shape whose values are equal. *)
Ltac agree_tac :=
  repeat first
    [ progress auto with agree
    | apply agree_ret; reflexivity
    | apply agree_bind_eq; [|intros ?]
    | case_match ].
