(* ===== verification/Config.v ===== *)
(** * Configuration ([src/src/config.rs])

    The configuration records, the provider tiers, API keys with their masking, [${VAR}]
    expansion, key resolution ([from_raw_with_lookup]) and validation.  TOML parsing and
    file reading are parameters of the loaders. *)

From S2P Require Import Prelude Machine RustStr.


(** ** Tiers *)

Inductive Tier := Local | Standard | Frontier.

#[export] Instance Tier_eq_dec : EqDecision Tier.
Proof. solve_decision. Defined.

Definition Tier_default : Tier := Standard.

(** The derived [Ord]: declaration order. *)
Definition Tier_rank (t : Tier) : nat :=
  match t with Local => 0 | Standard => 1 | Frontier => 2 end%nat.

Definition Tier_leb (a b : Tier) : bool := (Tier_rank a <=? Tier_rank b)%nat.
Definition Tier_le (a b : Tier) : Prop := Tier_leb a b = true.

#[export] Instance Tier_le_dec a b : Decision (Tier_le a b).
Proof. unfold Tier_le. solve_decision. Defined.

Definition Tier_to_string (t : Tier) : string :=
  match t with Local => "local" | Standard => "standard" | Frontier => "frontier" end.

Definition escalate (t : Tier) : option Tier :=
  match t with Local => Some Standard | Standard => Some Frontier | Frontier => None end.

#[export] Instance Tier_le_preorder : PreOrder Tier_le.
Proof. split; [intros []; reflexivity | intros [] [] []; compute; congruence]. Qed.

Lemma escalate_rank t t' : escalate t = Some t' -> Tier_rank t' = S (Tier_rank t).
Proof. destruct t; intros [= <-]; reflexivity. Qed.

Lemma escalate_None t : escalate t = None <-> t = Frontier.
Proof. destruct t; simpl; split; congruence. Qed.

Lemma Tier_le_Frontier t : Tier_le t Frontier.
Proof. destruct t; reflexivity. Qed.

Lemma escalate_le t t' : escalate t = Some t' -> Tier_le t t'.
Proof. destruct t; intros [= <-]; reflexivity. Qed.

#[export] Hint Resolve Tier_le_Frontier escalate_le : arb.

(** ** API keys *)

(** [ApiKey(SecretString)]: the wrapped secret; [expose_secret] is the projection. *)
Record ApiKey := mkApiKey { expose_secret : string }.

#[export] Instance ApiKey_eq_dec : EqDecision ApiKey.
Proof. solve_decision. Defined.

Definition ApiKey_debug (k : ApiKey) : string := "[REDACTED]".
Definition ApiKey_display (k : ApiKey) : string := "[REDACTED]".
(** The string the serializer is given. *)
Definition ApiKey_serialize (k : ApiKey) : string := "[REDACTED]".
(** [String::deserialize(..).map(..)], and [From]. *)
Definition ApiKey_from (s : string) : ApiKey := mkApiKey s.
Definition ApiKey_deserialize {E} (s : result string E) : result ApiKey E := let? s := s in Ok (ApiKey_from s).

(** [None] is the panic of the byte slice [&secret[..6]]. *)
Definition masked_prefix (k : ApiKey) : option string :=
  let secret := expose_secret k in
  if (str_len secret <? 10)%Z then Some "[REDACTED]"
  else match str_slice_to 6 secret with
       | Some p => Some (p +:+ "...***")
       | None => None
       end.

Inductive KeySource :=
| Literal
| EnvExpanded
| Convention (var : string)
| NoKey.

#[export] Instance KeySource_eq_dec : EqDecision KeySource.
Proof. solve_decision. Defined.

Definition KeySource_to_string (k : KeySource) : string :=
  match k with
  | Literal => "config-literal"
  | EnvExpanded => "env-expanded"
  | Convention var => "convention (" +:+ var +:+ ")"
  | NoKey => "none"
  end.

(** ** Records *)

Record ServerConfig := {
  listen : string;
  rate_limit_rps : option Z;
  auth_token : option string;
}.

Definition default_listen : string := "127.0.0.1:8080".

Record DatabaseConfig := { db_path : string }.

Definition default_db_path : string := "./arbstr.db".
Definition DatabaseConfig_default : DatabaseConfig := {| db_path := default_db_path |}.

Record ComplexityWeightsConfig := {
  context_length : f64;
  code_blocks : f64;
  multi_file : f64;
  reasoning_keywords : f64;
  conversation_depth : f64;
  extra_keywords : list string;
}.

Definition default_weight : f64 := f64_one.

Definition ComplexityWeightsConfig_default : ComplexityWeightsConfig := {|
  context_length := default_weight;
  code_blocks := default_weight;
  multi_file := default_weight;
  reasoning_keywords := default_weight;
  conversation_depth := default_weight;
  extra_keywords := [];
|}.

Record RoutingConfig := {
  complexity_threshold_low : f64;
  complexity_threshold_high : f64;
  complexity_weights : ComplexityWeightsConfig;
}.

Definition default_threshold_low : f64 := f64_lit 4 10.
Definition default_threshold_high : f64 := f64_lit 7 10.

Definition RoutingConfig_default : RoutingConfig := {|
  complexity_threshold_low := default_threshold_low;
  complexity_threshold_high := default_threshold_high;
  complexity_weights := ComplexityWeightsConfig_default;
|}.

Record ProviderConfig := {
  p_name : string;
  p_url : string;
  p_api_key : option ApiKey;
  p_models : list string;
  p_input_rate : Z;
  p_output_rate : Z;
  p_base_fee : Z;
  p_tier : Tier;
  p_auto_discover : bool;
}.

#[export] Instance ProviderConfig_eq_dec : EqDecision ProviderConfig.
Proof. solve_decision. Defined.

Record PolicyRule := {
  r_name : string;
  r_allowed_models : list string;
  r_strategy : string;
  r_max_sats_per_1k_output : option Z;
  r_keywords : list string;
}.

Definition default_strategy_name : string := "cheapest".

Record PoliciesConfig := {
  default_strategy : string;
  rules : list PolicyRule;
}.

Record VaultConfig := {
  v_url : string;
  v_internal_token : ApiKey;
  v_default_reserve_tokens : Z;
  v_pending_threshold : Z;
}.

Definition default_reserve_tokens_value : Z := 4096.
Definition default_pending_threshold : Z := 100.

Record LoggingConfig := { level : string; log_requests : bool }.

Definition LoggingConfig_default : LoggingConfig := {| level := "info"; log_requests := true |}.

Record Config := {
  server : ServerConfig;
  database : option DatabaseConfig;
  vault : option VaultConfig;
  providers : list ProviderConfig;
  policies : PoliciesConfig;
  logging : LoggingConfig;
  routing : RoutingConfig;
}.

(** The 64-bit rates of a provider are in range, and so is its routing cost. *)
Definition provider_wf (p : ProviderConfig) : Prop :=
  in_u64 (p_input_rate p) /\ in_u64 (p_output_rate p) /\ in_u64 (p_base_fee p).

(** ** Errors *)

(** The payloads of foreign errors ([io::Error], [toml::de::Error]) are their texts. *)
Inductive ConfigError :=
| ConfigIo (path source : string)
| ConfigParse (e : string)
| ConfigValidation (msg : string)
| ConfigEnvVar (var provider message : string).

#[export] Instance ConfigError_eq_dec : EqDecision ConfigError.
Proof. solve_decision. Defined.

Definition ConfigError_to_string (e : ConfigError) : string :=
  match e with
  | ConfigIo path source => "Failed to read config file '" +:+ path +:+ "': " +:+ source
  | ConfigParse e => "Failed to parse config: " +:+ e
  | ConfigValidation m => "Configuration validation error: " +:+ m
  | ConfigEnvVar var provider message =>
      "Environment variable '" +:+ var +:+ "' not set for provider '" +:+ provider
        +:+ "': " +:+ message
  end.

(** ** Validation *)

Fixpoint validate_providers (ps : list ProviderConfig) : result unit ConfigError :=
  match ps with
  | [] => Ok tt
  | p :: ps' =>
      if str_is_empty (p_url p)
      then Err (ConfigValidation ("Provider '" +:+ p_name p +:+ "' has empty URL"))
      else validate_providers ps'
  end.

(** The event it logs for no providers at all is on the output of the commands ([load_logged] of
    Cli). *)
Definition validate (c : Config) : result unit ConfigError := validate_providers (providers c).

Definition database_config (c : Config) : DatabaseConfig :=
  default DatabaseConfig_default (database c).

(** [check_file_permissions], given the mode bits of the file ([None]: no metadata). *)
Definition check_file_permissions (path : string) (mode : option Z) : option (string * Z) :=
  match mode with
  | None => None
  | Some m =>
      let mode := Z.land m 511 in
      if (Z.land mode 127 =? 0)%Z then None else Some (path, mode)
  end.

(** ** Environment variable expansion *)

Definition err_unclosed (provider_name input : string) : ConfigError :=
  ConfigEnvVar "<unclosed>" provider_name ("Unclosed '${' in config value: " +:+ input).
Definition err_empty_var (provider_name : string) : ConfigError :=
  ConfigEnvVar "" provider_name "Empty variable name in '${}' reference".
Definition err_not_set (provider_name var_name : string) : ConfigError :=
  ConfigEnvVar var_name provider_name
    ("Environment variable '" +:+ var_name +:+ "' is not set (referenced in provider '"
       +:+ provider_name +:+ "')").

(** The [while let] loop: [result] is the text produced so far, [rest] what is left.
    Every iteration shortens [rest], so its length is fuel enough ([expand_loop_fuel]). *)
Fixpoint expand_loop (fuel : nat) (input provider_name : string)
    (lookup : string -> option string) (result rest : string) : Prelude.result string ConfigError :=
  match fuel with
  | O => Ok (result +:+ rest)
  | S fuel' =>
    match str_find "${" rest with
    | None => Ok (result +:+ rest)
    | Some start =>
        let result := result +:+ str_take start rest in
        let after := str_drop (start + 2) rest in
        match str_find "}" after with
        | None => Err (err_unclosed provider_name input)
        | Some end_ =>
            let var_name := str_take end_ after in
            if str_is_empty var_name then Err (err_empty_var provider_name)
            else match lookup var_name with
                 | None => Err (err_not_set provider_name var_name)
                 | Some value =>
                     expand_loop fuel' input provider_name lookup (result +:+ value)
                       (str_drop (end_ + 1) after)
                 end
        end
    end
  end.

Definition expand_env_vars_with (input provider_name : string) (lookup : string -> option string)
    : Prelude.result string ConfigError :=
  if negb (str_contains input "${") then Ok input
  else expand_loop (S (String.length input)) input provider_name lookup "" input.

(** ** Key resolution *)

(** [provider_name.to_uppercase().replace(['-', ' '], "_")]. *)
Definition dash_to_underscore (c : ascii) : ascii :=
  if Ascii.eqb c "-" || Ascii.eqb c " " then "_"%char else c.

Definition convention_env_var_name `{UnicodeCase} (provider_name : string) : string :=
  "ARBSTR_" +:+ str_map dash_to_underscore (to_uppercase provider_name) +:+ "_API_KEY".

Record RawProviderConfig := {
  rp_name : string;
  rp_url : string;
  rp_api_key : option string;
  rp_models : list string;
  rp_input_rate : Z;
  rp_output_rate : Z;
  rp_base_fee : Z;
  rp_tier : Tier;
  rp_auto_discover : bool;
}.

Record RawConfig := {
  raw_server : ServerConfig;
  raw_database : option DatabaseConfig;
  raw_vault : option VaultConfig;
  raw_providers : list RawProviderConfig;
  raw_policies : PoliciesConfig;
  raw_logging : LoggingConfig;
  raw_routing : RoutingConfig;
}.

Section Keys.
Context `{UnicodeCase}.

(** The [match rp.api_key] of [from_raw_with_lookup]. *)
Definition resolve_api_key (rp : RawProviderConfig) (env_lookup : string -> option string)
    : Prelude.result (option ApiKey * KeySource) ConfigError :=
  match rp_api_key rp with
  | Some raw_key =>
      if str_contains raw_key "${" then
        let? expanded := expand_env_vars_with raw_key (rp_name rp) env_lookup in
        Ok (Some (mkApiKey expanded), EnvExpanded)
      else Ok (Some (mkApiKey raw_key), Literal)
  | None =>
      let var_name := convention_env_var_name (rp_name rp) in
      match env_lookup var_name with
      | Some value => Ok (Some (mkApiKey value), Convention var_name)
      | None => Ok (None, NoKey)
      end
  end.

Definition provider_of_raw (rp : RawProviderConfig) (api_key : option ApiKey) : ProviderConfig := {|
  p_name := rp_name rp;
  p_url := rp_url rp;
  p_api_key := api_key;
  p_models := rp_models rp;
  p_input_rate := rp_input_rate rp;
  p_output_rate := rp_output_rate rp;
  p_base_fee := rp_base_fee rp;
  p_tier := rp_tier rp;
  p_auto_discover := rp_auto_discover rp;
|}.

Fixpoint providers_of_raw (rps : list RawProviderConfig) (env_lookup : string -> option string)
    : Prelude.result (list ProviderConfig * list (string * KeySource)) ConfigError :=
  match rps with
  | [] => Ok ([], [])
  | rp :: rps' =>
      let? (api_key, source) := resolve_api_key rp env_lookup in
      let? (ps, srcs) := providers_of_raw rps' env_lookup in
      Ok (provider_of_raw rp api_key :: ps, (rp_name rp, source) :: srcs)
  end.

Definition from_raw_with_lookup (raw : RawConfig) (env_lookup : string -> option string)
    : Prelude.result (Config * list (string * KeySource)) ConfigError :=
  let? (ps, key_sources) := providers_of_raw (raw_providers raw) env_lookup in
  Ok ({| server := raw_server raw;
         database := raw_database raw;
         vault := raw_vault raw;
         providers := ps;
         policies := raw_policies raw;
         logging := raw_logging raw;
         routing := raw_routing raw |}, key_sources).

End Keys.

(** ** Loading

    The file system, the process environment and the TOML parser. *)

Section Loading.
Context `{UnicodeCase}.
Variable read_to_string : string -> Prelude.result string string.
Variable env_var : string -> option string.
Variable toml_config : string -> Prelude.result Config string.
Variable toml_raw : string -> Prelude.result RawConfig string.

Definition parse_str (content : string) : Prelude.result Config ConfigError :=
  let? config := map_err ConfigParse (toml_config content) in
  let? _ := validate config in
  Ok config.

Definition from_file (path : string) : Prelude.result Config ConfigError :=
  let? content := map_err (ConfigIo path) (read_to_string path) in
  parse_str content.

Definition from_raw (raw : RawConfig) := from_raw_with_lookup raw env_var.

Definition from_file_with_env (path : string)
    : Prelude.result (Config * list (string * KeySource)) ConfigError :=
  let? content := map_err (ConfigIo path) (read_to_string path) in
  let? raw := map_err ConfigParse (toml_raw content) in
  let? (config, key_sources) := from_raw raw in
  let? _ := validate config in
  Ok (config, key_sources).

End Loading.

(** ** Theorems: expansion *)

Lemma expand_loop_done fuel input pn lookup acc rest :
  str_find "${" rest = None -> expand_loop fuel input pn lookup acc rest = Ok (acc +:+ rest).
Proof. intros Hf. destruct fuel; cbn [expand_loop]; [reflexivity|]. rewrite Hf. reflexivity. Qed.

(** One reference: a literal, ["${"], a name and ["}"] are consumed in one iteration. *)
Lemma expand_loop_ref fuel input pn lookup acc lit var rest :
  str_contains lit "${" = false -> str_contains var "}" = false ->
  expand_loop (S fuel) input pn lookup acc (lit +:+ "${" +:+ var +:+ "}" +:+ rest)
  = if str_is_empty var then Err (err_empty_var pn)
    else match lookup var with
         | None => Err (err_not_set pn var)
         | Some v => expand_loop fuel input pn lookup (acc +:+ lit +:+ v) rest
         end.
Proof.
  intros Hlit Hvar. cbn [expand_loop]. rewrite str_find_skip by assumption.
  rewrite str_take_app.
  replace (String.length lit + 2)%nat with (String.length (lit +:+ "${"))
    by (rewrite str_length_app; reflexivity).
  rewrite <- str_app_assoc, str_drop_app.
  change ("}" +:+ rest) with (String "}" rest). rewrite str_find_char_skip by assumption.
  rewrite str_take_app. destruct (str_is_empty var); [reflexivity|].
  destruct (lookup var) as [v|]; [|reflexivity].
  replace (String.length var + 1)%nat with (String.length (var +:+ "}"))
    by (rewrite str_length_app; reflexivity).
  change (var +:+ String "}" rest) with (var +:+ ("}" +:+ rest)).
  rewrite <- str_app_assoc, str_drop_app, str_app_assoc. reflexivity.
Qed.

(** Enough fuel: any two amounts above the length of the rest agree. *)
Lemma expand_loop_fuel f1 f2 input pn lookup acc rest :
  (String.length rest < f1)%nat -> (String.length rest < f2)%nat ->
  expand_loop f1 input pn lookup acc rest = expand_loop f2 input pn lookup acc rest.
Proof.
  revert f2 acc rest. induction f1 as [|f1 IH]; intros [|f2] acc rest H1 H2; try lia.
  cbn [expand_loop]. destruct (str_find "${" rest) as [start|] eqn:E; [|reflexivity].
  destruct (str_find "}" _) as [end_|] eqn:E2; [|reflexivity].
  destruct (str_is_empty _); [reflexivity|]. destruct (lookup _); [|reflexivity].
  assert (Hlen : (String.length (str_drop (end_ + 1) (str_drop (start + 2) rest))
                  < String.length rest)%nat).
  { rewrite !str_drop_length. apply str_find_Some in E.
    apply (f_equal String.length) in E. rewrite !str_length_app in E. simpl in E. lia. }
  apply IH; lia.
Qed.

(** *** A template: literals and references, and what it denotes *)

(** A segment of a template: a literal followed by a reference. *)
Record Segment := { seg_lit : string; seg_var : string }.

(** How a template ends: plain text, or text with an unclosed ["${"]. *)
Inductive Tail := Plain (s : string) | Unclosed (lit rest : string).

Definition render_tail (t : Tail) : string :=
  match t with Plain s => s | Unclosed l r => l +:+ "${" +:+ r end.

Definition render_template (segs : list Segment) (tail : Tail) : string :=
  foldr (fun g s => seg_lit g +:+ "${" +:+ seg_var g +:+ "}" +:+ s) (render_tail tail) segs.

Definition segment_ok (g : Segment) : Prop :=
  str_contains (seg_lit g) "${" = false /\ str_contains (seg_var g) "}" = false.

Definition tail_ok (t : Tail) : Prop :=
  match t with
  | Plain s => str_contains s "${" = false
  | Unclosed l r => str_contains l "${" = false /\ str_contains r "}" = false
  end.

(** The reference semantics: left to right, the first problem decides. *)
Fixpoint eval_template (input pn : string) (lookup : string -> option string)
    (segs : list Segment) (tail : Tail) : Prelude.result string ConfigError :=
  match segs with
  | [] => match tail with Plain s => Ok s | Unclosed _ _ => Err (err_unclosed pn input) end
  | g :: segs' =>
      if str_is_empty (seg_var g) then Err (err_empty_var pn)
      else let? v := ok_or (lookup (seg_var g)) (err_not_set pn (seg_var g)) in
           let? s := eval_template input pn lookup segs' tail in
           Ok (seg_lit g +:+ v +:+ s)
  end.

Lemma expand_loop_template input pn lookup segs tail :
  Forall segment_ok segs -> tail_ok tail ->
  forall acc fuel, (length segs < fuel)%nat ->
  expand_loop fuel input pn lookup acc (render_template segs tail)
  = let? s := eval_template input pn lookup segs tail in Ok (acc +:+ s).
Proof.
  intros Hsegs Htail. induction Hsegs as [|g segs [Hl Hv] _ IH]; intros acc fuel Hf.
  - destruct tail as [s|l r]; cbn [render_template foldr render_tail eval_template result_bind].
    + apply expand_loop_done, str_contains_take, Htail.
    + destruct Htail as [Hl Hr]. destruct fuel as [|fuel]; [simpl in Hf; lia|].
      cbn [expand_loop]. rewrite str_find_skip by exact Hl.
      replace (String.length l + 2)%nat with (String.length (l +:+ "${"))
        by (rewrite str_length_app; reflexivity).
      rewrite <- str_app_assoc, str_drop_app, (str_contains_take _ _ Hr). reflexivity.
  - destruct fuel as [|fuel]; [simpl in Hf; lia|]. cbn [render_template foldr eval_template].
    rewrite expand_loop_ref by assumption.
    destruct (str_is_empty (seg_var g)); [reflexivity|].
    destruct (lookup (seg_var g)) as [v|]; cbn [ok_or result_bind]; [|reflexivity].
    rewrite IH by (simpl in Hf; lia).
    destruct (eval_template input pn lookup segs tail); cbn [result_bind]; [|reflexivity].
    rewrite !str_app_assoc. reflexivity.
Qed.

Lemma render_template_length segs tail :
  (length segs <= String.length (render_template segs tail))%nat.
Proof.
  induction segs as [|g segs IH]; [simpl; lia|].
  change (render_template (g :: segs) tail)
    with (seg_lit g +:+ "${" +:+ seg_var g +:+ "}" +:+ render_template segs tail).
  rewrite !str_length_app. simpl. lia.
Qed.

Lemma render_template_contains g segs tail :
  segment_ok g -> str_contains (render_template (g :: segs) tail) "${" = true.
Proof.
  intros [Hl _]. unfold str_contains. cbn [render_template foldr].
  rewrite str_find_skip by exact Hl. reflexivity.
Qed.

(** What [find] returns is the first occurrence. *)
Lemma str_take_contains p s i :
  str_find p s = Some i -> p <> "" -> str_contains (str_take i s) p = false.
Proof.
  intros Hf Hp. revert i Hf. induction s as [|c s IH]; intros i; cbn [str_find].
  - destruct (str_starts_with p ""); [|discriminate]. intros [= <-]. unfold str_contains.
    destruct p; [done|reflexivity].
  - destruct (str_starts_with p (String c s)) eqn:E.
    + intros [= <-]. unfold str_contains. destruct p; [done|reflexivity].
    + destruct (str_find p s) as [j|] eqn:Ej; [|discriminate]. intros [= <-].
      specialize (IH j eq_refl). unfold str_contains in *. cbn [str_take str_find].
      assert (str_starts_with p (String c (str_take j s)) = false) as ->.
      { destruct (str_starts_with p (String c (str_take j s))) eqn:E2; [|reflexivity].
        apply str_starts_with_inv in E2.
        rewrite <- (str_take_drop j s) in E.
        change (String c (str_take j s +:+ str_drop j s))
          with (String c (str_take j s) +:+ str_drop j s) in E.
        rewrite E2, str_app_assoc, str_starts_with_app in E. discriminate. }
      destruct (str_find p (str_take j s)); congruence.
Qed.

(** Every string is the rendering of a well-formed template. *)
Lemma template_exists input :
  exists segs tail, Forall segment_ok segs /\ tail_ok tail /\ input = render_template segs tail.
Proof.
  remember (String.length input) as n eqn:Hn. revert input Hn.
  induction n as [n IH] using lt_wf_ind. intros input Hn.
  destruct (str_find "${" input) as [i|] eqn:E.
  - pose proof (str_find_Some _ _ _ E) as Heq.
    pose proof (str_take_contains _ _ _ E ltac:(discriminate)) as Hlit.
    set (lit := str_take i input) in *.
    set (after := str_drop (String.length "${") (str_drop i input)) in *.
    destruct (str_find "}" after) as [j|] eqn:E2.
    + pose proof (str_find_Some _ _ _ E2) as Heq2.
      pose proof (str_take_contains _ _ _ E2 ltac:(discriminate)) as Hvar.
      set (var := str_take j after) in *.
      set (rest := str_drop (String.length "}") (str_drop j after)) in *.
      assert (Hlt : (String.length rest < n)%nat).
      { subst n. rewrite Heq, Heq2, !str_length_app. simpl. lia. }
      destruct (IH _ Hlt rest eq_refl) as (segs & tail & Hs & Ht & Hr).
      exists ({| seg_lit := lit; seg_var := var |} :: segs), tail. split_and!.
      * constructor; [split; assumption|assumption].
      * assumption.
      * cbn [render_template foldr seg_lit seg_var].
        unfold render_template in Hr. rewrite <- Hr, <- Heq2. exact Heq.
    + exists [], (Unclosed lit after). split_and!; [constructor| |exact Heq].
      split; [exact Hlit|]. unfold str_contains. rewrite E2. reflexivity.
  - exists [], (Plain input). split_and!; [constructor| |reflexivity].
    unfold tail_ok, str_contains. rewrite E. reflexivity.
Qed.

(** ** Properties *)

Lemma expand_env_vars_template (pn : string) (lookup : string -> option string) segs tail :
  Forall segment_ok segs -> tail_ok tail ->
  expand_env_vars_with (render_template segs tail) pn lookup
  = eval_template (render_template segs tail) pn lookup segs tail.
Proof.
  intros Hs Ht. unfold expand_env_vars_with.
  destruct (str_contains (render_template segs tail) "${") eqn:E; cbn [negb].
  - rewrite expand_loop_template; [|done|done|].
    + destruct (eval_template _ pn lookup segs tail); reflexivity.
    + pose proof (render_template_length segs tail). lia.
  - destruct segs as [|g segs].
    + destruct tail as [s|l r]; [reflexivity|]. destruct Ht as [Hl _].
      unfold str_contains in E. cbn [render_template foldr render_tail] in E.
      rewrite str_find_skip in E by exact Hl. discriminate.
    + inversion Hs; subst. rewrite render_template_contains in E by assumption. discriminate.
Qed.

(** C31: expansion of [${VAR}] references is total and means what the template says. *)
Theorem expand_env_vars_correct (pn : string) (lookup : string -> option string)
    (input : string) :
  (exists segs tail,
     Forall segment_ok segs /\ tail_ok tail /\ input = render_template segs tail) /\
  (forall segs tail,
     Forall segment_ok segs -> tail_ok tail -> input = render_template segs tail ->
     expand_env_vars_with input pn lookup = eval_template input pn lookup segs tail).
Proof.
  split; [apply template_exists|]. intros segs tail Hs Ht ->.
  apply expand_env_vars_template; assumption.
Qed.

Lemma str_is_ascii_get s i c : str_is_ascii s = true -> String.get i s = Some c -> is_ascii c = true.
Proof.
  revert i. induction s as [|a s IH]; intros i Ha Hg; [destruct i; discriminate|].
  cbn [str_is_ascii] in Ha. apply andb_true_iff in Ha as [Ha Hs].
  destruct i as [|i]; cbn [String.get] in Hg; [congruence|]. eauto.
Qed.

Lemma ascii_not_cont c : is_ascii c = true -> is_cont c = false.
Proof.
  unfold is_ascii, is_cont, in_range, byte_nat. intros H%Nat.ltb_lt.
  apply andb_false_iff. left. apply Nat.leb_gt. lia.
Qed.

Lemma str_get_lt s i : (i < String.length s)%nat -> exists c, String.get i s = Some c.
Proof.
  revert i. induction s as [|a s IH]; intros i Hi; simpl in Hi; [lia|].
  destruct i; simpl; [eauto|]. apply IH. lia.
Qed.

(** on an ASCII key, masking never panics and shows at most the first six bytes. *)
Theorem masked_prefix_ascii (k : ApiKey) :
  str_is_ascii (expose_secret k) = true ->
  masked_prefix k
  = Some (if (str_len (expose_secret k) <? 10)%Z then "[REDACTED]"
          else str_take 6 (expose_secret k) +:+ "...***").
Proof.
  intros Ha. unfold masked_prefix. destruct (Z.ltb_spec (str_len (expose_secret k)) 10) as [|Hl];
    [reflexivity|].
  unfold str_slice_to. unfold str_len in Hl.
  destruct (str_get_lt (expose_secret k) 6) as [c Hc]; [lia|].
  cbn [is_char_boundary]. rewrite Hc.
  rewrite (ascii_not_cont c) by eauto using str_is_ascii_get. reflexivity.
Qed.

Lemma masked_prefix_ascii_witness :
  str_is_ascii "sk-abcdef-0123456789" = true /\
  masked_prefix (mkApiKey "sk-abcdef-0123456789") = Some "sk-abc...***".
Proof.
  split; [reflexivity|]. rewrite masked_prefix_ascii by reflexivity. reflexivity.
Defined.

(** A key of ten bytes whose sixth byte is inside a character makes the slice panic. *)
Example masked_prefix_panics :
  masked_prefix (mkApiKey (bytes_str [97; 97; 97; 97; 97; 195; 169; 98; 98; 98; 98]%nat)) = None.
Proof. vm_compute. reflexivity. Qed.

Section KeyTheorems.
Context `{UnicodeCase}.

Lemma providers_of_raw_Ok rps lookup ps srcs :
  providers_of_raw rps lookup = Ok (ps, srcs) ->
  length ps = length rps /\ length srcs = length rps /\
  forall i rp, rps !! i = Some rp ->
    exists key src, resolve_api_key rp lookup = Ok (key, src) /\
      ps !! i = Some (provider_of_raw rp key) /\ srcs !! i = Some (rp_name rp, src).
Proof.
  revert ps srcs. induction rps as [|rp rps IH]; intros ps srcs Hok.
  - injection Hok as <- <-. split_and!; [done..|]. intros i rp. by rewrite lookup_nil.
  - cbn [providers_of_raw] in Hok. inv_res. destruct x as [key src]. inv_res.
    destruct x as [ps' srcs']. inv_res.
    destruct (IH _ _ eq_refl) as (Hl1 & Hl2 & Hi).
    simpl. split_and!; [lia..|].
    intros [|i] rp' Hrp; simpl in Hrp |- *; [|eauto].
    injection Hrp as <-. eauto.
Qed.

Lemma providers_of_raw_Err rps lookup e :
  providers_of_raw rps lookup = Err e ->
  exists pre rp post, rps = pre ++ rp :: post /\ resolve_api_key rp lookup = Err e /\
    Forall (fun q => is_Ok (resolve_api_key q lookup)) pre.
Proof.
  induction rps as [|rp rps IH]; intros He; [discriminate|]. cbn [providers_of_raw] in He.
  destruct (resolve_api_key rp lookup) as [[key src]|e'] eqn:Er; cbn [result_bind] in He.
  - destruct (providers_of_raw rps lookup) as [[ps srcs]|e'']; cbn [result_bind] in He;
      [discriminate|]. injection He as ->.
    destruct IH as (pre & rp' & post & -> & Hr & HF); [reflexivity|].
    exists (rp :: pre), rp', post. split_and!; [done..|]. constructor; [|done]. eexists. exact Er.
  - injection He as ->. exists [], rp, rps. split_and!; [done..|constructor].
Qed.

(** key resolution is per provider and in order; everything else passes through. *)
Theorem from_raw_with_lookup_spec (raw : RawConfig) (lookup : string -> option string) :
  match from_raw_with_lookup raw lookup with
  | Ok (c, srcs) =>
      length (providers c) = length (raw_providers raw) /\
      length srcs = length (raw_providers raw) /\
      (forall i rp, raw_providers raw !! i = Some rp ->
         exists key src, resolve_api_key rp lookup = Ok (key, src) /\
           providers c !! i = Some (provider_of_raw rp key) /\
           srcs !! i = Some (rp_name rp, src)) /\
      vault c = raw_vault raw /\ server c = raw_server raw
  | Err e =>
      exists pre rp post, raw_providers raw = pre ++ rp :: post /\
        resolve_api_key rp lookup = Err e /\
        Forall (fun q => is_Ok (resolve_api_key q lookup)) pre
  end.
Proof.
  unfold from_raw_with_lookup.
  destruct (providers_of_raw (raw_providers raw) lookup) as [[ps srcs]|e] eqn:E;
    cbn [result_bind].
  - destruct (providers_of_raw_Ok _ _ _ _ E) as (? & ? & ?). simpl. split_and!; done.
  - apply providers_of_raw_Err. exact E.
Qed.

End KeyTheorems.
