(* ===== verification/Errors.v ===== *)
(** * Errors ([src/src/error.rs])

    The program's error type, its [Display] text and its HTTP status.  [reqwest::Error] and
    [sqlx::Error] are foreign: an error carries their text. *)

From S2P Require Import Prelude Machine RustStr Config.


Inductive Error :=
| EConfig (e : ConfigError)
| NoProviders (model : string)
| NoPolicyMatch
| EProvider (msg : string)
| EUpstream (msg : string)
| BadRequest (msg : string)
| NotFound (msg : string)
| Internal (msg : string)
| NoTierMatch (tier : Tier) (model : string)
| CircuitOpen (model : string)
| EDatabase (msg : string).

#[export] Instance Error_eq_dec : EqDecision Error.
Proof. solve_decision. Defined.

(** The [#[error(...)]] texts. *)
Definition Error_to_string (e : Error) : string :=
  match e with
  | EConfig c => "Configuration error: " +:+ ConfigError_to_string c
  | NoProviders model => "No providers available for model '" +:+ model +:+ "'"
  | NoPolicyMatch => "No providers match policy constraints"
  | EProvider m => "Provider error: " +:+ m
  | EUpstream m => "Upstream request failed: " +:+ m
  | BadRequest m => "Invalid request: " +:+ m
  | NotFound m => "Not found: " +:+ m
  | Internal m => "Internal error: " +:+ m
  | NoTierMatch tier model =>
      "No providers match tier '" +:+ Tier_to_string tier +:+ "' for model '" +:+ model +:+ "'"
  | CircuitOpen model => "All providers have open circuits for model '" +:+ model +:+ "'"
  | EDatabase m => "Database error: " +:+ m
  end.

Definition Error_status (e : Error) : Z :=
  match e with
  | EConfig _ => 500
  | NoProviders _ => 400
  | NoPolicyMatch => 400
  | NoTierMatch _ _ => 400
  | EProvider _ => 502
  | EUpstream _ => 502
  | BadRequest _ => 400
  | NotFound _ => 404
  | Internal _ => 500
  | CircuitOpen _ => 503
  | EDatabase _ => 500
  end.

(** The OpenAI-compatible error body: [error.message], [error.type] and [error.code]. *)
Record ErrorBody := { eb_message : string; eb_type : string; eb_code : Z + string }.

(** [IntoResponse for Error]: the status and the body. *)
Definition into_response (e : Error) : Z * ErrorBody :=
  (Error_status e,
   {| eb_message := Error_to_string e; eb_type := "arbstr_error"; eb_code := inl (Error_status e) |}).

(** Every error is a client or server error, never a success or a redirect. *)
Lemma Error_status_range e : (400 <= Error_status e < 600)%Z.
Proof. destruct e; simpl; lia. Qed.
