(* ===== verification/Types.v ===== *)
(** * Request types ([src/src/proxy/types.rs]) and the JSON interface

    [serde_json] is a third-party crate: its values and the accessors the program calls
    are the interface [SerdeJson].  [ToyJson] is a small instance for witnesses. *)

From S2P Require Import Prelude Machine RustStr.

(** ** [serde_json::Value] *)

Class SerdeJson := {
  Value : Type;
  (** [v.get("key")], [v.get(i)] *)
  v_get : string -> Value -> option Value;
  v_get_idx : nat -> Value -> option Value;
  v_as_str : Value -> option string;
  v_as_u64 : Value -> option Z;
  v_as_f64 : Value -> option f64;
  v_is_null : Value -> bool;
  (** [v.as_object_mut()] followed by [insert(key, String(s))]; [None]: not an object. *)
  v_insert_str : string -> string -> Value -> option Value;
  (** [serde_json::from_str], [None] when it fails; [to_vec], or the text of its error. *)
  json_from_str : string -> option Value;
  json_to_string : Value -> result string string;
  json_list_to_string : list Value -> option string;
  (** [as_u64] returns a [u64]. *)
  v_as_u64_range : forall v n, v_as_u64 v = Some n -> in_u64 n;
}.

(** A JSON tree, and an instance whose parser is a table. *)
Inductive Toy :=
| TNull
| TNum (n : Z)
| TStr (s : string)
| TArr (l : list Toy)
| TObj (l : list (string * Toy)).

Definition toy_assoc (k : string) (l : list (string * Toy)) : option Toy :=
  option_map snd (List.find (fun p => String.eqb (fst p) k) l).

Definition toy_as_u64 (v : Toy) : option Z :=
  match v with TNum n => if (0 <=? n)%Z && (n <=? U64_MAX)%Z then Some n else None | _ => None end.

Lemma toy_as_u64_range v n : toy_as_u64 v = Some n -> in_u64 n.
Proof.
  destruct v; simpl; try discriminate. destruct (_ && _)%bool eqn:E; [|discriminate].
  intros [= <-]. breflect. split; assumption.
Qed.

Definition ToyJson (table : list (string * Toy)) : SerdeJson := {|
  Value := Toy;
  v_get := fun k v => match v with TObj l => toy_assoc k l | _ => None end;
  v_get_idx := fun i v => match v with TArr l => l !! i | _ => None end;
  v_as_str := fun v => match v with TStr s => Some s | _ => None end;
  v_as_u64 := toy_as_u64;
  v_as_f64 := fun v => match v with TNum n => Some (f64_of_Z n) | _ => None end;
  v_is_null := fun v => match v with TNull => true | _ => false end;
  v_insert_str := fun k s v =>
    match v with TObj l => Some (TObj (l ++ [(k, TStr s)])) | _ => None end;
  json_from_str := fun s => toy_assoc s table;
  json_to_string := fun _ => Ok "";
  json_list_to_string := fun _ => Some "";
  v_as_u64_range := toy_as_u64_range;
|}.

(** ** Requests *)

Definition f32 : Type := spec_float.

Section Types.
Context `{SerdeJson}.

Inductive MessageContent :=
| Text (s : string)
| Parts (parts : list Value).

Definition MessageContent_default : MessageContent := Text "".

Record Message := {
  m_role : string;
  m_content : MessageContent;
  m_name : option string;
  m_extra : list (string * Value);
}.

Inductive StopSequence :=
| Single (s : string)
| Multiple (l : list string).

Record StreamOptions := { include_usage : option bool }.

Record ChatCompletionRequest := {
  model : string;
  messages : list Message;
  temperature : option f32;
  max_tokens : option Z;
  stream : option bool;
  stream_options : option StreamOptions;
  top_p : option f32;
  frequency_penalty : option f32;
  presence_penalty : option f32;
  stop : option StopSequence;
  user : option string;
  extra : list (string * Value);
}.

(** The text of one content part: [p.get("type")?.as_str()? == "text"]. *)
Definition part_text (p : Value) : option string :=
  match v_get "type" p with
  | None => None
  | Some t =>
    match v_as_str t with
    | None => None
    | Some ty =>
        if String.eqb ty "text"
        then match v_get "text" p with Some x => v_as_str x | None => None end
        else None
    end
  end.

Fixpoint find_map {A B} (f : A -> option B) (l : list A) : option B :=
  match l with
  | [] => None
  | x :: l' => match f x with Some y => Some y | None => find_map f l' end
  end.

Definition content_as_str (c : MessageContent) : string :=
  match c with
  | Text s => s
  | Parts parts => default "" (find_map part_text parts)
  end.

(** [char_len] returns [s.len()]: the length in bytes. *)
Definition char_len (c : MessageContent) : Z :=
  match c with
  | Text s => str_len s
  | Parts parts => match json_list_to_string parts with Some s => str_len s | None => 0%Z end
  end.

Definition user_prompt (r : ChatCompletionRequest) : option string :=
  option_map (fun m => content_as_str (m_content m))
    (List.find (fun m => String.eqb (m_role m) "user") (rev (messages r))).

Definition total_chars (ms : list Message) : Z :=
  fold_right (fun m acc => (char_len (m_content m) + acc)%Z) 0%Z ms.

Definition estimate_tokens (r : ChatCompletionRequest) (default_output : Z) : Z * Z :=
  let input := as_u32 (Z.max (total_chars (messages r) / 4) 1) in
  let output := default default_output (max_tokens r) in
  (input, output).

(** [request.max_tokens = Some(n)] and [request.stream_options = o], the two fields the
    proxy writes. *)
Definition with_max_tokens (r : ChatCompletionRequest) (n : option Z) : ChatCompletionRequest := {|
  model := model r; messages := messages r; temperature := temperature r; max_tokens := n;
  stream := stream r; stream_options := stream_options r; top_p := top_p r;
  frequency_penalty := frequency_penalty r; presence_penalty := presence_penalty r;
  stop := stop r; user := user r; extra := extra r |}.

Definition with_stream_options (r : ChatCompletionRequest) (o : option StreamOptions)
    : ChatCompletionRequest := {|
  model := model r; messages := messages r; temperature := temperature r;
  max_tokens := max_tokens r; stream := stream r; stream_options := o; top_p := top_p r;
  frequency_penalty := frequency_penalty r; presence_penalty := presence_penalty r;
  stop := stop r; user := user r; extra := extra r |}.

Definition ensure_stream_options (r : ChatCompletionRequest) : ChatCompletionRequest :=
  match stream_options r with
  | Some opts =>
      match include_usage opts with
      | None => with_stream_options r (Some {| include_usage := Some true |})
      | Some _ => r
      end
  | None => with_stream_options r (Some {| include_usage := Some true |})
  end.

(** ** Lemmas *)

Lemma char_len_nonneg c : (0 <= char_len c)%Z.
Proof. unfold char_len, str_len. destruct c; [lia|]. destruct (json_list_to_string _); lia. Qed.

Lemma total_chars_nonneg ms : (0 <= total_chars ms)%Z.
Proof.
  induction ms as [|m ms IH]; simpl; [lia|]. pose proof (char_len_nonneg (m_content m)). lia.
Qed.

(** Below 16 GiB of text the input estimate is a quarter of the bytes, at least one. *)
Lemma estimate_tokens_input r d :
  (total_chars (messages r) <= 4 * U32_MAX)%Z ->
  fst (estimate_tokens r d) = Z.max (total_chars (messages r) / 4) 1.
Proof.
  intros Hb. unfold estimate_tokens. simpl. apply as_u32_id. unfold in_u32, U32_MAX in *.
  pose proof (total_chars_nonneg (messages r)).
  pose proof (Z.div_pos (total_chars (messages r)) 4 ltac:(lia) ltac:(lia)).
  pose proof (Z.div_le_upper_bound (total_chars (messages r)) 4 (2 ^ 32 - 1) ltac:(lia)). lia.
Qed.

(** a streaming request asks for usage unless the client chose otherwise; applying it
    twice changes nothing, and every other field is kept. *)
Theorem ensure_stream_options_spec (r : ChatCompletionRequest) :
  (exists b, option_map include_usage (stream_options (ensure_stream_options r)) = Some (Some b) /\
     b = match stream_options r with
         | Some {| include_usage := Some c |} => c
         | _ => true
         end) /\
  ensure_stream_options (ensure_stream_options r) = ensure_stream_options r /\
  with_stream_options (ensure_stream_options r) (stream_options r) = r.
Proof.
  unfold ensure_stream_options. destruct r as [mo ms te mt st so tp fp pp sp us ex]; simpl.
  destruct so as [[[b|]]|]; simpl; split_and!; eauto.
Qed.

End Types.
