(* ===== verification/Router.v ===== *)
(** * Provider selection ([src/src/router/selector.rs])

    [Router] keeps the providers and the policy rules; [select_candidates] filters by
    model, tier and policy, sorts by routing cost and keeps the cheapest entry of each
    name.  [frontier_rates] is the worst case used for reservations and
    [actual_cost_sats] the price of a completed request, in binary64. *)

From S2P Require Import Prelude Machine RustStr Config Errors.

Record SelectedProvider := {
  sp_name : string;
  sp_url : string;
  sp_api_key : option ApiKey;
  sp_input_rate : Z;
  sp_output_rate : Z;
  sp_base_fee : Z;
  sp_tier : Tier;
}.

#[export] Instance SelectedProvider_eq_dec : EqDecision SelectedProvider.
Proof. solve_decision. Defined.

(** [impl From<&ProviderConfig> for SelectedProvider]. *)
Definition SelectedProvider_from (config : ProviderConfig) : SelectedProvider := {|
  sp_name := p_name config;
  sp_url := p_url config;
  sp_api_key := p_api_key config;
  sp_input_rate := p_input_rate config;
  sp_output_rate := p_output_rate config;
  sp_base_fee := p_base_fee config;
  sp_tier := p_tier config;
|}.

Record Router := {
  rt_providers : list ProviderConfig;
  rt_policy_rules : list PolicyRule;
  rt_default_strategy : string;
}.

Definition Router_new (ps : list ProviderConfig) (rs : list PolicyRule) (s : string) : Router :=
  {| rt_providers := ps; rt_policy_rules := rs; rt_default_strategy := s |}.

(** The model filter shared by [select_candidates] and [frontier_rates]: an empty list
    of models matches every model. *)
Definition serves (model : string) (p : ProviderConfig) : bool :=
  match p_models p with [] => true | _ => existsb (fun m => String.eqb m model) (p_models p) end.

(** The sort key [p.output_rate + p.base_fee], in [u64]. *)
Definition routing_cost (p : ProviderConfig) : Z := u64_add (p_output_rate p) (p_base_fee p).

Definition sp_cost (c : SelectedProvider) : Z := u64_add (sp_output_rate c) (sp_base_fee c).

Section Select.
Context `{UnicodeCase}.

(** The keyword loop over the rules: the first rule with a keyword in the prompt. *)
Definition find_by_keyword (rules : list PolicyRule) (prompt : string) : option PolicyRule :=
  let prompt_lower := to_lowercase prompt in
  List.find (fun policy =>
    existsb (fun kw => str_contains prompt_lower (to_lowercase kw)) (r_keywords policy)) rules.

Definition find_policy (rt : Router) (policy_name prompt : option string) : option PolicyRule :=
  let by_name :=
    match policy_name with
    | Some name => List.find (fun p => String.eqb (r_name p) name) (rt_policy_rules rt)
    | None => None
    end in
  match by_name with
  | Some policy => Some policy
  | None =>
      match prompt with
      | Some prompt => find_by_keyword (rt_policy_rules rt) prompt
      | None => None
      end
  end.

Definition model_allowed (policy : PolicyRule) (model : string) : bool :=
  match r_allowed_models policy with
  | [] => true
  | _ => existsb (fun m => String.eqb m model) (r_allowed_models policy)
  end.

Definition within_max_cost (policy : PolicyRule) (p : ProviderConfig) : bool :=
  match r_max_sats_per_1k_output policy with
  | Some max_sats => (p_output_rate p <=? max_sats)%Z
  | None => true
  end.

Definition apply_policy_constraints (candidates : list ProviderConfig) (policy : PolicyRule)
    (model : string) : result (list ProviderConfig) Error :=
  if negb (model_allowed policy model)
  then Err (BadRequest ("Model '" +:+ model +:+ "' not allowed by policy '" +:+ r_name policy +:+ "'"))
  else
    let filtered := retain (within_max_cost policy) candidates in
    if bool_decide (filtered = []) then Err NoPolicyMatch else Ok filtered.

(** The tier filter: [retain] and the [NoTierMatch] return. *)
Definition apply_tier (candidates : list ProviderConfig) (max_tier : option Tier)
    (model : string) : result (list ProviderConfig) Error :=
  match max_tier with
  | None => Ok candidates
  | Some t =>
      let candidates := retain (fun p => Tier_leb (p_tier p) t) candidates in
      if bool_decide (candidates = []) then Err (NoTierMatch t model) else Ok candidates
  end.

Definition apply_policy (candidates : list ProviderConfig) (policy : option PolicyRule)
    (model : string) : result (list ProviderConfig) Error :=
  match policy with
  | Some policy => apply_policy_constraints candidates policy model
  | None => Ok candidates
  end.

Definition select_candidates (rt : Router) (model : string) (policy_name prompt : option string)
    (max_tier : option Tier) : result (list SelectedProvider) Error :=
  let policy := find_policy rt policy_name prompt in
  let candidates := List.filter (serves model) (rt_providers rt) in
  if bool_decide (candidates = []) then Err (NoProviders model) else
  let? candidates := apply_tier candidates max_tier model in
  let? candidates := apply_policy candidates policy model in
  let candidates := sort_by_key routing_cost candidates in
  let unique := map SelectedProvider_from (first_by p_name [] candidates) in
  if bool_decide (unique = []) then Err NoPolicyMatch else Ok unique.

(** [v.remove(0)]: [None] is its panic on an empty vector. *)
Definition select (rt : Router) (model : string) (policy_name prompt : option string)
    (max_tier : option Tier) : option (result SelectedProvider Error) :=
  match select_candidates rt model policy_name prompt max_tier with
  | Err e => Some (Err e)
  | Ok (c :: _) => Some (Ok c)
  | Ok [] => None
  end.

(** [iter.max().unwrap_or(0)]. *)
Definition max_or_0 (l : list Z) : Z := fold_right Z.max 0%Z l.

Definition frontier_rates (rt : Router) (model : string) : option (Z * Z * Z) :=
  let candidates := List.filter (serves model) (rt_providers rt) in
  if bool_decide (candidates = []) then None
  else Some (max_or_0 (map p_input_rate candidates),
             max_or_0 (map p_output_rate candidates),
             max_or_0 (map p_base_fee candidates)).

(** [actual_cost_sats], in binary64. *)
Definition actual_cost_sats (input_tokens output_tokens input_rate output_rate base_fee : Z) : f64 :=
  let input_cost := f64_mul (f64_of_Z input_tokens) (f64_of_Z input_rate) in
  let output_cost := f64_mul (f64_of_Z output_tokens) (f64_of_Z output_rate) in
  f64_add (f64_div (f64_add input_cost output_cost) (f64_of_Z 1000)) (f64_of_Z base_fee).

(** ** What is eligible *)

Definition tier_ok (max_tier : option Tier) (p : ProviderConfig) : bool :=
  match max_tier with Some t => Tier_leb (p_tier p) t | None => true end.

Definition policy_ok (policy : option PolicyRule) (p : ProviderConfig) : bool :=
  match policy with Some r => within_max_cost r p | None => true end.

(** The providers a request may go to, in the order of the configuration. *)
Definition eligible (rt : Router) (model : string) (policy_name prompt : option string)
    (max_tier : option Tier) : list ProviderConfig :=
  List.filter (fun p => serves model p && tier_ok max_tier p
                        && policy_ok (find_policy rt policy_name prompt) p) (rt_providers rt).

(** ** Lemmas *)

Lemma filter_filter {A} (f g : A -> bool) l :
  List.filter f (List.filter g l) = List.filter (fun x => g x && f x) l.
Proof.
  induction l as [|x l IH]; simpl; [done|]. destruct (g x); simpl; [|done].
  destruct (f x); by rewrite IH.
Qed.

Lemma filter_true {A} (l : list A) : List.filter (fun _ => true) l = l.
Proof. induction l; simpl; congruence. Qed.

Lemma filter_and_true {A} (f : A -> bool) l :
  List.filter (fun x => f x && true) l = List.filter f l.
Proof. apply List.filter_ext. intros; apply andb_true_r. Qed.

Lemma apply_tier_eq cs mt model :
  apply_tier cs mt model
  = match mt with
    | Some t => if bool_decide (List.filter (tier_ok mt) cs = []) then Err (NoTierMatch t model)
                else Ok (List.filter (tier_ok mt) cs)
    | None => Ok (List.filter (tier_ok mt) cs)
    end.
Proof.
  destruct mt as [t|]; [reflexivity|]. simpl. symmetry. f_equal. apply filter_true.
Qed.

Lemma map_eq_nil_iff {A B} (f : A -> B) l : map f l = [] <-> l = [].
Proof. destruct l; simpl; split; congruence. Qed.

Lemma first_by_nil {A K} `{EqDecision K} (key : A -> K) l : first_by key [] l = [] -> l = [].
Proof. destruct l; cbn [first_by]; [done|]. case_bool_decide; [done|discriminate]. Qed.

Lemma sort_by_key_nil {A} (key : A -> Z) l : sort_by_key key l = [] -> l = [].
Proof.
  intros Hn. apply Permutation_nil. rewrite <- Hn. symmetry. apply sort_by_key_perm.
Qed.

(** The last [NoPolicyMatch] of [select_candidates] is never reached: sorting and
    deduplicating a non-empty list leaves it non-empty. *)
Lemma unique_nonempty l :
  l <> [] -> map SelectedProvider_from (first_by p_name [] (sort_by_key routing_cost l)) <> [].
Proof.
  intros Hl Hn. apply map_eq_nil_iff, first_by_nil, sort_by_key_nil in Hn. done.
Qed.

(** [select_candidates] by cases, with no unreachable branch. *)
Lemma select_candidates_eq rt model pn prompt mt :
  select_candidates rt model pn prompt mt
  = let served := List.filter (serves model) (rt_providers rt) in
    let tiered := List.filter (tier_ok mt) served in
    let el := eligible rt model pn prompt mt in
    if bool_decide (served = []) then Err (NoProviders model)
    else match mt, bool_decide (tiered = []) with
         | Some t, true => Err (NoTierMatch t model)
         | _, _ =>
           match find_policy rt pn prompt with
           | Some r =>
               if negb (model_allowed r model)
               then Err (BadRequest ("Model '" +:+ model +:+ "' not allowed by policy '"
                                       +:+ r_name r +:+ "'"))
               else if bool_decide (el = []) then Err NoPolicyMatch
               else Ok (map SelectedProvider_from (first_by p_name [] (sort_by_key routing_cost el)))
           | None =>
               Ok (map SelectedProvider_from (first_by p_name [] (sort_by_key routing_cost el)))
           end
         end.
Proof.
  unfold select_candidates, eligible. cbv zeta.
  case_bool_decide as Es; [done|].
  rewrite apply_tier_eq, filter_filter.
  set (tiered := List.filter (fun x => serves model x && tier_ok mt x) (rt_providers rt)).
  assert (Ht : mt = None -> tiered <> []).
  { intros ->. unfold tiered, tier_ok.
    intros Hn. apply Es. rewrite <- Hn. apply List.filter_ext.
    intros; by rewrite andb_true_r. }
  assert (Hgo : tiered <> [] ->
    (let? candidates := apply_policy tiered (find_policy rt pn prompt) model in
     if bool_decide (map SelectedProvider_from
          (first_by p_name [] (sort_by_key routing_cost candidates)) = []) then Err NoPolicyMatch
     else Ok (map SelectedProvider_from (first_by p_name [] (sort_by_key routing_cost candidates))))
    = match find_policy rt pn prompt with
      | Some r =>
          if negb (model_allowed r model)
          then Err (BadRequest ("Model '" +:+ model +:+ "' not allowed by policy '"
                                  +:+ r_name r +:+ "'"))
          else if bool_decide (List.filter (policy_ok (Some r)) tiered = [])
               then Err NoPolicyMatch
          else Ok (map SelectedProvider_from (first_by p_name []
                 (sort_by_key routing_cost (List.filter (policy_ok (Some r)) tiered))))
      | None => Ok (map SelectedProvider_from (first_by p_name [] (sort_by_key routing_cost tiered)))
      end).
  { intros Hne. destruct (find_policy rt pn prompt) as [r|];
      cbn [apply_policy apply_policy_constraints result_bind].
    - unfold apply_policy_constraints. change (policy_ok (Some r)) with (within_max_cost r).
      destruct (model_allowed r model); simpl negb;
        cbv iota; [|reflexivity].
      case_bool_decide as Hf; cbn [result_bind]; [reflexivity|].
      rewrite bool_decide_eq_false_2; [reflexivity|]. by apply unique_nonempty.
    - rewrite bool_decide_eq_false_2; [reflexivity|]. by apply unique_nonempty. }
  unfold tiered in *. clear tiered.
  destruct mt as [t|]; cbn [result_bind].
  - case_bool_decide as Hb; cbn [result_bind]; [reflexivity|]. rewrite Hgo by done.
    destruct (find_policy rt pn prompt); [by rewrite filter_filter|].
    change (policy_ok None) with (fun _ : ProviderConfig => true).
    by rewrite (filter_and_true (fun p => serves model p && tier_ok (Some t) p)).
  - rewrite Hgo by auto. destruct (find_policy rt pn prompt); [by rewrite filter_filter|].
    change (policy_ok None) with (fun _ : ProviderConfig => true).
    by rewrite (filter_and_true (fun p => serves model p && tier_ok None p)).
Qed.

End Select.

Section RouterTheorems.
Context `{UnicodeCase}.
Implicit Types (rt : Router) (model : string) (pn prompt : option string) (mt : option Tier).

(** The successful result, as a function of the eligible providers. *)
Lemma select_candidates_Ok rt model pn prompt mt cs :
  select_candidates rt model pn prompt mt = Ok cs ->
  cs = map SelectedProvider_from
         (first_by p_name [] (sort_by_key routing_cost (eligible rt model pn prompt mt)))
  /\ eligible rt model pn prompt mt <> [].
Proof.
  rewrite select_candidates_eq. cbv zeta. case_bool_decide as Hs; [discriminate|].
  assert (Hgo : forall X : result (list SelectedProvider) Error,
    X = match find_policy rt pn prompt with
        | Some r =>
            if negb (model_allowed r model)
            then Err (BadRequest ("Model '" +:+ model +:+ "' not allowed by policy '"
                                    +:+ r_name r +:+ "'"))
            else if bool_decide (eligible rt model pn prompt mt = []) then Err NoPolicyMatch
            else Ok (map SelectedProvider_from
                   (first_by p_name [] (sort_by_key routing_cost (eligible rt model pn prompt mt))))
        | None => Ok (map SelectedProvider_from
                   (first_by p_name [] (sort_by_key routing_cost (eligible rt model pn prompt mt))))
        end ->
    List.filter (tier_ok mt) (List.filter (serves model) (rt_providers rt)) <> [] ->
    X = Ok cs ->
    cs = map SelectedProvider_from
           (first_by p_name [] (sort_by_key routing_cost (eligible rt model pn prompt mt)))
    /\ eligible rt model pn prompt mt <> []).
  { intros X -> Ht HX. destruct (find_policy rt pn prompt) as [r|] eqn:Ep.
    - destruct (model_allowed r model); [|discriminate]. cbn [negb] in HX.
      case_bool_decide; [discriminate|]. split; congruence.
    - split; [congruence|]. intros He. apply Ht. unfold eligible in He.
      rewrite Ep in He. change (policy_ok None) with (fun _ : ProviderConfig => true) in He.
      rewrite (filter_and_true (fun p => serves model p && tier_ok mt p)) in He.
      rewrite filter_filter. exact He. }
  destruct mt as [t|].
  - destruct (bool_decide (List.filter (tier_ok (Some t)) _ = [])) eqn:Ht; [discriminate|].
    apply bool_decide_eq_false in Ht. apply Hgo; [reflexivity|exact Ht].
  - apply Hgo; [reflexivity|]. intros Hn. apply Hs. rewrite <- Hn. symmetry. apply filter_true.
Qed.

Lemma eligible_In rt model pn prompt mt p :
  In p (eligible rt model pn prompt mt) <->
  In p (rt_providers rt) /\ serves model p = true /\ tier_ok mt p = true
  /\ policy_ok (find_policy rt pn prompt) p = true.
Proof.
  unfold eligible. rewrite filter_In, !andb_true_iff. tauto.
Qed.

Lemma first_by_sorted_In (l : list ProviderConfig) p :
  In p (first_by p_name [] (sort_by_key routing_cost l)) -> In p l.
Proof.
  intros Hp. eapply (sort_by_key_In routing_cost).
  eapply sublist_In; [|exact Hp]. apply first_by_sublist.
Qed.

(** The specification of a candidate list: sound, complete up to the name, cheapest per
    name, sorted and without duplicates. *)
Definition candidates_spec (el : list ProviderConfig) (cs : list SelectedProvider) : Prop :=
  cs <> [] /\
  List.NoDup (map sp_name cs) /\
  StronglySorted (fun a b => (sp_cost a <= sp_cost b)%Z) cs /\
  (forall c, In c cs -> exists p, In p el /\ c = SelectedProvider_from p) /\
  (forall p, In p el -> exists c, In c cs /\ sp_name c = p_name p /\ (sp_cost c <= routing_cost p)%Z).

Lemma select_candidates_meets_spec rt model pn prompt mt cs :
  select_candidates rt model pn prompt mt = Ok cs ->
  candidates_spec (eligible rt model pn prompt mt) cs.
Proof.
  intros Hok. apply select_candidates_Ok in Hok as [-> Hne].
  set (el := eligible rt model pn prompt mt) in *.
  pose proof (sort_by_key_sorted routing_cost el) as Hsorted.
  split_and!.
  - by apply unique_nonempty.
  - rewrite List.map_map. apply (first_by_NoDup p_name).
  - assert (Hs : StronglySorted (key_le routing_cost)
                   (first_by p_name [] (sort_by_key routing_cost el)))
      by (eapply sublist_StronglySorted; [|exact Hsorted]; apply first_by_sublist).
    induction Hs as [|x l Hs IH Hall]; simpl; constructor; [done|].
    rewrite List.Forall_forall in Hall |- *. intros c Hc.
    apply in_map_iff in Hc as (p & <- & Hp). apply (Hall p Hp).
  - intros c Hc. apply in_map_iff in Hc as (p & <- & Hp). exists p. split; [|done].
    by apply first_by_sorted_In.
  - intros p Hp. unshelve epose proof (first_by_represents p_name (key_le routing_cost) []
      (sort_by_key routing_cost el) p Hsorted _ _) as (q & Hq & Hn & Hle).
    + intros x. unfold key_le. lia.
    + by apply sort_by_key_In.
    + simpl. tauto.
    + exists (SelectedProvider_from q). split_and!; [by apply in_map|done|exact Hle].
Qed.

(** C21: what [select_candidates] returns. *)
Theorem select_candidates_correct rt model pn prompt mt cs :
  select_candidates rt model pn prompt mt = Ok cs ->
  candidates_spec (eligible rt model pn prompt mt) cs.
Proof. apply select_candidates_meets_spec. Qed.

(** when it fails, and with which error. *)
Theorem select_candidates_error rt model pn prompt mt e :
  select_candidates rt model pn prompt mt = Err e <->
  let served := List.filter (serves model) (rt_providers rt) in
  let tiered := List.filter (tier_ok mt) served in
  (served = [] /\ e = NoProviders model) \/
  (exists t, mt = Some t /\ served <> [] /\ tiered = [] /\ e = NoTierMatch t model) \/
  (served <> [] /\ tiered <> [] /\ exists r, find_policy rt pn prompt = Some r /\
     ((model_allowed r model = false /\
       e = BadRequest ("Model '" +:+ model +:+ "' not allowed by policy '" +:+ r_name r +:+ "'")) \/
      (model_allowed r model = true /\ eligible rt model pn prompt mt = [] /\ e = NoPolicyMatch))).
Proof.
  rewrite select_candidates_eq. cbv zeta.
  set (served := List.filter (serves model) (rt_providers rt)).
  set (tiered := List.filter (tier_ok mt) served).
  assert (Ht : mt = None -> tiered = served)
    by (intros Hm; unfold tiered; rewrite Hm; apply filter_true).
  case_bool_decide as Hs.
  { split; [intros [= <-]; by left|]. intros [[_ ->]|[(t & _ & ? & _)|(? & _)]]; done. }
  destruct (bool_decide (tiered = [])) eqn:Hb.
  - apply bool_decide_eq_true in Hb. destruct mt as [t|].
    + split; [intros [= <-]; right; left; eauto|].
      intros [[? _]|[(t' & [= <-] & _ & _ & ->)|(_ & ? & _)]]; done.
    + rewrite Ht in Hb by done. done.
  - apply bool_decide_eq_false in Hb.
    assert (Hm : forall X Y : result (list SelectedProvider) Error,
      (match mt with Some t => X | None => X end) = X) by (destruct mt; reflexivity).
    rewrite (Hm _ (Err e)). destruct (find_policy rt pn prompt) as [r|] eqn:Ep.
    + destruct (model_allowed r model) eqn:Ea; cbn [negb].
      * case_bool_decide as He.
        -- split; [intros [= <-]; right; right; split_and!; eauto 10|].
           intros [[? _]|[(t & -> & _ & ? & _)|(_ & _ & r' & [= <-] & [[? _]|(_ & _ & ->)])]]; congruence.
        -- split; [discriminate|].
           intros [[? _]|[(t & -> & _ & ? & _)|(_ & _ & r' & [= <-] & [[? _]|(_ & ? & _)])]]; congruence.
      * split; [intros [= <-]; right; right; split_and!; eauto 10|].
        intros [[? _]|[(t & -> & _ & ? & _)|(_ & _ & r' & [= <-] & [[_ ->]|(? & _)])]]; congruence.
    + split; [discriminate|].
      intros [[? _]|[(t & -> & _ & ? & _)|(_ & _ & r' & ? & _)]]; congruence.
Qed.

(** [select] never panics; it is the head of the candidates, no eligible provider
    costs less. *)
Theorem select_cheapest rt model pn prompt mt :
  match select rt model pn prompt mt with
  | None => False
  | Some (Err e) => select_candidates rt model pn prompt mt = Err e
  | Some (Ok c) =>
      (exists p, In p (eligible rt model pn prompt mt) /\ c = SelectedProvider_from p) /\
      (forall p, In p (eligible rt model pn prompt mt) -> (sp_cost c <= routing_cost p)%Z)
  end.
Proof.
  unfold select. destruct (select_candidates rt model pn prompt mt) as [[|c cs]|e] eqn:E; [| |done].
  - by apply select_candidates_meets_spec in E as [? _].
  - apply select_candidates_meets_spec in E as (_ & _ & Hs & Hsound & Hcompl).
    split; [apply Hsound; by left|]. intros p Hp. destruct (Hcompl p Hp) as (d & Hd & _ & Hle).
    destruct Hd as [->|Hd]; [done|]. inversion Hs as [|? ? _ Hall]; subst.
    rewrite List.Forall_forall in Hall. specialize (Hall d Hd). simpl in Hall. lia.
Qed.

(** an empty model list is a wildcard: such a provider serves every model. *)
Theorem empty_models_match_everything rt model pn prompt mt p :
  In p (rt_providers rt) -> p_models p = [] ->
  serves model p = true /\
  select_candidates rt model pn prompt mt <> Err (NoProviders model).
Proof.
  intros Hin Hm. assert (Hs : serves model p = true) by (unfold serves; by rewrite Hm).
  split; [exact Hs|]. rewrite select_candidates_eq. cbv zeta.
  rewrite bool_decide_eq_false_2.
  - destruct mt; [destruct (bool_decide _)|]; repeat break_match; congruence.
  - intros Hn. assert (In p (List.filter (serves model) (rt_providers rt))) as Hf
      by (apply filter_In; auto). rewrite Hn in Hf. done.
Qed.

Lemma max_or_0_ub l z : In z l -> (z <= max_or_0 l)%Z.
Proof. induction l as [|y l IH]; simpl; [done|]. intros [->|Hz]; [lia|]. specialize (IH Hz). lia. Qed.

Lemma max_or_0_In l : l <> [] -> Forall (fun z => 0 <= z)%Z l -> In (max_or_0 l) l.
Proof.
  induction l as [|y l IH]; [done|]. intros _ HF. inversion HF; subst. simpl.
  destruct l as [|z l]; [left; simpl; lia|].
  destruct (Z.max_spec y (max_or_0 (z :: l))) as [[_ ->]|[_ ->]]; [right|by left].
  apply IH; done.
Qed.

(** Each rate of a provider that serves the model is at most the frontier rate. *)
Lemma frontier_rates_ub rt model p ir or bf :
  frontier_rates rt model = Some (ir, or, bf) -> In p (rt_providers rt) -> serves model p = true ->
  (p_input_rate p <= ir)%Z /\ (p_output_rate p <= or)%Z /\ (p_base_fee p <= bf)%Z.
Proof.
  unfold frontier_rates. cbv zeta. case_bool_decide; [discriminate|]. intros [= <- <- <-] Hin Hs.
  assert (Hf : In p (List.filter (serves model) (rt_providers rt))) by (apply filter_In; auto).
  split_and!; apply max_or_0_ub; by apply in_map.
Qed.

Lemma frontier_rates_None rt model :
  frontier_rates rt model = None <-> List.filter (serves model) (rt_providers rt) = [].
Proof. unfold frontier_rates. cbv zeta. case_bool_decide; split; congruence. Qed.

End RouterTheorems.

(** ** Witnesses *)

Section RouterWitnesses.
#[local] Existing Instance AsciiCase.

Definition provider_ex (name : string) (models : list string) (out base : Z) (tier : Tier)
    : ProviderConfig := {|
  p_name := name; p_url := "http://" +:+ name; p_api_key := None; p_models := models;
  p_input_rate := 1; p_output_rate := out; p_base_fee := base; p_tier := tier;
  p_auto_discover := false |}.

(** Two prices under one name, and a wildcard provider. *)
Definition router_ex : Router := Router_new
  [provider_ex "alpha" ["gpt-4o"] 30 0 Frontier; provider_ex "alpha" ["gpt-4o"] 20 0 Frontier;
   provider_ex "beta" ["gpt-4o"] 10 5 Standard; provider_ex "any" [] 40 0 Local]
  [] "cheapest".

Lemma select_candidates_correct_witness :
  candidates_spec (eligible router_ex "gpt-4o" None None None)
    (map SelectedProvider_from [provider_ex "beta" ["gpt-4o"] 10 5 Standard;
                                provider_ex "alpha" ["gpt-4o"] 20 0 Frontier;
                                provider_ex "any" [] 40 0 Local]).
Proof. apply (select_candidates_correct router_ex "gpt-4o" None None None). vm_compute. reflexivity. Defined.

Lemma empty_models_match_everything_witness :
  serves "unheard-of" (provider_ex "any" [] 40 0 Local) = true.
Proof.
  apply (empty_models_match_everything router_ex "unheard-of" None None None
           (provider_ex "any" [] 40 0 Local)).
  - simpl. auto.
  - reflexivity.
Defined.

End RouterWitnesses.
