(* ===== verification/CircuitBreaker.v ===== *)
(** * Circuit breakers ([src/src/proxy/circuit_breaker.rs])

    The state machine of one breaker, the registry with one breaker per provider, permit
    acquisition with queue-and-wait, and the probe guard.  Instants are nanoseconds.  The
    watch channel of [tokio] is the interface [Watch], with the documented behaviour of
    [send], [subscribe] and [changed] as its laws. *)

From S2P Require Import Prelude Machine RustStr Timed.

(** ** States and results *)

Definition FAILURE_THRESHOLD : Z := 3.
Definition OPEN_DURATION : Z := secs 30.

Inductive CircuitState := Closed | Open | HalfOpen.

#[export] Instance CircuitState_eq_dec : EqDecision CircuitState.
Proof. solve_decision. Defined.

Definition CircuitState_as_str (s : CircuitState) : string :=
  match s with Closed => "closed" | Open => "open" | HalfOpen => "half_open" end.

Record CircuitSnapshot := { cs_name : string; cs_state : CircuitState; cs_failure_count : Z }.

Inductive ProbeResult := Pending | ProbeSucceeded | ProbeFailed.

Inductive CheckResult := Allowed | ProbePermit | WaitForProbe | Rejected.

#[export] Instance CheckResult_eq_dec : EqDecision CheckResult.
Proof. solve_decision. Defined.

Record LastError := { error_type : string; le_message : string }.

Record CircuitOpenError := { coe_provider : string; coe_reason : string; coe_trip_count : Z }.

Definition CircuitOpenError_display (e : CircuitOpenError) : string :=
  "Circuit breaker open for provider '" +:+ coe_provider e +:+ "': " +:+ coe_reason e.

(** ** One breaker *)

Record CircuitBreakerInner := mkInner {
  state : CircuitState;
  failure_count : Z;
  opened_at : option Instant;
  last_failure_time : option Instant;
  last_success_time : option Instant;
  last_error : option LastError;
  trip_count : Z;
  probe_in_flight : bool;
}.

Definition CircuitBreakerInner_new : CircuitBreakerInner :=
  mkInner Closed 0 None None None None 0 false.

(** [now.duration_since(t)] saturates at zero. *)
Definition duration_since (now t : Instant) : Z := Z.max 0 (now - t).

Definition try_acquire_probe (cb : CircuitBreakerInner) : CheckResult * CircuitBreakerInner :=
  if negb (probe_in_flight cb)
  then (ProbePermit,
        mkInner (state cb) (failure_count cb) (opened_at cb) (last_failure_time cb)
          (last_success_time cb) (last_error cb) (trip_count cb) true)
  else (WaitForProbe, cb).

Definition check_state (now : Instant) (cb : CircuitBreakerInner)
    : CheckResult * CircuitBreakerInner :=
  match state cb with
  | Closed => (Allowed, cb)
  | Open =>
      match opened_at cb with
      | Some opened =>
          if (OPEN_DURATION <=? duration_since now opened)%Z then
            try_acquire_probe
              (mkInner HalfOpen (failure_count cb) (opened_at cb) (last_failure_time cb)
                 (last_success_time cb) (last_error cb) (trip_count cb) false)
          else (Rejected, cb)
      | None => (Rejected, cb)
      end
  | HalfOpen => try_acquire_probe cb
  end.

Definition record_failure_inner (now : Instant) (etype message : string)
    (cb : CircuitBreakerInner) : CircuitBreakerInner :=
  let fc := u32_add (failure_count cb) 1 in
  let err := Some {| error_type := etype; le_message := message |} in
  if (FAILURE_THRESHOLD <=? fc)%Z
  then mkInner Open fc (Some now) (Some now) (last_success_time cb) err
         (u32_add (trip_count cb) 1) (probe_in_flight cb)
  else mkInner (state cb) fc (opened_at cb) (Some now) (last_success_time cb) err
         (trip_count cb) (probe_in_flight cb).

Definition record_success_inner (now : Instant) (cb : CircuitBreakerInner)
    : CircuitBreakerInner :=
  mkInner (state cb) 0 (opened_at cb) (last_failure_time cb) (Some now) (last_error cb)
    (trip_count cb) (probe_in_flight cb).

Definition record_probe_success_inner (now : Instant) (cb : CircuitBreakerInner)
    : CircuitBreakerInner :=
  mkInner Closed 0 (opened_at cb) (last_failure_time cb) (Some now) (last_error cb)
    (trip_count cb) false.

Definition record_probe_failure_inner (now : Instant) (etype message : string)
    (cb : CircuitBreakerInner) : CircuitBreakerInner :=
  mkInner Open (failure_count cb) (Some now) (last_failure_time cb) (last_success_time cb)
    (Some {| error_type := etype; le_message := message |}) (trip_count cb) false.

(** *** The breaker as a transition system

    Any task may call any method at any time (the methods do not look at the state they
    are documented for). *)

Inductive cb_op :=
| OpCheck
| OpFailure (etype message : string)
| OpSuccess
| OpProbeSuccess
| OpProbeFailure (etype message : string).

Definition cb_exec (now : Instant) (op : cb_op) (cb : CircuitBreakerInner)
    : option CheckResult * CircuitBreakerInner :=
  match op with
  | OpCheck => let '(r, cb') := check_state now cb in (Some r, cb')
  | OpFailure t m => (None, record_failure_inner now t m cb)
  | OpSuccess => (None, record_success_inner now cb)
  | OpProbeSuccess => (None, record_probe_success_inner now cb)
  | OpProbeFailure t m => (None, record_probe_failure_inner now t m cb)
  end.

Inductive cb_step : CircuitBreakerInner -> CircuitBreakerInner -> Prop :=
| CbStep now op cb : cb_step cb (snd (cb_exec now op cb)).

Fixpoint cb_run (ops : list (Instant * cb_op)) (cb : CircuitBreakerInner) : CircuitBreakerInner :=
  match ops with
  | [] => cb
  | (now, op) :: ops' => cb_run ops' (snd (cb_exec now op cb))
  end.

(** What holds of a breaker in every reachable state. *)
Definition cb_inv (cb : CircuitBreakerInner) : Prop :=
  in_u32 (failure_count cb) /\
  (state cb = Closed -> failure_count cb < FAILURE_THRESHOLD) /\
  (state cb = Open -> opened_at cb <> None) /\
  (state cb = HalfOpen -> opened_at cb <> None /\ probe_in_flight cb = true).

Lemma cb_inv_new : cb_inv CircuitBreakerInner_new.
Proof. unfold cb_inv, in_u32, U32_MAX, FAILURE_THRESHOLD; simpl. split_and!; try done; lia. Qed.

Lemma cb_inv_exec now op cb : cb_inv cb -> cb_inv (snd (cb_exec now op cb)).
Proof.
  intros (Hr & Hc & Ho & Hh).
  assert (H0 : in_u32 0) by (unfold in_u32, U32_MAX; lia).
  destruct op as [|t m| | |t m]; simpl.
  - unfold check_state. destruct (state cb) eqn:Es; simpl; [split_and!; auto; congruence| |].
    + destruct (opened_at cb) as [t|] eqn:Eo; simpl; [|by destruct Ho].
      destruct (OPEN_DURATION <=? _); simpl; split_and!; auto; try congruence; done.
    + unfold try_acquire_probe. destruct Hh as [Hh1 Hh2]; [done|]. rewrite Hh2. simpl.
      split_and!; auto; congruence.
  - unfold record_failure_inner. destruct (Z.leb_spec FAILURE_THRESHOLD (u32_add (failure_count cb) 1));
      (split; [apply as_u32_range|]); simpl; (split; [|split]); intros; try done; auto.
  - unfold cb_inv, record_success_inner, FAILURE_THRESHOLD in *; simpl; split_and!; auto; lia.
  - unfold cb_inv, record_probe_success_inner, FAILURE_THRESHOLD; simpl; split_and!; auto; try done; lia.
  - unfold cb_inv; simpl; split_and!; auto; done.
Qed.

Lemma cb_run_app ops1 ops2 cb : cb_run (ops1 ++ ops2) cb = cb_run ops2 (cb_run ops1 cb).
Proof. revert cb. induction ops1 as [|[now op] ops1 IH]; intros cb; simpl; auto. Qed.

Lemma cb_run_star ops cb : star cb_step cb (cb_run ops cb).
Proof.
  revert cb. induction ops as [|[now op] ops IH]; intros cb; simpl; [constructor|].
  eapply star_cons; [constructor|apply IH].
Qed.

Lemma cb_inv_star cb cb' : star cb_step cb cb' -> cb_inv cb -> cb_inv cb'.
Proof.
  apply star_invariant. intros s s' Hi Hst. inversion Hst; subst. by apply cb_inv_exec.
Qed.

(** C24: the invariant of every reachable breaker, whatever methods are called when. *)
Theorem breaker_invariant (cb : CircuitBreakerInner) :
  star cb_step CircuitBreakerInner_new cb ->
  in_u32 (failure_count cb) /\
  (state cb = Closed -> failure_count cb < FAILURE_THRESHOLD) /\
  (state cb = Open -> opened_at cb <> None) /\
  (state cb = HalfOpen -> opened_at cb <> None /\ probe_in_flight cb = true).
Proof. intros Hs. exact (cb_inv_star _ _ Hs cb_inv_new). Qed.

Lemma breaker_invariant_witness :
  let cb := cb_run [(0, OpFailure "5xx" "HTTP 500"); (1, OpFailure "5xx" "HTTP 500");
                    (2, OpFailure "5xx" "HTTP 500"); (secs 40, OpCheck)] CircuitBreakerInner_new in
  state cb = HalfOpen /\ probe_in_flight cb = true.
Proof.
  split; [vm_compute; reflexivity|].
  apply (breaker_invariant _ (cb_run_star _ _)). vm_compute. reflexivity.
Defined.

(** *** Tripping: exactly on three consecutive failures *)

Definition outcome_op (o : option (string * string)) : cb_op :=
  match o with Some (t, m) => OpFailure t m | None => OpSuccess end.

Definition outcome_ops (evs : list (Instant * option (string * string))) : list (Instant * cb_op) :=
  map (fun e => (fst e, outcome_op (snd e))) evs.

Definition is_failure (o : option (string * string)) : bool :=
  match o with Some _ => true | None => false end.

(** Three failures in a row, somewhere in the history. *)
Definition three_in_a_row (h : list bool) : Prop :=
  exists l1 l2, h = l1 ++ [true; true; true] ++ l2.

(** The failures since the last success. *)
Definition trailing (h : list bool) : Z :=
  fold_left (fun n (f : bool) => if f then n + 1 else 0)%Z h 0%Z.

Lemma trailing_snoc h f : trailing (h ++ [f]) = (if f then trailing h + 1 else 0)%Z.
Proof. unfold trailing. by rewrite fold_left_app. Qed.

Lemma trailing_nonneg h : 0 <= trailing h.
Proof.
  induction h as [|f h IH] using rev_ind; [done|]. rewrite trailing_snoc. destruct f; lia.
Qed.

Lemma trailing_suffix (n : nat) h :
  Z.of_nat n <= trailing h -> exists l, h = l ++ repeat true n.
Proof.
  revert n. induction h as [|f h IH] using rev_ind; intros n Hn.
  - destruct n; [by exists []|]. unfold trailing in Hn. simpl in Hn. lia.
  - rewrite trailing_snoc in Hn. destruct n as [|n]; [exists (h ++ [f]); by rewrite app_nil_r|].
    destruct f; [|lia]. destruct (IH n) as [l ->]; [lia|]. exists l.
    rewrite <- app_assoc. f_equal. symmetry. apply repeat_cons.
Qed.

Lemma three_in_a_row_snoc h f :
  three_in_a_row (h ++ [f]) -> ~ three_in_a_row h -> f = true /\ 2 <= trailing h.
Proof.
  intros (l1 & l2 & Heq) Hn. destruct l2 as [|x l2 _] using rev_ind.
  - rewrite app_nil_r in Heq. change [true; true; true] with ([true; true] ++ [true]) in Heq.
    rewrite app_assoc in Heq. apply app_inj_tail in Heq as [-> ->]. split; [done|].
    change [true; true] with ([true] ++ [true]). rewrite app_assoc, !trailing_snoc.
    pose proof (trailing_nonneg l1). lia.
  - exfalso. apply Hn. rewrite !app_assoc in Heq. apply app_inj_tail in Heq as [-> _].
    exists l1, l2. by rewrite <- app_assoc.
Qed.

Lemma trip_characterised evs :
  let h := map (fun e => is_failure (snd e)) evs in
  let cb := cb_run (outcome_ops evs) CircuitBreakerInner_new in
  (state cb = Closed /\ failure_count cb = trailing h /\ trailing h <= 2 /\ ~ three_in_a_row h)
  \/ (state cb = Open /\ three_in_a_row h).
Proof.
  induction evs as [|[now o] evs IH] using rev_ind.
  - left. split_and!; [done|done|done|]. intros (l1 & l2 & Heq). destruct l1; done.
  - cbv zeta in IH |- *. unfold outcome_ops in *. rewrite !map_app, cb_run_app. simpl.
    set (h := map (fun e => is_failure (snd e)) evs) in *. set (cb := cb_run _ _) in *.
    destruct IH as [(Hs & Hf & Hle & Hn)|(Hs & l1 & l2 & Heq)].
    + pose proof (trailing_nonneg h) as Hnn. destruct o as [[t m]|]; simpl.
      * assert (Hu : u32_add (failure_count cb) 1 = (trailing h + 1)%Z)
          by (rewrite Hf; apply as_u32_id; unfold in_u32, U32_MAX; lia).
        unfold record_failure_inner. rewrite Hu, trailing_snoc.
        destruct (Z.leb_spec FAILURE_THRESHOLD (trailing h + 1)) as [H3|H3];
          unfold FAILURE_THRESHOLD in H3; simpl.
        -- right. split; [done|]. destruct (trailing_suffix 2 h) as [l Hl]; [simpl; lia|].
           exists l, []. rewrite Hl, <- app_assoc. done.
        -- left. split_and!; [done..|lia|]. intros H3r.
           destruct (three_in_a_row_snoc _ _ H3r Hn). lia.
      * left. rewrite trailing_snoc. split_and!; [done|done|lia|]. intros H3r.
        destruct (three_in_a_row_snoc _ _ H3r Hn). done.
    + right. split.
      * destruct o as [[t m]|]; simpl; [|done]. unfold record_failure_inner.
        destruct (_ <=? _)%Z; done.
      * exists l1, (l2 ++ [is_failure o]). rewrite Heq. by rewrite <- !app_assoc.
Qed.

(** C25: with no check or probe in between, a new breaker is open exactly when the recorded
    outcomes contain three failures in a row, and closed otherwise. *)
Theorem opens_on_three_consecutive_failures (evs : list (Instant * option (string * string))) :
  let cb := cb_run (outcome_ops evs) CircuitBreakerInner_new in
  (state cb = Open <-> three_in_a_row (map (fun e => is_failure (snd e)) evs)) /\
  (state cb = Closed <-> ~ three_in_a_row (map (fun e => is_failure (snd e)) evs)).
Proof.
  destruct (trip_characterised evs) as [(Hs & _ & _ & Hn)|(Hs & H3)]; cbv zeta; rewrite Hs;
    intuition congruence.
Qed.

(** *** The open window and the single permit *)

Definition is_open_at (cb : CircuitBreakerInner) (t : Instant) : Prop :=
  state cb = Open /\ opened_at cb = Some t.

Definition checks (times : list Instant) : list (Instant * cb_op) := map (fun t => (t, OpCheck)) times.

(** The results of a run of checks, in order. *)
Fixpoint check_results (times : list Instant) (cb : CircuitBreakerInner) : list CheckResult :=
  match times with
  | [] => []
  | t :: ts => let '(r, cb') := check_state t cb in r :: check_results ts cb'
  end.

Lemma check_open_before cb t now :
  is_open_at cb t -> now < t + OPEN_DURATION -> check_state now cb = (Rejected, cb).
Proof.
  intros [Hs Ho] Hlt. unfold check_state. rewrite Hs, Ho. unfold duration_since.
  destruct (Z.leb_spec OPEN_DURATION (Z.max 0 (now - t))) as [Hge|]; [|done].
  unfold OPEN_DURATION, secs in *. lia.
Qed.

Lemma check_open_after cb t now :
  is_open_at cb t -> t + OPEN_DURATION <= now ->
  exists cb', check_state now cb = (ProbePermit, cb') /\ state cb' = HalfOpen /\
    probe_in_flight cb' = true /\ opened_at cb' = Some t /\ trip_count cb' = trip_count cb.
Proof.
  intros [Hs Ho] Hge. unfold check_state. rewrite Hs, Ho. unfold duration_since.
  destruct (Z.leb_spec OPEN_DURATION (Z.max 0 (now - t))) as [|Hlt].
  - eexists. split; [reflexivity|]. done.
  - unfold OPEN_DURATION, secs in *. lia.
Qed.

Lemma check_half_open_busy cb now :
  state cb = HalfOpen -> probe_in_flight cb = true -> check_state now cb = (WaitForProbe, cb).
Proof. intros Hs Hp. unfold check_state, try_acquire_probe. by rewrite Hs, Hp. Qed.

Lemma checks_stuck cb times :
  state cb = HalfOpen -> probe_in_flight cb = true ->
  check_results times cb = repeat WaitForProbe (length times) /\ cb_run (checks times) cb = cb.
Proof.
  intros Hs Hp. induction times as [|t ts IH]; [done|].
  simpl. rewrite check_half_open_busy by done. destruct IH as [-> IH]. split; [done|exact IH].
Qed.

(** C26: an open breaker rejects for the whole window; the first check after it gets the
    only permit, and every later check waits until the probe is resolved. *)
Theorem open_window_then_single_permit (cb : CircuitBreakerInner) (t : Instant)
    (early : list Instant) (now : Instant) (late : list Instant) :
  is_open_at cb t ->
  Forall (fun s => s < t + OPEN_DURATION) early ->
  t + OPEN_DURATION <= now ->
  check_results (early ++ now :: late) cb
  = repeat Rejected (length early) ++ ProbePermit :: repeat WaitForProbe (length late).
Proof.
  intros Ho He Hn. induction He as [|s early Hs He IH]; simpl.
  - destruct (check_open_after cb t now Ho Hn) as (cb' & -> & Hh & Hp & _).
    by destruct (checks_stuck cb' late Hh Hp) as [-> _].
  - rewrite (check_open_before cb t s) by done. by rewrite IH.
Qed.

Lemma open_window_then_single_permit_witness :
  check_results [secs 1; secs 29; secs 31; secs 32]
    (cb_run [(0, OpFailure "a" "b"); (0, OpFailure "a" "b"); (0, OpFailure "a" "b")]
       CircuitBreakerInner_new)
  = [Rejected; Rejected; ProbePermit; WaitForProbe].
Proof.
  apply (open_window_then_single_permit _ 0 [secs 1; secs 29] (secs 31) [secs 32]).
  - split; vm_compute; reflexivity.
  - repeat constructor.
  - vm_compute. discriminate.
Defined.

(** a probe permit that is never resolved blocks the provider for good: every later
    check, at any time, waits, and leaves the breaker as it is. *)
Theorem unresolved_probe_blocks_forever (cb : CircuitBreakerInner) (times : list Instant) :
  state cb = HalfOpen -> probe_in_flight cb = true ->
  check_results times cb = repeat WaitForProbe (length times) /\ cb_run (checks times) cb = cb.
Proof. apply checks_stuck. Qed.

Lemma unresolved_probe_blocks_forever_witness :
  let cb := mkInner HalfOpen 3 (Some 0) (Some 0) None None 1 true in
  check_results [secs 60; secs 3600; secs 86400] cb = [WaitForProbe; WaitForProbe; WaitForProbe].
Proof. apply (unresolved_probe_blocks_forever _ [secs 60; secs 3600; secs 86400]); reflexivity. Defined.

(** *** Permits and their resolution

    A ghost count of the probe permits granted and not resolved.  The documented
    discipline: [record_failure] and [record_success] only on a closed circuit, a probe
    result only by a holder of a permit. *)

Inductive guarded_step : CircuitBreakerInner * nat -> CircuitBreakerInner * nat -> Prop :=
| GCheck now cb n :
    guarded_step (cb, n)
      (snd (check_state now cb),
       if decide (fst (check_state now cb) = ProbePermit) then S n else n)
| GFailure now t m cb n : state cb = Closed ->
    guarded_step (cb, n) (record_failure_inner now t m cb, n)
| GSuccess now cb n : state cb = Closed -> guarded_step (cb, n) (record_success_inner now cb, n)
| GProbeSuccess now cb n : guarded_step (cb, S n) (record_probe_success_inner now cb, n)
| GProbeFailure now t m cb n : guarded_step (cb, S n) (record_probe_failure_inner now t m cb, n).

(** The same steps without the discipline on [record_failure] and [record_success]. *)
Inductive any_step : CircuitBreakerInner * nat -> CircuitBreakerInner * nat -> Prop :=
| AGuarded s s' : guarded_step s s' -> any_step s s'
| AFailure now t m cb n : any_step (cb, n) (record_failure_inner now t m cb, n)
| ASuccess now cb n : any_step (cb, n) (record_success_inner now cb, n).

Definition permit_inv (s : CircuitBreakerInner * nat) : Prop :=
  let '(cb, n) := s in
  n = (if probe_in_flight cb then 1 else 0)%nat /\ (probe_in_flight cb = true <-> state cb = HalfOpen).

Lemma permit_inv_step s s' : permit_inv s -> guarded_step s s' -> permit_inv s'.
Proof.
  intros Hi Hst. destruct Hst as [now cb n|now t m cb n Hc|now cb n Hc|now cb n|now t m cb n];
    destruct Hi as [Hn Hp].
  - unfold check_state, try_acquire_probe.
    destruct (state cb) eqn:Es; simpl; [by rewrite Es| |].
    + destruct (probe_in_flight cb) eqn:Ep; [by destruct Hp as [Hp _]; discriminate Hp|].
      destruct (opened_at cb); simpl; [|by rewrite Es, Ep].
      destruct (_ <=? _)%Z; simpl; [|by rewrite Es, Ep]. subst n. done.
    + destruct Hp as [_ Hp]. rewrite (Hp eq_refl) in *. simpl. by rewrite Es, Hp.
  - unfold permit_inv, record_failure_inner. destruct (probe_in_flight cb) eqn:Ep.
    + destruct Hp as [Hp _]. rewrite Hp in Hc by done. discriminate.
    + destruct (_ <=? _)%Z; simpl; rewrite ?Ep, ?Hc; done.
  - simpl. split; done.
  - simpl in *. destruct (probe_in_flight cb); [injection Hn as ->; done|discriminate].
  - simpl in *. destruct (probe_in_flight cb); [injection Hn as ->; done|discriminate].
Qed.

(** under the discipline at most one probe is in flight, and the flag says which. *)
Theorem single_probe_in_flight (cb : CircuitBreakerInner) (n : nat) :
  star guarded_step (CircuitBreakerInner_new, 0%nat) (cb, n) ->
  (n <= 1)%nat /\ (n = 1%nat <-> state cb = HalfOpen).
Proof.
  intros Hs. pose proof (star_invariant _ permit_inv permit_inv_step _ _ Hs) as Hi.
  destruct Hi as [-> Hp]; [by split|].
  destruct (probe_in_flight cb) eqn:E; split; [lia|tauto|lia|].
  split; [lia|]. intros Hh. apply Hp in Hh. discriminate.
Qed.

Lemma single_probe_in_flight_witness :
  exists cb, star guarded_step (CircuitBreakerInner_new, 0%nat) (cb, 1%nat) /\ state cb = HalfOpen.
Proof.
  assert (Hs : exists cb, star guarded_step (CircuitBreakerInner_new, 0%nat) (cb, 1%nat)).
  { eexists.
    eapply star_cons; [apply (GFailure 0 "5xx" "HTTP 500"); reflexivity|].
    eapply star_cons; [apply (GFailure 0 "5xx" "HTTP 500"); reflexivity|].
    eapply star_cons; [apply (GFailure 0 "5xx" "HTTP 500"); reflexivity|].
    eapply star_cons; [apply (GCheck (secs 30))|].
    vm_compute. apply star_nil. }
  destruct Hs as [cb Hs]. exists cb. split; [exact Hs|].
  apply (single_probe_in_flight cb 1 Hs). reflexivity.
Defined.

(** without it (a request admitted earlier fails while the probe runs) a second probe
    is let through 30 seconds later, with the first still in flight. *)
Theorem second_probe_without_discipline :
  exists cb, star any_step (CircuitBreakerInner_new, 0%nat) (cb, 2%nat).
Proof.
  eexists.
  eapply star_cons; [apply (AFailure 0 "5xx" "HTTP 500")|].
  eapply star_cons; [apply (AFailure 0 "5xx" "HTTP 500")|].
  eapply star_cons; [apply (AFailure 0 "5xx" "HTTP 500")|].
  eapply star_cons; [apply AGuarded, (GCheck (secs 30))|].
  eapply star_cons; [apply (AFailure (secs 31) "5xx" "HTTP 500")|].
  eapply star_cons; [apply AGuarded, (GCheck (secs 61))|].
  vm_compute. apply star_nil.
Qed.

(** ** Watch channels *)

(** [tokio::sync::watch]: a receiver sees the sends after its subscription, and reads the
    latest value. *)
Class Watch := {
  chan : Type;
  receiver : Type;
  w_new : ProbeResult -> chan;
  w_subscribe : chan -> receiver * chan;
  w_send : ProbeResult -> chan -> chan;
  w_changed : chan -> receiver -> bool;
  w_borrow : chan -> receiver -> ProbeResult;
  w_live : chan -> receiver -> Prop;
  w_subscribe_fresh : forall c,
    let '(rx, c') := w_subscribe c in w_live c' rx /\ w_changed c' rx = false;
  w_subscribe_other : forall c rx, w_live c rx ->
    let c' := snd (w_subscribe c) in
    w_live c' rx /\ w_changed c' rx = w_changed c rx /\ w_borrow c' rx = w_borrow c rx;
  w_send_wakes : forall c rx r, w_live c rx ->
    w_live (w_send r c) rx /\ w_changed (w_send r c) rx = true /\ w_borrow (w_send r c) rx = r;
}.

(** A value with a version; a receiver is the version it has seen. *)
Definition VersionedWatch : Watch.
Proof.
  refine {| chan := ProbeResult * nat; receiver := nat;
            w_new := fun r => (r, 0%nat);
            w_subscribe := fun c => (snd c, c);
            w_send := fun r c => (r, S (snd c));
            w_changed := fun c rx => negb (snd c =? rx)%nat;
            w_borrow := fun c _ => fst c;
            w_live := fun c rx => (rx <= snd c)%nat |}.
  - intros [v n]; simpl. split; [lia|]. by rewrite Nat.eqb_refl.
  - intros [v n] rx Hl; simpl in *. done.
  - intros [v n] rx r Hl; cbn [fst snd] in *. split_and!; [lia| |done].
    destruct (Nat.eqb_spec (S n) rx); [lia|done].
Defined.

(** ** The registry *)

Inductive PermitType := Normal | Probe.

#[export] Instance PermitType_eq_dec : EqDecision PermitType.
Proof. solve_decision. Defined.

Section Registry.
Context `{Watch}.

Record ProviderCircuitBreaker := mkBreaker { inner : CircuitBreakerInner; probe_watch : chan }.

Definition ProviderCircuitBreaker_new : ProviderCircuitBreaker :=
  mkBreaker CircuitBreakerInner_new (w_new Pending).

#[local] Abbreviation Registry := (gmap string ProviderCircuitBreaker).

Definition Registry_new (provider_names : list string) : Registry :=
  fold_left (fun m name => <[name := ProviderCircuitBreaker_new]> m) provider_names ∅.

(** What [acquire_permit] knows after the locked section: a result, or a wait on [rx]. *)
Inductive Acquire :=
| Resolved (r : result PermitType CircuitOpenError)
| Waiting (rx : receiver) (reason : string) (trips : Z).

Definition error_reason (cb : CircuitBreakerInner) : string :=
  match last_error cb with
  | Some e => error_type e +:+ ": " +:+ le_message e
  | None => "unknown"
  end.

(** The part of [acquire_permit] up to the first [await]. *)
Definition acquire_start (now : Instant) (name : string) (reg : Registry) : Acquire * Registry :=
  match reg !! name with
  | None => (Resolved (Ok Normal), reg)
  | Some cb =>
      let '(check_result, inner') := check_state now (inner cb) in
      let reason := error_reason inner' in
      let trips := trip_count inner' in
      let '(rx, watch') := w_subscribe (probe_watch cb) in
      let reg' := <[name := mkBreaker inner' watch']> reg in
      (match check_result with
       | Allowed => Resolved (Ok Normal)
       | ProbePermit => Resolved (Ok Probe)
       | Rejected => Resolved (Err {| coe_provider := name; coe_reason := reason;
                                      coe_trip_count := trips |})
       | WaitForProbe => Waiting rx reason trips
       end, reg')
  end.

(** One turn of the wait loop: [None] keeps waiting. *)
Definition acquire_poll (name : string) (rx : receiver) (reason : string) (trips : Z)
    (reg : Registry) : option (result PermitType CircuitOpenError) :=
  match reg !! name with
  | None => Some (Err {| coe_provider := name; coe_reason := "probe watch channel closed";
                         coe_trip_count := trips |})
  | Some cb =>
      if w_changed (probe_watch cb) rx then
        match w_borrow (probe_watch cb) rx with
        | ProbeSucceeded => Some (Ok Normal)
        | ProbeFailed => Some (Err {| coe_provider := name; coe_reason := reason;
                                      coe_trip_count := trips |})
        | Pending => None
        end
      else None
  end.

Definition on_inner (f : CircuitBreakerInner -> CircuitBreakerInner)
    (cb : ProviderCircuitBreaker) : ProviderCircuitBreaker :=
  mkBreaker (f (inner cb)) (probe_watch cb).

Definition record_success (now : Instant) (name : string) (reg : Registry) : Registry :=
  alter (on_inner (record_success_inner now)) name reg.

Definition record_failure (now : Instant) (name etype message : string) (reg : Registry)
    : Registry :=
  alter (on_inner (record_failure_inner now etype message)) name reg.

Definition record_probe_success (now : Instant) (name : string) (reg : Registry) : Registry :=
  alter (fun cb => mkBreaker (record_probe_success_inner now (inner cb))
                     (w_send ProbeSucceeded (probe_watch cb))) name reg.

Definition record_probe_failure (now : Instant) (name etype message : string) (reg : Registry)
    : Registry :=
  alter (fun cb => mkBreaker (record_probe_failure_inner now etype message (inner cb))
                     (w_send ProbeFailed (probe_watch cb))) name reg.

Definition all_states (reg : Registry) : list CircuitSnapshot :=
  map (fun '(name, cb) => {| cs_name := name; cs_state := state (inner cb);
                             cs_failure_count := failure_count (inner cb) |}) (map_to_list reg).

Definition reg_state (reg : Registry) (name : string) : option CircuitState :=
  (fun cb => state (inner cb)) <$> reg !! name.
Definition reg_failure_count (reg : Registry) (name : string) : option Z :=
  (fun cb => failure_count (inner cb)) <$> reg !! name.
Definition reg_trip_count (reg : Registry) (name : string) : option Z :=
  (fun cb => trip_count (inner cb)) <$> reg !! name.

(** *** The probe guard: an owned provider name and whether it was resolved. *)

Record ProbeGuard := { pg_provider : string; pg_resolved : bool }.

Definition ProbeGuard_new (provider : string) : ProbeGuard :=
  {| pg_provider := provider; pg_resolved := false |}.

(** [Drop for ProbeGuard]. *)
Definition guard_drop (now : Instant) (g : ProbeGuard) (reg : Registry) : Registry :=
  if pg_resolved g then reg
  else record_probe_failure now (pg_provider g) "dropped" "probe dropped without resolution" reg.

(** [success] and [failure] consume the guard, which is then dropped. *)
Definition guard_success (now : Instant) (g : ProbeGuard) (reg : Registry) : Registry :=
  let g := {| pg_provider := pg_provider g; pg_resolved := true |} in
  guard_drop now g (record_probe_success now (pg_provider g) reg).

Definition guard_failure (now : Instant) (g : ProbeGuard) (etype message : string)
    (reg : Registry) : Registry :=
  let g := {| pg_provider := pg_provider g; pg_resolved := true |} in
  guard_drop now g (record_probe_failure now (pg_provider g) etype message reg).

End Registry.
Abbreviation Registry := (gmap string ProviderCircuitBreaker).

Section RegistryTheorems.
Context `{Watch}.
Implicit Types (reg : Registry) (name : string).

Lemma Registry_new_lookup names name :
  Registry_new names !! name
  = if decide (In name names) then Some ProviderCircuitBreaker_new else None.
Proof.
  unfold Registry_new.
  assert (Hgen : forall m : Registry,
    fold_left (fun m name => <[name := ProviderCircuitBreaker_new]> m) names m !! name
    = if decide (In name names) then Some ProviderCircuitBreaker_new else m !! name).
  { induction names as [|n names IH]; intros m; cbn [fold_left].
    - by destruct (decide (In name [])).
    - rewrite IH. destruct (decide (In name names)) as [Hi|Hi], (decide (In name (n :: names))) as [Hc|Hc];
        [done|by destruct Hc; right| |rewrite lookup_insert_ne; [done|]].
      + destruct Hc as [->|Hc]; [by rewrite lookup_insert_eq|done].
      + intros ->. apply Hc. by left. }
  rewrite Hgen. by rewrite lookup_empty.
Qed.

(** Every operation of the registry, by the tasks that share it. *)
Inductive reg_op :=
| RAcquire (name : string)
| RSuccess (name : string)
| RFailure (name etype message : string)
| RProbeSuccess (name : string)
| RProbeFailure (name etype message : string).

Definition reg_op_name (op : reg_op) : string :=
  match op with
  | RAcquire n | RSuccess n | RFailure n _ _ | RProbeSuccess n | RProbeFailure n _ _ => n
  end.

Definition reg_exec (now : Instant) (op : reg_op) (reg : Registry) : Registry :=
  match op with
  | RAcquire n => snd (acquire_start now n reg)
  | RSuccess n => record_success now n reg
  | RFailure n t m => record_failure now n t m reg
  | RProbeSuccess n => record_probe_success now n reg
  | RProbeFailure n t m => record_probe_failure now n t m reg
  end.

Definition reg_run (ops : list (Instant * reg_op)) (reg : Registry) : Registry :=
  fold_left (fun r op => reg_exec (fst op) (snd op) r) ops reg.

Definition reg_inv (reg : Registry) : Prop := map_Forall (fun _ cb => cb_inv (inner cb)) reg.

(** The inner breaker of the named provider makes one step; nothing else changes. *)
Lemma reg_exec_lookup now op reg name :
  exists bop, reg_exec now op reg !! name
  = (if decide (name = reg_op_name op)
     then (fun cb => mkBreaker (snd (cb_exec now bop (inner cb)))
                       (match op with
                        | RAcquire _ => snd (w_subscribe (probe_watch cb))
                        | RProbeSuccess _ => w_send ProbeSucceeded (probe_watch cb)
                        | RProbeFailure _ _ _ => w_send ProbeFailed (probe_watch cb)
                        | _ => probe_watch cb
                        end)) <$> reg !! name
     else reg !! name).
Proof.
  destruct op as [n|n|n t m|n|n t m]; cbn [reg_exec reg_op_name].
  - exists OpCheck. unfold acquire_start. destruct (reg !! n) as [cb|] eqn:E.
    + destruct (check_state now (inner cb)) as [r i'] eqn:Ec.
      destruct (w_subscribe (probe_watch cb)) as [rx w'] eqn:Ew. cbn [snd].
      destruct (decide (name = n)) as [->|Hne].
      * rewrite lookup_insert_eq, E. cbn [fmap option_fmap option_map cb_exec].
        rewrite Ec, Ew. done.
      * by rewrite lookup_insert_ne by done.
    + cbn [snd]. destruct (decide (name = n)) as [->|]; [by rewrite E|done].
  - exists OpSuccess. unfold record_success. rewrite lookup_alter.
    destruct (decide (n = name)), (decide (name = n)); subst; done.
  - exists (OpFailure t m). unfold record_failure. rewrite lookup_alter.
    destruct (decide (n = name)), (decide (name = n)); subst; done.
  - exists OpProbeSuccess. unfold record_probe_success. rewrite lookup_alter.
    destruct (decide (n = name)), (decide (name = n)); subst; done.
  - exists (OpProbeFailure t m). unfold record_probe_failure. rewrite lookup_alter.
    destruct (decide (n = name)), (decide (name = n)); subst; done.
Qed.

Lemma reg_inv_exec now op reg : reg_inv reg -> reg_inv (reg_exec now op reg).
Proof.
  intros Hi name cb Hl. destruct (reg_exec_lookup now op reg name) as [bop Heq].
  rewrite Heq in Hl. destruct (decide _); [|by eapply Hi].
  destruct (reg !! name) as [cb0|] eqn:E; [|done]. injection Hl as <-. cbn [inner].
  apply cb_inv_exec. by eapply Hi.
Qed.

Lemma reg_inv_run ops reg : reg_inv reg -> reg_inv (reg_run ops reg).
Proof.
  unfold reg_run. revert reg. induction ops as [|op ops IH]; intros reg Hi; simpl; [done|].
  apply IH. by apply reg_inv_exec.
Qed.

Lemma reg_inv_new names : reg_inv (Registry_new names).
Proof.
  intros name cb. rewrite Registry_new_lookup. destruct (decide _); [|done].
  intros [= <-]. apply cb_inv_new.
Qed.

Lemma reg_run_other ops reg name :
  Forall (fun op => reg_op_name (snd op) <> name) ops -> reg_run ops reg !! name = reg !! name.
Proof.
  unfold reg_run. intros HF. revert reg.
  induction HF as [|[now op] ops Hne HF IH]; intros reg; simpl; [done|].
  rewrite IH. destruct (reg_exec_lookup now op reg name) as [bop ->]. simpl in Hne.
  by rewrite decide_False by done.
Qed.

(** from a new registry, under any interleaving of operations, every breaker satisfies
    the invariant, no provider appears or disappears, and operations on other providers
    do not touch a breaker. *)
Theorem registry_invariant (names : list string) (ops : list (Instant * reg_op)) (name : string) :
  let reg := reg_run ops (Registry_new names) in
  (forall cb, reg !! name = Some cb -> cb_inv (inner cb)) /\
  (is_Some (reg !! name) <-> In name names) /\
  reg !! name = reg_run (List.filter (fun op => String.eqb (reg_op_name (snd op)) name) ops)
                  (Registry_new names) !! name.
Proof.
  cbv zeta. split_and!.
  - apply (reg_inv_run ops _ (reg_inv_new names)).
  - assert (Hg : forall reg, is_Some (reg_run ops reg !! name) <-> is_Some (reg !! name)).
    { unfold reg_run. induction ops as [|[now op] ops IH]; intros reg; simpl; [done|].
      rewrite IH. destruct (reg_exec_lookup now op reg name) as [bop ->].
      destruct (decide _); [|done]. by rewrite fmap_is_Some. }
    rewrite Hg, Registry_new_lookup. destruct (decide (In name names)) as [Hi|Hi]; split; intros Hs; done.
  - assert (Hg : forall reg reg', reg !! name = reg' !! name ->
      reg_run ops reg !! name = reg_run (List.filter (fun op =>
        String.eqb (reg_op_name (snd op)) name) ops) reg' !! name); [|by apply Hg].
    unfold reg_run. induction ops as [|[now op] ops IH]; intros reg reg' Heq; [done|].
    cbn [List.filter fold_left snd fst]. destruct (String.eqb_spec (reg_op_name op) name) as [He|He].
    + cbn [fold_left fst snd]. apply IH.
      destruct op as [n|n|n t m|n|n t m]; simpl in He; subst n; cbn [reg_exec].
      * unfold acquire_start. rewrite Heq. destruct (reg' !! name) as [cb|] eqn:E; [|cbn [snd]; congruence].
        destruct (check_state now (inner cb)), (w_subscribe (probe_watch cb)). cbn [snd].
        by rewrite !lookup_insert_eq.
      * unfold record_success. rewrite !lookup_alter. by rewrite Heq.
      * unfold record_failure. rewrite !lookup_alter. by rewrite Heq.
      * unfold record_probe_success. rewrite !lookup_alter. by rewrite Heq.
      * unfold record_probe_failure. rewrite !lookup_alter. by rewrite Heq.
    + apply IH. rewrite <- Heq. destruct (reg_exec_lookup now op reg name) as [bop ->].
      rewrite decide_False by congruence. done.
Qed.

(** *** Waiting for a probe *)

(** Operations that do not resolve the probe of [name]. *)
Definition not_resolving (name : string) (op : reg_op) : Prop :=
  match op with
  | RProbeSuccess n | RProbeFailure n _ _ => n <> name
  | _ => True
  end.

Definition rx_waits (name : string) (rx : receiver) (reg : Registry) : Prop :=
  exists cb, reg !! name = Some cb /\ w_live (probe_watch cb) rx /\
    w_changed (probe_watch cb) rx = false.

Lemma rx_waits_exec now op name rx reg :
  not_resolving name op -> rx_waits name rx reg -> rx_waits name rx (reg_exec now op reg).
Proof.
  intros Hn (cb & Hl & Hlive & Hch). destruct (reg_exec_lookup now op reg name) as [bop Heq].
  unfold rx_waits. rewrite Heq, Hl. destruct (decide (name = reg_op_name op)) as [He|He]; [|eauto].
  eexists. split; [reflexivity|]. cbn [probe_watch].
  destruct op as [n|n|n t m|n|n t m]; simpl in He, Hn; subst; try done.
  destruct (w_subscribe_other (probe_watch cb) rx Hlive) as (? & Hc & _). by rewrite Hc.
Qed.

Lemma acquire_start_waiting now name reg rx reason trips reg' :
  acquire_start now name reg = (Waiting rx reason trips, reg') -> rx_waits name rx reg'.
Proof.
  unfold acquire_start. destruct (reg !! name) as [cb|]; [|discriminate].
  destruct (check_state now (inner cb)) as [r i'].
  pose proof (w_subscribe_fresh (probe_watch cb)) as Hf.
  destruct (w_subscribe (probe_watch cb)) as [rx' w']. destruct r; try discriminate.
  intros [= <- <- <- <-]. eexists. rewrite lookup_insert_eq. split; [reflexivity|exact Hf].
Qed.

Lemma rx_waits_run ops name rx reg :
  Forall (fun op => not_resolving name (snd op)) ops -> rx_waits name rx reg ->
  rx_waits name rx (reg_run ops reg).
Proof.
  unfold reg_run. intros HF. revert reg.
  induction HF as [|[now op] ops Hn HF IH]; intros reg Hw; simpl; [done|].
  apply IH. by apply rx_waits_exec.
Qed.

(** Until then the wait does not end. *)
Lemma waiter_waits now name reg rx reason trips reg' ops :
  acquire_start now name reg = (Waiting rx reason trips, reg') ->
  Forall (fun op => not_resolving name (snd op)) ops ->
  acquire_poll name rx reason trips (reg_run ops reg') = None.
Proof.
  intros Hs HF. destruct (rx_waits_run ops name rx reg' HF (acquire_start_waiting _ _ _ _ _ _ _ Hs)) as (cb & Hl & _ & Hch).
  unfold acquire_poll. by rewrite Hl, Hch.
Qed.

(** Operations that resolve it. *)
Definition resolves (name : string) (op : reg_op) : Prop :=
  match op with
  | RProbeSuccess n | RProbeFailure n _ _ => n = name
  | _ => False
  end.

(** A receiver that has seen the probe resolved. *)
Definition rx_woken (name : string) (rx : receiver) (reg : Registry) : Prop :=
  exists cb, reg !! name = Some cb /\ w_live (probe_watch cb) rx /\
    w_changed (probe_watch cb) rx = true /\ w_borrow (probe_watch cb) rx <> Pending.

Lemma rx_woken_exec now op name rx reg : rx_woken name rx reg -> rx_woken name rx (reg_exec now op reg).
Proof.
  intros (cb & Hl & Hlive & Hch & Hb). destruct (reg_exec_lookup now op reg name) as [bop Heq].
  unfold rx_woken. rewrite Heq, Hl. case_decide; [|eauto]. eexists. split; [reflexivity|]. cbn [probe_watch].
  destruct op as [n|n|n t m|n|n t m]; [|by auto|by auto| |].
  - destruct (w_subscribe_other (probe_watch cb) rx Hlive) as (? & -> & ->). done.
  - by destruct (w_send_wakes (probe_watch cb) rx ProbeSucceeded Hlive) as (? & -> & ->).
  - by destruct (w_send_wakes (probe_watch cb) rx ProbeFailed Hlive) as (? & -> & ->).
Qed.

Lemma rx_wakes now op name rx reg :
  resolves name op -> rx_waits name rx reg -> rx_woken name rx (reg_exec now op reg).
Proof.
  intros Hr (cb & Hl & Hlive & _). destruct op as [n|n|n t m|n|n t m]; try done; cbn [resolves] in Hr; subst n;
    cbn [reg_exec]; unfold record_probe_success, record_probe_failure, rx_woken;
    rewrite lookup_alter, decide_True, Hl by done; (eexists; split; [reflexivity|]); cbn [probe_watch].
  - by destruct (w_send_wakes (probe_watch cb) rx ProbeSucceeded Hlive) as (? & -> & ->).
  - by destruct (w_send_wakes (probe_watch cb) rx ProbeFailed Hlive) as (? & -> & ->).
Qed.

Lemma rx_woken_run ops name rx reg : rx_woken name rx reg -> rx_woken name rx (reg_run ops reg).
Proof.
  unfold reg_run. revert reg. induction ops as [|[now op] ops IH]; intros reg Hw; simpl; [done|].
  apply IH. by apply rx_woken_exec.
Qed.

(** A wait ends once somebody resolves the probe, whatever else happens. *)
Lemma resolved_wait_ends ops name rx reason trips reg :
  rx_waits name rx reg -> Exists (fun op => resolves name (snd op)) ops ->
  acquire_poll name rx reason trips (reg_run ops reg) <> None.
Proof.
  intros Hw He. assert (Hwoken : rx_woken name rx (reg_run ops reg)).
  { revert reg Hw. induction ops as [|[now op] ops IH]; intros reg Hw; [by apply Exists_nil in He|].
    change (reg_run ((now, op) :: ops) reg) with (reg_run ops (reg_exec now op reg)).
    assert (Hcase : resolves name op \/ not_resolving name op /\ ~ resolves name op).
    { destruct op as [n|n|n t m|n|n t m]; simpl; auto; destruct (decide (n = name)); auto. }
    destruct Hcase as [Hr|[Hn Hr]]; [by apply rx_woken_run, rx_wakes|].
    apply Exists_cons in He as [He|He]; [done|]. apply IH; [done|]. by apply rx_waits_exec. }
  destruct Hwoken as (cb & Hl & _ & Hch & Hb). unfold acquire_poll. rewrite Hl, Hch. by destruct (w_borrow _ _).
Qed.

(** C27: queue and wait.  A request that finds a probe in flight waits through everything
    that does not resolve the probe (other requests, late failures); the probe's success
    lets it through, the probe's failure rejects it with the reason seen at the check. *)
Theorem waiter_follows_probe (now : Instant) (name : string) (reg reg1 : Registry)
    (rx : receiver) (reason : string) (trips : Z) (ops : list (Instant * reg_op))
    (later : Instant) (etype message : string) :
  acquire_start now name reg = (Waiting rx reason trips, reg1) ->
  Forall (fun op => not_resolving name (snd op)) ops ->
  let reg2 := reg_run ops reg1 in
  acquire_poll name rx reason trips reg2 = None /\
  acquire_poll name rx reason trips (record_probe_success later name reg2) = Some (Ok Normal) /\
  acquire_poll name rx reason trips (record_probe_failure later name etype message reg2)
  = Some (Err {| coe_provider := name; coe_reason := reason; coe_trip_count := trips |}).
Proof.
  intros Hs HF. cbv zeta.
  destruct (rx_waits_run ops name rx reg1 HF (acquire_start_waiting _ _ _ _ _ _ _ Hs))
    as (cb & Hl & Hlive & Hch).
  unfold acquire_poll, record_probe_success, record_probe_failure. split_and!.
  - by rewrite Hl, Hch.
  - rewrite lookup_alter, decide_True, Hl by done. simpl.
    destruct (w_send_wakes (probe_watch cb) rx ProbeSucceeded Hlive) as (_ & -> & ->). done.
  - rewrite lookup_alter, decide_True, Hl by done. simpl.
    destruct (w_send_wakes (probe_watch cb) rx ProbeFailed Hlive) as (_ & -> & ->). done.
Qed.

End RegistryTheorems.

Section RegistryWitnesses.
#[local] Existing Instance VersionedWatch.

Definition tripped : Registry :=
  reg_run [(0, RFailure "alpha" "5xx" "HTTP 500"); (0, RFailure "alpha" "5xx" "HTTP 500");
           (0, RFailure "alpha" "5xx" "HTTP 500")] (Registry_new ["alpha"; "beta"]).

Lemma waiter_follows_probe_witness :
  let reg0 := snd (acquire_start (secs 30) "alpha" tripped) in
  let reg1 := snd (acquire_start (secs 31) "alpha" reg0) in
  acquire_poll "alpha" 0%nat "5xx: HTTP 500" 1
    (record_probe_success (secs 32) "alpha" (reg_run [(secs 31, RSuccess "beta")] reg1))
  = Some (Ok Normal).
Proof.
  intros reg0 reg1.
  apply (waiter_follows_probe (secs 31) "alpha" reg0 reg1 0%nat "5xx: HTTP 500" 1
           [(secs 31, RSuccess "beta")] (secs 32) "e" "m").
  - vm_compute. reflexivity.
  - repeat constructor.
Defined.

End RegistryWitnesses.
