(* ===== verification/Retry.v ===== *)
(** * Retry and fallback ([src/src/proxy/retry.rs])

    [retry_with_fallback] as a timed computation: the shared vector of attempts is the
    state that survives when [timeout_at] drops the future, and every call of
    [send_request] is logged with its start.  What a send returns, and how long it takes,
    is the parameter [send] (the n-th call, the candidate). *)

From S2P Require Import Prelude Machine RustStr Timed.

Definition BACKOFF_DURATIONS : list Duration := [secs 1; secs 2; secs 4].
Definition MAX_RETRIES : Z := 2.

Record AttemptRecord := { ar_provider_name : string; ar_status_code : Z }.
Record CandidateInfo := { ci_name : string }.

(** [trait HasStatusCode] *)
Class HasStatusCode (E : Type) := status_code : E -> Z.

Definition is_retryable (code : Z) : bool :=
  (code =? 500) || (code =? 502) || (code =? 503) || (code =? 504).

(** ** The [x-arbstr-retries] header *)

(** One turn of the counting loop: bump the first entry of the name, or append it. *)
Fixpoint bump (name : string) (counts : list (string * Z)) : list (string * Z) :=
  match counts with
  | [] => [(name, 1)]
  | (n, c) :: counts' =>
      if String.eqb n name then (n, u32_add c 1) :: counts' else (n, c) :: bump name counts'
  end.

Definition attempt_counts (attempts : list AttemptRecord) : list (string * Z) :=
  fold_left (fun counts a => bump (ar_provider_name a) counts) attempts [].

Definition format_retries_header (attempts : list AttemptRecord) : option string :=
  match attempts with
  | [] => None
  | _ => Some (str_join ", "
                 (map (fun '(name, count) => pretty_Z count +:+ "/" +:+ name)
                    (attempt_counts attempts)))
  end.

(** What the header counts: the failures of one provider. *)
Definition count_of (name : string) (attempts : list AttemptRecord) : Z :=
  Z.of_nat (length (List.filter (fun a => String.eqb (ar_provider_name a) name) attempts)).

Lemma count_of_snoc name l a :
  count_of name (l ++ [a])
  = count_of name l + (if String.eqb (ar_provider_name a) name then 1 else 0).
Proof.
  unfold count_of. rewrite List.filter_app, length_app. simpl.
  destruct (String.eqb _ _); simpl; lia.
Qed.

Lemma bump_map name (names : list string) (f : string -> Z) :
  List.NoDup names -> Forall (fun n => 0 <= f n < U32_MAX) names ->
  bump name (map (fun n => (n, f n)) names)
  = map (fun n => (n, f n + (if String.eqb name n then 1 else 0))) names
    ++ (if bool_decide (In name names) then [] else [(name, 1)]).
Proof.
  intros Hnd HF. induction names as [|n names IH]; simpl; [done|].
  inversion Hnd as [|? ? Hn Hnd']; inversion HF as [|? ? Hf HF']; subst.
  destruct (String.eqb_spec n name) as [->|Hne].
  - rewrite String.eqb_refl, bool_decide_eq_true_2 by auto.
    rewrite app_nil_r. f_equal.
    + f_equal. apply as_u32_id. unfold in_u32, U32_MAX in *. lia.
    + apply map_ext_in. intros m Hm. destruct (String.eqb_spec name m) as [->|]; [done|].
      f_equal. lia.
  - rewrite IH by done. destruct (String.eqb_spec name n) as [->|_]; [done|]. rewrite Z.add_0_r.
    simpl. do 2 f_equal. erewrite bool_decide_ext; [reflexivity|]. intuition.
Qed.

Lemma attempt_counts_eq attempts :
  Z.of_nat (length attempts) <= U32_MAX ->
  attempt_counts attempts
  = map (fun n => (n, count_of n attempts))
      (map ar_provider_name (first_by ar_provider_name [] attempts)).
Proof.
  induction attempts as [|a l IH] using rev_ind; [done|].
  rewrite length_app. simpl. intros Hb. unfold attempt_counts in *.
  rewrite fold_left_app. simpl. rewrite IH by lia.
  rewrite bump_map; [|apply first_by_NoDup|].
  2: { apply List.Forall_forall. intros n _. unfold count_of.
       pose proof (List.filter_length_le (fun a => String.eqb (ar_provider_name a) n) l). lia. }
  rewrite first_by_snoc, !map_app. f_equal.
  - apply map_ext. intros n. by rewrite count_of_snoc.
  - assert (Hiff : In (ar_provider_name a) (map ar_provider_name (first_by ar_provider_name [] l))
                   <-> In (ar_provider_name a) (map ar_provider_name l)).
    { rewrite first_by_keys. simpl. tauto. }
    destruct (decide (In (ar_provider_name a) (map ar_provider_name l))) as [Hi|Hi].
    + rewrite !bool_decide_eq_true_2; [done|by right|by apply Hiff].
    + rewrite !bool_decide_eq_false_2; [|simpl; tauto|by rewrite Hiff]. simpl.
      rewrite count_of_snoc, String.eqb_refl.
      replace (count_of (ar_provider_name a) l) with 0; [done|].
      unfold count_of. destruct (List.filter _ l) as [|b k] eqn:Ef; [done|]. exfalso. apply Hi.
      assert (Hb' : In b (b :: k)) by (by left). rewrite <- Ef, filter_In in Hb'.
      destruct Hb' as [Hb1 Hb2]. apply String.eqb_eq in Hb2. rewrite <- Hb2. by apply in_map.
Qed.

(** the header is absent exactly when nothing failed; otherwise it lists every failed
    provider once, in order of first failure, with its number of failures. *)
Theorem format_retries_header_spec (attempts : list AttemptRecord) :
  Z.of_nat (length attempts) <= U32_MAX ->
  let names := map ar_provider_name (first_by ar_provider_name [] attempts) in
  (format_retries_header attempts = None <-> attempts = []) /\
  (attempts <> [] -> format_retries_header attempts =
     Some (str_join ", " (map (fun n => pretty_Z (count_of n attempts) +:+ "/" +:+ n) names))) /\
  List.NoDup names /\ (forall n, In n names -> 0 < count_of n attempts).
Proof.
  intros Hb. cbv zeta. split_and!.
  - by destruct attempts.
  - intros Hne. unfold format_retries_header. rewrite attempt_counts_eq by done.
    destruct attempts; [done|]. by rewrite !map_map.
  - apply first_by_NoDup.
  - intros n Hn. apply in_map_iff in Hn as (a & <- & Ha).
    apply (sublist_In _ _ _ (first_by_sublist ar_provider_name [] attempts)) in Ha. unfold count_of.
    assert (Hf : In a (List.filter (fun b => String.eqb (ar_provider_name b) (ar_provider_name a)) attempts))
      by (apply filter_In; by rewrite String.eqb_refl).
    destruct (List.filter _ _); [done|simpl; lia].
Qed.

Lemma format_retries_header_spec_witness :
  let atts := [{| ar_provider_name := "alpha"; ar_status_code := 503 |};
               {| ar_provider_name := "alpha"; ar_status_code := 503 |};
               {| ar_provider_name := "beta"; ar_status_code := 500 |}] in
  format_retries_header atts = Some "2/alpha, 1/beta".
Proof.
  intros atts. destruct (format_retries_header_spec atts) as (_ & H & _).
  - vm_compute. discriminate.
  - rewrite H by discriminate. vm_compute. reflexivity.
Defined.

(** ** The algorithm *)

Record RetryState := {
  rs_attempts : list AttemptRecord;
  rs_sends : list (Instant * CandidateInfo);
}.

Definition RetryState_new : RetryState := {| rs_attempts := []; rs_sends := [] |}.

Section Retry.
Context {T E : Type} `{!HasStatusCode E}.
Variable send : nat -> CandidateInfo -> Duration * result T E.

Definition push_attempt (c : CandidateInfo) (err : E) : Timed RetryState unit :=
  t_modify (fun s => {|
    rs_attempts := rs_attempts s ++
      [{| ar_provider_name := ci_name c; ar_status_code := status_code err |}];
    rs_sends := rs_sends s |}).

(** [send_request(candidate).await] *)
Definition send_request (c : CandidateInfo) : Timed RetryState (result T E) :=
  let! s := t_get in
  let! now := t_now in
  let! _ := t_modify (fun s => {| rs_attempts := rs_attempts s;
                                  rs_sends := rs_sends s ++ [(now, c)] |}) in
  let '(d, r) := send (length (rs_sends s)) c in
  let! _ := t_await d in
  t_ret r.

(** The [for] loop: [inl] is a [return], [inr] the value of [last_error] after it. *)
Fixpoint primary_loop (primary : CandidateInfo) (range : list nat) (last_error : option E)
    : Timed RetryState (result T E + option E) :=
  match range with
  | [] => t_ret (inr last_error)
  | attempt :: range' =>
      let! _ := (if (0 <? attempt)%nat
                 then let! d := t_index BACKOFF_DURATIONS (attempt - 1) in t_await d
                 else t_ret tt) in
      let! r := send_request primary in
      match r with
      | Ok value => t_ret (inl (Ok value))
      | Err err =>
          let retryable := is_retryable (status_code err) in
          let! _ := push_attempt primary err in
          if negb retryable then t_ret (inl (Err err))
          else primary_loop primary range' (Some err)
      end
  end.

Definition retry_with_fallback (candidates : list CandidateInfo) : Timed RetryState (result T E) :=
  let! primary := t_index candidates 0 in
  let! out := primary_loop primary (seq 0 (Z.to_nat MAX_RETRIES + 1)) None in
  match out with
  | inl r => t_ret r
  | inr last_error =>
      if (1 <? length candidates)%nat then
        let! fallback := t_index candidates 1 in
        let! r := send_request fallback in
        match r with
        | Ok value => t_ret (Ok value)
        | Err err => let! _ := push_attempt fallback err in t_ret (Err err)
        end
      else
        match last_error with
        | Some e => t_ret (Err e)
        | None => t_panic
        end
  end.

(** ** The flat plan

    What the loop and the fallback amount to: at most four sends, each after a fixed wait,
    until one succeeds or fails for good. *)

Definition plan (candidates : list CandidateInfo) : list (Duration * CandidateInfo) :=
  match candidates with
  | [] => []
  | primary :: rest =>
      [(0, primary); (secs 1, primary); (secs 2, primary)] ++ map (fun c => (0, c)) (take 1 rest)
  end.

Fixpoint run_plan (steps : list (Duration * CandidateInfo)) (last : option E)
    : Timed RetryState (result T E) :=
  match steps with
  | [] => match last with Some e => t_ret (Err e) | None => t_panic end
  | (wait, c) :: steps' =>
      let! _ := (if (wait =? 0)%Z then t_ret tt else t_await wait) in
      let! r := send_request c in
      match r with
      | Ok value => t_ret (Ok value)
      | Err err =>
          let! _ := push_attempt c err in
          if is_retryable (status_code err) then run_plan steps' (Some err) else t_ret (Err err)
      end
  end.

(** When each send of a plan starts, if every earlier one of it fails: [k] counts the
    sends before it. *)
Fixpoint schedule (t : Instant) (k : nat) (steps : list (Duration * CandidateInfo))
    : list (Instant * CandidateInfo) :=
  match steps with
  | [] => []
  | (wait, c) :: steps' =>
      (t + wait, c) :: schedule (t + wait + fst (send k c)) (S k) steps'
  end.

(** The record of the n-th send, when it failed. *)
Definition record_of (k : nat) (c : CandidateInfo) : option AttemptRecord :=
  match snd (send k c) with
  | Ok _ => None
  | Err e => Some {| ar_provider_name := ci_name c; ar_status_code := status_code e |}
  end.

Fixpoint records (k : nat) (cs : list CandidateInfo) : list (option AttemptRecord) :=
  match cs with [] => [] | c :: cs' => record_of k c :: records (S k) cs' end.

(** ** Theorems *)

(** The loop with its early returns and the fallback is the flat plan. *)
Lemma retry_plan_eq (candidates : list CandidateInfo) dl st :
  retry_with_fallback candidates dl st = run_plan (plan candidates) None dl st.
Proof.
  destruct candidates as [|p [|f rest]]; [reflexivity| |];
    unfold retry_with_fallback, t_index; change (seq 0 (Z.to_nat MAX_RETRIES + 1)) with [0; 1; 2]%nat;
    cbn [lookup list_lookup plan app run_plan primary_loop Nat.ltb Nat.leb Nat.sub
         BACKOFF_DURATIONS t_index length take map];
    change (0 =? 0)%Z with true; change (secs 1 =? 0)%Z with false;
    change (secs 2 =? 0)%Z with false;
    unfold t_bind, t_ret; cbv iota beta;
    repeat (case_match; simplify_eq; try done).
Qed.

(** The wait before a send either ends in time or is cut at the deadline. *)
Lemma wait_run (w : Duration) (dl t : Instant) (s : RetryState) :
  t <= dl ->
  (t + w <= dl /\
   (if (w =? 0)%Z then t_ret tt else t_await w) (Some dl) (t, s) = (Done tt, (t + w, s))) \/
  (if (w =? 0)%Z then t_ret tt else t_await w) (Some dl) (t, s) = (Elapsed, (dl, s)).
Proof.
  intros Hle. destruct (Z.eqb_spec w 0) as [->|_]; [left; rewrite Z.add_0_r; done|].
  destruct (t_await_cases w dl (t, s) Hle) as [(? & Ha)|(? & Ha)]; [left|right]; auto.
Qed.

(** What one send does: it is logged at the current time, and either ends in time with
    its outcome or is cut at the deadline. *)
Lemma send_request_run (c : CandidateInfo) (dl t : Instant) s :
  t <= dl ->
  let k := length (rs_sends s) in
  let s' := {| rs_attempts := rs_attempts s; rs_sends := rs_sends s ++ [(t, c)] |} in
  (t + fst (send k c) <= dl /\
   send_request c (Some dl) (t, s) = (Done (snd (send k c)), (t + fst (send k c), s'))) \/
  (dl < t + fst (send k c) /\ send_request c (Some dl) (t, s) = (Elapsed, (dl, s'))).
Proof.
  intros Hle. cbv zeta. unfold send_request, t_get, t_now, t_modify.
  unfold t_bind. cbn [fst snd]. destruct (send (length (rs_sends s)) c) as [d r]. cbn [fst snd].
  unfold t_await, t_ret. cbn [fst snd]. destruct (Z.leb_spec (t + d) dl); [by left|right].
  split; [lia|]. by rewrite Z.max_r by lia.
Qed.

(** How a run of a plan ends: after [i] recorded failures out of [j] sends. *)
Definition plan_exit (dl t' : Instant) (k i j : nat) (steps : list (Duration * CandidateInfo))
    (last : option E) (x : exit (result T E)) : Prop :=
  match x with
  | Panicked | Hung => False
  | Elapsed => t' = dl /\ (j = i \/ j = S i)
  | Done (Ok v) => t' <= dl /\ j = S i /\
      exists w c, steps !! i = Some (w, c) /\ snd (send (k + i) c) = Ok v
  | Done (Err e) => t' <= dl /\ j = i /\
      (is_retryable (status_code e) = true -> i = length steps) /\
      match i with
      | O => last = Some e
      | S m => exists w c, steps !! m = Some (w, c) /\ snd (send (k + m) c) = Err e
      end
  end.

(** Every failure but the last allowed a retry; so did the last, unless it was returned. *)
Definition retried (atts : list AttemptRecord) (x : exit (result T E)) : Prop :=
  let ok l := Forall (fun a => is_retryable (ar_status_code a) = true) l in
  match x with Done (Err _) => ok (removelast atts) | _ => ok atts end.

Lemma retried_cons a atts x :
  is_retryable (ar_status_code a) = true -> retried atts x -> retried (a :: atts) x.
Proof.
  unfold retried. intros Ha. destruct x as [[v|e]| | |]; [by constructor| |by constructor..].
  destruct atts; [by constructor|]. intros HF. by constructor.
Qed.

Lemma plan_exit_step dl t' k i j w c steps last err x :
  snd (send k c) = Err err -> is_retryable (status_code err) = true ->
  plan_exit dl t' (S k) i j steps (Some err) x ->
  plan_exit dl t' k (S i) (S j) ((w, c) :: steps) last x.
Proof.
  intros Hs Hr. unfold plan_exit. destruct x as [[v|e]| | |]; try done.
  - intros (? & -> & w' & c' & ? & ?). split_and!; [done..|]. exists w', c'. split; [done|].
    by rewrite Nat.add_succ_r.
  - intros (? & -> & Hl & Hi). split_and!; [done..|simpl; intros; f_equal; auto|].
    destruct i as [|m]; simplify_eq.
    + exists w, c. rewrite Nat.add_0_r. by split.
    + destruct Hi as (w' & c' & ? & ?). exists w', c'. split; [done|]. by rewrite Nat.add_succ_r.
  - intros (? & Hj). split; [done|]. destruct Hj as [->| ->]; auto.
Qed.

Lemma run_plan_trace steps last (dl t : Instant) s x (t' : Instant) s' :
  t <= dl -> (steps = [] -> last <> None) ->
  run_plan steps last (Some dl) (t, s) = (x, (t', s')) ->
  exists i j atts, (i <= j <= length steps)%nat /\
    rs_sends s' = rs_sends s ++ take j (schedule t (length (rs_sends s)) steps) /\
    rs_attempts s' = rs_attempts s ++ atts /\
    map Some atts = take i (records (length (rs_sends s)) (map snd steps)) /\
    plan_exit dl t' (length (rs_sends s)) i j steps last x /\ retried atts x.
Proof.
  revert last t s. induction steps as [|[w c] steps IH]; intros last t s Hle Hl Hrun.
  - simpl in Hrun. destruct last as [e|]; [|by destruct Hl]. injection Hrun as <- <- <-.
    exists 0%nat, 0%nat, []. simpl. rewrite !app_nil_r. by split_and!; try constructor.
  - cbn [run_plan] in Hrun. set (k := length (rs_sends s)).
    destruct (wait_run w dl t s Hle) as [(Hle' & Hw)|Hw].
    2: { rewrite (t_bind_elapsed _ _ _ _ _ Hw) in Hrun. injection Hrun as <- <- <-.
         exists 0%nat, 0%nat, []. rewrite !app_nil_r. simpl. split_and!; try done; try lia; auto.
         all: try constructor. }
    rewrite (t_bind_done _ _ _ _ _ _ Hw) in Hrun.
    destruct (send_request_run c dl (t + w) s Hle') as [(Hd & Hs)|(Hd & Hs)]; fold k in Hd, Hs.
    2: { rewrite (t_bind_elapsed _ _ _ _ _ Hs) in Hrun. injection Hrun as <- <- <-.
         exists 0%nat, 1%nat, []. rewrite app_nil_r. simpl. split_and!; try done; try lia; auto.
         all: try constructor. }
    rewrite (t_bind_done _ _ _ _ _ _ Hs) in Hrun. destruct (snd (send k c)) as [v|err] eqn:Ev.
    + injection Hrun as <- <- <-. exists 0%nat, 1%nat, []. rewrite app_nil_r.
      simpl. split_and!; try done; try lia.
      exists w, c. by rewrite Nat.add_0_r.
    + unfold t_bind, push_attempt, t_modify in Hrun. cbn [fst snd] in Hrun.
      set (a := {| ar_provider_name := ci_name c; ar_status_code := status_code err |}) in *.
      assert (Hrec : record_of k c = Some a) by (unfold record_of; by rewrite Ev).
      destruct (is_retryable (status_code err)) eqn:Eret.
      * apply IH in Hrun as (i & j & atts & Hij & Hss & Hat & Hrc & Hx & Hrt);
          [|done|done].
        cbn [rs_sends rs_attempts] in *. rewrite length_app, Nat.add_1_r in *. fold k in Hss, Hrc, Hx |- *.
        exists (S i), (S j), (a :: atts). split_and!.
        -- simpl. lia.
        -- simpl. lia.
        -- rewrite Hss, <- app_assoc. done.
        -- rewrite Hat, <- app_assoc. done.
        -- simpl. by rewrite Hrec, Hrc.
        -- by eapply plan_exit_step.
        -- by apply retried_cons.
      * injection Hrun as <- <- <-. exists 1%nat, 1%nat, [a]. cbn [rs_sends rs_attempts].
        simpl. rewrite Hrec. fold k. split_and!; try done; try lia.
        -- congruence.
        -- exists w, c. rewrite Nat.add_0_r. by split.
Qed.

(** C22: what a deadline-bounded run does, completely.  It never panics.  It starts at most
    four sends, the first [j] of the schedule (three of the first candidate, one and two
    seconds after the failure before, then one of the second candidate), and records the
    first [i] of them, all failures, in order.  Success ends it with the value of the
    [j]-th send; an error is the last recorded one, returned before the end of the plan
    only when it is not retryable; a timeout ends it at the deadline, at most one send in
    flight, with its attempts kept. *)
Theorem retry_trace (candidates : list CandidateInfo) (t0 dl : Instant) :
  candidates <> [] -> t0 <= dl ->
  exists x t' s' i j,
    retry_with_fallback candidates (Some dl) (t0, RetryState_new) = (x, (t', s')) /\
    (i <= j <= length (plan candidates))%nat /\ (length (plan candidates) <= 4)%nat /\
    rs_sends s' = take j (schedule t0 0 (plan candidates)) /\
    map Some (rs_attempts s') = take i (records 0 (map snd (plan candidates))) /\
    plan_exit dl t' 0 i j (plan candidates) None x /\ retried (rs_attempts s') x.
Proof.
  intros Hne Hle.
  destruct (run_plan (plan candidates) None (Some dl) (t0, RetryState_new)) as [x [t' s']] eqn:Hrun.
  assert (Hp : plan candidates <> []) by (destruct candidates; [done|discriminate]).
  pose proof Hrun as Htr. rewrite <- retry_plan_eq in Hrun.
  apply run_plan_trace in Htr as (i & j & atts & Hij & Hs & Ha & Hrc & Hx & Hrt); [|done|done].
  simpl in Hs, Ha, Hrc. exists x, t', s', i, j. rewrite Ha. split_and!; try done; try lia.
  destruct candidates as [|p [|f rest]]; simpl; lia.
Qed.

Lemma schedule_snd t k steps : map snd (schedule t k steps) = map snd steps.
Proof. revert t k. induction steps as [|[w c] steps IH]; intros t k; simpl; [done|]. by rewrite IH. Qed.

(** With a candidate, a bounded run ends by the deadline, with a value, an error or the
    timeout; it has sent to candidates only, and a value is that of the last send. *)
Lemma retry_exits (candidates : list CandidateInfo) (t0 dl : Instant) :
  candidates <> [] -> t0 <= dl ->
  exists x t' s', retry_with_fallback candidates (Some dl) (t0, RetryState_new) = (x, (t', s')) /\
    t' <= dl /\ incl (map snd (rs_sends s')) candidates /\
    match x with
    | Done (Ok v) => exists n c, In c candidates /\ length (rs_sends s') = S n /\
        hd_error (rev (map snd (rs_sends s'))) = Some c /\ snd (send n c) = Ok v
    | Done (Err _) | Elapsed => True
    | _ => False
    end.
Proof.
  intros Hne Hle.
  destruct (run_plan (plan candidates) None (Some dl) (t0, RetryState_new)) as [x [t' s']] eqn:Hrun.
  assert (Hp : plan candidates <> []) by (destruct candidates; [done|discriminate]).
  assert (Hincl : forall w c, In (w, c) (plan candidates) -> In c candidates).
  { intros w c. destruct candidates as [|p [|f rest]]; simpl; intuition (simplify_eq; auto). }
  exists x, t', s'. rewrite retry_plan_eq. split; [exact Hrun|].
  apply run_plan_trace in Hrun as (i & j & atts & _ & Hs & _ & _ & Hx & _); [|done|done].
  simpl in Hs. split_and!.
  - destruct x as [[v|e]| | |]; unfold plan_exit in Hx; try done; destruct Hx as (Hx & _); lia.
  - intros c Hc. rewrite Hs, <- firstn_map, schedule_snd in Hc.
    apply (sublist_In _ _ c (sublist_take _ j)), in_map_iff in Hc as ([w d] & <- & Hd). by eapply Hincl.
  - unfold plan_exit in Hx. destruct x as [[v|e]| | |]; try done.
    destruct Hx as (_ & -> & w & c & Hl & Hv). exists i, c.
    assert (Hli : map snd (plan candidates) !! i = Some c) by (by rewrite list_lookup_fmap, Hl).
    assert (Hlen : (i < length (map snd (plan candidates)))%nat) by (by eapply lookup_lt_Some).
    split; [eapply Hincl, list_elem_of_In; by eapply list_elem_of_lookup_2|].
    rewrite Hs, <- firstn_map, schedule_snd. split; [|by rewrite (take_S_r _ _ _ Hli), rev_unit].
    rewrite <- (length_map snd), <- firstn_map, schedule_snd, length_take. lia.
Qed.

(** When the first send succeeds, that is all: its value, or the cut, and no failed attempt. *)
Lemma retry_first (c : CandidateInfo) rest v dl t :
  snd (send 0 c) = Ok v ->
  exists x t' s', retry_with_fallback (c :: rest) dl (t, RetryState_new) = (x, (t', s')) /\
    rs_attempts s' = [] /\ (x = Done (Ok v) \/ x = Elapsed).
Proof.
  intros Hv. rewrite retry_plan_eq. cbn [plan app run_plan]. change (0 =? 0)%Z with true. cbv iota.
  unfold send_request, t_bind, t_ret, t_get, t_now, t_modify. cbn [fst snd length rs_sends RetryState_new].
  destruct (send 0 c) as [d r]. cbn [snd] in Hv. subst r. cbn [fst snd].
  destruct dl as [dl|]; unfold t_await; cbn [fst snd]; [destruct (_ <=? _)%Z|];
    (eexists _, _, _; split; [reflexivity|]; split; [reflexivity|]); auto.
Qed.

(** Under any deadline, a value is that of one of the sends. *)
Lemma retry_value (candidates : list CandidateInfo) :
  returns (fun r => match r with Ok v => exists n c, snd (send n c) = Ok v | Err _ => True end)
    (retry_with_fallback candidates).
Proof.
  set (V := fun r => _). intros dl st r st'. rewrite retry_plan_eq. revert dl st r st'.
  change (returns V (run_plan (plan candidates) None)). generalize (None : option E) as last.
  induction (plan candidates) as [|[w c] steps IH]; intros last; cbn [run_plan].
  { destruct last; [by apply returns_ret|done]. }
  eapply returns_bind; [apply returns_any|intros _ _]. apply (returns_bind V).
  - unfold send_request. intros dl [t s] r st'. unfold t_bind, t_get, t_now, t_modify. cbn [fst snd].
    destruct (send (length (rs_sends s)) c) as [d x] eqn:Es.
    destruct (t_await d dl _) as [[a| | |] p]; [|done..]. intros [= <- <-]. unfold V.
    destruct x as [v|e]; [|done]. exists (length (rs_sends s)), c. by rewrite Es.
  - intros r Hr. destruct r as [v|e]; [by apply returns_ret|].
    eapply returns_bind; [apply returns_any|intros _ _]. destruct (is_retryable _); [apply IH|by apply returns_ret].
Qed.

(** When a plan ends at the latest: every step taken. *)
Fixpoint plan_end (t : Instant) (k : nat) (steps : list (Duration * CandidateInfo)) : Instant :=
  match steps with
  | [] => t
  | (wait, c) :: steps' => plan_end (t + wait + fst (send k c)) (S k) steps'
  end.

Lemma plan_end_ge t k steps :
  (forall n c, 0 <= fst (send n c)) -> Forall (fun p => 0 <= fst p) steps -> t <= plan_end t k steps.
Proof.
  intros Hd HF. revert t k. induction HF as [|[w c] steps Hw HF IH]; intros t k; simpl in *; [lia|].
  pose proof (IH (t + w + fst (send k c)) (S k)). pose proof (Hd k c). lia.
Qed.

Lemma run_plan_in_time steps last (dl t : Instant) s :
  (forall n c, 0 <= fst (send n c)) -> Forall (fun p => 0 <= fst p) steps ->
  plan_end t (length (rs_sends s)) steps <= dl ->
  fst (run_plan steps last (Some dl) (t, s)) <> Elapsed.
Proof.
  intros Hd HF. revert last t s. induction HF as [|[w c] steps Hw HF IH]; intros last t s He.
  - simpl. by destruct last.
  - cbn [run_plan plan_end fst] in *. set (k := length (rs_sends s)) in *.
    pose proof (plan_end_ge (t + w + fst (send k c)) (S k) steps Hd HF). pose proof (Hd k c).
    destruct (wait_run w dl t s ltac:(lia)) as [(_ & Hr)|Hr].
    2: { exfalso. revert Hr. destruct (Z.eqb_spec w 0) as [->|]; [done|].
         destruct (t_await_cases w dl (t, s) ltac:(simpl; lia)) as [(? & Ha)|(Ha & _)];
           [by rewrite Ha|simpl in Ha; lia]. }
    rewrite (t_bind_done _ _ _ _ _ _ Hr).
    destruct (send_request_run c dl (t + w) s ltac:(lia)) as [(_ & Hs)|(Hlt & _)];
      [|fold k in Hlt; lia].
    fold k in Hs. rewrite (t_bind_done _ _ _ _ _ _ Hs). destruct (snd (send k c)) as [v|err]; [done|].
    unfold t_bind, push_attempt, t_modify. cbn [fst snd].
    destruct (is_retryable _); [|done]. apply IH. cbn [rs_sends].
    by rewrite length_app, Nat.add_1_r.
Qed.

Lemma plan_end_bound (D : Duration) candidates t0 :
  (forall n c, 0 <= fst (send n c) <= D) ->
  plan_end t0 0 (plan candidates) <= t0 + secs 3 + 4 * D.
Proof.
  intros Hd. unfold plan, secs. destruct candidates as [|p [|f rest]]; simpl.
  - pose proof (Hd 0%nat {| ci_name := "" |}). lia.
  - pose proof (Hd 0%nat p). pose proof (Hd 1%nat p). pose proof (Hd 2%nat p). lia.
  - pose proof (Hd 0%nat p). pose proof (Hd 1%nat p). pose proof (Hd 2%nat p).
    pose proof (Hd 3%nat f). lia.
Qed.

(** C35: it terminates with a result: when no send takes longer than [D], a deadline that
    leaves three seconds of backoff and four sends is never hit, and the result is a value
    or an error. *)
Theorem retry_completes (candidates : list CandidateInfo) (D : Duration) (t0 dl : Instant) :
  candidates <> [] -> (forall n c, 0 <= fst (send n c) <= D) -> t0 + secs 3 + 4 * D <= dl ->
  exists r st', retry_with_fallback candidates (Some dl) (t0, RetryState_new) = (Done r, st').
Proof.
  intros Hne Hd Hdl. pose proof (plan_end_bound D candidates t0 Hd) as Hb.
  pose proof (Hd 0%nat {| ci_name := "" |}).
  destruct (run_plan (plan candidates) None (Some dl) (t0, RetryState_new)) as [x [t' s']] eqn:Hrun.
  pose proof (run_plan_in_time (plan candidates) None dl t0 RetryState_new) as Hit.
  rewrite Hrun in Hit. apply run_plan_trace in Hrun as Htr; [|unfold secs in *; lia|by destruct candidates].
  destruct Htr as (i & j & _ & _ & _ & _ & _ & Hx & _).
  rewrite retry_plan_eq, Hrun. destruct x as [r| | |]; [eauto| |done|done].
  exfalso. apply Hit; [intros; apply Hd| |simpl; unfold secs in *; lia|done].
  destruct candidates as [|p [|f rest]]; repeat (constructor; [unfold secs; simpl; lia|]); constructor.
Qed.

End Retry.

(** The loop depends on what the closure returns, send by send. *)
Lemma retry_ext {T E} `{!HasStatusCode E} (send1 send2 : nat -> CandidateInfo -> Duration * result T E) cs dl st :
  (forall n c, send1 n c = send2 n c) -> retry_with_fallback send1 cs dl st = retry_with_fallback send2 cs dl st.
Proof.
  intros He. rewrite !retry_plan_eq. generalize (None : option E) as last. revert dl st.
  induction (plan cs) as [|[w c] steps IH]; intros dl st last; cbn [run_plan]; [done|].
  apply t_bind_ext. intros _ dl1 st1. unfold t_bind at 1 3.
  assert (Hsend : send_request send1 c dl1 st1 = send_request send2 c dl1 st1).
  { unfold send_request. apply t_bind_ext. intros s dl2 st2. by rewrite He. }
  rewrite Hsend. destruct (send_request send2 c dl1 st1) as [[[v|err]| | |] p]; try done.
  apply t_bind_ext. intros _ dl2 st2. destruct (is_retryable _); [apply IH|done].
Qed.

(** ** Witnesses *)

#[local] Instance Z_status : HasStatusCode Z := fun e => e.

(** Sends of one second each: the primary fails twice with 503, then answers. *)
Definition flaky (n : nat) (c : CandidateInfo) : Duration * result string Z :=
  (secs 1, if (n <? 2)%nat then Err 503 else Ok ("from " +:+ ci_name c)).

Lemma retry_trace_witness :
  exists x t' s' i j,
    retry_with_fallback flaky [{| ci_name := "alpha" |}; {| ci_name := "beta" |}]
      (Some (secs 30)) (0, RetryState_new) = (x, (t', s')) /\
    plan_exit flaky (secs 30) t' 0 i j (plan [{| ci_name := "alpha" |}; {| ci_name := "beta" |}])
      None x.
Proof.
  destruct (retry_trace flaky [{| ci_name := "alpha" |}; {| ci_name := "beta" |}] 0 (secs 30))
    as (x & t' & s' & i & j & H1 & _ & _ & _ & _ & H2 & _); [discriminate|unfold secs; lia|].
  exists x, t', s', i, j. split; [exact H1|exact H2].
Defined.

Lemma retry_completes_witness :
  exists r st', retry_with_fallback flaky [{| ci_name := "alpha" |}] (Some (secs 30))
    (0, RetryState_new) = (Done r, st').
Proof.
  apply (retry_completes flaky [{| ci_name := "alpha" |}] (secs 1) 0 (secs 30)).
  - discriminate.
  - intros n c. unfold flaky, secs. simpl. lia.
  - unfold secs. lia.
Defined.

Example flaky_run :
  retry_with_fallback flaky [{| ci_name := "alpha" |}] (Some (secs 30)) (0, RetryState_new)
  = (Done (Ok "from alpha"),
     (secs 6, {| rs_attempts := [{| ar_provider_name := "alpha"; ar_status_code := 503 |};
                                 {| ar_provider_name := "alpha"; ar_status_code := 503 |}];
                 rs_sends := [(0, {| ci_name := "alpha" |}); (secs 2, {| ci_name := "alpha" |});
                              (secs 5, {| ci_name := "alpha" |})] |})).
Proof. vm_compute. reflexivity. Qed.
