(* ===== verification/Vault.v ===== *)
(** * The vault client and pending settlements ([src/src/proxy/vault.rs])

    Reserve, settle and release against the vault's HTTP API; the table of settlements the
    vault could not take, and the reconciliation pass that replays them.  The vault is the
    parameter [post] (the n-th call's reply), SQLite failures the parameter [db_error], and
    what other tasks insert while a call is awaited the parameter [others].  A SQL statement
    is atomic.  The clock is the wall clock in nanoseconds; SQL statements take no time. *)

From S2P Require Import Prelude Machine RustStr Timed Config Types Router.

(** ** Calls and replies *)

Definition MAX_RETRIES : Z := 3.
Definition RETRY_BASE_MS : Z := 100.
Definition VAULT_TIMEOUT : Duration := secs 5.

Record Reservation := { rv_id : string; reserved_msats : Z }.

Record SettleMetadata := {
  tokens_in : option Z;
  tokens_out : option Z;
  sm_provider : string;
  sm_latency_ms : Z;
}.

Record SettleResponse := { settled : bool; refunded_msats : option Z }.

Inductive VaultError :=
| InsufficientBalance
| PolicyDenied (body : string)
| RateLimited
| Unavailable (msg : string)
| Other (msg : string).

Definition VaultError_to_string (e : VaultError) : string :=
  match e with
  | InsufficientBalance => "Insufficient balance"
  | PolicyDenied m => "Policy denied: " +:+ m
  | RateLimited => "Vault rate limited"
  | Unavailable m => "Vault unavailable: " +:+ m
  | Other m => "Vault error: " +:+ m
  end.

Definition VaultError_status_code (e : VaultError) : Z :=
  match e with
  | InsufficientBalance => 402
  | PolicyDenied _ => 403
  | RateLimited => 429
  | Unavailable _ => 503
  | Other _ => 500
  end.

Record VaultClient := {
  base_url : string;
  token : string;
  vc_default_reserve_tokens : Z;
  vc_pending_threshold : Z;
}.

(** [VaultClient::new]; the backpressure flag starts lowered ([World_new]). *)
Definition VaultClient_new (config : VaultConfig) : VaultClient := {|
  base_url := str_trim_end_char "/" (v_url config);
  token := expose_secret (v_internal_token config);
  vc_default_reserve_tokens := v_default_reserve_tokens config;
  vc_pending_threshold := v_pending_threshold config;
|}.

(** The JSON bodies of the three endpoints. *)
Inductive VaultCall :=
| CallReserve (agent_token : string) (amount_msats : Z) (correlation_id model : string)
| CallSettle (reservation_id : string) (actual_msats : Z) (metadata : SettleMetadata)
| CallRelease (reservation_id reason : string).

(** What the client needs of the [serde] derives of these types; [VaultJson] defines them and
    discharges it. *)
Class VaultSerde `{SerdeJson} := {
  settle_response_from_value : Value -> result SettleResponse string;
  metadata_to_string : SettleMetadata -> option string;
  metadata_from_str : string -> result SettleMetadata string;
  (** what [to_string] writes [from_str] reads back *)
  metadata_roundtrip : forall m s, metadata_to_string m = Some s -> metadata_from_str s = Ok m;
  (** the empty text is no JSON *)
  metadata_from_empty : forall m, metadata_from_str "" <> Ok m;
}.

(** A reply: its status, its body as JSON and as text. *)
Record VaultReply `{SerdeJson} := {
  vr_status : Z;
  vr_json : result Value string;
  vr_text : option string;
}.

(** [reqwest::Error]: whether it is a timeout or a failed connection, and its text. *)
Record SendError := { se_timeout_or_connect : bool; se_text : string }.

Definition send_error (e : SendError) : VaultError :=
  if se_timeout_or_connect e then Unavailable ("Connection failed: " +:+ se_text e)
  else Other (se_text e).

(** ** The estimate *)

Definition estimate_reserve_msats
    (estimated_input_tokens estimated_output_tokens input_rate output_rate base_fee : Z) : Z :=
  let input_cost_msats := u64_mul (u64_mul estimated_input_tokens input_rate) 1000 / 1000 in
  let output_cost_msats := u64_mul (u64_mul estimated_output_tokens output_rate) 1000 / 1000 in
  let base_fee_msats := u64_mul base_fee 1000 in
  u64_add (u64_add input_cost_msats output_cost_msats) base_fee_msats.

(** ** The table *)

Record PendingSettlement := {
  settlement_type : string;
  ps_reservation_id : string;
  amount_msats : option Z;
  ps_metadata : string;
}.

Definition MAX_SETTLEMENT_ATTEMPTS : Z := 10.

(** A row of [pending_settlements]; [amount] is the stored [i64], [created_at] the second
    whose RFC 3339 text is stored. *)
Record PendingRow := mkRow {
  row_id : Z;
  row_type : string;
  row_reservation_id : string;
  row_amount : option Z;
  row_metadata : string;
  row_created_at : Z;
  row_attempts : Z;
}.

Record PendingTable := { rows : list PendingRow; next_id : Z }.

(** [INSERT OR IGNORE]: the CHECK on the type and the UNIQUE reservation id. *)
Definition insert_row (now : Instant) (s : PendingSettlement) (t : PendingTable) : PendingTable :=
  if negb (String.eqb (settlement_type s) "settle" || String.eqb (settlement_type s) "release")
     || existsb (fun r => String.eqb (row_reservation_id r) (ps_reservation_id s)) (rows t)
  then t
  else {| rows := rows t ++ [mkRow (next_id t) (settlement_type s) (ps_reservation_id s)
                               (option_map as_i64 (amount_msats s)) (ps_metadata s)
                               (now / secs 1) 0];
          next_id := next_id t + 1 |}.

Definition delete_row (id : Z) (t : PendingTable) : PendingTable :=
  {| rows := List.filter (fun r => negb (row_id r =? id)%Z) (rows t); next_id := next_id t |}.

Definition bump_attempts (r : PendingRow) : PendingRow :=
  mkRow (row_id r) (row_type r) (row_reservation_id r) (row_amount r) (row_metadata r)
    (row_created_at r) (row_attempts r + 1).

Definition increment_row (id : Z) (t : PendingTable) : PendingTable :=
  {| rows := map (fun r => if (row_id r =? id)%Z then bump_attempts r else r) (rows t);
     next_id := next_id t |}.

(** The [(id, PendingSettlement, attempts)] tuple of a row. *)
Definition fetched (r : PendingRow) : Z * PendingSettlement * Z :=
  (row_id r,
   {| settlement_type := row_type r; ps_reservation_id := row_reservation_id r;
      amount_msats := option_map as_u64 (row_amount r); ps_metadata := row_metadata r |},
   row_attempts r).

(** [ORDER BY created_at ASC]: SQL leaves the order of equal keys open. *)
Class SqlOrder := {
  order_by_created_at : list PendingRow -> list PendingRow;
  order_by_perm : forall l, Permutation (order_by_created_at l) l;
  order_by_sorted : forall l, StronglySorted (key_le row_created_at) (order_by_created_at l);
}.

(** In the order of insertion. *)
Definition InsertionOrder : SqlOrder := {|
  order_by_created_at := sort_by_key row_created_at;
  order_by_perm := fun l => Permutation_sym (sort_by_key_perm row_created_at l);
  order_by_sorted := sort_by_key_sorted row_created_at;
|}.

(** ** The world of the vault tasks *)

(** A call as it is logged: when it was made, where, its header [X-Internal-Token], what, and
    whether the reply's status was a success. *)
Record LoggedCall := {
  lc_at : Instant; lc_url : string; lc_token : string; lc_call : VaultCall; lc_accepted : bool;
}.

Record World := {
  w_calls : list LoggedCall;
  w_sql : nat;
  w_pending : PendingTable;
  w_backpressure : bool;
}.

Definition World_new : World :=
  {| w_calls := []; w_sql := 0; w_pending := {| rows := []; next_id := 1 |}; w_backpressure := false |}.

Definition with_calls (w : World) (l : list LoggedCall) : World :=
  {| w_calls := l; w_sql := w_sql w; w_pending := w_pending w; w_backpressure := w_backpressure w |}.
Definition with_pending (w : World) (t : PendingTable) : World :=
  {| w_calls := w_calls w; w_sql := w_sql w; w_pending := t; w_backpressure := w_backpressure w |}.
Definition with_sql (w : World) (n : nat) : World :=
  {| w_calls := w_calls w; w_sql := n; w_pending := w_pending w; w_backpressure := w_backpressure w |}.
Definition with_backpressure (w : World) (b : bool) : World :=
  {| w_calls := w_calls w; w_sql := w_sql w; w_pending := w_pending w; w_backpressure := b |}.

Definition is_success (status : Z) : bool := (200 <=? status) && (status <=? 299).
Definition is_server_error (status : Z) : bool := (500 <=? status) && (status <=? 599).

Section Client.
Context `{VaultSerde} `{SqlOrder}.
Variable post : nat -> VaultCall -> Duration * result VaultReply SendError.
Variable others : nat -> list PendingSettlement.
Variable db_error : nat -> option string.

Definition accepted (r : result VaultReply SendError) : bool :=
  match r with Ok reply => is_success (vr_status reply) | Err _ => false end.

(** [client.post(url).json(body).send().await], with the body of the reply. *)
Definition vault_post (vc : VaultClient) (url : string) (call : VaultCall)
    : Timed World (result VaultReply SendError) :=
  let! w := t_get in
  let! now := t_now in
  let n := length (w_calls w) in
  let '(d, r) := post n call in
  let! _ := t_modify (fun w => with_calls w (w_calls w ++
              [{| lc_at := now; lc_url := url; lc_token := token vc; lc_call := call; lc_accepted := accepted r |}])) in
  let! _ := t_await d in
  let! later := t_now in
  let! _ := t_modify (fun w => with_pending w
              (fold_left (fun t s => insert_row later s t) (others n) (w_pending w))) in
  t_ret r.

(** One SQL statement: it fails as [db_error] says, and then has no effect. *)
Definition sql {A} (f : PendingTable -> A * PendingTable) : Timed World (result A string) :=
  let! w := t_get in
  let! _ := t_modify (fun w => with_sql w (S (w_sql w))) in
  match db_error (w_sql w) with
  | Some e => t_ret (Err e)
  | None =>
      let '(a, t') := f (w_pending w) in
      let! _ := t_modify (fun w => with_pending w t') in
      t_ret (Ok a)
  end.

Definition text_or_default (reply : VaultReply) : string := default "" (vr_text reply).

Definition http_status_text (status : Z) (body : string) : string :=
  "HTTP " +:+ pretty_Z status +:+ ": " +:+ body.

Definition reserve_result (amount : Z) (r : result VaultReply SendError)
    : result Reservation VaultError :=
  let? reply := map_err send_error r in
  let status := vr_status reply in
  if is_success status then
    let? resp := map_err (fun e => Other ("Invalid reserve response: " +:+ e)) (vr_json reply) in
    let? id := ok_or (match v_get "reservation_id" resp with
                      | Some v => v_as_str v
                      | None => None
                      end) (Other "Missing reservation_id in response") in
    Ok {| rv_id := id; reserved_msats := amount |}
  else if (status =? 402)%Z then Err InsufficientBalance
  else if (status =? 403)%Z then Err (PolicyDenied (text_or_default reply))
  else if (status =? 429)%Z then Err RateLimited
  else if is_server_error status
       then Err (Unavailable (http_status_text status (text_or_default reply)))
  else Err (Other (http_status_text status (text_or_default reply))).

Definition reserve (vc : VaultClient) (agent_token : string) (amount : Z)
    (correlation_id model : string) : Timed World (result Reservation VaultError) :=
  let! r := vault_post vc (base_url vc +:+ "/internal/reserve")
              (CallReserve agent_token amount correlation_id model) in
  t_ret (reserve_result amount r).

(** One reply inside [call_with_retry]: [inl] is a [return], [inr] the next [last_err]. *)
Definition retry_reply (r : result VaultReply SendError) : result Value VaultError + VaultError :=
  match r with
  | Ok reply =>
      let status := vr_status reply in
      if is_success status
      then inl (map_err (fun e => Other ("Invalid response body: " +:+ e)) (vr_json reply))
      else if is_server_error status
      then inr (Unavailable (http_status_text status (text_or_default reply)))
      else inl (Err (Other (http_status_text status (text_or_default reply))))
  | Err e => inr (send_error e)
  end.

Fixpoint retry_loop (vc : VaultClient) (url : string) (call : VaultCall) (range : list nat)
    (last_err : VaultError) : Timed World (result Value VaultError) :=
  match range with
  | [] => t_ret (Err last_err)
  | attempt :: range' =>
      let! _ := (if (0 <? attempt)%nat
                 then t_await (millis (u64_mul RETRY_BASE_MS (2 ^ Z.of_nat attempt)))
                 else t_ret tt) in
      let! r := vault_post vc url call in
      match retry_reply r with
      | inl out => t_ret out
      | inr e => retry_loop vc url call range' e
      end
  end.

Definition call_with_retry (vc : VaultClient) (url : string) (call : VaultCall)
    : Timed World (result Value VaultError) :=
  retry_loop vc url call (seq 0 (Z.to_nat MAX_RETRIES)) (Other "no attempts made").

Definition settle (vc : VaultClient) (reservation_id : string) (actual_msats : Z)
    (metadata : SettleMetadata) : Timed World (result SettleResponse VaultError) :=
  let! r := call_with_retry vc (base_url vc +:+ "/internal/settle")
              (CallSettle reservation_id actual_msats metadata) in
  t_ret (let? resp := r in
         map_err (fun e => Other ("Invalid settle response: " +:+ e))
           (settle_response_from_value resp)).

Definition release (vc : VaultClient) (reservation_id reason : string)
    : Timed World (result unit VaultError) :=
  let! r := call_with_retry vc (base_url vc +:+ "/internal/release")
              (CallRelease reservation_id reason) in
  t_ret (let? _ := r in Ok tt).

(** ** Pending settlements *)

Definition insert_pending_settlement (s : PendingSettlement) : Timed World (result unit string) :=
  let! now := t_now in
  sql (fun t => (tt, insert_row now s t)).

Definition count_pending : Timed World (result Z string) :=
  sql (fun t => (Z.of_nat (length (rows t)), t)).

Definition fetch_pending : Timed World (result (list (Z * PendingSettlement * Z)) string) :=
  sql (fun t => (map fetched (order_by_created_at (rows t)), t)).

Definition delete_pending (id : Z) : Timed World (result unit string) :=
  sql (fun t => (tt, delete_row id t)).

Definition increment_attempts (id : Z) : Timed World (result unit string) :=
  sql (fun t => (tt, increment_row id t)).

Definition replay_one (vc : VaultClient) (s : PendingSettlement) : Timed World (result unit VaultError) :=
  if String.eqb (settlement_type s) "settle" then
    match metadata_from_str (ps_metadata s) with
    | Err e => t_ret (Err (Other ("Failed to parse settle metadata: " +:+ e)))
    | Ok metadata =>
        let! r := settle vc (ps_reservation_id s) (default 0 (amount_msats s)) metadata in
        t_ret (let? _ := r in Ok tt)
    end
  else if String.eqb (settlement_type s) "release" then
    release vc (ps_reservation_id s) (ps_metadata s)
  else t_ret (Err (Other ("Unknown settlement type: " +:+ settlement_type s))).

Definition counts : Type := Z * Z * Z.

(** The body of the [for] loop over the fetched settlements. *)
Definition replay_step (vc : VaultClient) (item : Z * PendingSettlement * Z) (c : counts)
    : Timed World counts :=
  let '(id, s, attempts) := item in
  let '(replayed, failed, evicted) := c in
  if (MAX_SETTLEMENT_ATTEMPTS <=? attempts)%Z then
    let! d := delete_pending id in
    match d with
    | Err _ => t_ret (replayed, failed, evicted)
    | Ok _ => t_ret (replayed, failed, u32_add evicted 1)
    end
  else
    let! r := replay_one vc s in
    match r with
    | Ok _ =>
        let! d := delete_pending id in
        match d with
        | Err _ => t_ret (replayed, failed, evicted)
        | Ok _ => t_ret (u32_add replayed 1, failed, evicted)
        end
    | Err _ =>
        let! _ := increment_attempts id in
        t_ret (replayed, u32_add failed 1, evicted)
    end.

Fixpoint replay_all (vc : VaultClient) (items : list (Z * PendingSettlement * Z)) (c : counts)
    : Timed World counts :=
  match items with
  | [] => t_ret c
  | item :: items' => let! c' := replay_step vc item c in replay_all vc items' c'
  end.

Definition reconcile_once (vc : VaultClient) : Timed World counts :=
  let! n := count_pending in
  match n with
  | Err _ => t_ret (0, 0, 0)
  | Ok count =>
      let! _ := t_modify (fun w => with_backpressure w (vc_pending_threshold vc <=? count)%Z) in
      if (count =? 0)%Z then t_ret (0, 0, 0)
      else
        let! pending := fetch_pending in
        match pending with
        | Err _ => t_ret (0, 0, 0)
        | Ok items => replay_all vc items (0, 0, 0)
        end
  end.

(** What the [select!] of the loop sees: ticks of the interval, then the cancellation. *)
Fixpoint reconciliation_ticks (vc : VaultClient) (ticks : list Duration) : Timed World unit :=
  match ticks with
  | [] => let! _ := reconcile_once vc in t_ret tt
  | d :: ticks' =>
      let! _ := t_await d in
      let! _ := reconcile_once vc in
      reconciliation_ticks vc ticks'
  end.

Definition reconciliation_loop (vc : VaultClient) (ticks : list Duration) : Timed World unit :=
  let! _ := reconcile_once vc in
  reconciliation_ticks vc ticks.

(** ** The settle and release tasks ([src/src/proxy/handlers.rs]) *)

Definition spawn_vault_settle (vc : VaultClient) (reservation_id : string) (actual_msats : Z)
    (metadata : SettleMetadata) (db : bool) : Timed World unit :=
  let! r := settle vc reservation_id actual_msats metadata in
  match r with
  | Ok _ => t_ret tt
  | Err _ =>
      if db then
        let! _ := insert_pending_settlement
          {| settlement_type := "settle"; ps_reservation_id := reservation_id;
             amount_msats := Some actual_msats;
             ps_metadata := default "" (metadata_to_string metadata) |} in
        t_ret tt
      else t_ret tt
  end.

Definition spawn_vault_release (vc : VaultClient) (reservation_id reason : string) (db : bool)
    : Timed World unit :=
  let! r := release vc reservation_id reason in
  match r with
  | Ok _ => t_ret tt
  | Err _ =>
      if db then
        let! _ := insert_pending_settlement
          {| settlement_type := "release"; ps_reservation_id := reservation_id;
             amount_msats := None; ps_metadata := reason |} in
        t_ret tt
      else t_ret tt
  end.

End Client.

(** ** What a task does to the table *)

Definition table_wf (t : PendingTable) : Prop :=
  List.NoDup (map row_id (rows t)) /\ List.NoDup (map row_reservation_id (rows t)) /\
  Forall (fun r => row_id r < next_id t /\ (row_type r = "settle" \/ row_type r = "release")) (rows t).

(** The rows it had keep their content, except those with an id in [ids]. *)
Definition keeps (ids : list Z) (t t' : PendingTable) : Prop :=
  (table_wf t -> table_wf t') /\ next_id t <= next_id t' /\
  forall r, ~ In (row_id r) ids -> row_id r < next_id t -> (In r (rows t) <-> In r (rows t')).

Definition touches (ids : list Z) (w w' : World) : Prop :=
  keeps ids (w_pending w) (w_pending w') /\ exists new, w_calls w' = w_calls w ++ new.

Lemma keeps_refl ids t : keeps ids t t.
Proof. by split_and!. Qed.

Lemma keeps_trans ids ids' t1 t2 t3 :
  keeps ids t1 t2 -> keeps ids' t2 t3 -> keeps (ids ++ ids') t1 t3.
Proof.
  intros (Hw1 & Hn1 & Hr1) (Hw2 & Hn2 & Hr2). split_and!; [auto|lia|].
  intros r Hni Hlt. rewrite in_app_iff in Hni. rewrite Hr1, Hr2; [done|tauto|lia|tauto|done].
Qed.

Lemma keeps_weaken ids ids' t t' : incl ids ids' -> keeps ids t t' -> keeps ids' t t'.
Proof. intros Hi (? & ? & Hr). split_and!; [done..|]. intros r Hn. apply Hr. auto. Qed.

Lemma touches_refl ids w : touches ids w w.
Proof. split; [apply keeps_refl|]. exists []. by rewrite app_nil_r. Qed.

Lemma touches_trans ids ids' w1 w2 w3 :
  touches ids w1 w2 -> touches ids' w2 w3 -> touches (ids ++ ids') w1 w3.
Proof.
  intros (Hk1 & n1 & Hc1) (Hk2 & n2 & Hc2). split; [by eapply keeps_trans|].
  exists (n1 ++ n2). by rewrite Hc2, Hc1, app_assoc.
Qed.

Lemma touches_weaken ids ids' w w' : incl ids ids' -> touches ids w w' -> touches ids' w w'.
Proof. intros Hi (Hk & Hc). split; [by eapply keeps_weaken|done]. Qed.

Lemma insert_keeps now s t : keeps [] t (insert_row now s t).
Proof.
  unfold insert_row. destruct (_ || _)%bool eqn:E; [apply keeps_refl|].
  apply orb_false_iff in E as [Hty Hrid]. apply negb_false_iff in Hty.
  split_and!; simpl; [|lia|].
  - intros (Hi & Hr & Hf). unfold table_wf. simpl. rewrite !map_app. split_and!.
    + apply NoDup_snoc; [done|]. intros Hx. apply in_map_iff in Hx as (r & Hid & Hin).
      rewrite List.Forall_forall in Hf. destruct (Hf r Hin). simpl in Hid. lia.
    + apply NoDup_snoc; [done|]. intros Hx. apply in_map_iff in Hx as (r & Heq & Hin).
      apply (existsb_false _ _ _ Hrid) in Hin. rewrite Heq in Hin. simpl in Hin.
      by rewrite String.eqb_refl in Hin.
    + apply Forall_app. split.
      * eapply List.Forall_impl; [|exact Hf]. simpl. intros r [? ?]. split; [lia|done].
      * constructor; [|constructor]. simpl. split; [lia|].
        apply orb_true_iff in Hty as [Ht|Ht]; apply String.eqb_eq in Ht; auto.
  - intros r _ Hlt. rewrite in_app_iff. simpl. split; [auto|].
    intros [?|[<-|[]]]; [done|simpl in Hlt; lia].
Qed.

Lemma inserts_keeps now l t : keeps [] t (fold_left (fun t s => insert_row now s t) l t).
Proof.
  revert t. induction l as [|s l IH]; intros t; simpl; [apply keeps_refl|].
  apply (keeps_trans [] [] _ _ _ (insert_keeps now s t) (IH _)).
Qed.

Lemma delete_keeps id t : keeps [id] t (delete_row id t).
Proof.
  unfold delete_row. split_and!; simpl; [|lia|].
  - intros (Hi & Hr & Hf). unfold table_wf; simpl. split_and!; [by apply NoDup_map_filter..|].
    rewrite List.Forall_forall in *. intros r Hin. apply filter_In in Hin as [Hin _]. auto.
  - intros r Hn _. rewrite filter_In. destruct (Z.eqb_spec (row_id r) id); [|tauto].
    exfalso. apply Hn. auto.
Qed.

Lemma delete_gone id t r : In r (rows (delete_row id t)) -> row_id r <> id.
Proof. simpl. rewrite filter_In. intros [_ Hn]. by destruct (Z.eqb_spec (row_id r) id). Qed.

Lemma increment_map {A} (f : PendingRow -> A) id t :
  (forall r, f (bump_attempts r) = f r) -> map f (rows (increment_row id t)) = map f (rows t).
Proof.
  intros Hf. simpl. rewrite map_map. apply map_ext. intros r. destruct (_ =? _)%Z; auto.
Qed.

Lemma increment_keeps id t : keeps [id] t (increment_row id t).
Proof.
  split_and!; [|simpl; lia|].
  - intros (Hi & Hr & Hf). unfold table_wf. rewrite !increment_map by done. split_and!; [done..|].
    rewrite List.Forall_forall in *. simpl. intros r Hin. apply in_map_iff in Hin as (q & <- & Hq).
    apply Hf in Hq. by destruct (_ =? _)%Z.
  - intros r Hn _. simpl. rewrite in_map_iff. split.
    + intros Hin. exists r. destruct (Z.eqb_spec (row_id r) id); [|done]. exfalso. apply Hn. simpl. auto.
    + intros (q & <- & Hq). destruct (Z.eqb_spec (row_id q) id); [|done].
      exfalso. apply Hn. simpl. auto.
Qed.

Lemma increment_in id t r : In r (rows t) -> row_id r = id -> In (bump_attempts r) (rows (increment_row id t)).
Proof. intros Hin <-. simpl. apply in_map_iff. exists r. by rewrite Z.eqb_refl. Qed.

Lemma table_wf_new : table_wf (w_pending World_new).
Proof. repeat constructor. Qed.

(** ** What the programs do to the world *)

Section ClientSpecs.
Context `{VaultSerde} `{SqlOrder}.
Context (post : nat -> VaultCall -> Duration * result VaultReply SendError).
Context (others : nat -> list PendingSettlement).
Context (db_error : nat -> option string).

#[local] Abbreviation settle := (settle post others).
#[local] Abbreviation release := (release post others).
#[local] Abbreviation call_with_retry := (call_with_retry post others).

(** The calls added to the log, all of them [call]. *)
Definition logs (call : VaultCall) (new : list LoggedCall) (w w' : World) : Prop :=
  w_calls w' = w_calls w ++ new /\ Forall (fun c => lc_call c = call) new /\
  keeps [] (w_pending w) (w_pending w').

Definition took (new : list LoggedCall) : bool := existsb lc_accepted new.

(** What a call may do to the world: it is added to the log, and the other tasks insert.  A
    relation that both respect holds between before and after, also when the call is cut. *)
Section CallsEvolve.
Context (R : relation World) `{!PreOrder R} (call : VaultCall).
Hypothesis R_call : forall w c, lc_call c = call -> R w (with_calls w (w_calls w ++ [c])).
Hypothesis R_others : forall w n later,
  R w (with_pending w (fold_left (fun t s => insert_row later s t) (others n) (w_pending w))).

Lemma evolves_vault_post vc url : evolves R (vault_post post others vc url call).
Proof.
  intros dl [t w]. unfold vault_post, t_bind, t_get, t_now, t_modify, t_ret. cbn [fst snd].
  destruct (post (length (w_calls w)) call) as [d r]. cbn [fst snd].
  match goal with |- context [with_calls w (w_calls w ++ [?c])] => pose proof (R_call w c eq_refl) as Hc end.
  destruct dl as [dl|]; unfold t_await; cbn [fst snd]; [destruct (_ <=? _)%Z|]; cbn [fst snd];
    try exact Hc; (etransitivity; [exact Hc|apply R_others]).
Qed.

Lemma evolves_retry_loop vc url range e : evolves R (retry_loop post others vc url call range e).
Proof.
  revert e. induction range as [|n range IH]; intros e; cbn [retry_loop]; [auto with arb|].
  apply evolves_bind; [exact _|destruct (0 <? n)%nat; auto with arb|intros _].
  apply evolves_bind; [exact _|apply evolves_vault_post|intros r]. destruct (retry_reply r); [auto with arb|apply IH].
Qed.

End CallsEvolve.

Lemma evolves_vault_settle R `{!PreOrder R} vc rid msats md :
  (forall w c, lc_call c = CallSettle rid msats md -> R w (with_calls w (w_calls w ++ [c]))) ->
  (forall w n later, R w (with_pending w (fold_left (fun t s => insert_row later s t) (others n) (w_pending w)))) ->
  evolves R (settle vc rid msats md).
Proof. intros Hc Ho. apply evolves_bind; [exact _|by apply evolves_retry_loop|auto with arb]. Qed.

Lemma evolves_vault_release R `{!PreOrder R} vc rid reason :
  (forall w c, lc_call c = CallRelease rid reason -> R w (with_calls w (w_calls w ++ [c]))) ->
  (forall w n later, R w (with_pending w (fold_left (fun t s => insert_row later s t) (others n) (w_pending w)))) ->
  evolves R (release vc rid reason).
Proof. intros Hc Ho. apply evolves_bind; [exact _|by apply evolves_retry_loop|auto with arb]. Qed.

(** No row is touched, calls are only added. *)
#[local] Instance touches_preorder : PreOrder (touches []).
Proof. split; [intros w; apply touches_refl|intros w1 w2 w3 Ht1 Ht2; exact (touches_trans [] [] _ _ _ Ht1 Ht2)]. Qed.
#[local] Hint Resolve touches_preorder : arb.

Lemma touches_call w c : touches [] w (with_calls w (w_calls w ++ [c])).
Proof. split; [apply keeps_refl|by exists [c]]. Qed.

Lemma touches_others w n later :
  touches [] w (with_pending w (fold_left (fun t s => insert_row later s t) (others n) (w_pending w))).
Proof. split; [apply inserts_keeps|]. exists []. by rewrite app_nil_r. Qed.

Lemma touches_sql {A} (f : PendingTable -> A * PendingTable) :
  (forall t, keeps [] t (snd (f t))) -> evolves (touches []) (sql db_error f).
Proof.
  intros Hf dl [t w]. unfold sql, t_bind, t_get, t_modify, t_ret. cbn [fst snd].
  destruct (db_error (w_sql w)); cbn [fst snd]; [split; [apply keeps_refl|by exists []; rewrite app_nil_r]|].
  cbn [w_pending with_sql]. specialize (Hf (w_pending w)). destruct (f (w_pending w)) as [a t'].
  cbn [fst snd]. split; [exact Hf|]. by exists []; rewrite app_nil_r.
Qed.

(** Deadlines only cut calls, and no statement. *)
Lemma sql_at_once {A} (f : PendingTable -> A * PendingTable) : at_once (sql db_error f).
Proof. intros dl [t w]. unfold sql. steady_tac. Qed.

Lemma steady_vault_post vc url call : steady (vault_post post others vc url call).
Proof. unfold vault_post. steady_tac. Qed.

Lemma steady_retry_loop vc url call range e : steady (retry_loop post others vc url call range e).
Proof.
  revert e. induction range as [|n range IH]; intros e; cbn [retry_loop]; [auto with arb|].
  apply steady_bind; [destruct (0 <? n)%nat; auto with arb|intros _].
  apply steady_bind; [apply steady_vault_post|intros r]. destruct (retry_reply r); [auto with arb|apply IH].
Qed.

Lemma steady_settle vc rid msats md : steady (settle vc rid msats md).
Proof. apply steady_bind; [apply steady_retry_loop|auto with arb]. Qed.

Lemma steady_release vc rid reason : steady (release vc rid reason).
Proof. apply steady_bind; [apply steady_retry_loop|auto with arb]. Qed.

Lemma vault_post_wp vc url call t w :
  wp (vault_post post others vc url call) (t, w) (fun r st' =>
    exists c, logs call [c] w (snd st') /\
      r = snd (post (length (w_calls w)) call) /\ lc_accepted c = accepted r).
Proof.
  unfold vault_post. wp_steps. destruct (post (length (w_calls w)) call) as [d r]. wp_steps.
  eexists. split.
  { unfold logs. cbn [snd with_pending with_calls w_calls w_pending].
    split; [reflexivity|]. split; [repeat constructor|apply inserts_keeps]. }
  by split.
Qed.

Lemma logs_trans call n1 n2 w1 w2 w3 :
  logs call n1 w1 w2 -> logs call n2 w2 w3 -> logs call (n1 ++ n2) w1 w3.
Proof.
  intros (Hc1 & Hf1 & Hk1) (Hc2 & Hf2 & Hk2). split_and!.
  - by rewrite Hc2, Hc1, app_assoc.
  - by apply Forall_app.
  - apply (keeps_trans [] [] _ _ _ Hk1 Hk2).
Qed.

Lemma retry_loop_wp vc url call range e t w :
  wp (retry_loop post others vc url call range e) (t, w) (fun r st' =>
    exists new, logs call new w (snd st') /\ (Nat.min 1 (length range) <= length new <= length range)%nat /\
      (is_Ok r -> took new = true)).
Proof.
  revert e t w. induction range as [|n range IH]; intros e t w; cbn [retry_loop].
  - wp_steps. exists []. split_and!; simpl; [|lia..|by intros [? ?]].
    split_and!; simpl; [by rewrite app_nil_r|constructor|apply keeps_refl].
  - wp_steps. apply (wp_mono _ _ (fun _ st' => snd st' = w)).
    { destruct (0 <? n)%nat; wp_steps; reflexivity. }
    intros [] [t1 w1] Hw. simpl in Hw. subst w1. wp_steps.
    eapply wp_mono; [apply vault_post_wp|]. intros r [t2 w2] (c & Hl & _ & Ha). cbn [snd] in Hl.
    assert (Hstop : forall out : result Value VaultError, (is_Ok out -> lc_accepted c = true) ->
      wp (t_ret out) (t2, w2) (fun r st' => exists new, logs call new w (snd st') /\
        (1 <= length new <= S (length range))%nat /\ (is_Ok r -> took new = true))).
    { intros out Ho. wp_steps. exists [c]. unfold took. simpl. rewrite orb_false_r.
      split_and!; [done|lia|lia|done]. }
    assert (Hgo : forall e', wp (retry_loop post others vc url call range e') (t2, w2)
      (fun r st' => exists new, logs call new w (snd st') /\
        (1 <= length new <= S (length range))%nat /\ (is_Ok r -> took new = true))).
    { intros e'. eapply wp_mono; [apply IH|]. intros r' [t3 w3] (new & Hl' & Hlen & Hok).
      exists (c :: new). split_and!; [by eapply (logs_trans _ [c])|simpl; lia..|].
      intros Hr. unfold took in *. simpl. rewrite (Hok Hr). apply orb_true_r. }
    unfold retry_reply, accepted in *. destruct r as [reply|err]; [|apply Hgo].
    destruct (is_success (vr_status reply)); [by apply Hstop|].
    destruct (is_server_error (vr_status reply)); [apply Hgo|]. apply Hstop. by intros [? ?].
Qed.

Lemma call_with_retry_wp vc url call t w :
  wp (call_with_retry vc url call) (t, w) (fun r st' =>
    exists new, logs call new w (snd st') /\ (1 <= length new <= 3)%nat /\ (is_Ok r -> took new = true)).
Proof. apply retry_loop_wp. Qed.

Lemma settle_wp vc rid msats md t w :
  wp (settle vc rid msats md) (t, w) (fun r st' =>
    exists new, logs (CallSettle rid msats md) new w (snd st') /\ (1 <= length new <= 3)%nat /\
      (is_Ok r -> took new = true)).
Proof.
  unfold settle. wp_steps. eapply wp_mono; [apply call_with_retry_wp|].
  intros r [t' w'] (new & Hl & Hlen & Hok). wp_steps. exists new. split; [done|split; [done|]].
  intros Hr. apply Hok. destruct r; [by eexists|by destruct Hr].
Qed.

Lemma release_wp vc rid reason t w :
  wp (release vc rid reason) (t, w) (fun r st' =>
    exists new, logs (CallRelease rid reason) new w (snd st') /\ (1 <= length new <= 3)%nat /\
      (is_Ok r -> took new = true)).
Proof.
  unfold release. wp_steps. eapply wp_mono; [apply call_with_retry_wp|].
  intros r [t' w'] (new & Hl & Hlen & Hok). wp_steps. exists new. split; [done|split; [done|]].
  intros Hr. apply Hok. destruct r; [by eexists|by destruct Hr].
Qed.

Lemma sql_wp {A} (f : PendingTable -> A * PendingTable) t w :
  wp (sql db_error f) (t, w) (fun r st' =>
    (exists e, db_error (w_sql w) = Some e /\ r = Err e /\ snd st' = with_sql w (S (w_sql w))) \/
    (db_error (w_sql w) = None /\ r = Ok (fst (f (w_pending w))) /\
     snd st' = with_pending (with_sql w (S (w_sql w))) (snd (f (w_pending w))))).
Proof.
  unfold sql. wp_steps. destruct (db_error (w_sql w)) as [e|] eqn:E; [wp_steps; left; eauto|].
  cbn [w_pending with_sql]. destruct (f (w_pending w)) as [a t'] eqn:Ef. wp_steps. by right.
Qed.

(** ** Reconciliation loses nothing *)

(** The call that would resolve a row. *)
Definition call_of (r : PendingRow) : option VaultCall :=
  if String.eqb (row_type r) "settle" then
    match metadata_from_str (row_metadata r) with
    | Ok md => Some (CallSettle (row_reservation_id r) (default 0 (option_map as_u64 (row_amount r))) md)
    | Err _ => None
    end
  else if String.eqb (row_type r) "release"
       then Some (CallRelease (row_reservation_id r) (row_metadata r))
  else None.

Definition accepted_in (new : list LoggedCall) (r : PendingRow) : Prop :=
  exists c, In c new /\ lc_accepted c = true /\ call_of r = Some (lc_call c).

(** What a pass may have done to a row: nothing, counted a failed attempt, or removed it. *)
Definition fate (new : list LoggedCall) (r : PendingRow) (t : PendingTable) : Prop :=
  In r (rows t) \/ In (bump_attempts r) (rows t) \/
  ((forall q, In q (rows t) -> row_id q <> row_id r) /\
   (MAX_SETTLEMENT_ATTEMPTS <= row_attempts r \/ accepted_in new r)).

Lemma took_In call new w w' :
  logs call new w w' -> took new = true -> exists c, In c new /\ lc_accepted c = true /\ call = lc_call c.
Proof.
  intros (_ & Hf & _) Ht. apply existsb_exists in Ht as (c & Hc & Ha).
  rewrite List.Forall_forall in Hf. exists c. by rewrite (Hf c Hc).
Qed.

Lemma replay_one_wp vc r t w :
  wp (replay_one post others vc (snd (fst (fetched r)))) (t, w) (fun res st' =>
    keeps [] (w_pending w) (w_pending (snd st')) /\
    exists new, w_calls (snd st') = w_calls w ++ new /\ (is_Ok res -> accepted_in new r)).
Proof.
  unfold replay_one, accepted_in, call_of. cbn [fst snd fetched settlement_type ps_metadata amount_msats
    ps_reservation_id].
  assert (Hno : forall e : VaultError, wp (t_ret (Err e) : Timed World (result unit VaultError)) (t, w)
    (fun res st' => keeps [] (w_pending w) (w_pending (snd st')) /\
      exists new, w_calls (snd st') = w_calls w ++ new /\
        (is_Ok res -> exists c : LoggedCall, In c new /\ lc_accepted c = true /\
           (if String.eqb (row_type r) "settle" then None else None) = Some (lc_call c)))).
  { intros e. wp_steps. split; [apply keeps_refl|]. exists [].
    split; [by rewrite app_nil_r|by intros [? ?]]. }
  destruct (String.eqb (row_type r) "settle") eqn:Es.
  - destruct (metadata_from_str (row_metadata r)) as [md|e]; [|apply Hno].
    wp_steps. eapply wp_mono; [apply settle_wp|]. intros res [t' w'] (new & Hl & _ & Hok). wp_steps.
    pose proof Hl as (Hc & Hf & Hk). split; [done|]. exists new. split; [done|]. intros Hr.
    destruct (took_In _ _ _ _ Hl) as (c & ? & ? & Heq).
    { apply Hok. destruct res; [by eexists|by destruct Hr]. }
    exists c. by rewrite Heq.
  - destruct (String.eqb (row_type r) "release"); [|apply Hno].
    eapply wp_mono; [apply release_wp|]. intros res [t' w'] (new & Hl & _ & Hok).
    pose proof Hl as (Hc & Hf & Hk). split; [done|]. exists new. split; [done|]. intros Hr.
    destruct (took_In _ _ _ _ Hl (Hok Hr)) as (c & ? & ? & Heq).
    exists c. by rewrite Heq.
Qed.

(** One item: only its row is touched, and its fate is one of the three. *)
Definition step_post (r : PendingRow) (w w' : World) : Prop :=
  keeps [row_id r] (w_pending w) (w_pending w') /\
  exists new, w_calls w' = w_calls w ++ new /\ fate new r (w_pending w').

Lemma keeps_In ids t t' r :
  keeps ids t t' -> table_wf t -> In r (rows t) -> ~ In (row_id r) ids -> In r (rows t').
Proof.
  intros (_ & _ & Hr) (_ & _ & Hf) Hin Hn. rewrite List.Forall_forall in Hf.
  apply Hr; [done|by apply Hf|done].
Qed.

Lemma delete_step_post (r : PendingRow) new t1 t w1 :
  In r (rows (w_pending t)) -> keeps [] (w_pending t) (w_pending w1) ->
  w_calls w1 = w_calls t ++ new -> table_wf (w_pending t) ->
  MAX_SETTLEMENT_ATTEMPTS <= row_attempts r \/ accepted_in new r ->
  wp (delete_pending db_error (row_id r)) (t1, w1) (fun _ st' => step_post r t (snd st')).
Proof.
  intros Hin Hk Hc Hwf Hwhy. unfold delete_pending. eapply wp_mono; [apply sql_wp|].
  intros res [t2 w2] [(e & _ & _ & Hw)|(_ & _ & Hw)]; cbn [snd] in *; subst w2; split.
  - eapply keeps_weaken; [apply List.incl_nil_l|exact Hk].
  - exists new. split; [done|]. left. apply (keeps_In [] _ _ _ Hk Hwf Hin). simpl. tauto.
  - apply (keeps_trans [] [row_id r] _ _ _ Hk (delete_keeps (row_id r) _)).
  - exists new. split; [done|]. right; right. split; [|done]. intros q. apply delete_gone.
Qed.

Lemma replay_step_wp vc r c t w :
  table_wf (w_pending w) -> In r (rows (w_pending w)) ->
  wp (replay_step post others db_error vc (fetched r) c) (t, w) (fun _ st' => step_post r w (snd st')).
Proof.
  intros Hwf Hin. unfold replay_step. cbn [fetched]. destruct c as [[replayed failed] evicted].
  destruct (Z.leb_spec MAX_SETTLEMENT_ATTEMPTS (row_attempts r)) as [Hle|Hlt].
  - wp_steps. eapply wp_mono; [apply (delete_step_post r [] t w w); auto using keeps_refl|].
    { by rewrite app_nil_r. }
    intros res [t' w'] Hp. by destruct res; wp_steps.
  - wp_steps. eapply wp_mono; [apply (replay_one_wp vc r)|].
    intros res [t1 w1] (Hk & new & Hc & Hok). cbn [snd] in *. destruct res as [[]|e]; wp_steps.
    + eapply wp_mono; [apply (delete_step_post r new t1 w w1); try done|].
      { right. apply Hok. by eexists. }
      intros res [t' w'] Hp. by destruct res; wp_steps.
    + unfold increment_attempts. eapply wp_mono; [apply sql_wp|].
      pose proof (keeps_In _ _ _ _ Hk Hwf Hin ltac:(simpl; tauto)) as Hin1.
      intros res [t2 w2] [(e' & _ & _ & Hw)|(_ & _ & Hw)]; cbn [snd] in *; subst w2; wp_steps; split.
      * eapply keeps_weaken; [apply List.incl_nil_l|exact Hk].
      * exists new. split; [done|]. by left.
      * apply (keeps_trans [] [row_id r] _ _ _ Hk (increment_keeps (row_id r) _)).
      * exists new. split; [done|]. right; left. by apply increment_in.
Qed.
Lemma fate_keeps new1 new2 ids r t t' :
  fate new1 r t -> keeps ids t t' -> ~ In (row_id r) ids -> row_id r < next_id t ->
  fate (new1 ++ new2) r t'.
Proof.
  intros Hf (_ & _ & Hr) Hn Hlt. destruct Hf as [Hf|[Hf|[Hf Hwhy]]].
  - left. by apply (Hr r).
  - right; left. by apply (Hr (bump_attempts r)).
  - right; right. split.
    + intros q Hq Heq. apply (Hf q); [|done]. apply Hr; rewrite ?Heq; done.
    + destruct Hwhy as [?|(c & ? & ?)]; [by left|]. right. exists c.
      rewrite in_app_iff. auto.
Qed.

(** Several items, each to its fate. *)
Definition fates (l : list PendingRow) (w w' : World) : Prop :=
  keeps (map row_id l) (w_pending w) (w_pending w') /\
  exists new, w_calls w' = w_calls w ++ new /\ forall r, In r l -> fate new r (w_pending w').

Record queued (l : list PendingRow) (w : World) : Prop := {
  ra_wf : table_wf (w_pending w);
  ra_in : forall r, In r l -> In r (rows (w_pending w));
  ra_ids : List.NoDup (map row_id l);
}.

Lemma fates_here l w : queued l w -> fates l w w.
Proof.
  intros [_ Hin _]. split; [apply keeps_refl|]. exists []. split; [by rewrite app_nil_r|].
  intros r Hr. left. by apply Hin.
Qed.

Lemma queued_step r l w w1 : queued (r :: l) w -> step_post r w w1 -> queued l w1.
Proof.
  intros [Hwf Hin Hnd] (Hk & _). inversion Hnd as [|? ? Hni Hnd']; subst. split; [by apply Hk| |done].
  intros q Hq. eapply keeps_In; [exact Hk|done|apply Hin; by right|].
  simpl. intros [Heq|[]]. apply Hni. rewrite Heq. by apply in_map.
Qed.

Lemma fates_cons r l w w1 w2 :
  queued (r :: l) w -> step_post r w w1 -> fates l w1 w2 -> fates (r :: l) w w2.
Proof.
  intros [Hwf Hin Hnd] (Hk & new & Hc & Hf) (Hk2 & new2 & Hc2 & Hf2).
  inversion Hnd as [|? ? Hni Hnd']; subst. split; [apply (keeps_trans [row_id r] _ _ _ _ Hk Hk2)|].
  exists (new ++ new2). split; [by rewrite Hc2, Hc, app_assoc|]. intros q [<-|Hq].
  - eapply fate_keeps; [exact Hf|exact Hk2|done|]. destruct Hk as (_ & Hle & _).
    destruct Hwf as (_ & _ & HF). rewrite List.Forall_forall in HF.
    destruct (HF r) as [Hlt _]; [apply Hin; by left|lia].
  - destruct (Hf2 q Hq) as [?|[?|[? [?|(d & ? & ?)]]]]; [by left|by right; left|..].
    + right; right. auto.
    + right; right. split; [done|]. right. exists d. rewrite in_app_iff. auto.
Qed.

Lemma replay_all_wp vc l c t w :
  queued l w ->
  wp (replay_all post others db_error vc (map fetched l) c) (t, w) (fun _ st' => fates l w (snd st')).
Proof.
  revert c t w. induction l as [|r l IH]; intros c t w Hl; cbn [map replay_all].
  - wp_steps. by apply fates_here.
  - wp_steps. eapply wp_mono; [apply replay_step_wp; [apply Hl|apply Hl; by left]|].
    intros c' [t1 w1] Hp. cbn [snd] in *. eapply wp_mono; [by eapply IH, queued_step|].
    intros c2 [t2 w2] Hf. by eapply fates_cons.
Qed.

(** *** The same when the pass is cut *)

Lemma steady_replay_one vc s : steady (replay_one post others vc s).
Proof.
  unfold replay_one. destruct (String.eqb _ "settle").
  - destruct (metadata_from_str _); [|auto with arb]. apply steady_bind; [apply steady_settle|auto with arb].
  - destruct (String.eqb _ "release"); [apply steady_release|auto with arb].
Qed.

Lemma touches_replay_one vc s : evolves (touches []) (replay_one post others vc s).
Proof.
  unfold replay_one. destruct (String.eqb _ "settle").
  - destruct (metadata_from_str _); [|auto with arb].
    apply evolves_bind; [exact _|apply evolves_vault_settle; [exact _|..]; intros; [apply touches_call|apply touches_others]|auto with arb].
  - destruct (String.eqb _ "release"); [|auto with arb].
    apply evolves_vault_release; [exact _|..]; intros; [apply touches_call|apply touches_others].
Qed.

Lemma touches_step r w w' : table_wf (w_pending w) -> In r (rows (w_pending w)) -> touches [] w w' -> step_post r w w'.
Proof.
  intros Hwf Hin (Hk & new & Hc). split; [by eapply keeps_weaken; [apply List.incl_nil_l|]|].
  exists new. split; [done|]. left. apply (keeps_In [] _ _ _ Hk Hwf Hin). simpl. tauto.
Qed.

Lemma replay_step_cut vc r c dl t w :
  table_wf (w_pending w) -> In r (rows (w_pending w)) ->
  cut dl (replay_step post others db_error vc (fetched r) c) (t, w)
    (fun _ st' => step_post r w (snd st')) (fun st' => step_post r w (snd st')).
Proof.
  intros Hwf Hin. pose proof (replay_step_wp vc r c t w Hwf Hin) as Hwp. revert Hwp.
  unfold replay_step. cbn [fetched]. destruct c as [[replayed failed] evicted].
  destruct (Z.leb_spec MAX_SETTLEMENT_ATTEMPTS (row_attempts r)) as [Hle|Hlt]; intros Hwp.
  - apply cut_at_once; [|exact Hwp]. apply at_once_bind; [apply sql_at_once|intros []; auto with arb].
  - assert (Hst : steady (replay_step post others db_error vc (fetched r) (replayed, failed, evicted))).
    { unfold replay_step. cbn [fetched]. rewrite (proj2 (Z.leb_gt _ _)) by done.
      apply steady_bind; [apply steady_replay_one|]. intros res. apply at_once_steady.
      destruct res; (apply at_once_bind; [apply sql_at_once|intros []; auto with arb]). }
    unfold replay_step in Hst. cbn [fetched] in Hst. rewrite (proj2 (Z.leb_gt _ _)) in Hst by done.
    apply cut_bind. pose proof (steady_replay_one vc (snd (fst (fetched r)))) as Hone.
    destruct (Hone dl (t, w)) as [Heq|[[t1 w1] Heq]]; unfold cut at 1;
      unfold fetched in Heq; cbn [fst snd] in Heq; rewrite Heq.
    + destruct Hwp as (c' & st' & Hr & Hp). unfold t_bind in Hr.
      destruct (replay_one post others vc _ None (t, w)) as [[res| | |] p]; try discriminate.
      apply cut_at_once; [|by exists c', st'].
      destruct res; (apply at_once_bind; [apply sql_at_once|intros []; auto with arb]).
    + apply touches_step; [done..|]. exact (evolves_run _ _ _ _ _ _ (touches_replay_one vc _) Heq).
Qed.

Lemma replay_all_cut vc l c dl t w :
  queued l w ->
  cut dl (replay_all post others db_error vc (map fetched l) c) (t, w)
    (fun _ st' => fates l w (snd st')) (fun st' => fates l w (snd st')).
Proof.
  revert c t w. induction l as [|r l IH]; intros c t w Hl; cbn [map replay_all].
  - cut_steps. by apply fates_here.
  - apply cut_bind. eapply cut_mono; [apply replay_step_cut; [apply Hl|apply Hl; by left]|..].
    + intros c' [t1 w1] Hp. cbn [snd] in *. eapply cut_mono; [by eapply IH, queued_step|..].
      * intros c2 [t2 w2] Hf. by eapply fates_cons.
      * intros [t2 w2] Hf. by eapply fates_cons.
    + intros [t1 w1] Hp. eapply fates_cons; [done..|]. by eapply fates_here, queued_step.
Qed.

Lemma order_by_NoDup t : table_wf t -> List.NoDup (map row_id (order_by_created_at (rows t))).
Proof.
  intros (Hnd & _). eapply Permutation_NoDup; [|exact Hnd].
  apply Permutation_map, Permutation_sym, order_by_perm.
Qed.

(** A pass, over or cut: the table is well formed, calls were added, and every row that was
    there met its fate. *)
Definition passed (w w' : World) : Prop :=
  table_wf (w_pending w') /\
  exists new, w_calls w' = w_calls w ++ new /\
    forall r, In r (rows (w_pending w)) -> fate new r (w_pending w').

Lemma passed_nothing w w' :
  table_wf (w_pending w) -> w_pending w' = w_pending w -> w_calls w' = w_calls w -> passed w w'.
Proof.
  intros Hwf Hp Hc. unfold passed. rewrite Hp, Hc. split; [done|].
  exists []. split; [by rewrite app_nil_r|]. by left.
Qed.

Lemma passed_items w w1 w' :
  table_wf (w_pending w) -> w_pending w1 = w_pending w -> w_calls w1 = w_calls w ->
  queued (order_by_created_at (rows (w_pending w))) w1 /\
  (fates (order_by_created_at (rows (w_pending w))) w1 w' -> passed w w').
Proof.
  intros Hwf Hp Hc. split.
  - split; rewrite ?Hp; [done| |by apply order_by_NoDup].
    intros r. apply (Permutation_in r (order_by_perm _)).
  - intros (Hk & new & Hc' & Hf). split; [apply Hk; by rewrite Hp|]. exists new. rewrite <- Hc. split; [done|].
    intros r Hr. apply Hf. by apply (Permutation_in r (Permutation_sym (order_by_perm _))).
Qed.

Lemma reconcile_once_wp vc t w :
  table_wf (w_pending w) ->
  wp (reconcile_once post others db_error vc) (t, w) (fun _ st' => passed w (snd st')).
Proof.
  intros Hwf. unfold reconcile_once, count_pending, fetch_pending. wp_steps.
  eapply wp_mono; [apply sql_wp|].
  intros res [t1 w1] [(e & _ & -> & Hw)|(_ & -> & Hw)]; cbn [snd fst] in *; subst w1;
    [wp_steps; by apply passed_nothing|].
  wp_steps. destruct (_ =? 0)%Z; [wp_steps; by apply passed_nothing|]. wp_steps.
  eapply wp_mono; [apply sql_wp|].
  intros res [t2 w2] [(e & _ & -> & Hw)|(_ & -> & Hw)]; cbn [snd fst] in *; subst w2;
    [wp_steps; by apply passed_nothing|].
  cbn [w_pending with_pending with_sql with_backpressure].
  eapply wp_mono; [apply replay_all_wp; by eapply passed_items|].
  intros c [t3 w3] Hf. by eapply passed_items.
Qed.

Lemma reconcile_once_cut vc dl t w :
  table_wf (w_pending w) ->
  cut dl (reconcile_once post others db_error vc) (t, w)
    (fun _ st' => passed w (snd st')) (fun st' => passed w (snd st')).
Proof.
  intros Hwf. unfold reconcile_once, count_pending, fetch_pending. cut_steps.
  apply cut_at_once; [apply sql_at_once|]. eapply wp_mono; [apply sql_wp|].
  intros res [t1 w1] [(e & _ & -> & Hw)|(_ & -> & Hw)]; cbn [snd fst] in *; subst w1;
    [cut_steps; by apply passed_nothing|].
  cut_steps. destruct (_ =? 0)%Z; [cut_steps; by apply passed_nothing|]. cut_steps.
  apply cut_at_once; [apply sql_at_once|]. eapply wp_mono; [apply sql_wp|].
  intros res [t2 w2] [(e & _ & -> & Hw)|(_ & -> & Hw)]; cbn [snd fst] in *; subst w2;
    [cut_steps; by apply passed_nothing|].
  cbn [w_pending with_pending with_sql with_backpressure].
  eapply cut_mono; [apply replay_all_cut; by eapply passed_items|..].
  - intros c [t3 w3] Hf. by eapply passed_items.
  - intros [t3 w3] Hf. by eapply passed_items.
Qed.

(** C14: a reconciliation pass loses nothing.  Whatever the vault answers, whichever SQL
    statements fail and whatever other tasks insert meanwhile, the pass returns, and every
    pending settlement is afterwards as it was, or has one more attempt, or is gone, and then
    it was evicted after ten attempts or the vault accepted exactly its call during the pass.
    The log only grows and the table stays well formed.  The same holds when the process ends
    in the middle of the pass, at whatever await. *)
Theorem reconcile_loses_nothing vc (t : Instant) (w : World) :
  table_wf (w_pending w) ->
  (exists c t' w',
     reconcile_once post others db_error vc None (t, w) = (Done c, (t', w')) /\ passed w w') /\
  (forall (dl : Instant) out t' w',
     reconcile_once post others db_error vc (Some dl) (t, w) = (out, (t', w')) -> passed w w').
Proof.
  intros Hwf. split.
  - destruct (reconcile_once_wp vc t w Hwf) as (c & [t' w'] & Hr & Hp). by exists c, t', w'.
  - intros dl out t' w' Hr. pose proof (reconcile_once_cut vc dl t w Hwf) as Hc. unfold cut in Hc.
    rewrite Hr in Hc. by destruct out.
Qed.

(** ** Settling a request *)

(** Vault calls run no SQL. *)
Lemma settle_no_sql vc rid msats md : leaves w_sql (settle vc rid msats md).
Proof. by apply evolves_vault_settle; [exact _|..]. Qed.

Lemma release_no_sql vc rid reason : leaves w_sql (release vc rid reason).
Proof. by apply evolves_vault_release; [exact _|..]. Qed.

Definition settle_row (rid : string) (msats : Z) (md : SettleMetadata) : PendingSettlement :=
  {| settlement_type := "settle"; ps_reservation_id := rid; amount_msats := Some msats;
     ps_metadata := default "" (metadata_to_string md) |}.
Definition release_row (rid reason : string) : PendingSettlement :=
  {| settlement_type := "release"; ps_reservation_id := rid; amount_msats := None; ps_metadata := reason |}.

(** How a task that ends a reservation leaves it: at most three calls were made, all of them
    [call], and the vault took one, or [s] was inserted in the table, or there is no database,
    or the one SQL statement failed. *)
Definition closed_out (db : bool) (call : VaultCall) (s : PendingSettlement) (w w' : World) : Prop :=
  exists new, logs call new w w' /\ (1 <= length new <= 3)%nat /\
    (took new = true \/ db = false \/
     (db_error (w_sql w) <> None /\ w_sql w' = S (w_sql w)) \/
     exists now t0, keeps [] (w_pending w) t0 /\ w_pending w' = insert_row now s t0).

Lemma close_or_store_wp {A} (prog : Timed World (result A VaultError)) (db : bool) call s t w :
  leaves w_sql prog ->
  wp prog (t, w) (fun r st' => exists new, logs call new w (snd st') /\ (1 <= length new <= 3)%nat /\
    (is_Ok r -> took new = true)) ->
  wp (let! r := prog in
      match r with
      | Ok _ => t_ret tt
      | Err _ => if db then let! _ := insert_pending_settlement db_error s in t_ret tt else t_ret tt
      end) (t, w) (fun _ st' => closed_out db call s w (snd st')).
Proof.
  intros Hsql (res & [t1 w1] & Hr & new & Hl & Hlen & Hok). pose proof (evolves_run _ _ _ _ _ _ Hsql Hr) as Hq.
  unfold same_part in Hq. cbn [snd] in *. apply wp_bind. exists res, (t1, w1). split; [exact Hr|].
  unfold insert_pending_settlement, closed_out.
  destruct res as [a|e]; [wp_steps; exists new; split_and!; try done; try lia; left; apply Hok; by eexists|].
  destruct db; [|wp_steps; exists new; split_and!; try done; try lia; by right; left].
  wp_steps. eapply wp_mono; [apply sql_wp|]. pose proof Hl as (Hc & Hf & Hk).
  intros res [t2 w2] [(e' & Hdb & -> & Hw)|(_ & -> & Hw)]; cbn [snd fst] in *; subst w2;
    wp_steps; exists new; (split; [split_and!; try done|split; [done|]]).
  - right; right; left. cbn. rewrite <- Hq, Hdb. done.
  - apply (keeps_trans [] [] _ _ _ Hk (insert_keeps _ _ _)).
  - right; right; right. eauto.
Qed.

Lemma spawn_vault_settle_wp vc rid msats md db t w :
  wp (spawn_vault_settle post others db_error vc rid msats md db) (t, w) (fun _ st' =>
    closed_out db (CallSettle rid msats md) (settle_row rid msats md) w (snd st')).
Proof. apply close_or_store_wp; [apply settle_no_sql|apply settle_wp]. Qed.

Lemma spawn_vault_release_wp vc rid reason db t w :
  wp (spawn_vault_release post others db_error vc rid reason db) (t, w) (fun _ st' =>
    closed_out db (CallRelease rid reason) (release_row rid reason) w (snd st')).
Proof. apply close_or_store_wp; [apply release_no_sql|apply release_wp]. Qed.

(** Under a deadline they are cut in their calls, or not at all. *)
Lemma steady_insert s : steady (insert_pending_settlement db_error s).
Proof. apply steady_bind; [auto with arb|intros now]. apply at_once_steady, sql_at_once. Qed.

Lemma steady_settle_task vc rid msats md db : steady (spawn_vault_settle post others db_error vc rid msats md db).
Proof.
  apply steady_bind; [apply steady_settle|intros [|]; [auto with arb|]]. destruct db; [|auto with arb].
  apply steady_bind; [apply steady_insert|auto with arb].
Qed.

Lemma steady_release_task vc rid reason db : steady (spawn_vault_release post others db_error vc rid reason db).
Proof.
  apply steady_bind; [apply steady_release|intros [|]; [auto with arb|]]. destruct db; [|auto with arb].
  apply steady_bind; [apply steady_insert|auto with arb].
Qed.

(** the tasks that end a reservation.  Each ends after at most three calls, all the same,
    and the reservation is not lost: the vault accepted the call, or its settlement was
    inserted in the table, unless there is no database or the INSERT failed.  Nothing else in
    the table changes. *)
Theorem settle_task_records vc rid msats md reason db (t : Instant) (w : World) :
  (exists t' w', spawn_vault_settle post others db_error vc rid msats md db None (t, w) = (Done tt, (t', w')) /\
     closed_out db (CallSettle rid msats md) (settle_row rid msats md) w w') /\
  (exists t' w', spawn_vault_release post others db_error vc rid reason db None (t, w) = (Done tt, (t', w')) /\
     closed_out db (CallRelease rid reason) (release_row rid reason) w w').
Proof.
  split.
  - destruct (spawn_vault_settle_wp vc rid msats md db t w) as ([] & [t' w'] & ? & ?). by exists t', w'.
  - destruct (spawn_vault_release_wp vc rid reason db t w) as ([] & [t' w'] & ? & ?). by exists t', w'.
Qed.

End ClientSpecs.

(** what the INSERT stores is what the replay reads: the amount survives the trip
    through the signed column, the reservation id stays unique, and a settlement whose
    reservation already has a row is dropped. *)
Theorem insert_row_spec (now : Instant) (s : PendingSettlement) (t : PendingTable) :
  settlement_type s = "settle" \/ settlement_type s = "release" ->
  (forall a, amount_msats s = Some a -> in_u64 a) ->
  (In (ps_reservation_id s) (map row_reservation_id (rows t)) -> insert_row now s t = t) /\
  (~ In (ps_reservation_id s) (map row_reservation_id (rows t)) ->
   map fetched (rows (insert_row now s t)) = map fetched (rows t) ++ [(next_id t, s, 0)]).
Proof.
  intros Hty Ha. unfold insert_row.
  assert (Ht : (String.eqb (settlement_type s) "settle" || String.eqb (settlement_type s) "release")%bool = true)
    by (destruct Hty as [-> | ->]; reflexivity).
  rewrite Ht. cbn [negb orb]. split; intros Hin.
  - apply in_map_iff in Hin as (r & Heq & Hin).
    rewrite (proj2 (existsb_exists _ _)); [done|]. exists r. by rewrite Heq, String.eqb_refl.
  - destruct (existsb _ _) eqn:E.
    + exfalso. apply existsb_exists in E as (r & Hr & Heq). apply String.eqb_eq in Heq.
      apply Hin. rewrite <- Heq. by apply in_map.
    + simpl. rewrite map_app. simpl. unfold fetched at 2. simpl. destruct s as [ty rid am md]. simpl in *.
      destruct am as [a|]; simpl; [|done]. by rewrite as_i64_u64 by auto.
Qed.

(** ** A healthy vault drains the table *)

Section Drain.
Context `{VaultSerde} `{SqlOrder}.
Context (post : nat -> VaultCall -> Duration * result VaultReply SendError).
Context (others : nat -> list PendingSettlement).

Definition no_db_error : nat -> option string := fun _ => None.

(** Every call succeeds, with a body that parses as a settle response. *)
Definition healthy : Prop := forall n call, exists d reply v sr,
  post n call = (d, Ok reply) /\ is_success (vr_status reply) = true /\ vr_json reply = Ok v /\
  settle_response_from_value v = Ok sr.

Lemma call_healthy vc url call t w :
  healthy ->
  wp (call_with_retry post others vc url call) (t, w) (fun r st' =>
    (exists v sr, r = Ok v /\ settle_response_from_value v = Ok sr) /\
    keeps [] (w_pending w) (w_pending (snd st'))).
Proof.
  intros Hh. unfold call_with_retry. cbn [seq Z.to_nat MAX_RETRIES Pos.to_nat].
  change (seq 0 (Z.to_nat MAX_RETRIES)) with [0; 1; 2]%nat. cbn [retry_loop Nat.ltb Nat.leb].
  wp_steps. eapply wp_mono; [apply vault_post_wp|].
  intros r [t1 w1] (c & (_ & _ & Hk) & Hr & _). cbn [snd] in *.
  destruct (Hh (length (w_calls w)) call) as (d & reply & v & sr & Hp & Hs & Hj & Hsr).
  rewrite Hr, Hp. cbn [snd retry_reply]. rewrite Hs, Hj. wp_steps. simpl. split; [by exists v, sr|done].
Qed.

Lemma replay_one_healthy vc r t w :
  healthy -> (exists call, call_of r = Some call) ->
  wp (replay_one post others vc (snd (fst (fetched r)))) (t, w) (fun res st' =>
    res = Ok tt /\ keeps [] (w_pending w) (w_pending (snd st'))).
Proof.
  intros Hh (call & Hcall). unfold call_of in Hcall. unfold replay_one, settle, release.
  cbn [fst snd fetched settlement_type ps_metadata amount_msats ps_reservation_id].
  destruct (String.eqb (row_type r) "settle").
  - destruct (metadata_from_str (row_metadata r)) as [md|]; [|discriminate].
    wp_steps. eapply wp_mono; [by apply call_healthy|].
    intros res [t1 w1] ((v & sr & -> & Hsr) & Hk). wp_steps. simpl. by rewrite Hsr.
  - destruct (String.eqb (row_type r) "release"); [|discriminate].
    wp_steps. eapply wp_mono; [by apply call_healthy|].
    intros res [t1 w1] ((v & sr & -> & Hsr) & Hk). by wp_steps.
Qed.

Lemma delete_pending_ok id t w :
  wp (delete_pending no_db_error id) (t, w) (fun res st' =>
    res = Ok tt /\ w_pending (snd st') = delete_row id (w_pending w)).
Proof.
  eapply wp_mono; [apply sql_wp|].
  intros res [t1 w1] [(e & He & _)|(_ & -> & ->)]; [discriminate He|done].
Qed.

Definition replayable (r : PendingRow) : Prop :=
  row_attempts r < MAX_SETTLEMENT_ATTEMPTS /\ exists call, call_of r = Some call.

Definition gone (r : PendingRow) (t : PendingTable) : Prop :=
  forall q, In q (rows t) -> row_id q <> row_id r.

Lemma replay_all_healthy vc l n t w :
  healthy -> Forall replayable l -> List.NoDup (map row_id l) ->
  Forall (fun r => row_id r < next_id (w_pending w)) l ->
  0 <= n -> n + Z.of_nat (length l) <= U32_MAX ->
  wp (replay_all post others no_db_error vc (map fetched l) (n, 0, 0)) (t, w) (fun c st' =>
    c = (n + Z.of_nat (length l), 0, 0) /\
    keeps (map row_id l) (w_pending w) (w_pending (snd st')) /\
    forall r, In r l -> gone r (w_pending (snd st'))).
Proof.
  intros Hh. revert n t w. induction l as [|r l IH]; intros n t w Hf Hnd Hlt Hn Hb;
    cbn [map replay_all].
  - wp_steps. split_and!; [simpl; by rewrite Z.add_0_r|apply keeps_refl|done].
  - inversion Hf as [|? ? [Ha Hcall] Hf']; inversion Hnd as [|? ? Hni Hnd'];
      inversion Hlt as [|? ? Hr Hlt']; subst. cbn [length] in Hb.
    unfold replay_step at 1. cbn [fetched].
    destruct (Z.leb_spec MAX_SETTLEMENT_ATTEMPTS (row_attempts r)); [lia|].
    wp_steps. eapply wp_mono; [by apply (replay_one_healthy vc r)|].
    intros res [t1 w1] (-> & Hk1). wp_steps. eapply wp_mono; [apply delete_pending_ok|].
    intros res [t2 w2] (-> & Hd). cbn [snd] in *. wp_steps.
    assert (Hu : u32_add n 1 = n + 1) by (apply as_u32_id; unfold in_u32; lia).
    rewrite Hu.
    assert (Hk : keeps [row_id r] (w_pending w) (w_pending w2)).
    { rewrite Hd. apply (keeps_trans [] [row_id r] _ _ _ Hk1 (delete_keeps _ _)). }
    eapply wp_mono; [apply (IH (n + 1)); try done; [|lia|lia]|].
    { eapply List.Forall_impl; [|exact Hlt']. destruct Hk as (_ & ? & _). simpl. intros; lia. }
    intros c [t3 w3] (-> & Hk3 & Hg). cbn [snd] in *. split_and!.
    + f_equal. f_equal. cbn [length]. lia.
    + apply (keeps_trans [row_id r] _ _ _ _ Hk Hk3).
    + intros q [<-|Hq]; [|by apply Hg]. intros x Hx Heq.
      destruct Hk as (_ & Hle & _), Hk3 as (_ & _ & Hk3).
      apply (Hk3 x) in Hx; [|rewrite Heq; done|rewrite Heq; lia].
      rewrite Hd in Hx. by apply (delete_gone (row_id r) _ x) in Hx.
Qed.

(** C36: liveness.  If the vault answers, the database works and no settlement has run out
    of attempts, one pass replays every pending settlement and removes it. *)
Theorem reconcile_drains vc (t : Instant) (w : World) :
  healthy -> table_wf (w_pending w) -> Forall replayable (rows (w_pending w)) ->
  Z.of_nat (length (rows (w_pending w))) <= U32_MAX ->
  exists t' w', reconcile_once post others no_db_error vc None (t, w)
    = (Done (Z.of_nat (length (rows (w_pending w))), 0, 0), (t', w')) /\
    forall r, In r (rows (w_pending w)) -> gone r (w_pending w').
Proof.
  intros Hh Hwf Hrep Hlen.
  set (l := order_by_created_at (rows (w_pending w))).
  pose proof (order_by_perm (rows (w_pending w))) as Hperm. fold l in Hperm.
  assert (Hg : wp (reconcile_once post others no_db_error vc) (t, w) (fun c st' =>
    c = (Z.of_nat (length (rows (w_pending w))), 0, 0) /\
    forall r, In r (rows (w_pending w)) -> gone r (w_pending (snd st')))).
  { unfold reconcile_once, count_pending, fetch_pending. wp_steps.
    eapply wp_mono; [apply sql_wp|].
    intros res [t1 w1] [(e & He & _)|(_ & -> & Hw)]; [discriminate He|]. cbn [snd fst] in *; subst w1.
    wp_steps. destruct (Z.eqb_spec (Z.of_nat (length (rows (w_pending w)))) 0) as [Hz|_].
    { wp_steps. rewrite Hz. split; [done|]. intros r Hr.
      destruct (rows (w_pending w)); [done|simpl in Hz; lia]. }
    wp_steps. eapply wp_mono; [apply sql_wp|].
    intros res [t2 w2] [(e & He & _)|(_ & -> & Hw)]; [discriminate He|]. cbn [snd fst] in *; subst w2.
    cbn [w_pending with_pending with_sql with_backpressure]. fold l.
    eapply wp_mono; [apply replay_all_healthy; try done|].
    - rewrite List.Forall_forall in *. intros r Hr. apply Hrep. by apply (Permutation_in r Hperm).
    - by apply order_by_NoDup.
    - destruct Hwf as (_ & _ & HF). rewrite List.Forall_forall in *. intros r Hr.
      apply HF. by apply (Permutation_in r Hperm).
    - rewrite (Permutation_length Hperm). lia.
    - intros c [t3 w3] (-> & _ & Hgone). rewrite (Permutation_length Hperm). split; [done|].
      intros r Hr. apply Hgone. by apply (Permutation_in r (Permutation_sym Hperm)). }
  destruct Hg as (c & [t' w'] & Hr & -> & Hgone). exists t', w'. auto.
Qed.

End Drain.

(** ** The reservation *)

(** The exact price of a request in millisatoshis: the rates are satoshis per 1000 tokens. *)
Definition exact_cost_msats (input output input_rate output_rate base_fee : Z) : Z :=
  input * input_rate + output * output_rate + 1000 * base_fee.

(** No product of the estimate leaves [u64]. *)
Definition reserve_fits (input output input_rate output_rate base_fee : Z) : Prop :=
  1000 * (input * input_rate) + 1000 * (output * output_rate) + 1000 * base_fee <= U64_MAX.

Lemma estimate_reserve_exact i o ir or bf :
  0 <= i -> 0 <= o -> 0 <= ir -> 0 <= or -> 0 <= bf -> reserve_fits i o ir or bf ->
  estimate_reserve_msats i o ir or bf = exact_cost_msats i o ir or bf.
Proof.
  unfold reserve_fits, estimate_reserve_msats, exact_cost_msats, u64_mul, u64_add, U64_MAX. intros.
  assert (0 <= i * ir) by nia. assert (0 <= o * or) by nia.
  unfold as_u64. rewrite (Z.mod_small (i * ir)), (Z.mod_small (o * or)) by lia.
  rewrite (Z.mod_small (i * ir * 1000)), (Z.mod_small (o * or * 1000)), (Z.mod_small (bf * 1000)) by lia.
  rewrite !Z.div_mul by lia. rewrite (Z.mod_small (i * ir + o * or)) by lia.
  rewrite Z.mod_small by lia. lia.
Qed.

(** C37: the reservation covers every provider the request can end at: if the products fit
    in 64 bits, the amount reserved at the frontier rates is at least the exact price, at
    any provider that serves the model, of any usage within the estimate. *)
Theorem reserve_covers_every_provider (rt : Router) (model : string) (p : ProviderConfig)
    (ir or bf est_in est_out used_in used_out : Z) :
  frontier_rates rt model = Some (ir, or, bf) ->
  In p (rt_providers rt) -> serves model p = true -> provider_wf p ->
  0 <= used_in <= est_in -> 0 <= used_out <= est_out ->
  reserve_fits est_in est_out ir or bf ->
  exact_cost_msats used_in used_out (p_input_rate p) (p_output_rate p) (p_base_fee p)
  <= estimate_reserve_msats est_in est_out ir or bf.
Proof.
  intros Hf Hin Hs (Hi & Ho & Hb) Hui Huo Hfit.
  destruct (frontier_rates_ub _ _ _ _ _ _ Hf Hin Hs) as (H1 & H2 & H3). unfold in_u64 in *.
  rewrite estimate_reserve_exact by (assumption || lia). unfold exact_cost_msats. nia.
Qed.

(** Outside 64 bits the estimate wraps: at [2^52] satoshis per 1000 tokens 4096 output
    tokens reserve nothing. *)
Example estimate_reserve_wraps : estimate_reserve_msats 0 4096 0 (2 ^ 52) 0 = 0.
Proof. vm_compute. reflexivity. Qed.

(** ** Witnesses *)

Section VaultWitnesses.

#[local] Instance SettleMetadata_eq_dec : EqDecision SettleMetadata.
Proof. solve_decision. Defined.

Definition metadata_ex : SettleMetadata :=
  {| tokens_in := Some 10; tokens_out := Some 20; sm_provider := "alpha"; sm_latency_ms := 5 |}.

#[local] Instance json_ex : SerdeJson := ToyJson [].

(** A serialiser of one value. *)
#[local] Instance serde_ex : VaultSerde.
Proof.
  refine {| settle_response_from_value := fun _ => Ok {| settled := true; refunded_msats := None |};
            metadata_to_string := fun m => if decide (m = metadata_ex) then Some "{ex}" else None;
            metadata_from_str := fun s => if String.eqb s "{ex}" then Ok metadata_ex else Err "bad" |}.
  - intros m s. destruct (decide (m = metadata_ex)) as [->|]; [|discriminate]. intros [= <-]. reflexivity.
  - discriminate.
Defined.

#[local] Existing Instance InsertionOrder.

(** The vault takes one second and accepts everything. *)
Definition post_ok (n : nat) (call : VaultCall) : Duration * result VaultReply SendError :=
  (secs 1, Ok {| vr_status := 200; vr_json := Ok (TObj []); vr_text := None |}).

(** It is down for the first two calls. *)
Definition post_flaky (n : nat) (call : VaultCall) : Duration * result VaultReply SendError :=
  if (n <? 2)%nat then (secs 5, Err {| se_timeout_or_connect := true; se_text := "refused" |})
  else post_ok n call.

Definition no_others (n : nat) : list PendingSettlement := [].

Definition pending_ex : World := with_pending World_new
  (insert_row (secs 7) {| settlement_type := "release"; ps_reservation_id := "r2";
                          amount_msats := None; ps_metadata := "timeout" |}
    (insert_row 0 {| settlement_type := "settle"; ps_reservation_id := "r1";
                     amount_msats := Some 1500; ps_metadata := "{ex}" |} (w_pending World_new))).

Lemma pending_ex_wf : table_wf (w_pending pending_ex).
Proof. apply insert_keeps, insert_keeps, table_wf_new. Qed.

Definition client_ex : VaultClient := {| base_url := "http://vault"; token := "t";
  vc_default_reserve_tokens := 4096; vc_pending_threshold := 100 |}.

Lemma reconcile_loses_nothing_witness :
  (exists c t' w',
     reconcile_once post_flaky no_others (fun _ => None) client_ex None (0, pending_ex) = (Done c, (t', w')) /\
     passed pending_ex w') /\
  exists t' w',
     reconcile_once post_flaky no_others (fun _ => None) client_ex (Some (millis 1)) (0, pending_ex)
       = (Elapsed, (t', w')) /\ passed pending_ex w'.
Proof.
  destruct (reconcile_loses_nothing post_flaky no_others (fun _ => None) client_ex 0 pending_ex pending_ex_wf)
    as [(c & t' & w' & Hr & Hp) Hcut].
  split; [exists c, t', w'; split; [exact Hr|exact Hp]|].
  assert (He : exists t1 w1, reconcile_once post_flaky no_others (fun _ => None) client_ex (Some (millis 1)) (0, pending_ex)
    = (Elapsed, (t1, w1))) by (eexists _, _; vm_compute; reflexivity).
  destruct He as (t1 & w1 & He). exists t1, w1. split; [exact He|]. exact (Hcut _ _ _ _ He).
Defined.

Lemma reconcile_drains_witness :
  exists t' w', reconcile_once post_ok no_others no_db_error client_ex None (0, pending_ex)
    = (Done (2, 0, 0), (t', w')).
Proof.
  destruct (reconcile_drains post_ok no_others client_ex 0 pending_ex) as (t' & w' & Hr & _).
  - intros n call. eexists _, _, _, _. split; [reflexivity|]. split; [reflexivity|].
    split; reflexivity.
  - exact pending_ex_wf.
  - constructor; [|constructor; [|constructor]]; (split; [reflexivity|]).
    + exists (CallSettle "r1" 1500 metadata_ex). vm_compute. reflexivity.
    + exists (CallRelease "r2" "timeout"). vm_compute. reflexivity.
  - vm_compute. discriminate.
  - exists t', w'. exact Hr.
Defined.

Lemma insert_row_spec_witness :
  map fetched (rows (insert_row (secs 9) {| settlement_type := "settle"; ps_reservation_id := "r3";
      amount_msats := Some U64_MAX; ps_metadata := "{ex}" |} (w_pending pending_ex)))
  = map fetched (rows (w_pending pending_ex)) ++
    [(3, {| settlement_type := "settle"; ps_reservation_id := "r3"; amount_msats := Some U64_MAX;
            ps_metadata := "{ex}" |}, 0)].
Proof.
  apply (insert_row_spec (secs 9) {| settlement_type := "settle"; ps_reservation_id := "r3";
    amount_msats := Some U64_MAX; ps_metadata := "{ex}" |} (w_pending pending_ex)).
  - left. reflexivity.
  - intros a [= <-]. unfold in_u64, U64_MAX. lia.
  - simpl. intros [?|[?|[]]]; discriminate.
Defined.

Lemma reserve_covers_every_provider_witness :
  exact_cost_msats 100 50 1 20 0 <= estimate_reserve_msats 100 4096 1 40 5.
Proof.
  apply (reserve_covers_every_provider router_ex "gpt-4o" (provider_ex "alpha" ["gpt-4o"] 20 0 Frontier)
           1 40 5 100 4096 100 50).
  - vm_compute. reflexivity.
  - simpl. auto.
  - vm_compute. reflexivity.
  - unfold provider_wf, in_u64, U64_MAX. simpl. lia.
  - lia.
  - lia.
  - vm_compute. discriminate.
Defined.

(** The record's amount in [u64], a pass against a vault that is down for two calls. *)
Example flaky_pass :
  match reconcile_once post_flaky no_others no_db_error client_ex None (0, pending_ex) with
  | (Done c, (_, w)) => (c, rows (w_pending w), length (w_calls w))
  | _ => ((0, 0, 0), [], 0%nat)
  end = ((2, 0, 0), [], 4%nat).
Proof. vm_compute. reflexivity. Qed.

End VaultWitnesses.
