(* ===== verification/Sse.v ===== *)
(** * The SSE observer ([src/src/proxy/stream.rs])

    Chunks of bytes are appended to a buffer, complete lines are taken off it and parsed,
    the rest waits for the next chunk.  The observer writes its result to the shared handle
    when it is dropped, not when the stream ends.  Bytes are [list ascii]. *)

From S2P Require Import Prelude Machine RustStr Types.

Definition BUFFER_CAP : Z := 64 * 1024.

Definition nl : ascii := ascii_of_nat 10.
Definition cr : ascii := ascii_of_nat 13.

Record StreamUsage := { prompt_tokens : Z; completion_tokens : Z }.

Record StreamResult := {
  sr_usage : option StreamUsage;
  sr_finish_reason : option string;
  sr_done_received : bool;
}.

Definition StreamResult_empty : StreamResult :=
  {| sr_usage := None; sr_finish_reason := None; sr_done_received := false |}.

(** What the observer has extracted so far. *)
Record Extracted := mkExtracted {
  ex_usage : option StreamUsage;
  ex_finish_reason : option string;
  ex_done_received : bool;
}.

Record SseObserver := mkObserver { so_buffer : list ascii; so_extracted : Extracted }.

Definition SseObserver_new : SseObserver := mkObserver [] (mkExtracted None None false).

Section Sse.
Context `{SerdeJson}.

(** ** Lines *)

Definition choice_finish_reason (parsed : Value) : option string :=
  match v_get "choices" parsed with
  | None => None
  | Some c =>
    match v_get_idx 0 c with
    | None => None
    | Some choice =>
      match v_get "finish_reason" choice with
      | None => None
      | Some r => v_as_str r
      end
    end
  end.

Definition get_u64 (k : string) (v : Value) : option Z :=
  match v_get k v with Some x => v_as_u64 x | None => None end.

(** [Some None] is a usage object without the expected fields (a warning). *)
Definition chunk_usage (parsed : Value) : option StreamUsage :=
  match v_get "usage" parsed with
  | None => None
  | Some usage =>
      if v_is_null usage then None
      else match get_u64 "prompt_tokens" usage, get_u64 "completion_tokens" usage with
           | Some prompt, Some completion =>
               Some {| prompt_tokens := as_u32 prompt; completion_tokens := as_u32 completion |}
           | _, _ => None
           end
  end.

Definition process_data (data : string) (s : Extracted) : Extracted :=
  let data := str_trim data in
  if String.eqb data "[DONE]" then mkExtracted (ex_usage s) (ex_finish_reason s) true
  else
    match json_from_str data with
    | None => s
    | Some parsed =>
        let finish := match choice_finish_reason parsed with
                      | Some reason => Some reason
                      | None => ex_finish_reason s
                      end in
        let usage := match chunk_usage parsed with Some u => Some u | None => ex_usage s end in
        mkExtracted usage finish (ex_done_received s)
    end.

Definition process_line (line : string) (s : Extracted) : Extracted :=
  if str_is_empty line then s
  else if str_starts_with ":" line then s
  else if str_starts_with "event:" line || str_starts_with "id:" line
          || str_starts_with "retry:" line then s
  else
    match (match str_strip_prefix "data: " line with
           | Some d => Some d
           | None => str_strip_prefix "data:" line
           end) with
    | Some data => process_data data s
    | None => s
    end.

(** A line of bytes, as the loop and the flush treat it. *)
Definition process_bytes (line_bytes : list ascii) (s : Extracted) : Extracted :=
  match from_utf8 line_bytes with Some line => process_line line s | None => s end.

(** ** Chunks *)

(** [buffer.iter().position(|&b| b == b'\n')], with what is before and after it. *)
Fixpoint split_newline (buf : list ascii) : option (list ascii * list ascii) :=
  match buf with
  | [] => None
  | b :: buf' =>
      if Ascii.eqb b nl then Some ([], buf')
      else match split_newline buf' with
           | Some (before, after) => Some (b :: before, after)
           | None => None
           end
  end.

(** A trailing [\r] is not part of the line. *)
Fixpoint trim_cr (line : list ascii) : list ascii :=
  match line with
  | [] => []
  | [b] => if Ascii.eqb b cr then [] else [b]
  | b :: line' => b :: trim_cr line'
  end.

(** The [loop] of [process_chunk]: every turn shortens the buffer, so its length is fuel
    enough ([drain_lines_fuel]). *)
Fixpoint drain_lines (fuel : nat) (o : SseObserver) : SseObserver :=
  match fuel with
  | O => o
  | S fuel' =>
      match split_newline (so_buffer o) with
      | None => o
      | Some (line, rest) =>
          drain_lines fuel' (mkObserver rest (process_bytes (trim_cr line) (so_extracted o)))
      end
  end.

Definition process_chunk (bytes : list ascii) (o : SseObserver) : SseObserver :=
  let buffer := so_buffer o ++ bytes in
  if (BUFFER_CAP <? Z.of_nat (length buffer))%Z then mkObserver [] (so_extracted o)
  else drain_lines (length buffer) (mkObserver buffer (so_extracted o)).

Definition flush_buffer (o : SseObserver) : SseObserver :=
  match so_buffer o with
  | [] => o
  | remaining => mkObserver [] (process_bytes (trim_cr remaining) (so_extracted o))
  end.

Definition build_result (o : SseObserver) : StreamResult :=
  let s := so_extracted o in
  if negb (ex_done_received s) then StreamResult_empty
  else {| sr_usage := ex_usage s; sr_finish_reason := ex_finish_reason s; sr_done_received := true |}.

Definition into_result (o : SseObserver) : StreamResult := build_result (flush_buffer o).

(** ** The wrapped stream

    The stream owns the observer and shares the handle with its creator. *)

Record WrappedStream := { ws_observer : SseObserver; ws_handle : option StreamResult }.

Definition wrap_sse_stream : WrappedStream :=
  {| ws_observer := SseObserver_new; ws_handle := None |}.

(** One item polled from the wrapped stream: the item is passed through. *)
Definition ws_next (item : result (list ascii) string) (ws : WrappedStream)
    : result (list ascii) string * WrappedStream :=
  match item with
  | Ok bytes => (Ok bytes, {| ws_observer := process_chunk bytes (ws_observer ws);
                              ws_handle := ws_handle ws |})
  | Err e => (Err e, ws)
  end.

(** [Drop for SseObserver], when the stream is dropped: the handle as its holder sees it. *)
Definition ws_drop (ws : WrappedStream) : option StreamResult :=
  let o := flush_buffer (ws_observer ws) in Some (build_result o).

Fixpoint ws_run (items : list (result (list ascii) string)) (ws : WrappedStream)
    : list (result (list ascii) string) * WrappedStream :=
  match items with
  | [] => ([], ws)
  | item :: items' =>
      let '(out, ws') := ws_next item ws in
      let '(outs, ws'') := ws_run items' ws' in
      (out :: outs, ws'')
  end.

(** ** The reference: the whole byte string at once *)

(** The complete lines, and what follows the last newline. *)
Fixpoint lines_of (bytes : list ascii) : list (list ascii) * list ascii :=
  match bytes with
  | [] => ([], [])
  | b :: bytes' =>
      let '(ls, tl) := lines_of bytes' in
      if Ascii.eqb b nl then ([] :: ls, tl)
      else match ls with
           | [] => ([], b :: tl)
           | l :: ls' => ((b :: l) :: ls', tl)
           end
  end.

Definition process_lines (ls : list (list ascii)) (s : Extracted) : Extracted :=
  fold_left (fun s l => process_bytes (trim_cr l) s) ls s.

Definition parse_all (bytes : list ascii) : StreamResult :=
  let '(ls, tl) := lines_of bytes in
  build_result (mkObserver [] (process_lines (ls ++ [tl]) (so_extracted SseObserver_new))).

(** ** The loop computes the lines *)

Lemma split_newline_None buf : split_newline buf = None -> lines_of buf = ([], buf).
Proof.
  induction buf as [|b buf IH]; simpl; [done|]. destruct (Ascii.eqb b nl); [discriminate|].
  destruct (split_newline buf) as [[x y]|]; [discriminate|]. intros _. by rewrite IH.
Qed.

Lemma split_newline_Some buf line rest :
  split_newline buf = Some (line, rest) ->
  lines_of buf = (line :: fst (lines_of rest), snd (lines_of rest)) /\
  (length rest < length buf)%nat.
Proof.
  revert line rest. induction buf as [|b buf IH]; intros line rest; simpl; [discriminate|].
  destruct (Ascii.eqb b nl).
  - intros [= <- <-]. split; [by destruct (lines_of buf)|lia].
  - destruct (split_newline buf) as [[x y]|]; [|discriminate]. intros [= <- <-].
    destruct (IH x y eq_refl) as [-> Hlen]. split; [done|lia].
Qed.

Lemma drain_lines_fuel fuel buf st :
  (length buf <= fuel)%nat ->
  drain_lines fuel (mkObserver buf st)
  = mkObserver (snd (lines_of buf)) (process_lines (fst (lines_of buf)) st).
Proof.
  revert buf st. induction fuel as [|fuel IH]; intros buf st Hf; cbn [drain_lines so_buffer so_extracted].
  - destruct buf; [done|simpl in Hf; lia].
  - destruct (split_newline buf) as [[line rest]|] eqn:E.
    + apply split_newline_Some in E as [-> Hlen]. rewrite IH by lia. reflexivity.
    + by rewrite (split_newline_None _ E).
Qed.

Lemma lines_of_app a b :
  lines_of (a ++ b) = (fst (lines_of a) ++ fst (lines_of (snd (lines_of a) ++ b)),
                       snd (lines_of (snd (lines_of a) ++ b))).
Proof.
  induction a as [|c a IH]; simpl; [by destruct (lines_of b)|]. rewrite IH.
  destruct (lines_of a) as [ls tl]. simpl. destruct (Ascii.eqb c nl) eqn:Ec; [done|].
  destruct ls as [|l ls]; simpl; [|done]. rewrite Ec.
  by destruct (lines_of (tl ++ b)) as [[|l ls] tl0].
Qed.

Lemma process_chunk_spec bytes o :
  Z.of_nat (length (so_buffer o) + length bytes) <= BUFFER_CAP ->
  process_chunk bytes o
  = mkObserver (snd (lines_of (so_buffer o ++ bytes)))
      (process_lines (fst (lines_of (so_buffer o ++ bytes))) (so_extracted o)).
Proof.
  intros Hcap. unfold process_chunk. rewrite length_app.
  destruct (Z.ltb_spec BUFFER_CAP (Z.of_nat (length (so_buffer o) + length bytes))); [lia|].
  apply drain_lines_fuel. rewrite length_app. lia.
Qed.

Definition process_chunks (chunks : list (list ascii)) (o : SseObserver) : SseObserver :=
  fold_left (fun o c => process_chunk c o) chunks o.

(** The buffer never passes the cap: what is left of the lines so far, plus the next chunk. *)
Definition no_overflow (chunks : list (list ascii)) : Prop :=
  forall pre c post, chunks = pre ++ c :: post ->
    Z.of_nat (length (snd (lines_of (concat pre))) + length c) <= BUFFER_CAP.

Lemma process_chunks_spec chunks :
  no_overflow chunks ->
  process_chunks chunks SseObserver_new
  = mkObserver (snd (lines_of (concat chunks)))
      (process_lines (fst (lines_of (concat chunks))) (so_extracted SseObserver_new)).
Proof.
  induction chunks as [|c chunks IH] using rev_ind; intros Hno; [done|].
  unfold process_chunks in *. rewrite fold_left_app. simpl. rewrite IH.
  2: { intros pre d post ->. apply (Hno pre d (post ++ [c])). by rewrite <- app_assoc. }
  rewrite process_chunk_spec; cbn [so_buffer so_extracted]; [|by apply (Hno chunks c [])].
  rewrite concat_app. cbn [concat]. rewrite app_nil_r, (lines_of_app (concat chunks) c). cbn [fst snd].
  f_equal. unfold process_lines. by rewrite fold_left_app.
Qed.

Lemma process_empty_tail st : process_bytes (trim_cr []) st = st.
Proof. reflexivity. Qed.

(** C28: chunk boundaries do not matter.  However the network cuts the stream, if no chunk
    finds the buffer over its cap, the result is that of parsing all the bytes at once,
    line by line: two cuts of the same bytes give the same result. *)
Theorem chunking_is_irrelevant (chunks : list (list ascii)) :
  no_overflow chunks ->
  into_result (process_chunks chunks SseObserver_new) = parse_all (concat chunks).
Proof.
  intros Hno. unfold into_result. rewrite process_chunks_spec by done. unfold parse_all.
  destruct (lines_of (concat chunks)) as [ls tl]. cbn [fst snd]. unfold flush_buffer.
  cbn [so_buffer so_extracted]. unfold process_lines. rewrite fold_left_app. cbn [fold_left].
  destruct tl as [|b tl]; [by rewrite process_empty_tail|done].
Qed.

(** Bytes that fit in the buffer as a whole never overflow it. *)
Lemma lines_tail_length bytes : (length (snd (lines_of bytes)) <= length bytes)%nat.
Proof.
  induction bytes as [|b bytes IH]; simpl; [done|]. destruct (lines_of bytes) as [[|l ls] tl];
    destruct (Ascii.eqb b nl); simpl in *; lia.
Qed.

Lemma small_no_overflow chunks : Z.of_nat (length (concat chunks)) <= BUFFER_CAP -> no_overflow chunks.
Proof.
  intros Hb pre c post ->. rewrite concat_app, length_app in Hb. cbn [concat] in Hb.
  rewrite length_app in Hb. pose proof (lines_tail_length (concat pre)). lia.
Qed.

(** memory stays bounded whatever the provider sends: after every chunk the buffer
    holds at most the cap, and never a complete line. *)
Theorem buffer_bounded (chunks : list (list ascii)) :
  let o := process_chunks chunks SseObserver_new in
  Z.of_nat (length (so_buffer o)) <= BUFFER_CAP /\ split_newline (so_buffer o) = None.
Proof.
  cbv zeta. induction chunks as [|c chunks IH] using rev_ind; [split; [unfold BUFFER_CAP; simpl; lia|done]|].
  unfold process_chunks in *. rewrite fold_left_app. simpl.
  set (o := fold_left _ chunks SseObserver_new) in *. unfold process_chunk.
  destruct (Z.ltb_spec BUFFER_CAP (Z.of_nat (length (so_buffer o ++ c)))) as [|Hle].
  - split; [unfold BUFFER_CAP; simpl; lia|done].
  - rewrite drain_lines_fuel by lia. cbn [so_buffer].
    split; [pose proof (lines_tail_length (so_buffer o ++ c)); lia|].
    clear. induction (so_buffer o ++ c) as [|b bytes IHb]; [done|]. simpl.
    destruct (lines_of bytes) as [[|l ls] tl]; destruct (Ascii.eqb b nl) eqn:E; simpl in *; try done.
    by rewrite E, IHb.
Qed.

(** the safety valve drops complete lines too: a chunk that takes the buffer over the
    cap is discarded whole, with what was buffered, and nothing of it is extracted. *)
Theorem oversized_chunk_discarded (o : SseObserver) (bytes : list ascii) :
  BUFFER_CAP < Z.of_nat (length (so_buffer o) + length bytes) ->
  process_chunk bytes o = mkObserver [] (so_extracted o).
Proof.
  intros Hb. unfold process_chunk. rewrite length_app.
  by destruct (Z.ltb_spec BUFFER_CAP (Z.of_nat (length (so_buffer o) + length bytes))); [|lia].
Qed.

(** the client's bytes are never altered: every item of the upstream is passed through
    in order, and the handle stays empty until the stream itself is dropped. *)
Theorem passthrough (items : list (result (list ascii) string)) (ws : WrappedStream) :
  fst (ws_run items ws) = items /\ ws_handle (snd (ws_run items ws)) = ws_handle ws.
Proof.
  revert ws. induction items as [|item items IH]; intros ws; [done|]. cbn [ws_run].
  destruct (ws_next item ws) as [out ws'] eqn:E.
  assert (out = item /\ ws_handle ws' = ws_handle ws) as [-> Hh]
    by (destruct item; injection E as <- <-; done).
  destruct (IH ws') as [Hf Hs]. destruct (ws_run items ws') as [outs ws'']. simpl in *.
  split; congruence.
Qed.

End Sse.

(** ** Witnesses *)

Section SseWitnesses.

Definition ok_chunks (l : list string) : list (list ascii) := map String.list_ascii_of_string l.

Definition final_chunk : Toy :=
  TObj [("choices", TArr [TObj [("finish_reason", TStr "stop")]]);
        ("usage", TObj [("prompt_tokens", TNum 6); ("completion_tokens", TNum 10)])].

#[local] Instance json_sse : SerdeJson := ToyJson [("{final}", final_chunk)].

Definition crlf : string := String cr (String nl "").

(** One event and the end marker, cut in the middle of both. *)
Definition cut_stream : list (list ascii) :=
  ok_chunks ["data: {fi"; "nal}" +:+ crlf +:+ crlf +:+ "data: [DO"; "NE]"].

Lemma chunking_is_irrelevant_witness :
  into_result (process_chunks cut_stream SseObserver_new) = parse_all (concat cut_stream).
Proof. apply chunking_is_irrelevant, small_no_overflow. vm_compute. discriminate. Defined.

Example cut_stream_result :
  into_result (process_chunks cut_stream SseObserver_new)
  = {| sr_usage := Some {| prompt_tokens := 6; completion_tokens := 10 |};
       sr_finish_reason := Some "stop"; sr_done_received := true |}.
Proof. vm_compute. reflexivity. Qed.

Lemma oversized_chunk_discarded_witness :
  let line := String.list_ascii_of_string ("data: [DONE]" +:+ crlf) in
  let chunk := line ++ repeat nl (Z.to_nat BUFFER_CAP) in
  process_chunk chunk SseObserver_new = SseObserver_new.
Proof. intros line chunk. apply oversized_chunk_discarded. vm_compute. reflexivity. Defined.

End SseWitnesses.
