(* ===== verification/Complexity.v ===== *)
(** * The complexity scorer ([src/src/router/complexity.rs])

    Five weighted signals over the conversation's text, in binary64.  The [regex] crate's
    [find_iter] and the platform's [exp] are the interface [ScorerDeps]. *)

From S2P Require Import Prelude Machine RustStr Config Types.

Class ScorerDeps := {
  (** [Regex::new(pattern).find_iter(text)]: the matched texts *)
  find_iter : string -> string -> list string;
  (** [f64::exp] *)
  f64_exp : f64 -> f64;
}.

Definition MIN_TEXT_LEN : Z := 10.

Definition CODE_BLOCK_RE : string := "```[\s\S]*?```".
Definition FILE_PATH_RE : string := "\b\w+(?:/\w+)+\.\w{1,5}\b".
Definition FILE_EXT_RE : string :=
  "\.\b(?:rs|py|ts|js|go|java|cpp|c|h|toml|yaml|yml|json|md|sql|sh)\b".

Definition DEFAULT_KEYWORDS : list string :=
  ["architect"; "design"; "tradeoff"; "refactor"; "why does"; "compare"; "across the codebase";
   "step by step"; "analyze"; "evaluate"; "debug"].

Definition score_to_max_tier (score low high : f64) : Tier :=
  if f64_ltb score low then Local
  else if f64_gtb score high then Frontier
  else Standard.

Section Scorer.
Context `{ScorerDeps} `{UnicodeCase}.

(** [1.0 / (1.0 + x.exp())] *)
Definition logistic (x : f64) : f64 := f64_div f64_one (f64_add f64_one (f64_exp x)).

Definition signal_context_length (text : string) : f64 :=
  let tokens := str_len text / 4 in
  logistic (f64_mul (f64_opp (f64_lit 3 1000)) (f64_sub (f64_of_Z tokens) (f64_of_Z 1000))).

(** [(count as f64 / 3.0).min(1.0)] *)
Definition thirds (count : Z) : f64 := f64_min (f64_div (f64_of_Z count) (f64_of_Z 3)) f64_one.

Definition signal_code_blocks (text : string) : f64 :=
  thirds (Z.of_nat (length (find_iter CODE_BLOCK_RE text))).

Definition signal_multi_file (text : string) : f64 :=
  let matches := find_iter FILE_PATH_RE text ++ find_iter FILE_EXT_RE text in
  thirds (Z.of_nat (length (List.nodup String.string_dec matches))).

Definition signal_reasoning_keywords (text : string) (extra : list string) : f64 :=
  let lower := to_lowercase text in
  thirds (Z.of_nat (length (List.filter (str_contains lower) DEFAULT_KEYWORDS)
                    + length (List.filter (fun kw => str_contains lower (to_lowercase kw))
                                extra))).

Definition signal_conversation_depth (message_count : Z) : f64 :=
  logistic (f64_mul (f64_opp (f64_lit 5 10)) (f64_sub (f64_of_Z message_count) (f64_of_Z 6))).

Definition weighted (signals : list (f64 * f64)) : f64 * f64 :=
  fold_left (fun '(ws, wt) '(signal, weight) =>
    (f64_add ws (f64_mul signal weight), f64_add wt weight)) signals (f64_zero, f64_zero).

Context `{SerdeJson}.

Definition message_text (messages : list Message) : string :=
  str_join (String (ascii_of_nat 10) "") (map (fun m => content_as_str (m_content m)) messages).

Definition score_complexity (messages : list Message) (weights : ComplexityWeightsConfig) : f64 :=
  match messages with
  | [] => f64_one
  | _ =>
      let text := message_text messages in
      if (str_len text <? MIN_TEXT_LEN)%Z then f64_one
      else
        let signals :=
          [(signal_context_length text, context_length weights);
           (signal_code_blocks text, code_blocks weights);
           (signal_multi_file text, multi_file weights);
           (signal_reasoning_keywords text (extra_keywords weights), reasoning_keywords weights);
           (signal_conversation_depth (Z.of_nat (length messages)), conversation_depth weights)] in
        let '(weighted_sum, weight_total) := weighted signals in
        if f64_eqb weight_total f64_zero then f64_one
        else f64_clamp (f64_div weighted_sum weight_total) f64_zero f64_one
  end.

(** ** Theorems *)

(** whatever the weights, the regexes and [exp] do, the score is in [0, 1] or NaN. *)
Theorem score_bounds (messages : list Message) (weights : ComplexityWeightsConfig) :
  let score := score_complexity messages weights in
  f64_is_nan score = true \/
  (f64_leb f64_zero score = true /\ f64_leb score f64_one = true).
Proof.
  cbv zeta. assert (Hone : f64_leb f64_zero f64_one = true /\ f64_leb f64_one f64_one = true)
    by (split; vm_compute; reflexivity).
  unfold score_complexity. destruct messages as [|m ms]; [by right|].
  destruct (_ <? _)%Z; [by right|]. destruct (weighted _) as [ws wt].
  destruct (f64_eqb wt f64_zero); [by right|].
  destruct (f64_is_nan (f64_div ws wt)) eqn:E.
  - left. destruct (f64_div ws wt); try discriminate. by rewrite f64_clamp_nan.
  - right. by apply f64_clamp_bounds.
Qed.

(** requests too small to score go to the best models: with fewer than ten bytes of
    text, or no message at all, the score is 1.0 and, for any upper threshold below 1.0
    and lower threshold up to 1.0, the tier is Frontier. *)
Theorem short_requests_go_to_frontier (messages : list Message) weights low high :
  messages = [] \/ str_len (message_text messages) < MIN_TEXT_LEN ->
  f64_ltb high f64_one = true -> f64_leb low f64_one = true ->
  score_complexity messages weights = f64_one /\
  score_to_max_tier (score_complexity messages weights) low high = Frontier.
Proof.
  intros Hs Hh Hl.
  assert (Hscore : score_complexity messages weights = f64_one).
  { unfold score_complexity. destruct messages as [|m ms]; [done|].
    destruct Hs as [Hs|Hs]; [done|]. by destruct (Z.ltb_spec (str_len (message_text (m :: ms))) MIN_TEXT_LEN); [|lia]. }
  split; [done|]. rewrite Hscore. unfold score_to_max_tier, f64_gtb. rewrite Hh.
  destruct (f64_ltb f64_one low) eqn:E; [|done].
  pose proof (f64_leb_ltb_trans _ _ _ Hl E) as Hc. by rewrite f64_ltb_irrefl in Hc.
Qed.

End Scorer.

(** A higher score never lowers the tier, whatever the thresholds. *)
Theorem tier_monotone (s1 s2 low high : f64) :
  f64_leb s1 s2 = true ->
  Tier_le (score_to_max_tier s1 low high) (score_to_max_tier s2 low high).
Proof.
  intros Hle. unfold score_to_max_tier, f64_gtb, Tier_le.
  destruct (f64_ltb s2 low) eqn:E2.
  - by rewrite (f64_leb_ltb_trans _ _ _ Hle E2).
  - destruct (f64_ltb s1 low); [by destruct (f64_ltb high s2)|].
    destruct (f64_ltb high s1) eqn:E1; [|by destruct (f64_ltb high s2)].
    by rewrite (f64_ltb_leb_trans _ _ _ E1 Hle).
Qed.

(** ** Witnesses *)

Section ComplexityWitnesses.
#[local] Existing Instance AsciiCase.
#[local] Instance json_cx : SerdeJson := ToyJson [].
#[local] Instance deps_cx : ScorerDeps := {| find_iter := fun _ _ => []; f64_exp := fun _ => f64_one |}.

Definition msg_ex (t : string) : Message :=
  {| m_role := "user"; m_content := Text t; m_name := None; m_extra := [] |}.

Lemma tier_monotone_witness :
  Tier_le (score_to_max_tier (f64_lit 5 10) default_threshold_low default_threshold_high)
          (score_to_max_tier (f64_lit 9 10) default_threshold_low default_threshold_high).
Proof. apply tier_monotone. vm_compute. reflexivity. Defined.

Lemma short_requests_go_to_frontier_witness :
  score_to_max_tier (score_complexity [msg_ex "hi"] ComplexityWeightsConfig_default)
    default_threshold_low default_threshold_high = Frontier.
Proof.
  apply (short_requests_go_to_frontier [msg_ex "hi"] ComplexityWeightsConfig_default
           default_threshold_low default_threshold_high).
  - right. vm_compute. reflexivity.
  - vm_compute. reflexivity.
  - vm_compute. reflexivity.
Defined.

(** A configured weight of [inf] makes the score NaN, which is neither below nor above the
    thresholds: every scored request is Standard. *)
Definition inf_weights : ComplexityWeightsConfig :=
  {| context_length := S754_infinity false; code_blocks := f64_one; multi_file := f64_one;
     reasoning_keywords := f64_one; conversation_depth := f64_one; extra_keywords := [] |}.

Example score_can_be_nan :
  score_complexity [msg_ex "a prompt of more than ten bytes"] inf_weights = S754_nan /\
  score_to_max_tier S754_nan default_threshold_low default_threshold_high = Standard.
Proof. split; vm_compute; reflexivity. Qed.

End ComplexityWitnesses.
