(* ===== verification/Storage.v ===== *)
(** * Request log storage ([src/src/storage/])

    The [requests] table with its insert and its two updates ([logging.rs]), the bounded
    writer that applies them in order ([writer.rs]), and the queries of the stats and log
    endpoints ([stats.rs], [logs.rs]).  What SQL leaves open (the order of rows with equal
    keys, the summation of reals, the order of groups) is the interface [SqlEngine], with the
    order [ORDER BY] documents. *)

From stdpp Require Import sorting.
From S2P Require Import Prelude Machine RustStr.

(** ** The table *)

Record RequestLog := {
  correlation_id : string;
  timestamp : string;
  rl_model : string;
  rl_provider : option string;
  rl_policy : option string;
  rl_streaming : bool;
  rl_input_tokens : option Z;
  rl_output_tokens : option Z;
  rl_cost_sats : option f64;
  rl_provider_cost_sats : option f64;
  rl_latency_ms : Z;
  rl_success : bool;
  rl_error_status : option Z;
  rl_error_message : option string;
  rl_complexity_score : option f64;
  rl_tier : option string;
}.

(** A row: the inserted columns, and the one only an update writes. *)
Record RequestRow := mkRequestRow {
  rq_id : Z;
  rq_log : RequestLog;
  rq_stream_duration_ms : option Z;
}.

Record RequestsTable := { rq_rows : list RequestRow; rq_next_id : Z }.

Definition RequestsTable_new : RequestsTable := {| rq_rows := []; rq_next_id := 1 |}.

(** A NaN bound to a REAL column is stored as NULL. *)
Definition real_column (x : option f64) : option f64 :=
  match x with Some v => if f64_is_nan v then None else Some v | None => None end.

(** [RequestLog::insert] *)
Definition insert_log (log : RequestLog) (t : RequestsTable) : RequestsTable :=
  let stored := {|
    correlation_id := correlation_id log; timestamp := timestamp log; rl_model := rl_model log;
    rl_provider := rl_provider log; rl_policy := rl_policy log; rl_streaming := rl_streaming log;
    rl_input_tokens := rl_input_tokens log; rl_output_tokens := rl_output_tokens log;
    rl_cost_sats := real_column (rl_cost_sats log);
    rl_provider_cost_sats := real_column (rl_provider_cost_sats log);
    rl_latency_ms := rl_latency_ms log; rl_success := rl_success log;
    rl_error_status := rl_error_status log; rl_error_message := rl_error_message log;
    rl_complexity_score := real_column (rl_complexity_score log); rl_tier := rl_tier log |} in
  {| rq_rows := rq_rows t ++ [mkRequestRow (rq_next_id t) stored None];
     rq_next_id := rq_next_id t + 1 |}.

Record UsageUpdate := {
  uu_input_tokens : option Z;
  uu_output_tokens : option Z;
  uu_cost_sats : option f64;
}.

Record StreamCompletion := {
  sc_usage : UsageUpdate;
  sc_stream_duration_ms : Z;
  sc_success : bool;
  sc_error_message : option string;
  sc_complexity_score : option f64;
  sc_tier : option string;
}.

Definition set_usage (u : UsageUpdate) (l : RequestLog) : RequestLog := {|
  correlation_id := correlation_id l; timestamp := timestamp l; rl_model := rl_model l;
  rl_provider := rl_provider l; rl_policy := rl_policy l; rl_streaming := rl_streaming l;
  rl_input_tokens := uu_input_tokens u; rl_output_tokens := uu_output_tokens u;
  rl_cost_sats := real_column (uu_cost_sats u); rl_provider_cost_sats := rl_provider_cost_sats l;
  rl_latency_ms := rl_latency_ms l; rl_success := rl_success l;
  rl_error_status := rl_error_status l; rl_error_message := rl_error_message l;
  rl_complexity_score := rl_complexity_score l; rl_tier := rl_tier l |}.

Definition set_completion (c : StreamCompletion) (l : RequestLog) : RequestLog :=
  let l := set_usage (sc_usage c) l in {|
  correlation_id := correlation_id l; timestamp := timestamp l; rl_model := rl_model l;
  rl_provider := rl_provider l; rl_policy := rl_policy l; rl_streaming := rl_streaming l;
  rl_input_tokens := rl_input_tokens l; rl_output_tokens := rl_output_tokens l;
  rl_cost_sats := rl_cost_sats l; rl_provider_cost_sats := rl_provider_cost_sats l;
  rl_latency_ms := rl_latency_ms l; rl_success := sc_success c;
  rl_error_status := rl_error_status l; rl_error_message := sc_error_message c;
  rl_complexity_score := real_column (sc_complexity_score c); rl_tier := sc_tier c |}.

Definition matches_id (cid : string) (r : RequestRow) : bool := String.eqb (correlation_id (rq_log r)) cid.

(** [UPDATE ... WHERE correlation_id = ?]: the rows affected and the table. *)
Definition update_where (cid : string) (f : RequestRow -> RequestRow) (t : RequestsTable)
    : Z * RequestsTable :=
  (Z.of_nat (length (List.filter (matches_id cid) (rq_rows t))),
   {| rq_rows := map (fun r => if matches_id cid r then f r else r) (rq_rows t);
      rq_next_id := rq_next_id t |}).

Definition update_usage (cid : string) (u : UsageUpdate) (t : RequestsTable) : Z * RequestsTable :=
  update_where cid (fun r => mkRequestRow (rq_id r) (set_usage u (rq_log r)) (rq_stream_duration_ms r)) t.

Definition update_stream_completion (cid : string) (c : StreamCompletion) (t : RequestsTable)
    : Z * RequestsTable :=
  update_where cid (fun r => mkRequestRow (rq_id r) (set_completion c (rq_log r))
                               (Some (sc_stream_duration_ms c))) t.

(** ** The writer *)

Definition DEFAULT_CAPACITY : nat := 1024.

Inductive WriteCommand :=
| Insert (log : RequestLog)
| UpdateUsage (cid : string) (u : UsageUpdate)
| UpdateStreamCompletion (cid : string) (c : StreamCompletion).

(** The channel and the database behind it. *)
Record DbWriter := mkWriter {
  wr_capacity : nat;
  wr_queue : list WriteCommand;
  wr_table : RequestsTable;
}.

Definition DbWriter_with_capacity (capacity : nat) (t : RequestsTable) : DbWriter := mkWriter capacity [] t.
Definition DbWriter_new (t : RequestsTable) : DbWriter := DbWriter_with_capacity DEFAULT_CAPACITY t.

(** [tx.try_send(cmd)]: dropped when the channel is full. *)
Definition try_send (cmd : WriteCommand) (w : DbWriter) : DbWriter :=
  if (length (wr_queue w) <? wr_capacity w)%nat
  then mkWriter (wr_capacity w) (wr_queue w ++ [cmd]) (wr_table w)
  else w.

Definition log_write (log : RequestLog) : DbWriter -> DbWriter := try_send (Insert log).
Definition usage_update (cid : string) (u : UsageUpdate) : DbWriter -> DbWriter :=
  try_send (UpdateUsage cid u).
Definition stream_completion_update (cid : string) (c : StreamCompletion) : DbWriter -> DbWriter :=
  try_send (UpdateStreamCompletion cid c).

(** One command against the database; a failed statement leaves it as it was. *)
Definition apply_command (ok : bool) (cmd : WriteCommand) (t : RequestsTable) : RequestsTable :=
  if negb ok then t
  else match cmd with
       | Insert log => insert_log log t
       | UpdateUsage cid u => snd (update_usage cid u t)
       | UpdateStreamCompletion cid c => snd (update_stream_completion cid c t)
       end.

(** One turn of [writer_loop]: take the oldest command and apply it. *)
Definition writer_turn (ok : bool) (w : DbWriter) : DbWriter :=
  match wr_queue w with
  | [] => w
  | cmd :: queue => mkWriter (wr_capacity w) queue (apply_command ok cmd (wr_table w))
  end.

(** Requests send, the writer task takes turns, in any order. *)
Inductive writer_event := Send (cmd : WriteCommand) | Turn (ok : bool).

Definition writer_step (w : DbWriter) (e : writer_event) : DbWriter :=
  match e with Send cmd => try_send cmd w | Turn ok => writer_turn ok w end.

Definition writer_run (events : list writer_event) (w : DbWriter) : DbWriter :=
  fold_left writer_step events w.

(** ** Theorems *)

(** The commands the channel took, and how many turns were not idle. *)
Fixpoint accepted_sends (events : list writer_event) (w : DbWriter) : list WriteCommand :=
  match events with
  | [] => []
  | e :: events' =>
      (match e with
       | Send cmd => if (length (wr_queue w) <? wr_capacity w)%nat then [cmd] else []
       | Turn _ => []
       end) ++ accepted_sends events' (writer_step w e)
  end.

(** The commands the writer took off the queue, with the outcome of their statement. *)
Fixpoint applied (events : list writer_event) (w : DbWriter) : list (bool * WriteCommand) :=
  match events with
  | [] => []
  | e :: events' =>
      (match e, wr_queue w with
       | Turn ok, cmd :: _ => [(ok, cmd)]
       | _, _ => []
       end) ++ applied events' (writer_step w e)
  end.

Definition apply_all (cmds : list (bool * WriteCommand)) (t : RequestsTable) : RequestsTable :=
  fold_left (fun t c => apply_command (fst c) (snd c) t) cmds t.

Lemma writer_run_spec events w :
  let w' := writer_run events w in
  wr_queue w ++ accepted_sends events w = map snd (applied events w) ++ wr_queue w' /\
  wr_table w' = apply_all (applied events w) (wr_table w) /\
  wr_capacity w' = wr_capacity w /\
  ((length (wr_queue w) <= wr_capacity w)%nat -> (length (wr_queue w') <= wr_capacity w)%nat).
Proof.
  cbv zeta. unfold writer_run, apply_all. revert w.
  induction events as [|e events IH]; intros w; cbn [accepted_sends applied fold_left].
  - simpl. by rewrite app_nil_r.
  - destruct (IH (writer_step w e)) as (Hq & Ht & Hc & Hb). destruct e as [cmd|ok]; cbn [writer_step] in *.
    + rewrite Ht, Hc. unfold try_send in *.
      destruct (Nat.ltb_spec (length (wr_queue w)) (wr_capacity w)) as [Hlt|Hge];
        cbn [wr_queue wr_table wr_capacity] in *.
      * rewrite <- app_assoc in Hq. split_and!; [exact Hq|by destruct (wr_queue w)|done|].
        intros _. apply Hb. rewrite length_app. simpl. lia.
      * split_and!; [exact Hq|by destruct (wr_queue w)|done|exact Hb].
    + unfold writer_turn in *. destruct (wr_queue w) as [|cmd q] eqn:Eq; cbn [wr_queue wr_table wr_capacity] in *.
      * rewrite Eq in Hq, Hb. split_and!; [exact Hq|exact Ht|exact Hc|exact Hb].
      * split_and!; [simpl; by rewrite <- Hq|exact Ht|exact Hc|]. simpl. intros. apply Hb. lia.
Qed.

(** the writer loses no accepted write and keeps their order.  Whatever the
    interleaving of senders and writer, what has been applied is a prefix of what the
    channel accepted, the rest is exactly the queue, the table is the result of applying
    that prefix in order, and the queue never passes its capacity. *)
Theorem writer_applies_in_order (events : list writer_event) (capacity : nat) (t : RequestsTable) :
  let w := DbWriter_with_capacity capacity t in
  let w' := writer_run events w in
  accepted_sends events w = map snd (applied events w) ++ wr_queue w' /\
  wr_table w' = apply_all (applied events w) t /\
  (length (wr_queue w') <= capacity)%nat.
Proof.
  cbv zeta. destruct (writer_run_spec events (DbWriter_with_capacity capacity t)) as (Hq & Ht & _ & Hb).
  split_and!; [exact Hq|exact Ht|]. apply Hb. simpl. lia.
Qed.

(** No row of the table has the correlation id. *)
Definition fresh_id (cid : string) (t : RequestsTable) : Prop :=
  forall r, In r (rq_rows t) -> matches_id cid r = false.

(** The log of a request, as [GET] reads it back: its rows by id. *)
Definition rows_of (cid : string) (t : RequestsTable) : list RequestRow :=
  List.filter (matches_id cid) (rq_rows t).

Lemma rows_of_fresh cid t : fresh_id cid t -> rows_of cid t = [].
Proof.
  unfold fresh_id, rows_of. induction (rq_rows t) as [|r l IH]; [done|]. intros Hf. simpl.
  rewrite (Hf r) by (by left). apply IH. intros q Hq. apply Hf. by right.
Qed.

(** The id a command writes at. *)
Definition command_id (cmd : WriteCommand) : string :=
  match cmd with Insert log => correlation_id log | UpdateUsage cid _ | UpdateStreamCompletion cid _ => cid end.

Lemma update_rows cid cid' f t :
  (forall r, correlation_id (rq_log (f r)) = correlation_id (rq_log r)) ->
  rows_of cid (snd (update_where cid' f t)) = if String.eqb cid' cid then map f (rows_of cid t) else rows_of cid t.
Proof.
  intros Hf. unfold rows_of, update_where. cbn [snd rq_rows]. induction (rq_rows t) as [|r l IH]; [by destruct (String.eqb _ _)|].
  cbn [map List.filter]. assert (Hm : forall q, correlation_id (rq_log q) = correlation_id (rq_log r) ->
    matches_id cid q = matches_id cid r) by (intros q Hq; unfold matches_id; by rewrite Hq).
  rewrite (Hm (if matches_id cid' r then f r else r)) by (by destruct (matches_id cid' r)).
  unfold matches_id in *. destruct (String.eqb_spec (correlation_id (rq_log r)) cid) as [Heq|Hne].
  - rewrite IH, Heq, (String.eqb_sym cid cid'). by destruct (String.eqb cid' cid).
  - exact IH.
Qed.

Lemma insert_rows cid log t :
  exists r, rows_of cid (insert_log log t) = rows_of cid t ++ (if String.eqb (correlation_id log) cid then [r] else []) /\
    rq_stream_duration_ms r = None /\ rl_success (rq_log r) = rl_success log /\
    rl_error_message (rq_log r) = rl_error_message log /\ rl_input_tokens (rq_log r) = rl_input_tokens log.
Proof.
  eexists. unfold rows_of, insert_log. cbn [rq_rows]. rewrite List.filter_app. split; [|split_and!].
  { f_equal. }
  all: done.
Qed.

(** Commands at other ids leave the rows of a request alone. *)
Lemma apply_other cid ok cmd t : command_id cmd <> cid -> rows_of cid (apply_command ok cmd t) = rows_of cid t.
Proof.
  intros Hne. unfold apply_command. destruct ok; [|done]. cbn [negb].
  destruct cmd as [log|cid' u|cid' c]; cbn [command_id] in Hne; apply String.eqb_neq in Hne.
  - destruct (insert_rows cid log t) as (r & -> & _). by rewrite Hne, app_nil_r.
  - unfold update_usage. rewrite update_rows by done. by rewrite Hne.
  - unfold update_stream_completion. rewrite update_rows by done. by rewrite Hne.
Qed.

Lemma apply_others cid l t :
  (forall c, In c l -> command_id (snd c) <> cid) -> rows_of cid (apply_all l t) = rows_of cid t.
Proof.
  unfold apply_all. revert t. induction l as [|c l IH]; intros t Hl; [done|]. cbn [fold_left].
  rewrite IH by (intros d Hd; apply Hl; by right). apply apply_other, Hl. by left.
Qed.

Lemma apply_all_app l1 l2 t : apply_all (l1 ++ l2) t = apply_all l2 (apply_all l1 t).
Proof. apply fold_left_app. Qed.

(** What a read shows of a completed stream. *)
Definition shown (r : RequestRow) : bool * option string * option Z * option Z :=
  (rl_success (rq_log r), rl_error_message (rq_log r), rl_input_tokens (rq_log r), rq_stream_duration_ms r).

(** *** Fire and forget

    The [spawn_*] functions of [logging.rs], which the writer replaced: each makes a task of
    its own, and the tasks run in any order. *)

Definition spawn_log_write (log : RequestLog) (tasks : list WriteCommand) : list WriteCommand :=
  tasks ++ [Insert log].
Definition spawn_usage_update (cid : string) (u : UsageUpdate) (tasks : list WriteCommand) : list WriteCommand :=
  tasks ++ [UpdateUsage cid u].
Definition spawn_stream_completion_update (cid : string) (c : StreamCompletion) (tasks : list WriteCommand)
    : list WriteCommand := tasks ++ [UpdateStreamCompletion cid c].

Inductive spawned_runs : list WriteCommand -> RequestsTable -> RequestsTable -> Prop :=
| runs_none t : spawned_runs [] t t
| runs_task before cmd after ok t t' :
    spawned_runs (before ++ after) (apply_command ok cmd t) t' -> spawned_runs (before ++ cmd :: after) t t'.

(** The insert, later the completion, and nothing else at the id. *)
Lemma rows_after_both log c l1 l2 l3 t :
  fresh_id (correlation_id log) t ->
  (forall cmd, In cmd (map snd l1 ++ map snd l2 ++ map snd l3) -> command_id cmd <> correlation_id log) ->
  map shown (rows_of (correlation_id log)
    (apply_all (l1 ++ (true, Insert log) :: l2 ++ (true, UpdateStreamCompletion (correlation_id log) c) :: l3) t))
  = [(sc_success c, sc_error_message c, uu_input_tokens (sc_usage c), Some (sc_stream_duration_ms c))].
Proof.
  intros Hf Hother. set (cid := correlation_id log) in *.
  assert (Hl : forall l, (forall x, In x (map snd l) -> In x (map snd l1 ++ map snd l2 ++ map snd l3)) ->
    forall t, rows_of cid (apply_all l t) = rows_of cid t).
  { intros l Hin t'. apply apply_others. intros x Hx. by apply Hother, Hin, in_map. }
  assert (Hcons : forall x l t, apply_all (x :: l) t = apply_all l (apply_command (fst x) (snd x) t)) by done.
  rewrite apply_all_app, Hcons, apply_all_app, Hcons. cbn [fst snd apply_command negb].
  rewrite (Hl l3) by (intros x; rewrite !in_app_iff; auto).
  unfold update_stream_completion. rewrite update_rows, String.eqb_refl by done.
  rewrite (Hl l2) by (intros x; rewrite !in_app_iff; auto).
  destruct (insert_rows cid log (apply_all l1 t)) as (r & -> & _). unfold cid at 2. rewrite String.eqb_refl.
  rewrite (Hl l1) by (intros x; rewrite !in_app_iff; auto). by rewrite (rows_of_fresh _ _ Hf).
Qed.

(** C29: why there is a channel.  If a request's insert and then, later, its stream completion
    were accepted by the channel, and the statements at its id succeed, then however senders
    and writer interleave and whatever is written for other requests, once the queue is drained
    its one row has the completion.  With the fire-and-forget spawns the same two writes can leave the row
    without it, for good, with no statement failing. *)
Theorem channel_completes_streams (events : list writer_event) (capacity : nat) (t : RequestsTable)
    (log : RequestLog) (c : StreamCompletion) (pre mid post : list WriteCommand) :
  let cid := correlation_id log in
  let w := DbWriter_with_capacity capacity t in
  fresh_id cid t ->
  accepted_sends events w = pre ++ Insert log :: mid ++ UpdateStreamCompletion cid c :: post ->
  (forall cmd, In cmd (pre ++ mid ++ post) -> command_id cmd <> cid) ->
  (forall ok cmd, In (ok, cmd) (applied events w) -> command_id cmd = cid -> ok = true) ->
  wr_queue (writer_run events w) = [] ->
  map shown (rows_of cid (wr_table (writer_run events w)))
    = [(sc_success c, sc_error_message c, uu_input_tokens (sc_usage c), Some (sc_stream_duration_ms c))] /\
  exists t', spawned_runs (spawn_stream_completion_update cid c (spawn_log_write log [])) t t' /\
    map shown (rows_of cid t') = [(rl_success log, rl_error_message log, rl_input_tokens log, None)].
Proof.
  cbv zeta. intros Hf Hacc Hother Hok Hq. set (cid := correlation_id log) in *. split.
  - destruct (writer_run_spec events (DbWriter_with_capacity capacity t)) as (Hs & -> & _).
    change (wr_queue (DbWriter_with_capacity capacity t)) with (@nil WriteCommand) in Hs. cbn [app] in Hs.
    change (wr_table (DbWriter_with_capacity capacity t)) with t.
    rewrite Hq, app_nil_r in Hs. rewrite Hs in Hacc. symmetry in Hs.
    apply map_eq_app in Hacc as (l1 & l' & Happ & <- & Hl'). destruct l' as [|[ok1 cmd1] l']; [done|].
    injection Hl' as -> Hl'. apply map_eq_app in Hl' as (l2 & l3 & -> & <- & Hl3).
    destruct l3 as [|[ok2 cmd2] l3]; [done|]. injection Hl3 as -> <-. rewrite Happ in Hok |- *.
    assert (ok1 = true) as -> by (apply (Hok ok1 (Insert log)); [apply in_elt|done]).
    assert (ok2 = true) as ->.
    { apply (Hok ok2 (UpdateStreamCompletion cid c)); [|done]. apply in_app_iff. right. right. apply in_elt. }
    by apply rows_after_both.
  - set (t1 := snd (update_stream_completion cid c t)). exists (insert_log log t1). split.
    + apply (runs_task [Insert log] (UpdateStreamCompletion cid c) [] true), (runs_task [] (Insert log) [] true), runs_none.
    + assert (H1 : rows_of cid t1 = []).
      { unfold t1, update_stream_completion. by rewrite update_rows, String.eqb_refl, (rows_of_fresh _ _ Hf) by done. }
      destruct (insert_rows cid log t1) as (r & -> & Hd & Hsu & He & Hi). unfold cid at 2.
      rewrite String.eqb_refl, H1. cbn. unfold shown. by rewrite Hd, Hsu, He, Hi.
Qed.

(** ** Queries *)

(** Strings are compared byte by byte. *)
Definition str_leb (a b : string) : bool := String.leb a b.

(** SQLite's [LOWER]: ASCII letters only. *)
Definition sql_lower (s : string) : string := str_map ascii_lower s.

(** The order of a column of the listing; NULL comes before every number. *)
Definition column_leb (column : string) (r1 r2 : RequestRow) : bool :=
  let x := rq_log r1 in
  let y := rq_log r2 in
  if String.eqb column "timestamp" then str_leb (timestamp x) (timestamp y)
  else if String.eqb column "cost_sats" then
    match real_column (rl_cost_sats x), real_column (rl_cost_sats y) with
    | Some c, Some d => f64_leb c d
    | None, _ => true
    | Some _, None => false
    end
  else if String.eqb column "latency_ms" then (rl_latency_ms x <=? rl_latency_ms y)%Z
  else true.

Definition row_before (column direction : string) (r1 r2 : RequestRow) : Prop :=
  (if String.eqb direction "DESC" then column_leb column r2 r1 else column_leb column r1 r2) = true.

Class SqlEngine := {
  (** [ORDER BY column direction] of the query with this [LIMIT] and [OFFSET]: rows with equal
      keys come in an order of the query's own *)
  sort_rows : Z -> Z -> string -> string -> list RequestRow -> list RequestRow;
  sort_rows_perm : forall k o c d l, Permutation (sort_rows k o c d l) l;
  sort_rows_sorted : forall k o c d l, StronglySorted (row_before c d) (sort_rows k o c d l);
  (** [TOTAL] and [AVG] over the non-NULL values *)
  sql_total : list f64 -> f64;
  sql_avg : list Z -> f64;
  sql_total_empty : sql_total [] = f64_zero;
  (** the groups of [GROUP BY]: each key once, in some order *)
  sql_groups : list string -> list string;
  sql_groups_NoDup : forall l, List.NoDup (sql_groups l);
  sql_groups_In : forall l k, In k (sql_groups l) <-> In k l;
}.

(** The dynamic WHERE clause: absent filters do not constrain. *)
Record LogFilter := {
  lf_since : string;
  lf_until : string;
  lf_model : option string;
  lf_provider : option string;
  lf_success : option bool;
  lf_streaming : option bool;
}.

Definition opt_matches {A} (f : A -> bool) (o : option A) : bool :=
  match o with Some x => f x | None => true end.

(** [LOWER(column) = LOWER(?)]: NULL never matches. *)
Definition lower_eq (column : option string) (value : string) : bool :=
  match column with Some c => String.eqb (sql_lower c) (sql_lower value) | None => false end.

Definition where_clause (f : LogFilter) (r : RequestRow) : bool :=
  let l := rq_log r in
  str_leb (lf_since f) (timestamp l) && str_leb (timestamp l) (lf_until f)
  && opt_matches (lower_eq (Some (rl_model l))) (lf_model f)
  && opt_matches (lower_eq (rl_provider l)) (lf_provider f)
  && opt_matches (Bool.eqb (rl_success l)) (lf_success f)
  && opt_matches (Bool.eqb (rl_streaming l)) (lf_streaming f).

Definition count_logs (f : LogFilter) (t : RequestsTable) : Z :=
  Z.of_nat (length (List.filter (where_clause f) (rq_rows t))).

Lemma real_column_number x y : real_column x = Some y -> f64_is_nan y = false.
Proof. destruct x as [v|]; [|done]. simpl. destruct (f64_is_nan v) eqn:E; [done|]. by intros [= <-]. Qed.

Lemma column_leb_total c r1 r2 : column_leb c r1 r2 = true \/ column_leb c r2 r1 = true.
Proof.
  unfold column_leb. destruct (String.eqb _ _).
  { destruct (total String.le (timestamp (rq_log r1)) (timestamp (rq_log r2))) as [H|H]; apply Is_true_true in H; auto. }
  destruct (String.eqb _ _); [|destruct (String.eqb _ _); [rewrite !Z.leb_le; lia|auto]].
  destruct (real_column (rl_cost_sats (rq_log r1))) as [x|] eqn:Ex, (real_column (rl_cost_sats (rq_log r2))) as [y|] eqn:Ey; auto.
  apply f64_leb_total; eauto using real_column_number.
Qed.

Lemma column_leb_trans c r1 r2 r3 :
  column_leb c r1 r2 = true -> column_leb c r2 r3 = true -> column_leb c r1 r3 = true.
Proof.
  unfold column_leb. destruct (String.eqb _ _).
  { unfold str_leb. rewrite <- !Is_true_true. apply (transitivity (R := String.le)). }
  destruct (String.eqb _ _); [|destruct (String.eqb _ _); [rewrite !Z.leb_le; lia|auto]].
  destruct (real_column (rl_cost_sats (rq_log r1))), (real_column (rl_cost_sats (rq_log r2))),
    (real_column (rl_cost_sats (rq_log r3))); try done. apply f64_leb_trans.
Qed.

#[export] Instance row_before_dec c d : RelDecision (row_before c d).
Proof. unfold row_before. solve_decision. Defined.

#[export] Instance row_before_total c d : Total (row_before c d).
Proof. intros r1 r2. unfold row_before. destruct (String.eqb d "DESC"); [apply or_comm|]; apply column_leb_total. Qed.

#[export] Instance row_before_trans c d : Transitive (row_before c d).
Proof.
  intros r1 r2 r3. unfold row_before. destruct (String.eqb d "DESC"); intros H1 H2; by eapply column_leb_trans.
Qed.

(** ** Rows that tie *)

(** Two rows the sort column does not tell apart. *)
Definition tied (column : string) (r1 r2 : RequestRow) : Prop :=
  column_leb column r1 r2 = true /\ column_leb column r2 r1 = true.

(** No two of the rows tie. *)
Definition untied (column : string) (rows : list RequestRow) : Prop :=
  forall r1 r2, In r1 rows -> In r2 rows -> tied column r1 r2 -> r1 = r2.

Lemma row_before_tied c d r1 r2 : row_before c d r1 r2 -> row_before c d r2 r1 -> tied c r1 r2.
Proof. unfold row_before, tied. by destruct (String.eqb d "DESC"). Qed.

Lemma filter_all {A} (P : A -> Prop) `{!forall x, Decision (P x)} l : Forall P l -> filter P l = l.
Proof. induction 1 as [|x l Hx _ IH]; [done|]. by rewrite filter_cons_True, IH. Qed.

Lemma filter_no {A} (P : A -> Prop) `{!forall x, Decision (P x)} l : Forall (fun x => ~ P x) l -> filter P l = [].
Proof. induction 1 as [|x l Hx _ IH]; [done|]. by rewrite filter_cons_False, IH. Qed.

Lemma sorted_pointwise {A} (R : relation A) `{!Transitive R} `{!Total R} `{!RelDecision R} l1 l2 i x y :
  StronglySorted R l1 -> StronglySorted R l2 -> Permutation l1 l2 ->
  l1 !! i = Some x -> l2 !! i = Some y -> R x y.
Proof.
  intros Hs1 Hs2 Hp Hx Hy. destruct (decide (R x y)) as [|Hn]; [done|exfalso].
  assert (Hr : forall z, R z z) by (intros z; by destruct (total R z z)).
  assert (Hc : length (filter (fun z => ~ R x z) l1) = length (filter (fun z => ~ R x z) l2)) by (by rewrite Hp).
  rewrite <- (take_drop_middle l1 i x Hx), <- (take_drop_middle l2 i y Hy) in Hc.
  rewrite <- (take_drop_middle l1 i x Hx) in Hs1. rewrite <- (take_drop_middle l2 i y Hy) in Hs2.
  apply StronglySorted_app in Hs1 as (_ & _ & Hs1). apply StronglySorted_cons in Hs1 as [Hs1 _].
  apply StronglySorted_app in Hs2 as (Hs2 & _ & _).
  assert (H1 : filter (fun z => ~ R x z) (x :: drop (S i) l1) = []).
  { apply filter_no. constructor; [auto|]. eapply List.Forall_impl; [|exact Hs1]. auto. }
  assert (H2 : filter (fun z => ~ R x z) (take i l2) = take i l2).
  { apply filter_all, List.Forall_forall. intros z Hz%list_elem_of_In Hxz. apply Hn. transitivity z; [done|]. apply Hs2; [done|by constructor]. }
  rewrite !list.filter_app, H1, H2, filter_cons_True, app_nil_r, length_app in Hc by done. cbn in Hc.
  pose proof (length_filter (fun z => ~ R x z) (take i l1)).
  rewrite !length_take in *. apply lookup_lt_Some in Hy. lia.
Qed.

(** Two sortings of the same rows differ only by rows that tie. *)
Lemma sortings_tie c d l1 l2 :
  StronglySorted (row_before c d) l1 -> StronglySorted (row_before c d) l2 -> Permutation l1 l2 ->
  Forall2 (fun r1 r2 => In r1 l1 /\ In r2 l2 /\ tied c r1 r2) l1 l2.
Proof.
  intros Hs1 Hs2 Hp. apply Forall2_same_length_lookup. split; [by apply Permutation_length|].
  intros i x y Hx Hy. split_and!; [by eapply list_elem_of_In, list_elem_of_lookup_2..|]. apply (row_before_tied c d).
  - exact (sorted_pointwise _ l1 l2 i x y Hs1 Hs2 Hp Hx Hy).
  - exact (sorted_pointwise _ l2 l1 i y x Hs2 Hs1 (Permutation_sym Hp) Hy Hx).
Qed.

Section Queries.
Context `{SqlEngine}.

(** [LIMIT limit OFFSET offset] *)
Definition query_logs (f : LogFilter) (sort_column sort_direction : string) (limit offset : Z)
    (t : RequestsTable) : list RequestRow :=
  take (Z.to_nat limit) (drop (Z.to_nat offset)
    (sort_rows limit offset sort_column sort_direction (List.filter (where_clause f) (rq_rows t)))).

Record AggregateRow := {
  total_requests : Z;
  total_cost_sats : f64;
  total_input_tokens : f64;
  total_output_tokens : f64;
  avg_latency_ms : f64;
  success_count : Z;
  error_count : Z;
  streaming_count : Z;
}.

Record ModelRow := { mr_model : string; mr_agg : AggregateRow }.
Record TierRow := { tr_tier : string; tr_agg : AggregateRow }.

Definition count_where (f : RequestLog -> bool) (rows : list RequestRow) : Z :=
  Z.of_nat (length (List.filter (fun r => f (rq_log r)) rows)).

(** The selected columns of one group. *)
Definition aggregate (rows : list RequestRow) : AggregateRow :=
  let logs := map rq_log rows in {|
  total_requests := Z.of_nat (length rows);
  total_cost_sats := sql_total (omap rl_cost_sats logs);
  total_input_tokens := sql_total (map f64_of_Z (omap rl_input_tokens logs));
  total_output_tokens := sql_total (map f64_of_Z (omap rl_output_tokens logs));
  avg_latency_ms := match logs with [] => f64_zero | _ => sql_avg (map rl_latency_ms logs) end;
  success_count := count_where rl_success rows;
  error_count := count_where (fun l => negb (rl_success l)) rows;
  streaming_count := count_where rl_streaming rows |}.

Definition stats_filter (since until : string) (m p : option string) : LogFilter := {|
  lf_since := since; lf_until := until; lf_model := m; lf_provider := p;
  lf_success := None; lf_streaming := None |}.

Definition selected (since until : string) (m p : option string) (t : RequestsTable) : list RequestRow :=
  List.filter (where_clause (stats_filter since until m p)) (rq_rows t).

Definition query_aggregate (since until : string) (m p : option string) (t : RequestsTable)
    : AggregateRow := aggregate (selected since until m p t).

Definition group_by {A} (key : RequestRow -> string) (mk : string -> AggregateRow -> A)
    (rows : list RequestRow) : list A :=
  map (fun k => mk k (aggregate (List.filter (fun r => String.eqb (key r) k) rows)))
    (sql_groups (map key rows)).

Definition query_grouped_by_model (since until : string) (p : option string) (t : RequestsTable)
    : list ModelRow :=
  group_by (fun r => rl_model (rq_log r)) (fun k a => {| mr_model := k; mr_agg := a |})
    (selected since until None p t).

Definition tier_or_unknown (r : RequestRow) : string := default "unknown" (rl_tier (rq_log r)).

Definition query_grouped_by_tier (since until : string) (m p : option string) (t : RequestsTable)
    : list TierRow :=
  group_by tier_or_unknown (fun k a => {| tr_tier := k; tr_agg := a |}) (selected since until m p t).

Definition exists_in_db (column value : string) (t : RequestsTable) : bool :=
  if String.eqb column "model"
  then existsb (fun r => lower_eq (Some (rl_model (rq_log r))) value) (rq_rows t)
  else if String.eqb column "provider"
  then existsb (fun r => lower_eq (rl_provider (rq_log r)) value) (rq_rows t)
  else false.

(** *** Counting *)

Lemma count_split (f : RequestLog -> bool) rows :
  count_where f rows + count_where (fun l => negb (f l)) rows = Z.of_nat (length rows).
Proof.
  unfold count_where. induction rows as [|r rows IH]; [done|]. simpl.
  destruct (f (rq_log r)); simpl; lia.
Qed.

Lemma sum_eqb_one k (keys : list string) (g : string -> Z) :
  List.NoDup keys -> In k keys ->
  fold_right (fun k' n => (if String.eqb k k' then 1 else 0) + n) 0 keys = 1.
Proof.
  intros Hnd Hin. induction keys as [|k0 keys IH]; [done|]. simpl.
  inversion Hnd as [|? ? Hni Hnd']; subst.
  assert (Hz : ~ In k keys -> fold_right (fun k' n => (if String.eqb k k' then 1 else 0) + n) 0 keys = 0).
  { clear. induction keys as [|k1 keys IH]; [done|]. simpl. intros Hn.
    destruct (String.eqb_spec k k1) as [->|]; [tauto|]. rewrite IH by tauto. done. }
  destruct (String.eqb_spec k k0) as [->|Hne]; [rewrite Hz by done; done|].
  destruct Hin as [->|Hin]; [done|]. by rewrite IH.
Qed.

Lemma group_sizes (key : RequestRow -> string) keys rows :
  List.NoDup keys -> (forall r, In r rows -> In (key r) keys) ->
  fold_right (fun k n => Z.of_nat (length (List.filter (fun r => String.eqb (key r) k) rows)) + n) 0 keys
  = Z.of_nat (length rows).
Proof.
  intros Hnd. induction rows as [|r rows IH]; intros Hin.
  - clear. induction keys as [|k ks IHk]; [done|]. simpl in *. rewrite IHk. done.
  - assert (Hs : forall ks : list string,
      fold_right (fun k n => Z.of_nat (length (List.filter (fun r => String.eqb (key r) k) (r :: rows))) + n) 0 ks
      = fold_right (fun k n => (if String.eqb (key r) k then 1 else 0) + n) 0 ks
        + fold_right (fun k n => Z.of_nat (length (List.filter (fun r => String.eqb (key r) k) rows)) + n) 0 ks).
    { induction ks as [|k ks IHk]; [done|]. cbn [fold_right List.filter] in *. rewrite IHk.
      destruct (String.eqb (key r) k); cbn [length]; lia. }
    rewrite Hs, IH, (sum_eqb_one (key r) keys (fun _ => 0)); [cbn [length]; lia|done| |].
    + apply Hin. by left.
    + intros q Hq. apply Hin. by right.
Qed.

(** Groups are named by their keys, and their sizes sum to the rows. *)
Lemma group_by_spec {A} (key : RequestRow -> string) (mk : string -> AggregateRow -> A)
    (agg : A -> AggregateRow) (name : A -> string) rows :
  (forall k a, agg (mk k a) = a) -> (forall k a, name (mk k a) = k) ->
  fold_right (fun g n => total_requests (agg g) + n) 0 (group_by key mk rows) = Z.of_nat (length rows) /\
  map name (group_by key mk rows) = sql_groups (map key rows).
Proof.
  intros Hagg Hname. unfold group_by. split.
  - rewrite <- (group_sizes key (sql_groups (map key rows)) rows).
    + induction (sql_groups (map key rows)) as [|k ks IH]; [done|]. simpl. by rewrite IH, Hagg.
    + apply sql_groups_NoDup.
    + intros r Hr. apply sql_groups_In. by apply in_map.
  - rewrite map_map. induction (sql_groups (map key rows)) as [|k ks IH]; [done|]. simpl. by rewrite Hname, IH.
Qed.

(** the statistics add up: successes and errors make the total, and the requests of
    the per-tier groups (the rows without a tier under [unknown]) sum to the total of the
    same filters. *)
Theorem stats_add_up (since until : string) (m p : option string) (t : RequestsTable) :
  let agg := query_aggregate since until m p t in
  success_count agg + error_count agg = total_requests agg /\
  fold_right (fun g n => total_requests (tr_agg g) + n) 0 (query_grouped_by_tier since until m p t)
  = total_requests agg /\
  total_requests agg = count_logs (stats_filter since until m p) t.
Proof.
  cbv zeta. split_and!; [apply count_split| |done].
  by apply (group_by_spec tier_or_unknown _ tr_agg tr_tier).
Qed.

(** the pages of a listing partition one list. *)
Lemma pages_of {A} (l : list A) (k n : nat) :
  (length l <= n * k)%nat -> concat (map (fun i => take k (drop (i * k) l)) (seq 0 n)) = l.
Proof.
  revert l. induction n as [|n IH]; intros l Hlen; [destruct l; [done|simpl in Hlen; lia]|].
  simpl. rewrite <- seq_shift, map_map.
  etransitivity; [|apply (take_drop k l)]. f_equal.
  rewrite <- (IH (drop k l)); [|rewrite length_drop; lia].
  f_equal. apply map_ext. intros i. rewrite drop_drop. do 2 f_equal.
Qed.

Lemma Forall2_concat_map {A B} (R : relation B) (f g : A -> list B) l :
  (forall x, Forall2 R (f x) (g x)) -> Forall2 R (concat (map f l)) (concat (map g l)).
Proof. intros Hf. induction l as [|x l IH]; [constructor|]. by apply Forall2_app. Qed.

(** Read one after the other on the same table, the pages of a listing are the matching rows
    in the order of the query, up to rows that tie. *)
Lemma pages_up_to_ties (f : LogFilter) (col dir : string) (per_page : Z) (n : nat) (t : RequestsTable) :
  0 < per_page -> count_logs f t <= Z.of_nat n * per_page ->
  Forall2 (fun r1 r2 => In r1 (List.filter (where_clause f) (rq_rows t)) /\
                        In r2 (List.filter (where_clause f) (rq_rows t)) /\ tied col r1 r2)
    (concat (map (fun i => query_logs f col dir per_page (Z.of_nat i * per_page) t) (seq 0 n)))
    (sort_rows per_page 0 col dir (List.filter (where_clause f) (rq_rows t))).
Proof.
  intros Hpp Hn. unfold query_logs. set (m := List.filter (where_clause f) (rq_rows t)).
  set (l := sort_rows per_page 0 col dir m). set (k := Z.to_nat per_page).
  rewrite <- (pages_of l k n).
  2: { unfold l. rewrite (Permutation_length (sort_rows_perm _ _ _ _ _)). unfold count_logs in Hn. fold m in Hn. unfold k. nia. }
  apply Forall2_concat_map. intros i. replace (Z.to_nat (Z.of_nat i * per_page)) with (i * k)%nat by nia.
  assert (Hp : forall o, Permutation (sort_rows per_page o col dir m) m) by (intros o; apply sort_rows_perm).
  apply Forall2_take, Forall2_drop.
  eapply List.Forall2_impl; [|apply (sortings_tie col dir); [apply sort_rows_sorted..|etransitivity; [apply Hp|symmetry; apply Hp]]].
  intros r1 r2 (Hi & Hj & Ht). split_and!; [by eapply Permutation_in; [apply Hp|]..|done].
Qed.

End Queries.

(** *** Time bounds are compared as text *)

Lemma str_leb_common p a b : str_leb (p +:+ a) (p +:+ b) = str_leb a b.
Proof.
  unfold str_leb, String.leb. induction p as [|c p IH]; [done|]. simpl.
  unfold Ascii.compare. by rewrite N.compare_refl.
Qed.

(** rows store their second with a [Z], the handlers bind bounds with a [+00:00], and
    the column is compared as text.  So a request logged in the very second of [until],
    with or without a fraction, is left out although the comparison is [<=]; the same
    second as [since] is included. *)
Theorem until_second_is_excluded (f : LogFilter) (r : RequestRow) (second frac : string) :
  timestamp (rq_log r) = second +:+ "Z" ->
  (lf_until f = second +:+ "+00:00" \/ lf_until f = second +:+ "." +:+ frac +:+ "+00:00" ->
   where_clause f r = false) /\
  (lf_since f = second +:+ "+00:00" -> str_leb (lf_since f) (timestamp (rq_log r)) = true).
Proof.
  intros Ht. split.
  - intros Hu. unfold where_clause. rewrite Ht.
    assert (Hb : str_leb (second +:+ "Z") (lf_until f) = false)
      by (destruct Hu as [-> | ->]; rewrite str_leb_common; reflexivity).
    rewrite Hb. destruct (str_leb (lf_since f) _); reflexivity.
  - intros ->. rewrite Ht, str_leb_common. reflexivity.
Qed.

(** ** Witnesses *)

(** One way to run the queries. *)
Definition ListEngine : SqlEngine.
Proof.
  refine {| sort_rows := fun _ _ c d => merge_sort (row_before c d);
            sql_total := fun l => fold_left f64_add l f64_zero;
            sql_avg := fun l => f64_div (f64_of_Z (fold_right Z.add 0 l)) (f64_of_Z (Z.of_nat (length l)));
            sql_groups := List.nodup String.string_dec |}.
  - intros. apply merge_sort_Permutation.
  - intros. apply StronglySorted_merge_sort; apply _.
  - reflexivity.
  - intros l. apply List.NoDup_nodup.
  - intros l k. apply List.nodup_In.
Defined.

(** An engine that hands out tied rows the other way round after the first page. *)
Definition TieEngine : SqlEngine.
Proof.
  refine {| sort_rows := fun _ o c d l => merge_sort (row_before c d) (if (o =? 0)%Z then l else reverse l);
            sql_total := @sql_total ListEngine; sql_avg := @sql_avg ListEngine;
            sql_groups := @sql_groups ListEngine |}; try apply ListEngine.
  - intros. rewrite merge_sort_Permutation. case_match; [done|apply reverse_Permutation].
  - intros. apply StronglySorted_merge_sort; apply _.
Defined.

Section StorageWitnesses.
#[local] Existing Instance ListEngine.

Definition log_ex (cid ts : string) (ok : bool) : RequestLog := {|
  correlation_id := cid; timestamp := ts; rl_model := "gpt-4o"; rl_provider := Some "alpha";
  rl_policy := None; rl_streaming := false; rl_input_tokens := None; rl_output_tokens := None;
  rl_cost_sats := None; rl_provider_cost_sats := None; rl_latency_ms := 12; rl_success := ok;
  rl_error_status := None; rl_error_message := None; rl_complexity_score := None; rl_tier := None |}.

Definition table_ex : RequestsTable :=
  insert_log (log_ex "c2" "2026-01-01T00:00:01Z" false)
    (insert_log (log_ex "c1" "2026-01-01T00:00:00Z" true) RequestsTable_new).

Definition all_2026 : LogFilter := stats_filter "2026" "2027" None None.

Lemma until_second_is_excluded_witness :
  where_clause (stats_filter "2026" "2026-01-01T00:00:00+00:00" None None)
    (mkRequestRow 1 (log_ex "c1" "2026-01-01T00:00:00Z" true) None) = false.
Proof.
  apply (until_second_is_excluded _ (mkRequestRow 1 (log_ex "c1" "2026-01-01T00:00:00Z" true) None)
           "2026-01-01T00:00:00" ""); [reflexivity|]. left. reflexivity.
Defined.

(** A stream's insert and completion between the writes of another request, whose statement
    fails: two commands wait in the channel when the writer gets its turn. *)
Definition completion_ex : StreamCompletion := {|
  sc_usage := {| uu_input_tokens := Some 5; uu_output_tokens := Some 7; uu_cost_sats := None |};
  sc_stream_duration_ms := 900; sc_success := true; sc_error_message := None;
  sc_complexity_score := None; sc_tier := Some "standard" |}.

Definition events_ex : list writer_event :=
  [Send (Insert (log_ex "c3" "2026-01-01T00:00:02Z" true)); Send (Insert (log_ex "c9" "2026-01-01T00:00:03Z" true));
   Turn false; Send (UpdateUsage "c3" (sc_usage completion_ex));
   Send (UpdateStreamCompletion "c9" completion_ex); Turn true; Turn true; Turn true].

Lemma channel_completes_streams_witness :
  map shown (rows_of "c9" (wr_table (writer_run events_ex (DbWriter_with_capacity 3 table_ex))))
  = [(true, None, Some 5, Some 900)].
Proof.
  refine (proj1 (channel_completes_streams events_ex 3 table_ex (log_ex "c9" "2026-01-01T00:00:03Z" true)
    completion_ex [Insert (log_ex "c3" "2026-01-01T00:00:02Z" true)] [UpdateUsage "c3" (sc_usage completion_ex)] []
    _ eq_refl _ _ eq_refl)).
  - intros r Hr. cbn in Hr. destruct Hr as [<-|[<-|[]]]; reflexivity.
  - intros cmd Hc. cbn in Hc. destruct Hc as [<-|[<-|[]]]; discriminate.
  - intros ok cmd Hc Hid. cbn in Hc. destruct Hc as [Hc|[Hc|[Hc|[Hc|[]]]]]; injection Hc as <- <-; by try discriminate.
Defined.

End StorageWitnesses.
