(* ===== verification/Http.v ===== *)
(** * Responses and headers ([src/src/proxy/handlers.rs])

    The responses the handlers build and the [x-arbstr-*] headers they attach.  A header map
    is a [gmap]; which strings are header values is decided by the [http] crate, the
    parameter [header_valid] of [HttpDeps]. *)

From S2P Require Import Prelude Machine RustStr Errors Types.

Class HttpDeps := {
  (** [HeaderValue::from_str(s).is_ok()] *)
  header_valid : string -> bool;
}.

Definition ARBSTR_POLICY_HEADER : string := "x-arbstr-policy".
Definition ARBSTR_COMPLEXITY_HEADER : string := "x-arbstr-complexity".
Definition ARBSTR_REQUEST_ID_HEADER : string := "x-arbstr-request-id".
Definition ARBSTR_COST_SATS_HEADER : string := "x-arbstr-cost-sats".
Definition ARBSTR_LATENCY_MS_HEADER : string := "x-arbstr-latency-ms".
Definition ARBSTR_PROVIDER_HEADER : string := "x-arbstr-provider".
Definition ARBSTR_STREAMING_HEADER : string := "x-arbstr-streaming".
Definition ARBSTR_RETRIES_HEADER : string := "x-arbstr-retries".
Definition ARBSTR_COMPLEXITY_SCORE_HEADER : string := "x-arbstr-complexity-score".
Definition ARBSTR_TIER_HEADER : string := "x-arbstr-tier".

(** A body: serialised JSON, an error object, or the channel of a stream. *)
Inductive Body :=
| JsonBody (text : string)
| ErrorObject (message type code : string)
| ArbstrError (e : ErrorBody)
| StreamBody.

Record Response := mkResponse {
  resp_status : Z;
  resp_headers : gmap string string;
  resp_body : Body;
}.

(** [Error::into_response] as a response. *)
Definition error_response (e : Error) : Response :=
  let '(status, body) := into_response e in
  mkResponse status {[ "content-type" := "application/json" ]} (ArbstrError body).

Definition insert_header (name value : string) (r : Response) : Response :=
  mkResponse (resp_status r) (<[name := value]> (resp_headers r)) (resp_body r).

Section Headers.
Context `{HttpDeps}.

(** [if let Ok(val) = HeaderValue::from_str(value) { headers.insert(name, val) }] *)
Definition insert_if_valid (name value : string) (r : Response) : Response :=
  if header_valid value then insert_header name value r else r.

Definition attach_arbstr_headers (request_id : string) (latency_ms : Z) (provider : option string)
    (cost_sats : option f64) (is_streaming : bool) (r : Response) : Response :=
  let r := insert_if_valid ARBSTR_REQUEST_ID_HEADER request_id r in
  let r :=
    if is_streaming then insert_header ARBSTR_STREAMING_HEADER "true" r
    else
      let r := insert_header ARBSTR_LATENCY_MS_HEADER (pretty_Z (as_u64 latency_ms)) r in
      match cost_sats with
      | Some cost => insert_if_valid ARBSTR_COST_SATS_HEADER (fmt_fixed 2 cost) r
      | None => r
      end in
  match provider with
  | Some provider_name => insert_if_valid ARBSTR_PROVIDER_HEADER provider_name r
  | None => r
  end.

Definition attach_retries_header (retries_header : option string) (r : Response) : Response :=
  match retries_header with
  | Some retries_val => insert_if_valid ARBSTR_RETRIES_HEADER retries_val r
  | None => r
  end.

(** The complexity headers of a successful response. *)
Definition attach_complexity_headers (score : option f64) (tier : string) (r : Response) : Response :=
  let r := match score with
           | Some s => insert_if_valid ARBSTR_COMPLEXITY_SCORE_HEADER (fmt_fixed 3 s) r
           | None => r
           end in
  insert_if_valid ARBSTR_TIER_HEADER tier r.

(** ** What a client sees *)

Lemma insert_if_valid_other name value r k :
  name <> k -> resp_headers (insert_if_valid name value r) !! k = resp_headers r !! k.
Proof.
  intros Hn. unfold insert_if_valid. destruct (header_valid value); [|done]. simpl.
  by rewrite lookup_insert_ne.
Qed.

Lemma insert_if_valid_same name value r :
  header_valid value = true -> resp_headers (insert_if_valid name value r) !! name = Some value.
Proof. intros Hv. unfold insert_if_valid. rewrite Hv. simpl. by rewrite lookup_insert_eq. Qed.

Lemma insert_header_other name value r k :
  name <> k -> resp_headers (insert_header name value r) !! k = resp_headers r !! k.
Proof. intros Hn. simpl. by rewrite lookup_insert_ne. Qed.

(** Reads a header off a chain of insertions. *)
Ltac read_headers :=
  repeat first [rewrite lookup_insert_eq
               |rewrite lookup_insert_ne by (let Hx := fresh in intros Hx; discriminate Hx)];
  rewrite ?lookup_empty; try reflexivity.

(** the header contract.  On a response that has none of them, a streaming answer gets
    the streaming flag and no cost or latency; any other answer gets its latency, and its
    cost in hundredths exactly when it is known; both get the request id and the provider
    when these are valid header values. *)
Theorem arbstr_headers_contract (request_id : string) (latency_ms : Z) (provider : option string)
    (cost : option f64) (is_streaming : bool) (status : Z) (body : Body) :
  let h := resp_headers (attach_arbstr_headers request_id latency_ms provider cost is_streaming
                           (mkResponse status ∅ body)) in
  h !! ARBSTR_REQUEST_ID_HEADER = (if header_valid request_id then Some request_id else None) /\
  h !! ARBSTR_STREAMING_HEADER = (if is_streaming then Some "true" else None) /\
  h !! ARBSTR_LATENCY_MS_HEADER
    = (if is_streaming then None else Some (pretty_Z (as_u64 latency_ms))) /\
  h !! ARBSTR_COST_SATS_HEADER
    = (if is_streaming then None else
       match cost with
       | Some c => if header_valid (fmt_fixed 2 c) then Some (fmt_fixed 2 c) else None
       | None => None
       end) /\
  h !! ARBSTR_PROVIDER_HEADER
    = match provider with
      | Some p => if header_valid p then Some p else None
      | None => None
      end.
Proof.
  cbv zeta. unfold attach_arbstr_headers, insert_if_valid.
  destruct is_streaming, provider as [p|], cost as [c|]; cbn [insert_header resp_headers];
    repeat case_match; cbn [insert_header resp_headers]; split_and!; read_headers.
Qed.

End Headers.
