(* ===== verification/Handlers.v ===== *)
(** * The chat completion handler ([src/src/proxy/handlers.rs])

    [chat_completions] as a timed program over the shared state of the process: the circuit
    breaker registry, the database writer, the vault's world and the tasks it spawns.  The
    state is shared and the runtime has several threads: at every await, and before every
    access to the registry, the environment runs what other tasks do meanwhile ([others],
    arbitrary operations on the registry and the writer).  Upstream providers
    and the vault are the parameters [upstream] and [post].  A spawned task is recorded; what
    it does is [spawn_vault_settle], [spawn_vault_release] (file Vault) and the stream task
    (file Streaming). *)

From S2P Require Import Prelude Machine RustStr Timed Config Errors Types Router Complexity.
From S2P Require Import CircuitBreaker Retry Storage Vault Http.

(** ** Requests, outcomes, tasks *)

Definition RETRY_TIMEOUT : Duration := secs 30.

(** The headers of a request that the handlers read, as text. *)
Record RequestHeaders := {
  h_policy : option string;
  h_complexity : option string;
  h_authorization : option string;
}.

Record RequestOutcome := {
  ro_response : Response;
  ro_provider_name : string;
  ro_input_tokens : option Z;
  ro_output_tokens : option Z;
  ro_cost_sats : option f64;
  ro_provider_cost_sats : option f64;
}.

Record RequestError := {
  re_error : Error;
  re_provider_name : option string;
  re_status_code : Z;
  re_message : string;
}.

#[export] Instance RequestError_status : HasStatusCode RequestError := re_status_code.

Record RequestContext := {
  cx_correlation_id : string;
  cx_model : string;
  cx_policy_name : option string;
  cx_is_streaming : bool;
  cx_start : Instant;
  cx_reservation_id : option string;
}.

Definition with_reservation (ctx : RequestContext) (rid : string) : RequestContext := {|
  cx_correlation_id := cx_correlation_id ctx; cx_model := cx_model ctx;
  cx_policy_name := cx_policy_name ctx; cx_is_streaming := cx_is_streaming ctx;
  cx_start := cx_start ctx; cx_reservation_id := Some rid |}.

Record ResolvedCandidates := {
  rc_candidates : list SelectedProvider;
  rc_probe_provider : option string;
  rc_complexity_score : option f64;
  rc_tier : Tier;
}.

Section Json.
Context `{SerdeJson}.

(** [extract_usage]: the casts to [u32] truncate. *)
Definition extract_usage (response : Value) : option (Z * Z) :=
  match v_get "usage" response with
  | None => None
  | Some usage =>
    match v_get "prompt_tokens" usage with
    | None => None
    | Some p =>
      match v_as_u64 p with
      | None => None
      | Some prompt =>
        match v_get "completion_tokens" usage with
        | None => None
        | Some c =>
          match v_as_u64 c with
          | None => None
          | Some completion => Some (as_u32 prompt, as_u32 completion)
          end
        end
      end
    end
  end.

(** A request as the provider receives it. *)
Record UpstreamRequest := {
  ur_url : string;
  ur_idempotency_key : string;
  ur_authorization : option string;
  ur_body : ChatCompletionRequest;
}.

(** Its reply: the status line, the body as JSON, as text, and as the items of a stream. *)
Record UpstreamReply := {
  up_status : Z;
  up_status_text : string;
  up_json : result Value string;
  up_text : option string;
  up_stream : list (result (list ascii) string);
}.

End Json.

Definition is_circuit_failure (status : Z) : bool := (500 <=? status) && (status <? 600).

Definition routing_error_status (e : Error) : Z :=
  match e with
  | NoProviders _ | NoPolicyMatch | NoTierMatch _ _ | BadRequest _ => 400
  | _ => 500
  end.

(** The background task of a streaming response, with what it captures. *)
Record StreamTask := {
  sk_correlation_id : string;
  sk_provider : SelectedProvider;
  sk_reservation_id : option string;
  sk_start : Instant;
  sk_complexity_score : option f64;
  sk_tier : option string;
  sk_items : list (result (list ascii) string);
}.

Inductive Task :=
| TaskSettle (reservation_id : string) (actual_msats : Z) (metadata : SettleMetadata)
| TaskRelease (reservation_id reason : string)
| TaskStream (task : StreamTask).

(** ** The shared state

    [aw_sent] logs the providers that were called, [aw_accesses] what each access of the
    request to the registry found and left, [aw_awaits] counts the turns of the environment. *)

Record AppState := {
  st_router : Router;
  st_config : Config;
  st_db_writer : bool;
  st_vault : option VaultClient;
}.

Section App.
Context `{Watch}.

Record AppWorld := mkApp {
  aw_registry : Registry;
  aw_writer : DbWriter;
  aw_vault : World;
  aw_spawned : list Task;
  aw_sent : list string;
  aw_accesses : list (Registry * Registry);
  aw_awaits : nat;
}.

Definition with_registry (w : AppWorld) (r : Registry) : AppWorld :=
  mkApp r (aw_writer w) (aw_vault w) (aw_spawned w) (aw_sent w)
    (aw_accesses w ++ [(aw_registry w, r)]) (aw_awaits w).
Definition with_writer (w : AppWorld) (d : DbWriter) : AppWorld :=
  mkApp (aw_registry w) d (aw_vault w) (aw_spawned w) (aw_sent w) (aw_accesses w) (aw_awaits w).
Definition with_vault (w : AppWorld) (v : World) : AppWorld :=
  mkApp (aw_registry w) (aw_writer w) v (aw_spawned w) (aw_sent w) (aw_accesses w) (aw_awaits w).
Definition with_task (w : AppWorld) (t : Task) : AppWorld :=
  mkApp (aw_registry w) (aw_writer w) (aw_vault w) (aw_spawned w ++ [t]) (aw_sent w)
    (aw_accesses w) (aw_awaits w).
Definition with_sent (w : AppWorld) (names : list string) : AppWorld :=
  mkApp (aw_registry w) (aw_writer w) (aw_vault w) (aw_spawned w) (aw_sent w ++ names)
    (aw_accesses w) (aw_awaits w).

(** What the other tasks did during one turn: at an await, or between two accesses to the
    registry.  [if_wait name] is what they do, and for how long, when the request waits for
    the probe of [name]. *)
Record Interference := {
  if_registry : list (Instant * reg_op);
  if_writer : list writer_event;
  if_wait : string -> Duration * list (Instant * reg_op);
}.

Definition interfere (i : Interference) (w : AppWorld) : AppWorld :=
  mkApp (reg_run (if_registry i) (aw_registry w)) (writer_run (if_writer i) (aw_writer w))
    (aw_vault w) (aw_spawned w) (aw_sent w) (aw_accesses w) (S (aw_awaits w)).

Context (others : nat -> Interference).

(** The environment's turn. *)
Definition yield_now : Timed AppWorld unit :=
  t_modify (fun w => interfere (others (aw_awaits w)) w).

(** The turn in which a request waits for a probe. *)
Definition waited (i : Interference) (name : string) : Interference :=
  {| if_registry := snd (if_wait i name); if_writer := if_writer i; if_wait := if_wait i |}.

Definition wait_for_probe (name : string) : Timed AppWorld unit :=
  let! w := t_get in
  let i := others (aw_awaits w) in
  let! _ := t_await (fst (if_wait i name)) in
  t_modify (interfere (waited i name)).

(** One access to the registry, under the lock of the breaker; before it, another thread may
    have had its turn. *)
Definition on_registry (f : Instant -> Registry -> Registry) : Timed AppWorld unit :=
  let! _ := yield_now in
  let! now := t_now in
  t_modify (fun w => with_registry w (f now (aw_registry w))).

Definition spawn (t : Task) : Timed AppWorld unit := t_modify (fun w => with_task w t).

(** [ctx.start.elapsed().as_millis() as i64] *)
Definition elapsed_ms (start : Instant) : Timed AppWorld Z :=
  let! now := t_now in t_ret (as_i64 (duration_since now start / millis 1)).

(** ** Logging *)

(** [chrono::Utc::now().to_rfc3339_opts(Secs, true)]: the crate formats the instant. *)
Context (rfc3339 : Instant -> string).

Definition write_log (state : AppState) (log : Instant -> RequestLog) : Timed AppWorld unit :=
  if st_db_writer state then
    let! now := t_now in
    t_modify (fun w => with_writer w (log_write (log now) (aw_writer w)))
  else t_ret tt.

Definition log_error_to_db (state : AppState) (ctx : RequestContext) (latency_ms : Z)
    (provider : option string) (status_code : Z) (message : string)
    (complexity_score : option f64) (tier : option string) : Timed AppWorld unit :=
  write_log state (fun now => {|
    correlation_id := cx_correlation_id ctx; timestamp := rfc3339 now; rl_model := cx_model ctx;
    rl_provider := provider; rl_policy := cx_policy_name ctx; rl_streaming := cx_is_streaming ctx;
    rl_input_tokens := None; rl_output_tokens := None; rl_cost_sats := None;
    rl_provider_cost_sats := None; rl_latency_ms := latency_ms; rl_success := false;
    rl_error_status := Some status_code; rl_error_message := Some message;
    rl_complexity_score := complexity_score; rl_tier := tier |}).

Definition log_success_to_db (state : AppState) (ctx : RequestContext) (latency_ms : Z)
    (outcome : RequestOutcome) (complexity_score : option f64) (tier : option string)
    : Timed AppWorld unit :=
  write_log state (fun now => {|
    correlation_id := cx_correlation_id ctx; timestamp := rfc3339 now; rl_model := cx_model ctx;
    rl_provider := Some (ro_provider_name outcome); rl_policy := cx_policy_name ctx;
    rl_streaming := cx_is_streaming ctx; rl_input_tokens := ro_input_tokens outcome;
    rl_output_tokens := ro_output_tokens outcome; rl_cost_sats := ro_cost_sats outcome;
    rl_provider_cost_sats := ro_provider_cost_sats outcome; rl_latency_ms := latency_ms;
    rl_success := true; rl_error_status := None; rl_error_message := None;
    rl_complexity_score := complexity_score; rl_tier := tier |}).

(** ** Permits *)

(** [acquire_permit(name).await]: a permit at once, or a wait until other tasks resolve the
    probe; a wait that nobody ends hangs the request.  Another thread may have taken its own
    permits just before. *)
Definition acquire_permit (name : string) : Timed AppWorld (result PermitType CircuitOpenError) :=
  let! _ := yield_now in
  let! now := t_now in
  let! w := t_get in
  let '(acq, reg) := acquire_start now name (aw_registry w) in
  let! _ := t_modify (fun w => with_registry w reg) in
  match acq with
  | Resolved r => t_ret r
  | Waiting rx reason trips =>
      let! _ := wait_for_probe name in
      let! w := t_get in
      match acquire_poll name rx reason trips (aw_registry w) with
      | Some r => t_ret r
      | None => t_hang
      end
  end.

(** ** Candidates *)

Context `{HttpDeps} `{ScorerDeps} `{UnicodeCase} `{SerdeJson}.

(** The loop over the candidates at one tier: the permitted ones, a probe first, and the
    last provider that got a probe permit. *)
Fixpoint filter_candidates (candidates : list SelectedProvider) (filtered : list SelectedProvider)
    (probe : option string) : Timed AppWorld (list SelectedProvider * option string) :=
  match candidates with
  | [] => t_ret (filtered, probe)
  | candidate :: rest =>
      let! permit := acquire_permit (sp_name candidate) in
      match permit with
      | Ok Normal => filter_candidates rest (filtered ++ [candidate]) probe
      | Ok Probe => filter_candidates rest (candidate :: filtered) (Some (sp_name candidate))
      | Err _ => filter_candidates rest filtered probe
      end
  end.

(** The three early returns: log, build the error response, attach the headers. *)
Definition refuse (state : AppState) (ctx : RequestContext) (status_code : Z) (message : string)
    (score : option f64) (tier : option string) (err : Error) : Timed AppWorld Response :=
  let! latency_ms := elapsed_ms (cx_start ctx) in
  let! _ := log_error_to_db state ctx latency_ms None status_code message score tier in
  t_ret (attach_arbstr_headers (cx_correlation_id ctx) latency_ms None None (cx_is_streaming ctx)
           (error_response err)).

(** The escalation loop.  [fuel] bounds the escalations: there are three tiers
    ([escalation_terminates]). *)
Fixpoint resolve_loop (fuel : nat) (state : AppState) (ctx : RequestContext)
    (prompt : option string) (score : option f64) (current_tier : Tier)
    : Timed AppWorld (result ResolvedCandidates Response) :=
  match fuel with
  | O => t_hang
  | S fuel' =>
      match select_candidates (st_router state) (cx_model ctx) (cx_policy_name ctx) prompt
              (Some current_tier) with
      | Err (NoTierMatch _ _) =>
          match escalate current_tier with
          | Some next => resolve_loop fuel' state ctx prompt score next
          | None =>
              let! r := refuse state ctx 400
                ("No providers match any tier for model '" +:+ cx_model ctx +:+ "'") score
                (Some (Tier_to_string current_tier)) (NoTierMatch current_tier (cx_model ctx)) in
              t_ret (Err r)
          end
      | Err e =>
          let! r := refuse state ctx (routing_error_status e) (Error_to_string e) None None e in
          t_ret (Err r)
      | Ok candidates =>
          let! (filtered, probe) := filter_candidates candidates [] None in
          match filtered with
          | [] =>
              match escalate current_tier with
              | Some next => resolve_loop fuel' state ctx prompt score next
              | None =>
                  let! r := refuse state ctx 503
                    ("All providers have open circuits for model '" +:+ cx_model ctx +:+ "'") score
                    (Some (Tier_to_string current_tier)) (CircuitOpen (cx_model ctx)) in
                  t_ret (Err r)
              end
          | _ => t_ret (Ok {| rc_candidates := filtered; rc_probe_provider := probe;
                              rc_complexity_score := score; rc_tier := current_tier |})
          end
      end
  end.

Definition initial_tier (state : AppState) (messages : list Message) (complexity_override : option Tier)
    : option f64 * Tier :=
  match complexity_override with
  | Some tier => (None, tier)
  | None =>
      let r := routing (st_config state) in
      let score := score_complexity messages (complexity_weights r) in
      (Some score, score_to_max_tier score (complexity_threshold_low r) (complexity_threshold_high r))
  end.

Definition resolve_candidates (state : AppState) (ctx : RequestContext) (prompt : option string)
    (messages : list Message) (complexity_override : option Tier)
    : Timed AppWorld (result ResolvedCandidates Response) :=
  let '(score, max_tier) := initial_tier state messages complexity_override in
  resolve_loop 3 state ctx prompt score max_tier.

(** ** Sending *)

Context (upstream : nat -> UpstreamRequest -> Duration * result UpstreamReply string).

Definition request_error (e : Error) (provider : SelectedProvider) (status : Z) (m : string)
    : RequestError :=
  {| re_error := e; re_provider_name := Some (sp_name provider); re_status_code := status;
     re_message := m |}.

Definition upstream_request (request : ChatCompletionRequest) (provider : SelectedProvider)
    (correlation_id : string) (is_streaming : bool) : UpstreamRequest := {|
  ur_url := str_trim_end_char "/" (sp_url provider) +:+ "/chat/completions";
  ur_idempotency_key := correlation_id;
  ur_authorization := option_map (fun k => "Bearer " +:+ expose_secret k) (sp_api_key provider);
  ur_body := if is_streaming then ensure_stream_options request else request |}.

Definition usage_cost (provider : SelectedProvider) (usage : option (Z * Z)) : option f64 :=
  option_map (fun '(input, output) =>
    actual_cost_sats input output (sp_input_rate provider) (sp_output_rate provider)
      (sp_base_fee provider)) usage.

(** [response.get("usage").and_then(|u| u.get("total_cost")).and_then(|v| v.as_f64())] *)
Definition provider_cost (response : Value) : option f64 :=
  match v_get "usage" response with
  | Some u => match v_get "total_cost" u with Some v => v_as_f64 v | None => None end
  | None => None
  end.

Definition handle_non_streaming_response (reply : UpstreamReply) (provider : SelectedProvider)
    : result RequestOutcome RequestError :=
  let? response := map_err (fun e =>
    request_error (EProvider ("Failed to parse response from '" +:+ sp_name provider +:+ "': " +:+ e))
      provider 502 ("Failed to parse response: " +:+ e)) (up_json reply) in
  let usage := extract_usage response in
  let cost_sats := usage_cost provider usage in
  let provider_cost_sats := provider_cost response in
  let response := default response (v_insert_str "arbstr_provider" (sp_name provider) response) in
  let? body := map_err (fun e =>
    request_error (Internal ("Failed to serialize response: " +:+ e)) provider 500
      ("Failed to serialize response: " +:+ e)) (json_to_string response) in
  Ok {| ro_response := mkResponse 200 {[ "content-type" := "application/json" ]} (JsonBody body);
        ro_provider_name := sp_name provider;
        ro_input_tokens := option_map fst usage;
        ro_output_tokens := option_map snd usage;
        ro_cost_sats := cost_sats;
        ro_provider_cost_sats := provider_cost_sats |}.

(** The reply as [send_to_provider] reads it; [on_success] handles a 2xx. *)
Definition reply_result {A} (provider : SelectedProvider) (r : result UpstreamReply string)
    (on_success : UpstreamReply -> result A RequestError) : result A RequestError :=
  match r with
  | Err e =>
      Err (request_error (EProvider ("Failed to reach provider '" +:+ sp_name provider +:+ "': " +:+ e))
             provider 502 ("Failed to reach provider: " +:+ e))
  | Ok reply =>
      if negb (is_success (up_status reply)) then
        Err (request_error
               (EProvider ("Provider '" +:+ sp_name provider +:+ "' returned " +:+ up_status_text reply
                           +:+ ": " +:+ default "" (up_text reply)))
               provider (up_status reply) ("Provider returned " +:+ up_status_text reply))
      else on_success reply
  end.

(** A non-streaming send, as the closure of the retry loop makes it: by candidate name. *)
Definition send_candidate (request : ChatCompletionRequest) (candidates : list SelectedProvider)
    (correlation_id : string) (n : nat) (info : CandidateInfo)
    : Duration * result RequestOutcome RequestError :=
  match List.find (fun c => String.eqb (sp_name c) (ci_name info)) candidates with
  | None =>
      (0, Err {| re_error := Internal "candidate info did not match any provider";
                 re_provider_name := Some (ci_name info); re_status_code := 500;
                 re_message := "Internal routing error" |})
  | Some provider =>
      let '(d, r) := upstream n (upstream_request request provider correlation_id false) in
      (d, reply_result provider r (fun reply => handle_non_streaming_response reply provider))
  end.

(** ** The streaming path *)

(** [spawn_vault_release] and [spawn_vault_settle] when billing is on for the request. *)
Definition spawn_release (state : AppState) (ctx : RequestContext) (reason : string)
    : Timed AppWorld unit :=
  match st_vault state, cx_reservation_id ctx with
  | Some _, Some rid => spawn (TaskRelease rid reason)
  | _, _ => t_ret tt
  end.

Definition spawn_settle (state : AppState) (ctx : RequestContext) (msats : Z) (md : SettleMetadata)
    : Timed AppWorld unit :=
  match st_vault state, cx_reservation_id ctx with
  | Some _, Some rid => spawn (TaskSettle rid msats md)
  | _, _ => t_ret tt
  end.

(** [(c * 1000.0) as u64] *)
Definition cost_msats (cost : option f64) : Z :=
  match cost with Some c => f64_to_u64 (f64_mul c (f64_of_Z 1000)) | None => 0 end.

(** [send_to_provider] with [is_streaming]: on a 2xx, [handle_streaming_response] spawns the
    stream task and returns the channel-backed response at once. *)
Definition send_streaming (state : AppState) (ctx : RequestContext) (request : ChatCompletionRequest)
    (resolved : ResolvedCandidates) (provider : SelectedProvider)
    : Timed AppWorld (result RequestOutcome RequestError) :=
  let! start := t_now in
  let! _ := t_modify (fun w => with_sent w [sp_name provider]) in
  let '(d, r) := upstream 0 (upstream_request request provider (cx_correlation_id ctx) true) in
  let! _ := t_await d in
  let! _ := yield_now in
  match reply_result provider r (fun reply => Ok reply) with
  | Err e => t_ret (Err e)
  | Ok reply =>
      let! _ := spawn (TaskStream {|
        sk_correlation_id := cx_correlation_id ctx; sk_provider := provider;
        sk_reservation_id := cx_reservation_id ctx; sk_start := start;
        sk_complexity_score := rc_complexity_score resolved;
        sk_tier := Some (Tier_to_string (rc_tier resolved)); sk_items := up_stream reply |}) in
      t_ret (Ok {|
        ro_response := mkResponse 200 (<["cache-control" := "no-cache"]>
          {[ "content-type" := "text/event-stream" ]}) StreamBody;
        ro_provider_name := sp_name provider; ro_input_tokens := None; ro_output_tokens := None;
        ro_cost_sats := None; ro_provider_cost_sats := None |})
  end.

Definition resolve_guard (probe : option string) (f : ProbeGuard -> Instant -> Registry -> Registry)
    : Timed AppWorld unit :=
  match probe with
  | Some name => on_registry (f (ProbeGuard_new name))
  | None => t_ret tt
  end.

(** The [ProbeGuard] of the request, alive while [m] runs: dropping it resolves the probe,
    after whatever the other tasks did last. *)
Definition with_probe_guard {A} (probe : option string) (m : Timed AppWorld A) : Timed AppWorld A :=
  match probe with
  | Some name => t_on_drop (fun now w =>
      let w := interfere (others (aw_awaits w)) w in
      with_registry w (guard_drop now (ProbeGuard_new name) (aw_registry w))) m
  | None => m
  end.

Definition http_code (status : Z) : string := "HTTP " +:+ pretty_Z status.

Definition record_streaming_outcome (resolved : ResolvedCandidates)
    (result : result RequestOutcome RequestError) : Timed AppWorld unit :=
  let probe := rc_probe_provider resolved in
  match result with
  | Ok outcome =>
      let! _ := on_registry (fun now => record_success now (ro_provider_name outcome)) in
      resolve_guard probe (fun g now reg =>
        if String.eqb (ro_provider_name outcome) (default "" probe) then guard_success now g reg
        else guard_failure now g "not_reached" "different provider succeeded" reg)
  | Err e =>
      let code := re_status_code e in
      let! _ := (if is_circuit_failure code
                 then on_registry (fun now =>
                        record_failure now (default "unknown" (re_provider_name e)) "5xx" (http_code code))
                 else t_ret tt) in
      resolve_guard probe (fun g now reg =>
        if is_circuit_failure code then guard_failure now g "5xx" (http_code code) reg
        else guard_failure now g "non_5xx" (http_code code) reg)
  end.

(** What follows the send: breaker bookkeeping, the log entry, the headers. *)
Definition finish_streaming (state : AppState) (ctx : RequestContext) (resolved : ResolvedCandidates)
    (result : result RequestOutcome RequestError) : Timed AppWorld Response :=
  let! _ := record_streaming_outcome resolved result in
  let! latency_ms := elapsed_ms (cx_start ctx) in
  let tier := Some (Tier_to_string (rc_tier resolved)) in
  match result with
  | Ok outcome =>
      let! _ := log_success_to_db state ctx latency_ms outcome (rc_complexity_score resolved) tier in
      let r := attach_arbstr_headers (cx_correlation_id ctx) latency_ms
                 (Some (ro_provider_name outcome)) (ro_cost_sats outcome) true (ro_response outcome) in
      t_ret (attach_complexity_headers (rc_complexity_score resolved)
               (Tier_to_string (rc_tier resolved)) r)
  | Err e =>
      let! _ := log_error_to_db state ctx latency_ms (re_provider_name e) (re_status_code e)
                  (re_message e) (rc_complexity_score resolved) tier in
      let! _ := spawn_release state ctx ("streaming_send_error_" +:+ pretty_Z (re_status_code e)) in
      t_ret (attach_arbstr_headers (cx_correlation_id ctx) latency_ms (re_provider_name e) None true
               (error_response (re_error e)))
  end.

Definition handle_streaming_path (state : AppState) (ctx : RequestContext)
    (request : ChatCompletionRequest) (resolved : ResolvedCandidates) : Timed AppWorld Response :=
  let! provider := t_index (rc_candidates resolved) 0 in
  let! result := with_probe_guard (rc_probe_provider resolved)
                   (send_streaming state ctx request resolved provider) in
  finish_streaming state ctx resolved result.

(** ** The non-streaming path *)

(** [timeout_at(deadline, retry_with_fallback(...))] with the shared attempts. *)
Definition retry_under_deadline (ctx : RequestContext) (request : ChatCompletionRequest)
    (resolved : ResolvedCandidates)
    : Timed AppWorld (option (result RequestOutcome RequestError) * list AttemptRecord) :=
  let infos := map (fun c => {| ci_name := sp_name c |}) (rc_candidates resolved) in
  let send := send_candidate request (rc_candidates resolved) (cx_correlation_id ctx) in
  let! now := t_now in
  t_zoom (fun _ => RetryState_new) (fun w s => with_sent w (map (fun p => ci_name (snd p)) (rs_sends s)))
    (let! r := t_timeout_at (now + RETRY_TIMEOUT) (retry_with_fallback send infos) in
     let! s := t_get in
     t_ret (r, rs_attempts s)).

Fixpoint record_attempts (attempts : list AttemptRecord) : Timed AppWorld unit :=
  match attempts with
  | [] => t_ret tt
  | a :: rest =>
      let! _ := (if is_circuit_failure (ar_status_code a)
                 then on_registry (fun now => record_failure now (ar_provider_name a) "5xx"
                                                (http_code (ar_status_code a)))
                 else t_ret tt) in
      record_attempts rest
  end.

Definition record_retry_outcome (resolved : ResolvedCandidates)
    (result : option (result RequestOutcome RequestError)) : Timed AppWorld unit :=
  match rc_probe_provider resolved with
  | Some probe_name =>
      let g := ProbeGuard_new probe_name in
      match result with
      | Some (Ok outcome) =>
          if String.eqb (ro_provider_name outcome) probe_name
          then on_registry (fun now => guard_success now g)
          else
            let! _ := on_registry (fun now => record_success now (ro_provider_name outcome)) in
            on_registry (fun now => guard_failure now g "not_reached" "different provider succeeded")
      | Some (Err _) => on_registry (fun now => guard_failure now g "5xx" "all providers failed")
      | None => on_registry (fun now => guard_failure now g "timeout" "retry chain timed out")
      end
  | None =>
      match result with
      | Some (Ok outcome) => on_registry (fun now => record_success now (ro_provider_name outcome))
      | _ => t_ret tt
      end
  end.

Definition TIMEOUT_MESSAGE : string := "Request timed out after 30 seconds (retry budget exhausted)".

(** The three endings of the path: timeout, success, error. *)
Definition respond_timeout (state : AppState) (ctx : RequestContext) (resolved : ResolvedCandidates)
    (latency_ms : Z) (attempts : list AttemptRecord) : Timed AppWorld Response :=
  let last_provider := option_map ar_provider_name (hd_error (rev attempts)) in
  let! _ := log_error_to_db state ctx latency_ms last_provider 504 TIMEOUT_MESSAGE
              (rc_complexity_score resolved) (Some (Tier_to_string (rc_tier resolved))) in
  let! _ := spawn_release state ctx "timeout" in
  let r := error_response (EProvider TIMEOUT_MESSAGE) in
  let r := mkResponse 504 (resp_headers r) (resp_body r) in
  let r := attach_arbstr_headers (cx_correlation_id ctx) latency_ms None None false r in
  t_ret (attach_retries_header (format_retries_header attempts) r).

Definition respond_success (state : AppState) (ctx : RequestContext) (resolved : ResolvedCandidates)
    (latency_ms : Z) (attempts : list AttemptRecord) (outcome : RequestOutcome)
    : Timed AppWorld Response :=
  let! _ := log_success_to_db state ctx latency_ms outcome (rc_complexity_score resolved)
              (Some (Tier_to_string (rc_tier resolved))) in
  let! _ := spawn_settle state ctx (cost_msats (ro_cost_sats outcome)) {|
              tokens_in := ro_input_tokens outcome; tokens_out := ro_output_tokens outcome;
              sm_provider := ro_provider_name outcome; sm_latency_ms := latency_ms |} in
  let r := attach_arbstr_headers (cx_correlation_id ctx) latency_ms (Some (ro_provider_name outcome))
             (ro_cost_sats outcome) false (ro_response outcome) in
  let r := attach_complexity_headers (rc_complexity_score resolved)
             (Tier_to_string (rc_tier resolved)) r in
  t_ret (attach_retries_header (format_retries_header attempts) r).

Definition respond_error (state : AppState) (ctx : RequestContext) (resolved : ResolvedCandidates)
    (latency_ms : Z) (attempts : list AttemptRecord) (e : RequestError) : Timed AppWorld Response :=
  let! _ := log_error_to_db state ctx latency_ms (re_provider_name e) (re_status_code e) (re_message e)
              (rc_complexity_score resolved) (Some (Tier_to_string (rc_tier resolved))) in
  let! _ := spawn_release state ctx ("provider_error_" +:+ pretty_Z (re_status_code e)) in
  let r := attach_arbstr_headers (cx_correlation_id ctx) latency_ms (re_provider_name e) None false
             (error_response (re_error e)) in
  t_ret (attach_retries_header (format_retries_header attempts) r).

(** What follows the retry loop. *)
Definition finish_non_streaming (state : AppState) (ctx : RequestContext) (resolved : ResolvedCandidates)
    (timeout_result : option (result RequestOutcome RequestError)) (attempts : list AttemptRecord)
    : Timed AppWorld Response :=
  let! _ := yield_now in
  let! latency_ms := elapsed_ms (cx_start ctx) in
  let! _ := record_attempts attempts in
  let! _ := record_retry_outcome resolved timeout_result in
  match timeout_result with
  | None => respond_timeout state ctx resolved latency_ms attempts
  | Some (Ok outcome) => respond_success state ctx resolved latency_ms attempts outcome
  | Some (Err e) => respond_error state ctx resolved latency_ms attempts e
  end.

Definition handle_non_streaming_path (state : AppState) (ctx : RequestContext)
    (request : ChatCompletionRequest) (resolved : ResolvedCandidates) : Timed AppWorld Response :=
  let! (timeout_result, attempts) := with_probe_guard (rc_probe_provider resolved)
                                       (retry_under_deadline ctx request resolved) in
  finish_non_streaming state ctx resolved timeout_result attempts.

(** ** Billing and the handler *)

Context `{!VaultSerde} `{SqlOrder}.
Context (post : nat -> VaultCall -> Duration * result VaultReply SendError).
Context (vault_others : nat -> list PendingSettlement).

(** A program of the vault client, on the vault's part of the world. *)
Definition in_vault {A} (m : Timed World A) : Timed AppWorld A := t_zoom aw_vault with_vault m.

Definition billing_response (status : Z) (m ty code : string) : Response :=
  mkResponse status {[ "content-type" := "application/json" ]} (ErrorObject m ty code).

(** The log entry of a request refused before routing. *)
Definition log_refusal (state : AppState) (ctx : RequestContext) (resolved : ResolvedCandidates)
    (status : Z) (m : string) : Timed AppWorld unit :=
  let! latency_ms := elapsed_ms (cx_start ctx) in
  log_error_to_db state ctx latency_ms None status m (rc_complexity_score resolved)
    (Some (Tier_to_string (rc_tier resolved))).

(** The frontier rates, or those of the first candidate. *)
Definition reserve_rates (state : AppState) (ctx : RequestContext) (resolved : ResolvedCandidates)
    : Timed AppWorld (Z * Z * Z) :=
  match frontier_rates (st_router state) (cx_model ctx) with
  | Some rates => t_ret rates
  | None =>
      let! c := t_index (rc_candidates resolved) 0 in
      t_ret (sp_input_rate c, sp_output_rate c, sp_base_fee c)
  end.

Definition reserve_amount (vc : VaultClient) (request : ChatCompletionRequest) (rates : Z * Z * Z) : Z :=
  let '(est_input, est_output) := estimate_tokens request (vc_default_reserve_tokens vc) in
  let '(ir, or, bf) := rates in
  estimate_reserve_msats est_input est_output ir or bf.

(** The billing block: the request with its token cap and the context with its reservation,
    or the response that refuses it. *)
Definition reserve_funds (state : AppState) (ctx : RequestContext) (headers : RequestHeaders)
    (request : ChatCompletionRequest) (resolved : ResolvedCandidates) (vc : VaultClient)
    : Timed AppWorld (result (RequestContext * ChatCompletionRequest) Response) :=
  let! w := t_get in
  if w_backpressure (aw_vault w) then
    let! _ := log_refusal state ctx resolved 503
                "Payment service backpressure: too many pending settlements" in
    t_ret (Err (billing_response 503 "Payment service temporarily unavailable" "server_error"
                  "vault_backpressure"))
  else
    match (match h_authorization headers with
           | Some v => str_strip_prefix "Bearer " v
           | None => None
           end) with
    | None =>
        let! _ := log_refusal state ctx resolved 401 "Missing bearer token for vault billing" in
        t_ret (Err (billing_response 401 "Authorization: Bearer <token> required"
                      "authentication_error" "invalid_api_key"))
    | Some agent_token =>
        let request :=
          match max_tokens request with
          | None => with_max_tokens request (Some (vc_default_reserve_tokens vc))
          | Some _ => request
          end in
        let! rates := reserve_rates state ctx resolved in
        let amount := reserve_amount vc request rates in
        let! r := in_vault (reserve post vault_others vc agent_token amount
                              (cx_correlation_id ctx) (cx_model ctx)) in
        let! _ := yield_now in
        match r with
        | Ok reservation => t_ret (Ok (with_reservation ctx (rv_id reservation), request))
        | Err e =>
            let status_code := VaultError_status_code e in
            let message := VaultError_to_string e in
            let! _ := log_refusal state ctx resolved status_code message in
            t_ret (Err (billing_response status_code message "billing_error"
                          ("vault_" +:+ pretty_Z status_code)))
        end
    end.

Definition parse_complexity (headers : RequestHeaders) : option Tier :=
  match h_complexity headers with
  | None => None
  | Some s =>
      let s := to_lowercase s in
      if String.eqb s "high" then Some Frontier
      else if String.eqb s "medium" then Some Standard
      else if String.eqb s "low" then Some Local
      else None
  end.

Definition route (state : AppState) (ctx : RequestContext) (request : ChatCompletionRequest)
    (resolved : ResolvedCandidates) : Timed AppWorld Response :=
  if cx_is_streaming ctx then handle_streaming_path state ctx request resolved
  else handle_non_streaming_path state ctx request resolved.

Definition chat_completions (state : AppState) (request_id : string) (headers : RequestHeaders)
    (request : ChatCompletionRequest) : Timed AppWorld Response :=
  let! start := t_now in
  let ctx := {| cx_correlation_id := request_id; cx_model := model request;
                cx_policy_name := h_policy headers;
                cx_is_streaming := default false (stream request);
                cx_start := start; cx_reservation_id := None |} in
  let! r := resolve_candidates state ctx (user_prompt request) (messages request)
              (parse_complexity headers) in
  match r with
  | Err response => t_ret response
  | Ok resolved =>
      match st_vault state with
      | None => route state ctx request resolved
      | Some vc =>
          let! b := reserve_funds state ctx headers request resolved vc in
          match b with
          | Err response => t_ret response
          | Ok (ctx, request) => route state ctx request resolved
          end
      end
  end.

(** *** The escalation loop ends *)

(** three turns of the escalation loop are enough: more fuel changes nothing, from any
    tier (there are three, and each turn goes up or returns). *)
Theorem escalation_terminates (extra : nat) state ctx prompt score tier dl st :
  resolve_loop (3 + extra) state ctx prompt score tier dl st
  = resolve_loop 3 state ctx prompt score tier dl st.
Proof.
  assert (Hgen : forall fuel1 fuel2 tier dl st,
    (3 - Tier_rank tier <= fuel1)%nat -> (3 - Tier_rank tier <= fuel2)%nat ->
    resolve_loop fuel1 state ctx prompt score tier dl st
    = resolve_loop fuel2 state ctx prompt score tier dl st).
  { induction fuel1 as [|f1 IH]; intros fuel2 tier' dl' st' Hf1 Hf2; [destruct tier'; simpl in Hf1; lia|].
    destruct fuel2 as [|f2]; [destruct tier'; simpl in Hf2; lia|]. cbn [resolve_loop].
    assert (Hesc : forall next dl st, escalate tier' = Some next ->
      resolve_loop f1 state ctx prompt score next dl st
      = resolve_loop f2 state ctx prompt score next dl st).
    { intros next dl0 st0 He. apply escalate_rank in He. apply IH; lia. }
    destruct (select_candidates _ _ _ _ _) as [cs|e].
    - apply t_bind_ext. intros [filtered probe] dl0 st0. destruct filtered; [|done].
      destruct (escalate tier') eqn:Ee; auto.
    - destruct e; try done. destruct (escalate tier') eqn:Ee; auto. }
  apply Hgen; destruct tier; simpl; lia.
Qed.

End App.
