(* ===== verification/Frames.v ===== *)
(** * What the handler leaves alone

    Which programs of [Handlers] touch which part of the shared state: a relation [R] that
    permits, breakers, provider calls and the other tasks respect holds between the states
    before and after, however the program ends.  That the billing tasks are as they were, or
    the entries sent to the database writer, are two such relations. *)

From S2P Require Import Prelude Machine RustStr Timed Config Errors Types Router Complexity.
From S2P Require Import CircuitBreaker Retry Storage Vault Http Handlers.

(** What the handler does to the registry: one of the five operations at a time. *)
Definition breaker_step `{Watch} (g : Instant -> Registry -> Registry) : Prop :=
  forall now reg, exists op, g now reg = reg_exec now op reg.

Ltac breaker_step_tac :=
  intros ? ?; repeat case_match;
  first [ by eexists (RSuccess _) | by eexists (RFailure _ _ _)
        | by eexists (RProbeSuccess _) | by eexists (RProbeFailure _ _ _) ].
#[export] Hint Extern 2 (breaker_step _) => breaker_step_tac : arb.

Section Frames.
Context `{Watch} `{HttpDeps} `{ScorerDeps} `{UnicodeCase} `{SerdeJson} `{!VaultSerde} `{SqlOrder}.
Context (others : nat -> Interference) (rfc3339 : Instant -> string).
Context (upstream : nat -> UpstreamRequest -> Duration * result UpstreamReply string).
Context (post : nat -> VaultCall -> Duration * result VaultReply SendError).
Context (vault_others : nat -> list PendingSettlement).
Implicit Types (w : AppWorld) (state : AppState) (ctx : RequestContext).

Context (R : relation AppWorld) `{!PreOrder R}.

(** The operations on breakers and the record of provider calls respect [R]. *)
Class Apart := {
  apart_registry : forall w now op, R w (with_registry w (reg_exec now op (aw_registry w)));
  apart_sent : forall w l, R w (with_sent w l);
}.
(** So do the other tasks, in their turns and while a request waits for a probe. *)
Class Undisturbed := {
  undisturbed : forall n w, R w (interfere (others n) w);
  undisturbed_wait : forall n name w, R w (interfere (waited (others n) name) w);
}.
Context `{!Apart} `{!Undisturbed}.

Lemma evolves_yield : evolves R (yield_now others).
Proof. apply evolves_modify. intros w. apply undisturbed. Qed.

Lemma evolves_wait name : evolves R (wait_for_probe others name).
Proof.
  apply evolves_bind; [exact _|auto with arb|intros w0]. cbv zeta.
  apply evolves_bind; [exact _|auto with arb|intros _].
  apply evolves_modify. intros w'. apply undisturbed_wait.
Qed.

Lemma evolves_on_registry g : breaker_step g -> evolves R (on_registry others g).
Proof.
  intros Hg. apply evolves_bind; [exact _|apply evolves_yield|intros _].
  apply evolves_bind; [exact _|auto with arb|intros now]. apply evolves_modify. intros w.
  destruct (Hg now (aw_registry w)) as [op ->]. apply apart_registry.
Qed.

Lemma evolves_elapsed start : evolves R (elapsed_ms start).
Proof. apply evolves_bind; [exact _|auto with arb..]. Qed.

Hint Resolve evolves_yield evolves_wait evolves_on_registry evolves_elapsed : arb.

Lemma evolves_acquire name : evolves R (acquire_permit others name).
Proof.
  apply evolves_bind; [exact _|auto with arb|intros _].
  intros dl [t w]. pose proof (apart_registry w t (RAcquire name)) as HR. cbn [reg_exec] in HR.
  assert (Hk : forall acq, evolves R (match acq with
    | Resolved r => t_ret r
    | Waiting rx reason trips => let! _ := wait_for_probe others name in let! w := t_get in
        match acquire_poll name rx reason trips (aw_registry w) with Some r => t_ret r | None => t_hang end
    end)) by (intros; evolves_tac).
  specialize (Hk (fst (acquire_start t name (aw_registry w))) dl). etransitivity; [exact HR|].
  unfold t_bind at 1 2, t_now, t_get. cbn [fst snd].
  destruct (acquire_start t name (aw_registry w)) as [acq reg]. apply (Hk (t, with_registry w reg)).
Qed.
Hint Resolve evolves_acquire : arb.

Lemma evolves_filter cs filtered probe : evolves R (filter_candidates others cs filtered probe).
Proof. revert filtered probe. induction cs as [|c cs IH]; intros; cbn [filter_candidates]; evolves_tac. Qed.

Lemma evolves_guarded {A} probe (m : Timed AppWorld A) : evolves R m -> evolves R (with_probe_guard others probe m).
Proof.
  destruct probe; [|done]. intros Hm. apply evolves_on_drop; [exact _| |done].
  intros now w. etransitivity; [apply undisturbed|]. apply (apart_registry _ now (RProbeFailure _ _ _)).
Qed.

Lemma evolves_retry ctx request resolved : evolves R (retry_under_deadline upstream ctx request resolved).
Proof.
  apply evolves_bind; [exact _|auto with arb|intros now]. apply evolves_zoom_any. intros. apply apart_sent.
Qed.

Lemma evolves_record_attempts l : evolves R (record_attempts others l).
Proof. induction l as [|a l IH]; cbn [record_attempts]; evolves_tac. Qed.

Lemma evolves_record_retry resolved r : evolves R (record_retry_outcome others resolved r).
Proof. unfold record_retry_outcome. evolves_tac. Qed.

Lemma evolves_record_streaming resolved r : evolves R (record_streaming_outcome others resolved r).
Proof. unfold record_streaming_outcome, resolve_guard. evolves_tac. Qed.

Lemma evolves_rates state ctx resolved : evolves R (reserve_rates state ctx resolved).
Proof. unfold reserve_rates. evolves_tac. Qed.

(** ** The whole handler *)

(** The amount of a settle task comes from a cast to [u64]. *)
Definition task_wf (t : Task) : Prop :=
  match t with TaskSettle _ msats _ => in_u64 msats | _ => True end.

Context (respects_writer : forall w d, R w (with_writer w d)).
Context (respects_task : forall w t, task_wf t -> R w (with_task w t)).
Context (respects_reserve : forall vc agent amount cid m, in_u64 amount ->
  evolves R (in_vault (reserve post vault_others vc agent amount cid m))).

Lemma evolves_spawn t : task_wf t -> evolves R (spawn t).
Proof. intros Ht. apply evolves_modify. intros w. by apply respects_task. Qed.

Lemma evolves_write_log state log : evolves R (write_log state log).
Proof.
  unfold write_log. destruct (st_db_writer state); [|auto with arb].
  apply evolves_bind; [exact _|auto with arb|intros now]. apply evolves_modify. intros w. apply respects_writer.
Qed.

Lemma evolves_log_error state ctx l p c m s tr : evolves R (log_error_to_db rfc3339 state ctx l p c m s tr).
Proof. apply evolves_write_log. Qed.

Lemma evolves_log_success state ctx l o s tr : evolves R (log_success_to_db rfc3339 state ctx l o s tr).
Proof. apply evolves_write_log. Qed.

Lemma evolves_release state ctx reason : evolves R (spawn_release state ctx reason).
Proof.
  unfold spawn_release. destruct (st_vault state), (cx_reservation_id ctx); auto with arb. by apply evolves_spawn.
Qed.

Lemma evolves_settle state ctx cost md : evolves R (spawn_settle state ctx (cost_msats cost) md).
Proof.
  unfold spawn_settle. destruct (st_vault state), (cx_reservation_id ctx); auto with arb. apply evolves_spawn.
  simpl. unfold cost_msats. destruct cost; [apply f64_to_u64_range|]. unfold in_u64, U64_MAX. lia.
Qed.

Hint Resolve evolves_filter evolves_log_error evolves_log_success evolves_release evolves_settle evolves_retry
  evolves_record_attempts evolves_record_retry evolves_record_streaming evolves_rates : arb.

Lemma evolves_refuse state ctx c m s tr e : evolves R (refuse rfc3339 state ctx c m s tr e).
Proof. unfold refuse. evolves_tac. Qed.

Lemma evolves_log_refusal state ctx resolved c m : evolves R (log_refusal rfc3339 state ctx resolved c m).
Proof. unfold log_refusal. evolves_tac. Qed.

Hint Resolve evolves_refuse evolves_log_refusal : arb.

Lemma evolves_resolve fuel state ctx prompt score tier :
  evolves R (resolve_loop others rfc3339 fuel state ctx prompt score tier).
Proof. revert tier. induction fuel as [|fuel IH]; intros tier; cbn [resolve_loop]; evolves_tac. Qed.

Lemma reserve_amount_range vc request rates : in_u64 (reserve_amount vc request rates).
Proof.
  unfold reserve_amount. destruct (estimate_tokens _ _) as [est_input est_output], rates as [[ir or] bf].
  apply as_u64_range.
Qed.

Lemma evolves_reserve_funds state ctx headers request resolved vc :
  evolves R (reserve_funds others rfc3339 post vault_others state ctx headers request resolved vc).
Proof. unfold reserve_funds. evolves_tac; apply respects_reserve, reserve_amount_range. Qed.

Lemma evolves_route state ctx request resolved :
  evolves R (route others rfc3339 upstream state ctx request resolved).
Proof.
  unfold route. destruct (cx_is_streaming ctx).
  - unfold handle_streaming_path. apply evolves_bind; [exact _|auto with arb|intros provider].
    apply evolves_bind; [exact _| |intros r; unfold finish_streaming; evolves_tac].
    apply evolves_guarded. unfold send_streaming. apply evolves_bind; [exact _|auto with arb|intros start].
    apply evolves_bind; [exact _|apply evolves_modify; intros w; apply apart_sent|intros _].
    destruct (upstream 0 _) as [d r]. evolves_tac. by apply evolves_spawn.
  - unfold handle_non_streaming_path. apply evolves_bind; [exact _|apply evolves_guarded; auto with arb|intros [tr atts]].
    unfold finish_non_streaming, respond_success, respond_error, respond_timeout. evolves_tac.
Qed.

Lemma evolves_chat state request_id headers request :
  evolves R (chat_completions others rfc3339 upstream post vault_others state request_id headers request).
Proof.
  unfold chat_completions, resolve_candidates. apply evolves_bind; [exact _|auto with arb|intros start].
  cbv zeta. apply evolves_bind; [exact _| |intros r].
  - destruct (initial_tier _ _ _). apply evolves_resolve.
  - destruct r as [rc|resp]; [|auto with arb]. destruct (st_vault state); [|apply evolves_route].
    apply evolves_bind; [exact _|apply evolves_reserve_funds|intros [[ctx' req']|resp]; [apply evolves_route|auto with arb]].
Qed.

End Frames.

#[export] Hint Resolve evolves_yield evolves_wait evolves_on_registry evolves_elapsed evolves_acquire evolves_filter evolves_guarded
  evolves_retry evolves_record_attempts evolves_record_retry evolves_record_streaming evolves_rates : arb.

(** The billing tasks, and the entries of the log, are apart from all that. *)
#[export] Instance apart_spawned `{Watch} : Apart (same_part aw_spawned).
Proof. by split. Qed.
#[export] Instance undisturbed_spawned `{Watch} others : Undisturbed others (same_part aw_spawned).
Proof. by split. Qed.
#[export] Instance apart_writer `{Watch} : Apart (same_part aw_writer).
Proof. by split. Qed.
#[export] Hint Resolve apart_spawned undisturbed_spawned apart_writer : arb.

(** Whatever a program does with the vault, the rest of the world stays. *)
Lemma leaves_in_vault `{Watch} {X A} (f : AppWorld -> X) (m : Timed World A) :
  (forall w v, f (with_vault w v) = f w) -> leaves f (in_vault m).
Proof. intros Hf. apply evolves_zoom_any. exact Hf. Qed.
#[export] Hint Extern 2 (evolves (same_part _) (in_vault _)) => (apply leaves_in_vault; done) : arb.
