(* ===== verification/Billing.v ===== *)
(** * What a chat completion request does

    Theorems about [Handlers]: candidate resolution ends and only offers eligible, admitted
    providers; a provider is only called with a reservation when billing is on; every
    reservation is handed to exactly one billing task. *)

From S2P Require Import Prelude Machine RustStr Timed Config Errors Types Router Complexity.
From S2P Require Import CircuitBreaker Retry Storage Vault Http Handlers.

Section Billing.
Context `{Watch} `{HttpDeps} `{ScorerDeps} `{UnicodeCase} `{SerdeJson} `{!VaultSerde} `{SqlOrder}.
Context (others : nat -> Interference) (rfc3339 : Instant -> string).
Context (upstream : nat -> UpstreamRequest -> Duration * result UpstreamReply string).
Context (post : nat -> VaultCall -> Duration * result VaultReply SendError).
Context (vault_others : nat -> list PendingSettlement).
Implicit Types (w : AppWorld) (state : AppState) (ctx : RequestContext).

(** ** Steps that leave billing alone *)

Definition frame w w' : Prop :=
  aw_vault w' = aw_vault w /\ aw_spawned w' = aw_spawned w /\ aw_sent w' = aw_sent w.

Lemma frame_refl w : frame w w.
Proof. done. Qed.

Lemma frame_trans w1 w2 w3 : frame w1 w2 -> frame w2 w3 -> frame w1 w3.
Proof. intros (? & ? & ?) (? & ? & ?). split_and!; congruence. Qed.

(** A program that only frames. *)
Definition framed {A} (m : Timed AppWorld A) : Prop :=
  forall t w, safe m (t, w) (fun _ st' => frame w (snd st')).

Lemma framed_bind {A B} (m : Timed AppWorld A) (k : A -> Timed AppWorld B) :
  framed m -> (forall a, framed (k a)) -> framed (t_bind m k).
Proof.
  intros Hm Hk t w. apply safe_bind. eapply safe_mono; [apply Hm|]. intros a [t1 w1] H1'.
  eapply safe_mono; [apply Hk|]. intros b st2 H2'. cbn [snd] in *. by eapply frame_trans.
Qed.

Lemma framed_ret {A} (a : A) : framed (t_ret a).
Proof. intros t w. apply safe_ret, frame_refl. Qed.

Lemma framed_hang {A} : framed (t_hang : Timed AppWorld A).
Proof. intros t w. apply safe_hang. Qed.

Lemma framed_now : framed t_now.
Proof. intros t w. safe_steps. apply frame_refl. Qed.

Lemma framed_get : framed t_get.
Proof. intros t w. safe_steps. apply frame_refl. Qed.

Lemma framed_modify f : (forall w, frame w (f w)) -> framed (t_modify f).
Proof. intros Hf t w. safe_steps. apply Hf. Qed.

Lemma framed_await d : framed (t_await d).
Proof. intros t w. safe_steps. apply frame_refl. Qed.

Lemma framed_if {A} (b : bool) (m1 m2 : Timed AppWorld A) :
  framed m1 -> framed m2 -> framed (if b then m1 else m2).
Proof. by destruct b. Qed.

Hint Resolve framed_ret framed_hang framed_now framed_get framed_await framed_if : arb.
Ltac framed_tac :=
  repeat first [apply framed_bind; [|intros ?]|apply framed_if]; eauto with arb;
  try (apply framed_modify; intros ?; done).

Lemma framed_yield : framed (yield_now others).
Proof. apply framed_modify. done. Qed.

Lemma framed_wait name : framed (wait_for_probe others name).
Proof. unfold wait_for_probe. framed_tac. Qed.

Lemma framed_on_registry f : framed (on_registry others f).
Proof. unfold on_registry. apply framed_bind; [apply framed_yield|intros _]. framed_tac. Qed.

Lemma framed_elapsed start : framed (elapsed_ms start).
Proof. unfold elapsed_ms. framed_tac. Qed.

Lemma framed_write_log state log : framed (write_log state log).
Proof. unfold write_log. framed_tac. Qed.

Lemma framed_resolve_guard probe f : framed (resolve_guard others probe f).
Proof. destruct probe; [apply framed_on_registry|apply framed_ret]. Qed.

Hint Resolve framed_yield framed_wait framed_on_registry framed_elapsed framed_write_log framed_resolve_guard : arb.

Lemma framed_log_error state ctx l p c m s tr : framed (log_error_to_db rfc3339 state ctx l p c m s tr).
Proof. apply framed_write_log. Qed.

Lemma framed_log_success state ctx l o s tr : framed (log_success_to_db rfc3339 state ctx l o s tr).
Proof. apply framed_write_log. Qed.

Hint Resolve framed_log_error framed_log_success : arb.

Lemma framed_log_refusal state ctx r c m : framed (log_refusal rfc3339 state ctx r c m).
Proof. unfold log_refusal. framed_tac. Qed.

Lemma framed_refuse state ctx c m s tr e : framed (refuse rfc3339 state ctx c m s tr e).
Proof. unfold refuse. framed_tac. Qed.

Lemma framed_record_streaming resolved r : framed (record_streaming_outcome others resolved r).
Proof. unfold record_streaming_outcome. destruct r; framed_tac. Qed.

Lemma framed_record_attempts l : framed (record_attempts others l).
Proof. induction l as [|a l IH]; cbn [record_attempts]; framed_tac. Qed.

Lemma framed_record_retry resolved r : framed (record_retry_outcome others resolved r).
Proof.
  unfold record_retry_outcome. destruct (rc_probe_provider resolved), r as [[o|e]|]; framed_tac.
Qed.

Hint Resolve framed_log_refusal framed_refuse framed_record_streaming framed_record_attempts
  framed_record_retry : arb.

(** ** Candidates *)

Lemma framed_acquire name : framed (acquire_permit others name).
Proof.
  intros t w. unfold acquire_permit. apply safe_bind. eapply safe_mono; [apply framed_yield|].
  intros [] [t0 w0] Hf0. cbn [snd] in Hf0. safe_steps. clear t. rename t0 into t.
  destruct (acquire_start t name (aw_registry w0)) as [acq reg]. safe_steps.
  destruct acq as [r|rx reason trips]; safe_steps; [done|].
  eapply safe_mono; [apply framed_wait|]. intros [] [t1 w1] Hf. safe_steps.
  destruct (acquire_poll _ _ _ _ _); safe_steps. by eapply frame_trans.
Qed.

(** What the loop over the candidates returns: a selection of them, the probe at the head. *)
Definition filtered_ok (all : list SelectedProvider) (filtered : list SelectedProvider)
    (probe : option string) : Prop :=
  (forall c, In c filtered -> In c all) /\
  (forall name, probe = Some name -> exists c rest, filtered = c :: rest /\ sp_name c = name).

Lemma filter_candidates_safe all cs filtered probe t w :
  (forall c, In c cs -> In c all) -> filtered_ok all filtered probe ->
  safe (filter_candidates others cs filtered probe) (t, w) (fun r st' =>
    frame w (snd st') /\ filtered_ok all (fst r) (snd r)).
Proof.
  revert filtered probe t w. induction cs as [|c cs IH]; intros filtered probe t w Hcs Hok;
    cbn [filter_candidates].
  - safe_steps. split; [apply frame_refl|exact Hok].
  - safe_steps. eapply safe_mono; [apply framed_acquire|]. intros permit [t1 w1] Hf. cbn [snd] in Hf.
    assert (Hgo : forall f' p', filtered_ok all f' p' ->
      safe (filter_candidates others cs f' p') (t1, w1) (fun r st' =>
        frame w (snd st') /\ filtered_ok all (fst r) (snd r))).
    { intros f' p' Hok'. eapply safe_mono; [apply IH; [|exact Hok']|].
      - intros d Hd. apply Hcs. by right.
      - intros r st' [Hf' Hr]. split; [by eapply frame_trans|exact Hr]. }
    destruct Hok as [Hin Hp]. destruct permit as [[]|e]; apply Hgo; split.
    + intros d. rewrite in_app_iff. intros [Hd|[<-|[]]]; [by apply Hin|apply Hcs; by left].
    + intros name Hn. destruct (Hp name Hn) as (d & rest & -> & Hd). by exists d, (rest ++ [c]).
    + intros d [<-|Hd]; [apply Hcs; by left|by apply Hin].
    + intros name [= <-]. by exists c, filtered.
    + exact Hin.
    + exact Hp.
Qed.

(** What [resolve_candidates] promises. *)
Definition resolved_ok state ctx prompt (max_tier : Tier) (r : result ResolvedCandidates Response) : Prop :=
  match r with
  | Ok rc =>
      rc_candidates rc <> [] /\ Tier_le max_tier (rc_tier rc) /\
      (exists cs, select_candidates (st_router state) (cx_model ctx) (cx_policy_name ctx) prompt
                    (Some (rc_tier rc)) = Ok cs /\ filtered_ok cs (rc_candidates rc) (rc_probe_provider rc))
  | Err resp => 400 <= resp_status resp < 600
  end.

Lemma attach_status rid l p c s r :
  resp_status (attach_arbstr_headers rid l p c s r) = resp_status r.
Proof.
  unfold attach_arbstr_headers, insert_if_valid. destruct s, p, c; simpl; repeat case_match; done.
Qed.

Lemma refuse_safe state ctx c m s tr e t w :
  safe (refuse rfc3339 state ctx c m s tr e) (t, w) (fun r st' =>
    frame w (snd st') /\ 400 <= resp_status r < 600).
Proof.
  unfold refuse. safe_steps. eapply safe_mono; [apply framed_elapsed|]. intros l [t1 w1] Hf1.
  safe_steps. eapply safe_mono; [apply framed_log_error|]. intros [] [t2 w2] Hf2. safe_steps.
  cbn [snd] in *. split; [by eapply frame_trans|]. rewrite attach_status. apply Error_status_range.
Qed.

Lemma resolve_loop_safe fuel state ctx prompt score tier t w :
  (4 - Tier_rank tier <= fuel + 1)%nat ->
  safe (resolve_loop others rfc3339 fuel state ctx prompt score tier) (t, w) (fun r st' =>
    frame w (snd st') /\ resolved_ok state ctx prompt tier r).
Proof.
  revert tier t w. induction fuel as [|fuel IH]; intros tier t w Hfuel;
    [destruct tier; simpl in Hfuel; lia|]. cbn [resolve_loop].
  assert (Hrefuse : forall t1 w1 c m s tr e, frame w w1 ->
    safe (let! r := refuse rfc3339 state ctx c m s tr e in t_ret (Err r)) (t1, w1)
      (fun r st' => frame w (snd st') /\ resolved_ok state ctx prompt tier r)).
  { intros t1 w1 c m s tr e Hf. safe_steps. eapply safe_mono; [apply refuse_safe|].
    intros r [t2 w2] [Hf2 Hst]. safe_steps. split; [by eapply frame_trans|exact Hst]. }
  assert (Hnext : forall next t1 w1, escalate tier = Some next -> frame w w1 ->
    safe (resolve_loop others rfc3339 fuel state ctx prompt score next) (t1, w1)
      (fun r st' => frame w (snd st') /\ resolved_ok state ctx prompt tier r)).
  { intros next t1 w1 Hesc Hf. pose proof (escalate_rank _ _ Hesc) as Hrank.
    eapply safe_mono; [apply IH; lia|]. intros r [t2 w2] [Hf2 Hok]. split; [by eapply frame_trans|].
    destruct r as [rc|resp]; [|exact Hok]. destruct Hok as (? & Hle & ?). split_and!; [done| |done].
    etransitivity; [|exact Hle]. unfold Tier_le, Tier_leb. apply Nat.leb_le. lia. }
  destruct (select_candidates _ _ _ _ _) as [cs|e] eqn:Esel.
  - safe_steps. eapply safe_mono; [apply (filter_candidates_safe cs cs [] None); [done|split; done]|].
    intros [filtered probe] [t1 w1] [Hf Hok]. cbn [fst snd] in *.
    destruct filtered as [|c rest].
    + destruct (escalate tier) as [next|] eqn:Ee; [by apply Hnext|by apply Hrefuse].
    + safe_steps. split; [exact Hf|]. split_and!; [done|reflexivity|]. exists cs. split; [exact Esel|exact Hok].
  - destruct e; try (by apply Hrefuse).
    destruct (escalate tier) as [next|] eqn:Ee; [by apply Hnext|by apply Hrefuse].
Qed.

Lemma resolve_candidates_safe state ctx prompt ms ov t w :
  safe (resolve_candidates others rfc3339 state ctx prompt ms ov) (t, w) (fun r st' =>
    frame w (snd st') /\ resolved_ok state ctx prompt (snd (initial_tier state ms ov)) r).
Proof.
  unfold resolve_candidates. destruct (initial_tier state ms ov) as [score tier].
  apply resolve_loop_safe. destruct tier; simpl; lia.
Qed.

(** ** Sending and billing *)

Definition task_reservation (task : Task) : option string :=
  match task with
  | TaskSettle rid _ _ | TaskRelease rid _ => Some rid
  | TaskStream sk => sk_reservation_id sk
  end.

(** What a request adds to the shared state: tasks and calls of providers, nothing else. *)
Definition adds (tasks : list Task) (names : list string) w w' : Prop :=
  aw_vault w' = aw_vault w /\ aw_spawned w' = aw_spawned w ++ tasks /\ aw_sent w' = aw_sent w ++ names.

Lemma adds_frame tasks names w1 w2 w3 :
  adds tasks names w1 w2 -> frame w2 w3 -> adds tasks names w1 w3.
Proof. intros (? & ? & ?) (? & ? & ?). split_and!; congruence. Qed.

Lemma frame_adds tasks names w1 w2 w3 :
  frame w1 w2 -> adds tasks names w2 w3 -> adds tasks names w1 w3.
Proof. intros (? & ? & ?) (? & ? & ?). split_and!; congruence. Qed.

Lemma adds_app t1 t2 n1 n2 w1 w2 w3 :
  adds t1 n1 w1 w2 -> adds t2 n2 w2 w3 -> adds (t1 ++ t2) (n1 ++ n2) w1 w3.
Proof.
  intros (Hv1 & Ht1 & Hn1) (Hv2 & Ht2 & Hn2).
  split_and!; [congruence|by rewrite Ht2, Ht1, app_assoc|by rewrite Hn2, Hn1, app_assoc].
Qed.

Lemma frame_is_adds w w' : frame w w' <-> adds [] [] w w'.
Proof. unfold frame, adds. rewrite !app_nil_r. done. Qed.

Lemma spawn_safe task t w : safe (spawn task) (t, w) (fun _ st' => adds [task] [] w (snd st')).
Proof. unfold spawn. safe_steps. unfold adds. cbn. by rewrite app_nil_r. Qed.

(** The billing tasks of a request that has reached a provider. *)
Definition billed state ctx (tasks : list Task) : Prop :=
  match st_vault state with
  | Some _ => exists task, tasks = [task] /\ task_reservation task = cx_reservation_id ctx
  | None => Forall (fun task => task_reservation task = cx_reservation_id ctx) tasks
  end.

Lemma spawn_release_safe state ctx reason t w :
  (st_vault state <> None -> cx_reservation_id ctx <> None) ->
  safe (spawn_release state ctx reason) (t, w) (fun _ st' =>
    exists tasks, adds tasks [] w (snd st') /\ billed state ctx tasks).
Proof.
  intros Hr. unfold spawn_release, billed. destruct (st_vault state) as [vc|].
  - destruct (cx_reservation_id ctx) as [rid|]; [|by destruct Hr].
    eapply safe_mono; [apply spawn_safe|]. intros [] st' Ha. exists [TaskRelease rid reason].
    split; [exact Ha|]. by eexists.
  - safe_steps. exists []. split; [by apply frame_is_adds|constructor].
Qed.

Lemma spawn_settle_safe state ctx msats md t w :
  (st_vault state <> None -> cx_reservation_id ctx <> None) ->
  safe (spawn_settle state ctx msats md) (t, w) (fun _ st' =>
    exists tasks, adds tasks [] w (snd st') /\ billed state ctx tasks).
Proof.
  intros Hr. unfold spawn_settle, billed. destruct (st_vault state) as [vc|].
  - destruct (cx_reservation_id ctx) as [rid|]; [|by destruct Hr].
    eapply safe_mono; [apply spawn_safe|]. intros [] st' Ha. exists [TaskSettle rid msats md].
    split; [exact Ha|]. by eexists.
  - safe_steps. exists []. split; [by apply frame_is_adds|constructor].
Qed.

(** Runs a framed program first. *)
Lemma safe_framed_bind {A B} (m : Timed AppWorld A) (k : A -> Timed AppWorld B) t w w0
    (names : list string) (P : B -> list Task -> Prop) :
  framed m -> adds [] names w0 w ->
  (forall a t1 w1, adds [] names w0 w1 -> safe (k a) (t1, w1) (fun b st' =>
     exists tasks, adds tasks names w0 (snd st') /\ P b tasks)) ->
  safe (t_bind m k) (t, w) (fun b st' => exists tasks, adds tasks names w0 (snd st') /\ P b tasks).
Proof.
  intros Hm Ha Hk. apply safe_bind. eapply safe_mono; [apply Hm|]. intros a [t1 w1] Hf.
  apply Hk. by eapply adds_frame.
Qed.

(** A billing step: [spawn_release] or [spawn_settle], then the response. *)
Lemma safe_billed_bind {B} (m : Timed AppWorld unit) (b : B) state ctx t w w0 names :
  (forall t w, safe m (t, w) (fun _ st' => exists tasks, adds tasks [] w (snd st') /\ billed state ctx tasks)) ->
  adds [] names w0 w ->
  safe (let! _ := m in t_ret b) (t, w) (fun _ st' =>
    exists tasks, adds tasks names w0 (snd st') /\ billed state ctx tasks).
Proof.
  intros Hm Ha. apply safe_bind. eapply safe_mono; [apply Hm|]. intros [] [t1 w1] (tasks & Ht & Hb).
  safe_steps. exists tasks. split; [|exact Hb]. cbn [snd] in *.
  pose proof (adds_app _ _ _ _ _ _ _ Ha Ht) as Haa. by rewrite app_nil_r in Haa.
Qed.

(** ** The two paths *)

Lemma with_sent_adds w names : adds [] names w (with_sent w names).
Proof. unfold adds. cbn. by rewrite app_nil_r. Qed.

Lemma safe_guarded {A} probe (m : Timed AppWorld A) st (Q : A -> Instant * AppWorld -> Prop) :
  safe m st Q -> safe (with_probe_guard others probe m) st Q.
Proof. destruct probe; [apply safe_on_drop|done]. Qed.

Lemma streaming_path_safe state ctx request resolved t w :
  rc_candidates resolved <> [] -> (st_vault state <> None -> cx_reservation_id ctx <> None) ->
  safe (handle_streaming_path others rfc3339 upstream state ctx request resolved) (t, w)
    (fun _ st' => exists tasks, adds tasks [default "" (option_map sp_name (hd_error (rc_candidates resolved)))]
                                  w (snd st') /\ billed state ctx tasks).
Proof.
  intros Hne Hr. unfold handle_streaming_path, finish_streaming, t_index.
  destruct (rc_candidates resolved) as [|c rest]; [done|]. cbn [lookup list_lookup hd_error option_map default].
  safe_steps. apply safe_guarded. unfold send_streaming. safe_steps.
  destruct (upstream 0 _) as [d r]. safe_steps. cbn [default].
  set (w1 := with_sent w [sp_name c]).
  assert (Ha1 : adds [] [sp_name c] w w1) by apply with_sent_adds.
  eapply safe_mono; [apply framed_yield|]. intros [] [t2 w2] Hf2.
  assert (Ha2 : adds [] [sp_name c] w w2) by (by eapply adds_frame).
  destruct (reply_result c r (fun reply => Ok reply)) as [reply|e]; safe_steps.
  - (* a 2xx: the stream task carries the reservation *)
    eapply safe_mono; [apply spawn_safe|]. intros [] [t3 w3] Ha3. safe_steps.
    assert (Hall : forall w4, frame w3 w4 -> exists tasks, adds tasks [sp_name c] w w4 /\ billed state ctx tasks).
    { intros w4 Hf4. eexists. split.
      - eapply adds_frame; [|exact Hf4]. pose proof (adds_app _ _ _ _ _ _ _ Ha2 Ha3) as Haa.
        rewrite app_nil_r in Haa. exact Haa.
      - unfold billed. destruct (st_vault state); [by eexists|by repeat constructor]. }
    eapply safe_mono; [apply framed_record_streaming|]. intros [] [t4 w4] Hf4. safe_steps.
    eapply safe_mono; [apply framed_elapsed|]. intros l [t5 w5] Hf5. safe_steps.
    eapply safe_mono; [apply framed_log_success|]. intros [] [t6 w6] Hf6. safe_steps. apply Hall.
    cbn [snd] in *. eapply frame_trans; [exact Hf4|]. by eapply frame_trans.
  - eapply safe_mono; [apply framed_record_streaming|]. intros [] [t3 w3] Hf3.
    pose proof (adds_frame _ _ _ _ _ Ha2 Hf3) as Ha3. cbn [snd] in Ha3.
    eapply safe_framed_bind; [apply framed_elapsed|exact Ha3|]. intros l t4 w4 Ha4.
    eapply safe_framed_bind; [apply framed_log_error|exact Ha4|]. intros [] t5 w5 Ha5.
    apply safe_billed_bind; [intros; by apply spawn_release_safe|exact Ha5].
Qed.

(** The outcome of a request says what the last provider it called, of those [names], answered
    to that call. *)
Record answered ctx (request : ChatCompletionRequest) (candidates : list SelectedProvider) (names : list string)
    (o : RequestOutcome) (provider : SelectedProvider) (answer : Value) : Prop := {
  an_candidate : In provider candidates;
  an_last : hd_error (rev names) = Some (sp_name provider);
  an_reply : exists reply,
    snd (upstream (pred (length names)) (upstream_request request provider (cx_correlation_id ctx) false)) = Ok reply /\
    is_success (up_status reply) = true /\ up_json reply = Ok answer;
  an_status : resp_status (ro_response o) = 200;
  an_body : exists body, resp_body (ro_response o) = JsonBody body /\
    json_to_string (default answer (v_insert_str "arbstr_provider" (sp_name provider) answer)) = Ok body;
  an_provider : ro_provider_name o = sp_name provider;
  an_tokens : ro_input_tokens o = option_map fst (extract_usage answer) /\
    ro_output_tokens o = option_map snd (extract_usage answer);
  an_cost : ro_cost_sats o = usage_cost provider (extract_usage answer);
}.

Lemma send_candidate_answered ctx request candidates n info o names :
  snd (send_candidate upstream request candidates (cx_correlation_id ctx) n info) = Ok o ->
  length names = S n -> hd_error (rev names) = Some (ci_name info) ->
  exists provider answer, answered ctx request candidates names o provider answer.
Proof.
  unfold send_candidate. intros Hr Hlen Hlast. destruct (List.find _ candidates) as [provider|] eqn:Ef; [|discriminate].
  destruct (upstream n _) as [d r] eqn:Eu. cbn [snd] in Hr. unfold reply_result in Hr. destruct r as [reply|e]; [|discriminate].
  destruct (is_success (up_status reply)) eqn:Es; [|discriminate]. cbn [negb] in Hr.
  unfold handle_non_streaming_response in Hr. destruct (up_json reply) as [answer|e] eqn:Ej; [|discriminate]. cbn in Hr.
  destruct (json_to_string _) as [body|e] eqn:Eb; [|discriminate]. injection Hr as <-.
  apply find_some in Ef as [Hin Hn%String.eqb_eq]. exists provider, answer.
  split; cbn; try done; [by rewrite Hn|rewrite Hlen; cbn [pred]|by exists body].
  exists reply. by rewrite Eu.
Qed.

Lemma retry_safe state ctx request resolved t w :
  rc_candidates resolved <> [] ->
  safe (retry_under_deadline upstream ctx request resolved) (t, w) (fun r st' =>
    exists names, adds [] names w (snd st') /\ incl names (map sp_name (rc_candidates resolved)) /\
      forall o, fst r = Some (Ok o) ->
        exists provider answer, answered ctx request (rc_candidates resolved) names o provider answer).
Proof.
  intros Hne. unfold retry_under_deadline. safe_steps. unfold safe, t_zoom, t_bind. cbn [fst snd].
  rewrite t_timeout_at_first by done.
  set (infos := map _ (rc_candidates resolved)).
  set (send := send_candidate _ _ _ _).
  destruct (retry_exits send infos t (t + RETRY_TIMEOUT)) as (x & t' & s' & Hrun & _ & Hincl & Hx).
  { unfold infos. destruct (rc_candidates resolved); done. }
  { unfold RETRY_TIMEOUT, secs. lia. }
  rewrite Hrun. unfold timed_out.
  assert (Hnames : incl (map (fun p => ci_name (snd p)) (rs_sends s')) (map sp_name (rc_candidates resolved))).
  { intros name Hn. apply in_map_iff in Hn as ([ti c] & <- & Hc).
    assert (Hc' : In c infos) by (apply Hincl; apply in_map_iff; exists (ti, c); auto).
    unfold infos in Hc'. apply in_map_iff in Hc' as (sp & <- & Hsp). simpl. by apply in_map. }
  destruct x as [[v|e]| | |]; try done; unfold t_get, t_ret; cbn [fst snd];
    (eexists; split; [apply with_sent_adds|split; [exact Hnames|]]); intros o; intros [=].
  subst o. destruct Hx as (n & c & _ & Hlen & Hlast & Hv). eapply send_candidate_answered; [exact Hv|by rewrite length_map|].
  rewrite <- (List.map_map snd ci_name), <- map_rev. by destruct (rev _); simplify_eq/=.
Qed.

Lemma non_streaming_path_safe state ctx request resolved t w :
  rc_candidates resolved <> [] -> (st_vault state <> None -> cx_reservation_id ctx <> None) ->
  safe (handle_non_streaming_path others rfc3339 upstream state ctx request resolved) (t, w)
    (fun _ st' => exists names tasks, adds tasks names w (snd st') /\ billed state ctx tasks /\
       incl names (map sp_name (rc_candidates resolved))).
Proof.
  intros Hne Hr. unfold handle_non_streaming_path, finish_non_streaming. apply safe_bind.
  eapply safe_mono; [by apply safe_guarded, (retry_safe state)|].
  intros [tr atts] [t1 w1] (names & Ha1 & Hincl & _). cbn [snd] in *.
  apply (safe_mono _ _ (fun _ st' => exists tasks, adds tasks names w (snd st') /\ billed state ctx tasks)).
  2: { intros resp st' (tasks & ? & ?). by exists names, tasks. }
  eapply safe_framed_bind; [apply framed_yield|exact Ha1|]. intros [] t2 w2 Ha2.
  eapply safe_framed_bind; [apply framed_elapsed|exact Ha2|]. intros l t3 w3 Ha3.
  eapply safe_framed_bind; [apply framed_record_attempts|exact Ha3|]. intros [] t4 w4 Ha4.
  eapply safe_framed_bind; [apply framed_record_retry|exact Ha4|]. intros [] t5 w5 Ha5.
  destruct tr as [[o|e]|]; [unfold respond_success|unfold respond_error|unfold respond_timeout];
    cbv zeta.
  - eapply safe_framed_bind; [apply framed_log_success|exact Ha5|]. intros [] t6 w6 Ha6.
    apply safe_billed_bind; [intros; by apply spawn_settle_safe|exact Ha6].
  - eapply safe_framed_bind; [apply framed_log_error|exact Ha5|]. intros [] t6 w6 Ha6.
    apply safe_billed_bind; [intros; by apply spawn_release_safe|exact Ha6].
  - eapply safe_framed_bind; [apply framed_log_error|exact Ha5|]. intros [] t6 w6 Ha6.
    apply safe_billed_bind; [intros; by apply spawn_release_safe|exact Ha6].
Qed.

(** ** The handler *)

Lemma route_safe state ctx request resolved t w :
  rc_candidates resolved <> [] -> (st_vault state <> None -> cx_reservation_id ctx <> None) ->
  safe (route others rfc3339 upstream state ctx request resolved) (t, w) (fun _ st' =>
    exists names tasks, adds tasks names w (snd st') /\ billed state ctx tasks).
Proof.
  intros Hne Hr. unfold route. destruct (cx_is_streaming ctx).
  - eapply safe_mono; [by apply streaming_path_safe|]. intros resp st' (tasks & ? & ?). by eexists _, tasks.
  - eapply safe_mono; [by apply non_streaming_path_safe|].
    intros resp st' (names & tasks & ? & ? & _). by exists names, tasks.
Qed.

(** What [reserve_funds] adds: nothing when it refuses early, one reserve call otherwise. *)
Definition reserve_post ctx w w' (r : result (RequestContext * ChatCompletionRequest) Response) : Prop :=
  aw_spawned w' = aw_spawned w /\ aw_sent w' = aw_sent w /\
  ((w_calls (aw_vault w') = w_calls (aw_vault w) /\ exists resp, r = Err resp) \/
   exists agent amount c,
     w_calls (aw_vault w') = w_calls (aw_vault w) ++ [c] /\
     lc_call c = CallReserve agent amount (cx_correlation_id ctx) (cx_model ctx) /\
     match reserve_result amount (snd (post (length (w_calls (aw_vault w))) (lc_call c))) with
     | Err _ => exists resp, r = Err resp
     | Ok rv => exists request', r = Ok (with_reservation ctx (rv_id rv), request')
     end).

Lemma reserve_rates_framed state ctx resolved :
  rc_candidates resolved <> [] -> framed (reserve_rates state ctx resolved).
Proof.
  intros Hne. unfold reserve_rates. destruct (frontier_rates _ _); [apply framed_ret|].
  apply framed_bind; [|intros; apply framed_ret]. unfold t_index.
  destruct (rc_candidates resolved); [done|apply framed_ret].
Qed.

Lemma reserve_funds_safe state ctx headers request resolved vc t w :
  rc_candidates resolved <> [] ->
  safe (reserve_funds others rfc3339 post vault_others state ctx headers request resolved vc) (t, w)
    (fun r st' => reserve_post ctx w (snd st') r).
Proof.
  intros Hne. unfold reserve_funds.
  assert (Hearly : forall t1 w1 c m resp, frame w w1 ->
    safe (let! _ := log_refusal rfc3339 state ctx resolved c m in t_ret (Err resp)) (t1, w1)
      (fun r st' => reserve_post ctx w (snd st') r)).
  { intros t1 w1 c m resp Hf. safe_steps. eapply safe_mono; [apply framed_log_refusal|].
    intros [] [t2 w2] Hf2. safe_steps. cbn [snd] in *.
    destruct (frame_trans _ _ _ Hf Hf2) as (Hv & Hs & Hn). split_and!; [done..|].
    left. split; [by rewrite Hv|by eexists]. }
  safe_steps. destruct (w_backpressure (aw_vault w)); [by apply Hearly|].
  destruct (match h_authorization headers with Some v => _ | None => _ end) as [agent|]; [|by apply Hearly].
  safe_steps. eapply safe_mono; [by apply reserve_rates_framed|]. intros rates [t1 w1] Hf1. cbn [snd] in Hf1.
  set (amount := reserve_amount _ _ _). safe_steps. unfold in_vault.
  apply wp_safe, wp_zoom. unfold reserve. apply wp_bind. eapply wp_mono; [apply vault_post_wp|].
  intros rep [t2 v2] (c & (Hc & Hcc & _) & Hrep & _). cbn [fst snd] in *. wp_steps. cbn [fst snd].
  safe_steps. eapply safe_mono; [apply framed_yield|]. intros [] [t3 w3] (Hv3 & Hs3 & Hn3). cbn [snd] in *.
  destruct Hf1 as (Hv1 & Hs1 & Hn1).
  assert (Hlc : lc_call c = CallReserve agent amount (cx_correlation_id ctx) (cx_model ctx))
    by (by inversion Hcc).
  assert (Hcalls : w_calls (aw_vault w3) = w_calls (aw_vault w) ++ [c])
    by (rewrite Hv3; cbn; by rewrite Hc, Hv1).
  assert (Hs : aw_spawned w3 = aw_spawned w) by (rewrite Hs3; cbn; congruence).
  assert (Hn : aw_sent w3 = aw_sent w) by (rewrite Hn3; cbn; congruence).
  rewrite Hrep, Hv1, <- Hlc.
  destruct (reserve_result amount _) as [rv|e] eqn:Er.
  - safe_steps. split_and!; [done..|]. right. exists agent, amount, c. split_and!; [done..|].
    rewrite Er. by eexists.
  - safe_steps. eapply safe_mono; [apply framed_log_refusal|]. intros [] [t4 w4] (Hv4 & Hs4 & Hn4).
    safe_steps. cbn [snd] in *. split_and!; [congruence..|]. right. exists agent, amount, c.
    split_and!; [congruence|done|]. rewrite Er. by eexists.
Qed.

Lemma chat_completions_safe state request_id headers request t w :
  safe (chat_completions others rfc3339 upstream post vault_others state request_id headers request) (t, w)
    (fun _ st' =>
      let w' := snd st' in
      exists tasks names,
        aw_spawned w' = aw_spawned w ++ tasks /\ aw_sent w' = aw_sent w ++ names /\
        match st_vault state with
        | None => aw_vault w' = aw_vault w /\ Forall (fun task => task_reservation task = None) tasks
        | Some vc =>
            (w_calls (aw_vault w') = w_calls (aw_vault w) /\ tasks = [] /\ names = []) \/
            exists agent amount c,
              w_calls (aw_vault w') = w_calls (aw_vault w) ++ [c] /\
              lc_call c = CallReserve agent amount request_id (model request) /\
              match reserve_result amount (snd (post (length (w_calls (aw_vault w))) (lc_call c))) with
              | Err _ => tasks = [] /\ names = []
              | Ok rv => exists task, tasks = [task] /\ task_reservation task = Some (rv_id rv)
              end
        end).
Proof.
  unfold chat_completions. safe_steps. eapply safe_mono; [apply resolve_candidates_safe|].
  intros r [t1 w1] [(Hv1 & Hs1 & Hn1) Hok]. cbn [snd] in *. destruct r as [resolved|resp].
  - destruct Hok as (Hne & _). destruct (st_vault state) as [vc|] eqn:Ev.
    + safe_steps. eapply safe_mono; [by apply reserve_funds_safe|].
      intros b [t2 w2] (Hs2 & Hn2 & Hcalls). cbn [snd] in *. rewrite Hv1 in Hcalls.
      assert (Hstop : forall resp : Response, b = Err resp -> aw_spawned w2 = aw_spawned w ++ [] /\
        aw_sent w2 = aw_sent w ++ []) by (intros; rewrite !app_nil_r; split; congruence).
      destruct b as [[ctx' request']|resp].
      * destruct Hcalls as [(_ & resp & ?)|(agent & amount & c & Hc & Hlc & Hb)]; [done|].
        destruct (reserve_result amount _) as [rv|] eqn:Er; [|by destruct Hb].
        destruct Hb as (req & [= -> ->]).
        eapply safe_mono; [apply route_safe; [done|done]|].
        intros resp [t3 w3] (names & tasks & (Hv3 & Hs3 & Hn3) & Hbill). cbn [snd] in *.
        exists tasks, names. split_and!; [congruence..|]. right. exists agent, amount, c.
        split_and!; [congruence|done|]. rewrite Er. unfold billed in Hbill. rewrite Ev in Hbill. exact Hbill.
      * safe_steps. destruct (Hstop resp eq_refl) as [Hs Hn].
        exists [], []. split_and!; [done..|].
        destruct Hcalls as [(Hc & _)|(agent & amount & c & Hc & Hlc & Hb)]; [by left|].
        right. exists agent, amount, c. split_and!; [done..|].
        destruct (reserve_result amount _); [by destruct Hb|done].
    + eapply safe_mono; [apply route_safe; [done|by rewrite Ev]|].
      intros resp [t3 w3] (names & tasks & (Hv3 & Hs3 & Hn3) & Hbill). cbn [snd] in *.
      exists tasks, names. split_and!; [congruence..|].
      unfold billed in Hbill. rewrite Ev in Hbill. exact Hbill.
  - safe_steps. exists [], []. rewrite !app_nil_r. split_and!; [done..|].
    destruct (st_vault state); [left; split_and!; [cbn [snd]; congruence|done..]|by split].
Qed.

(** C1: the billing contract of a chat completion request, whatever the providers, the
    vault and the other tasks do.  The handler never panics.  With a vault, a provider is
    called only after the vault accepted a reservation for this request, and then exactly
    one task takes over that reservation, to settle it, release it or end its stream; a
    refused or impossible reservation reaches no provider and leaves no task.  Without a
    vault nothing is billed. *)
Theorem billing_contract state request_id headers request (t : Instant) w :
  safe (chat_completions others rfc3339 upstream post vault_others state request_id headers request) (t, w)
    (fun _ st' =>
      let w' := snd st' in
      exists tasks names,
        aw_spawned w' = aw_spawned w ++ tasks /\ aw_sent w' = aw_sent w ++ names /\
        match st_vault state with
        | None => aw_vault w' = aw_vault w /\ Forall (fun task => task_reservation task = None) tasks
        | Some vc =>
            (w_calls (aw_vault w') = w_calls (aw_vault w) /\ tasks = [] /\ names = []) \/
            exists agent amount c,
              w_calls (aw_vault w') = w_calls (aw_vault w) ++ [c] /\
              lc_call c = CallReserve agent amount request_id (model request) /\
              match reserve_result amount (snd (post (length (w_calls (aw_vault w))) (lc_call c))) with
              | Err _ => tasks = [] /\ names = []
              | Ok rv => exists task, tasks = [task] /\ task_reservation task = Some (rv_id rv)
              end
        end).
Proof. apply chat_completions_safe. Qed.

(** C23: candidate resolution.  It never panics, and touches neither billing nor providers;
    what it offers is a non-empty selection of the router's candidates at the tier it
    reports, which is not below the requested one, with a provider on probe first; what it
    refuses is a client or server error. *)
Theorem resolve_candidates_contract state ctx prompt ms ov (t : Instant) w :
  safe (resolve_candidates others rfc3339 state ctx prompt ms ov) (t, w) (fun r st' =>
    frame w (snd st') /\ resolved_ok state ctx prompt (snd (initial_tier state ms ov)) r).
Proof. apply resolve_candidates_safe. Qed.

(** ** What a non-streaming request pays *)

Definition settle_tasks state ctx msats md : list Task :=
  match st_vault state, cx_reservation_id ctx with
  | Some _, Some rid => [TaskSettle rid msats md]
  | _, _ => []
  end.

Definition release_tasks state ctx reason : list Task :=
  match st_vault state, cx_reservation_id ctx with
  | Some _, Some rid => [TaskRelease rid reason]
  | _, _ => []
  end.

Lemma spawn_release_tasks state ctx reason t w :
  safe (spawn_release state ctx reason) (t, w) (fun _ st' => adds (release_tasks state ctx reason) [] w (snd st')).
Proof.
  unfold spawn_release, release_tasks. destruct (st_vault state), (cx_reservation_id ctx);
    try (safe_steps; by apply frame_is_adds). apply spawn_safe.
Qed.

Lemma spawn_settle_tasks state ctx msats md t w :
  safe (spawn_settle state ctx msats md) (t, w) (fun _ st' => adds (settle_tasks state ctx msats md) [] w (snd st')).
Proof.
  unfold spawn_settle, settle_tasks. destruct (st_vault state), (cx_reservation_id ctx);
    try (safe_steps; by apply frame_is_adds). apply spawn_safe.
Qed.

Lemma safe_tasks_bind {B} (m : Timed AppWorld unit) (b : B) tasks t w w0 names (P : B -> list Task -> Prop) :
  (forall t w, safe m (t, w) (fun _ st' => adds tasks [] w (snd st'))) -> adds [] names w0 w -> P b tasks ->
  safe (let! _ := m in t_ret b) (t, w) (fun b st' => exists tasks, adds tasks names w0 (snd st') /\ P b tasks).
Proof.
  intros Hm Ha HP. apply safe_bind. eapply safe_mono; [apply Hm|]. intros [] [t1 w1] Ht. safe_steps.
  exists tasks. split; [|exact HP]. pose proof (adds_app _ _ _ _ _ _ _ Ha Ht) as Haa.
  by rewrite app_nil_r in Haa.
Qed.

Lemma attach_complexity_status s tr r : resp_status (attach_complexity_headers s tr r) = resp_status r.
Proof. unfold attach_complexity_headers, insert_if_valid. destruct s; simpl; repeat case_match; done. Qed.

Lemma attach_retries_status h r : resp_status (attach_retries_header h r) = resp_status r.
Proof. unfold attach_retries_header, insert_if_valid. destruct h; simpl; repeat case_match; done. Qed.

Lemma attach_body rid l p c s r : resp_body (attach_arbstr_headers rid l p c s r) = resp_body r.
Proof. unfold attach_arbstr_headers, insert_if_valid. destruct s, p, c; simpl; repeat case_match; done. Qed.

Lemma attach_complexity_body s tr r : resp_body (attach_complexity_headers s tr r) = resp_body r.
Proof. unfold attach_complexity_headers, insert_if_valid. destruct s; simpl; repeat case_match; done. Qed.

Lemma attach_retries_body h r : resp_body (attach_retries_header h r) = resp_body r.
Proof. unfold attach_retries_header, insert_if_valid. destruct h; simpl; repeat case_match; done. Qed.

(** The price of an answer at the rates of its provider, in thousandths of a sat, rounded down:
    nothing without usage. *)
Definition price_msats (provider : SelectedProvider) (answer : Value) : Z :=
  match extract_usage answer with
  | Some (input, output) =>
      f64_to_u64 (f64_mul (actual_cost_sats input output (sp_input_rate provider) (sp_output_rate provider)
                             (sp_base_fee provider)) (f64_of_Z 1000))
  | None => 0
  end.

Lemma cost_msats_price provider answer :
  cost_msats (usage_cost provider (extract_usage answer)) = price_msats provider answer.
Proof. unfold price_msats. by destruct (extract_usage answer) as [[i o]|]. Qed.

(** The ending of a request that called the providers [names], and the task that bills it: the
    answer of the last call, given to the client with a 200 and settled at its price and
    with its token counts, or an error and a release of the whole reservation. *)
Definition paid state ctx request (candidates : list SelectedProvider) (names : list string) (resp : Response)
    (tasks : list Task) : Prop :=
  (exists provider reply answer body latency_ms,
     In provider candidates /\ hd_error (rev names) = Some (sp_name provider) /\
     snd (upstream (pred (length names)) (upstream_request request provider (cx_correlation_id ctx) false)) = Ok reply /\
     is_success (up_status reply) = true /\ up_json reply = Ok answer /\
     resp_status resp = 200 /\ resp_body resp = JsonBody body /\
     json_to_string (default answer (v_insert_str "arbstr_provider" (sp_name provider) answer)) = Ok body /\
     tasks = settle_tasks state ctx (price_msats provider answer) {|
       tokens_in := option_map fst (extract_usage answer); tokens_out := option_map snd (extract_usage answer);
       sm_provider := sp_name provider; sm_latency_ms := latency_ms |}) \/
  (exists reason, 400 <= resp_status resp < 600 /\ tasks = release_tasks state ctx reason).

(** C4: a non-streaming request pays for what it got.  When the client gets a provider's
    answer, it is the answer of the last call made, and the settle task carries its price: the
    token counts that answer reports, at the configured rates of the provider that gave it, in
    whole msats, nothing if it reports no usage; with those token counts and that provider's
    name.  When the client gets an error or the timeout, the whole reservation is released. *)
Theorem non_streaming_pays_its_price state ctx request resolved (t : Instant) w :
  rc_candidates resolved <> [] ->
  safe (handle_non_streaming_path others rfc3339 upstream state ctx request resolved) (t, w)
    (fun resp st' => exists names tasks, adds tasks names w (snd st') /\
       paid state ctx request (rc_candidates resolved) names resp tasks).
Proof.
  intros Hne. unfold handle_non_streaming_path, finish_non_streaming. apply safe_bind.
  eapply safe_mono; [by apply safe_guarded, (retry_safe state)|].
  intros [tr atts] [t1 w1] (names & Ha1 & _ & Hout). cbn [fst snd] in *.
  apply (safe_mono _ _ (fun resp st' => exists tasks, adds tasks names w (snd st') /\
    paid state ctx request (rc_candidates resolved) names resp tasks)).
  2: { intros resp st' (tasks & ? & ?). by exists names, tasks. }
  eapply safe_framed_bind; [apply framed_yield|exact Ha1|]. intros [] t2 w2 Ha2.
  eapply safe_framed_bind; [apply framed_elapsed|exact Ha2|]. intros l t3 w3 Ha3.
  eapply safe_framed_bind; [apply framed_record_attempts|exact Ha3|]. intros [] t4 w4 Ha4.
  eapply safe_framed_bind; [apply framed_record_retry|exact Ha4|]. intros [] t5 w5 Ha5.
  destruct tr as [[o|e]|]; [unfold respond_success|unfold respond_error|unfold respond_timeout];
    cbv zeta.
  - eapply safe_framed_bind; [apply framed_log_success|exact Ha5|]. intros [] t6 w6 Ha6.
    eapply safe_tasks_bind; [intros; apply spawn_settle_tasks|exact Ha6|]. left.
    destruct (Hout o eq_refl) as (provider & answer & [Hin Hlast (reply & Hr & Hs & Hj) Hst (body & Hb & Hbj) Hn [Hti Hto] Hc]).
    exists provider, reply, answer, body, l.
    rewrite attach_retries_status, attach_complexity_status, attach_status, attach_retries_body, attach_complexity_body,
      attach_body, Hn, Hti, Hto, Hc, cost_msats_price. by split_and!.
  - eapply safe_framed_bind; [apply framed_log_error|exact Ha5|]. intros [] t6 w6 Ha6.
    eapply safe_tasks_bind; [intros; apply spawn_release_tasks|exact Ha6|]. right. eexists.
    rewrite attach_retries_status, attach_status. split; [apply Error_status_range|reflexivity].
  - eapply safe_framed_bind; [apply framed_log_error|exact Ha5|]. intros [] t6 w6 Ha6.
    eapply safe_tasks_bind; [intros; apply spawn_release_tasks|exact Ha6|]. right. eexists.
    rewrite attach_retries_status, attach_status. split; [simpl; lia|reflexivity].
Qed.

End Billing.

(** ** Witnesses *)

Section BillingWitnesses.
#[local] Existing Instance AsciiCase.
#[local] Existing Instance VersionedWatch.
#[local] Existing Instance InsertionOrder.
#[local] Instance json_bill : SerdeJson := ToyJson [].
#[local] Instance deps_bill : ScorerDeps := {| find_iter := fun _ _ => []; f64_exp := fun _ => f64_one |}.
#[local] Instance http_bill : HttpDeps := {| header_valid := fun _ => true |}.
#[local] Instance serde_bill : VaultSerde.
Proof.
  refine {| settle_response_from_value := fun _ => Ok {| settled := true; refunded_msats := None |};
            metadata_to_string := fun _ => None; metadata_from_str := fun _ => Err "none" |}; discriminate.
Defined.

Definition alone (n : nat) : Interference := {| if_registry := []; if_writer := []; if_wait := fun _ => (0, []) |}.
Definition clock (t : Instant) : string := "2026-01-01T00:00:00Z".

Definition config_ex : Config := {|
  server := {| listen := default_listen; rate_limit_rps := None; auth_token := None |};
  database := None; vault := None; providers := [provider_ex "alpha" ["gpt-4o"] 20 0 Frontier];
  policies := {| default_strategy := "cheapest"; rules := [] |};
  logging := LoggingConfig_default; routing := RoutingConfig_default |}.

Definition state_ex (vc : option VaultClient) : AppState := {|
  st_router := Router_new (providers config_ex) [] "cheapest"; st_config := config_ex;
  st_db_writer := true; st_vault := vc |}.

Definition request_ex : ChatCompletionRequest := {|
  model := "gpt-4o"; messages := [msg_ex "hi"]; temperature := None; max_tokens := None;
  stream := None; stream_options := None; top_p := None; frequency_penalty := None;
  presence_penalty := None; stop := None; user := None; extra := [] |}.

(** The provider reports 100 prompt and 50 completion tokens, after 200 ms. *)
Definition reply_ex : UpstreamReply := {|
  up_status := 200; up_status_text := "200 OK";
  up_json := Ok (TObj [("usage", TObj [("prompt_tokens", TNum 100); ("completion_tokens", TNum 50)])]);
  up_text := None; up_stream := [] |}.
Definition upstream_ex (n : nat) (r : UpstreamRequest) : Duration * result UpstreamReply string :=
  (millis 200, Ok reply_ex).

(** The vault grants the reservation [rsv-1]. *)
Definition post_reserve (n : nat) (c : VaultCall) : Duration * result VaultReply SendError :=
  (millis 5, Ok {| vr_status := 200; vr_json := Ok (TObj [("reservation_id", TStr "rsv-1")]);
                   vr_text := None |}).

Definition world_ex (reg : Registry) : AppWorld :=
  mkApp reg (DbWriter_new RequestsTable_new) World_new [] [] [] 0.

Definition context_ex : RequestContext := {|
  cx_correlation_id := "req-1"; cx_model := "gpt-4o"; cx_policy_name := None; cx_is_streaming := false;
  cx_start := 0; cx_reservation_id := Some "rsv-1" |}.

Definition resolved_ex : ResolvedCandidates := {|
  rc_candidates := [SelectedProvider_from (provider_ex "alpha" ["gpt-4o"] 20 0 Frontier)];
  rc_probe_provider := None; rc_complexity_score := None; rc_tier := Frontier |}.

Lemma non_streaming_pays_its_price_witness :
  rc_candidates resolved_ex <> [] /\
  safe (handle_non_streaming_path alone clock upstream_ex (state_ex (Some client_ex)) context_ex
          request_ex resolved_ex) (0, world_ex (Registry_new ["alpha"]))
    (fun resp st' => exists names tasks,
       adds tasks names (world_ex (Registry_new ["alpha"])) (snd st') /\
       paid upstream_ex (state_ex (Some client_ex)) context_ex request_ex (rc_candidates resolved_ex) names resp tasks).
Proof.
  assert (Hne : rc_candidates resolved_ex <> []) by discriminate.
  split; [exact Hne|]. apply (non_streaming_pays_its_price _ _ _ _ _ _ _ _ _ Hne).
Defined.

Definition headers_ex (auth : option string) : RequestHeaders :=
  {| h_policy := None; h_complexity := None; h_authorization := auth |}.

Definition run_ex (auth : option string) (t : Instant) (w : AppWorld) : exit Response * (Instant * AppWorld) :=
  chat_completions alone clock upstream_ex post_reserve no_others (state_ex (Some client_ex)) "req-1"
    (headers_ex auth) request_ex None (t, w).

(** A billed request end to end: 100 tokens at 1 sat and 50 at 20 sats per thousand, no base
    fee, are 1.1 sats, so 1100 msats are settled. *)
Example billed_request :
  match run_ex (Some "Bearer agent") 0 (world_ex (Registry_new ["alpha"])) with
  | (Done resp, (t, w)) =>
      (resp_status resp, t,
       map (fun c => match lc_call c with CallReserve _ amount _ _ => amount | _ => 0 end) (w_calls (aw_vault w)),
       map (fun task => match task with TaskSettle rid m _ => (rid, m) | _ => ("", 0) end) (aw_spawned w),
       aw_sent w)
  | _ => (0, 0, [], [], [])
  end = (200, millis 205, [81921], [("rsv-1", 1100)], ["alpha"]).
Proof. vm_compute. reflexivity. Qed.

(** The provider's breaker tripped 30 s ago: the next request probes it. *)
Definition recovering : Registry :=
  reg_run [(0, RFailure "alpha" "5xx" "HTTP 500"); (0, RFailure "alpha" "5xx" "HTTP 500");
           (0, RFailure "alpha" "5xx" "HTTP 500")] (Registry_new ["alpha"]).

End BillingWitnesses.
