(* ===== verification/Liveness.v ===== *)
(** * Every request is answered

    A request can only wait forever for a circuit breaker permit, and only for a breaker
    that is half-open with a probe in flight.  When whoever holds a probe resolves it in time,
    or when none is in flight and nobody else takes one, every chat completion request is
    answered within the timeouts of the HTTP calls it makes, whatever the other tasks do
    besides; and, unless two breakers are due for a probe at the same time, a request without
    billing leaves no probe behind. *)

From S2P Require Import Prelude Machine RustStr Timed Config Errors Types Router Complexity.
From S2P Require Import CircuitBreaker Retry Storage Vault Http Handlers Billing.

(** [Client::builder().timeout(..)]: the total time of a call of a provider. *)
Definition CLIENT_TIMEOUT : Duration := secs 120.

Section Breakers.
Context `{Watch}.
Implicit Types (reg : Registry) (name : string).

(** A permit for such a breaker is waited for. *)
Definition blocked (cb : CircuitBreakerInner) : Prop := state cb = HalfOpen /\ probe_in_flight cb = true.

Definition breaker_is (Q : CircuitBreakerInner -> Prop) reg name : Prop :=
  exists cb, reg !! name = Some cb /\ Q (inner cb).

(** The blocked breakers are among [probe]. *)
Definition only_blocked (probe : option string) reg : Prop :=
  forall name, breaker_is blocked reg name -> probe = Some name.
Definition calm reg : Prop := only_blocked None reg.

(** A check at [t] grants the probe of such a breaker. *)
Definition due (t : Instant) (cb : CircuitBreakerInner) : Prop := fst (check_state t cb) = ProbePermit.

(** At most one of these names. *)
Definition at_most_one (names : string -> Prop) : Prop := forall n1 n2, names n1 -> names n2 -> n1 = n2.
Definition one_due (t : Instant) reg : Prop := at_most_one (breaker_is (due t) reg).

(** Only the watch channels may differ. *)
Definition same_inner reg reg' name : Prop := inner <$> reg' !! name = inner <$> reg !! name.

Lemma breaker_is_same Q reg reg' name :
  same_inner reg reg' name -> breaker_is Q reg' name -> breaker_is Q reg name.
Proof.
  unfold same_inner. intros Heq (cb & Hl & HQ). rewrite Hl in Heq.
  destruct (reg !! name) as [cb0|] eqn:E; simplify_eq/=. exists cb0. split; [done|]. congruence.
Qed.

Lemma same_inner_sym reg reg' name : same_inner reg reg' name -> same_inner reg' reg name.
Proof. by unfold same_inner. Qed.

Definition not_acquire (op : reg_op) : Prop := match op with RAcquire _ => False | _ => True end.

(** Recording an outcome blocks no breaker. *)
Lemma record_keeps_unblocked now op reg name :
  not_acquire op -> breaker_is blocked (reg_exec now op reg) name -> breaker_is blocked reg name.
Proof.
  assert (Hf : forall e m cb, blocked (record_failure_inner now e m cb) -> blocked cb).
  { intros e m cb. unfold blocked, record_failure_inner. destruct (_ <=? _)%Z; simpl; [by intros []|done]. }
  intros Hop (cb' & Hl & Hb). destruct op as [n|n|n e m|n|n e m]; [done|..]; cbn [reg_exec] in Hl;
    unfold record_success, record_failure, record_probe_success, record_probe_failure in Hl;
    apply lookup_alter_Some in Hl as [(-> & cb & Hl & ->)|[_ Hl]]; try (by exists cb').
  - exists cb. split; [done|exact Hb].
  - exists cb. split; [done|]. exact (Hf e m (inner cb) Hb).
  - by destruct Hb.
  - by destruct Hb.
Qed.

(** Nor does it make a breaker due, from then on: what trips waits for its window. *)
Lemma record_keeps_due t now op reg name :
  not_acquire op -> t <= now -> breaker_is (due t) (reg_exec now op reg) name -> breaker_is (due t) reg name.
Proof.
  assert (Hclosed : forall cb, state cb = Closed -> ~ due t cb) by (intros cb Hs; unfold due, check_state; by rewrite Hs).
  assert (Hopen : forall cb, state cb = Open -> opened_at cb = Some now -> t <= now -> ~ due t cb).
  { intros cb Hs Ho Ht. unfold due. rewrite (check_open_before cb now t); [done|by split|].
    unfold OPEN_DURATION, secs. lia. }
  assert (Hsame : forall cb cb', state cb' = state cb -> opened_at cb' = opened_at cb ->
    probe_in_flight cb' = probe_in_flight cb -> due t cb' -> due t cb).
  { intros cb cb' Hs Ho Hp. unfold due, check_state, try_acquire_probe. rewrite Hs, Ho, Hp. cbn.
    destruct (state cb), (opened_at cb), (probe_in_flight cb); cbn; try case_match; done. }
  intros Hop Ht (cb' & Hl & Hd). destruct op as [n|n|n e m|n|n e m]; [done|..]; cbn [reg_exec] in Hl;
    unfold record_success, record_failure, record_probe_success, record_probe_failure in Hl;
    apply lookup_alter_Some in Hl as [(-> & cb & Hl & ->)|[_ Hl]]; try (by exists cb'); cbn in Hd.
  - exists cb. split; [done|]. by eapply Hsame, Hd.
  - exists cb. split; [done|]. unfold record_failure_inner in Hd.
    destruct (_ <=? _)%Z; [by apply Hopen in Hd|by eapply Hsame, Hd].
  - by apply Hclosed in Hd.
  - by apply Hopen in Hd.
Qed.

(** A resolved probe is not in flight. *)
Lemma resolved_unblocked now op reg name : resolves name op -> ~ breaker_is blocked (reg_exec now op reg) name.
Proof.
  intros Hop (cb' & Hl & Hb). destruct op as [n|n|n e m|n|n e m]; try done; cbn [resolves] in Hop; subst n;
    cbn [reg_exec] in Hl; unfold record_probe_success, record_probe_failure in Hl;
    apply lookup_alter_Some in Hl as [(_ & cb & _ & ->)|[Hne _]]; [by destruct Hb|done|by destruct Hb|done].
Qed.

Lemma resolves_records name op : resolves name op -> not_acquire op.
Proof. by destruct op. Qed.

Lemma calm_new names : calm (Registry_new names).
Proof.
  intros n (cb & Hl & Hb). rewrite Registry_new_lookup in Hl. destruct (decide _); simplify_eq/=.
  by destruct Hb.
Qed.

(** What one acquisition does to the breakers: only a probe permit blocks its breaker, which
    was due then; no breaker becomes due. *)
Definition acquired (t : Instant) name reg (r : result PermitType CircuitOpenError) reg' : Prop :=
  (forall n, breaker_is blocked reg' n -> (n = name /\ r = Ok Probe) \/ breaker_is blocked reg n) /\
  (forall n, breaker_is (due t) reg' n -> breaker_is (due t) reg n) /\
  (r = Ok Probe -> breaker_is (due t) reg name /\ breaker_is blocked reg' name).

Lemma acquired_refl t name reg r : r <> Ok Probe -> acquired t name reg r reg.
Proof. intros Hr. split_and!; auto. done. Qed.

Lemma check_state_cases t cb :
  let '(r, cb') := check_state t cb in
  match r with
  | ProbePermit => due t cb /\ blocked cb' /\ ~ due t cb'
  | WaitForProbe => blocked cb /\ cb' = cb
  | Allowed | Rejected => ~ blocked cb /\ cb' = cb
  end.
Proof.
  destruct (check_state t cb) as [r cb'] eqn:Ec. assert (Hd : due t cb <-> r = ProbePermit) by (unfold due; by rewrite Ec).
  revert Ec Hd. unfold due, check_state, try_acquire_probe, blocked.
  destruct (state cb) eqn:Es; [|destruct (opened_at cb); [destruct (_ <=? _)%Z|]|destruct (probe_in_flight cb) eqn:Ep];
    cbn; intros [= <- <-]; cbn; intros Hd; rewrite ?Es, ?Ep; cbn; intuition congruence.
Qed.

(** It is decided at once, or it is a wait for a breaker that is blocked. *)
Lemma acquire_start_cases t name reg :
  match acquire_start t name reg with
  | (Resolved r, reg') => acquired t name reg r reg' /\ ~ breaker_is blocked reg name
  | (Waiting rx reason trips, reg') =>
      breaker_is blocked reg name /\ forall Q n, breaker_is Q reg' n <-> breaker_is Q reg n
  end.
Proof.
  unfold acquire_start. destruct (reg !! name) as [cb|] eqn:E.
  2: { split; [by apply acquired_refl|]. intros (cb & Hl & _). congruence. }
  pose proof (check_state_cases t (inner cb)) as Hc. destruct (w_subscribe (probe_watch cb)) as [rx w'].
  destruct (check_state t (inner cb)) as [r i'].
  assert (Hl : forall Q n, breaker_is Q (<[name := mkBreaker i' w']> reg) n <->
    (n = name /\ Q i') \/ (n <> name /\ breaker_is Q reg n)).
  { intros Q n. unfold breaker_is. destruct (decide (n = name)) as [->|Hne].
    - rewrite lookup_insert_eq. split; [intros (c & [= <-] & Hq); by left|]. intros [[_ Hq]|[Hne _]]; [by eexists|done].
    - rewrite lookup_insert_ne by done. split; [intros Hq; by right|]. by intros [[? _]|[_ Hq]]. }
  assert (Hcb : forall Q, breaker_is Q reg name <-> Q (inner cb)).
  { intros Q. split; [intros (c & Hc' & Hq); simplify_eq; congruence|]. intros Hq. by exists cb. }
  assert (Hsame : i' = inner cb -> forall Q n, breaker_is Q (<[name := mkBreaker i' w']> reg) n <-> breaker_is Q reg n).
  { intros -> Q n. rewrite Hl. destruct (decide (n = name)) as [->|Hne]; [rewrite Hcb|]; intuition. }
  destruct r.
  - destruct Hc as [Hnb Hi]. rewrite Hcb. split; [|done].
    split_and!; [intros n Hn; right; by apply (Hsame Hi)|intros n; by apply (Hsame Hi)|done].
  - destruct Hc as (Hd & Hb & Hnd). rewrite Hcb. split.
    + split_and!.
      * intros n [[-> _]|[_ Hn]]%Hl; [by left|by right].
      * intros n [[-> Hn]|[_ Hn]]%Hl; [done|done].
      * intros _. split; [by apply Hcb|]. apply Hl. by left.
    + intros Hb'. revert Hd. unfold due. destruct Hb' as [Hs Hp]. by rewrite (check_half_open_busy _ _ Hs Hp).
  - destruct Hc as [Hb Hi]. rewrite Hcb. split; [done|]. by apply Hsame.
  - destruct Hc as [Hnb Hi]. rewrite Hcb. split; [|done].
    split_and!; [intros n Hn; right; by apply (Hsame Hi)|intros n; by apply (Hsame Hi)|done].
Qed.

End Breakers.

(** ** What a ledger of blocked breakers must survive

    [P probe w] says which probes may still be in flight; [probe] is the one the request
    has a guard for.  The programs below are proved once for every such [P]. *)
Class Ledger `{Watch} (others : nat -> Interference)
    (P : option string -> AppWorld -> Prop) := {
  ledger_record : forall p now op w, not_acquire op -> P p w ->
    P p (with_registry w (reg_exec now op (aw_registry w)));
  ledger_others : forall n p w, P p w -> P p (interfere (others n) w);
  ledger_resolve : forall name now op w, resolves name op -> P (Some name) w ->
    P None (with_registry w (reg_exec now op (aw_registry w)));
  ledger_frame : forall p w w', aw_registry w' = aw_registry w -> aw_accesses w' = aw_accesses w ->
    P p w -> P p w';
}.

(** Nothing is claimed of the registry: any other tasks will do. *)
#[export] Instance ledger_any `{Watch} others : Ledger others (fun _ _ => True).
Proof. by split. Qed.

(** The other tasks only record outcomes; all they do happens after [t]; they resolve the
    probe a request waits for within [D]. *)
Definition only_record (i : Interference) : Prop := Forall (fun op => not_acquire (snd op)) (if_registry i).
Definition dated (t : Instant) (i : Interference) : Prop := Forall (fun op => t <= fst op) (if_registry i).
Definition probes_end (D : Duration) (i : Interference) : Prop := forall name,
  fst (if_wait i name) <= D /\ Exists (fun op => resolves name (snd op)) (snd (if_wait i name)).

Lemma others_keep_unblocked `{Watch} i reg name :
  only_record i -> breaker_is blocked (reg_run (if_registry i) reg) name -> breaker_is blocked reg name.
Proof.
  unfold only_record, reg_run. intros Hi. revert reg. induction Hi as [|op ops Hop _ IH]; intros reg Hn; [done|].
  cbn [fold_left] in Hn. eapply record_keeps_unblocked; [exact Hop|]. by apply IH.
Qed.

(** The blocked breakers, when the other tasks only record outcomes. *)
Definition blocked_ledger `{Watch} (p : option string) (w : AppWorld) : Prop := only_blocked p (aw_registry w).

Lemma ledger_blocked `{Watch} others : (forall n, only_record (others n)) -> Ledger others blocked_ledger.
Proof.
  intros Ho. assert (Hrec : forall p now op reg, not_acquire op -> only_blocked p reg ->
    only_blocked p (reg_exec now op reg)).
  { intros p now op reg Hop Hb n Hn. apply Hb. by eapply record_keeps_unblocked. }
  split.
  - intros p now op w. apply Hrec.
  - intros k p w Hb n Hn. apply Hb. eapply others_keep_unblocked; [apply Ho|exact Hn].
  - intros name now op w Hop Hb n Hn. exfalso.
    pose proof (record_keeps_unblocked now op _ n (resolves_records _ _ Hop) Hn) as Hn'.
    pose proof (Hb n Hn') as [= <-]. exact (resolved_unblocked _ _ _ _ Hop Hn).
  - intros p w w' Hw _ Hb. unfold blocked_ledger. by rewrite Hw.
Qed.

(** So they leave a calm registry calm. *)
Lemma calm_others `{Watch} i reg : only_record i -> calm reg -> calm (reg_run (if_registry i) reg).
Proof.
  intros Hi Hc n Hn. apply Hc. by eapply others_keep_unblocked.
Qed.

Section Liveness.
Context `{Watch} `{HttpDeps} `{ScorerDeps} `{UnicodeCase} `{SerdeJson} `{!VaultSerde} `{SqlOrder}.
Context (others : nat -> Interference) (rfc3339 : Instant -> string).
Context (upstream : nat -> UpstreamRequest -> Duration * result UpstreamReply string).
Context (post : nat -> VaultCall -> Duration * result VaultReply SendError).
Context (vault_others : nat -> list PendingSettlement).
Implicit Types (w : AppWorld) (state : AppState) (ctx : RequestContext).

Section WithLedger.
Context (P : option string -> AppWorld -> Prop) `{!Ledger others P}.

(** A program that takes no time and keeps the ledger. *)
Definition quick_to {A} (p q : option string) (m : Timed AppWorld A) : Prop :=
  forall dl t w, P p w -> wpd dl m (t, w) (fun _ st' => fst st' = t /\ P q (snd st')).
#[local] Notation quick p m := (quick_to p p m).

Lemma quick_bind {A B} p q r (m : Timed AppWorld A) (k : A -> Timed AppWorld B) :
  quick_to p q m -> (forall a, quick_to q r (k a)) -> quick_to p r (t_bind m k).
Proof.
  intros Hm Hk dl t w Hp. apply wp_bind. eapply wp_mono; [by apply Hm|]. intros a [t1 w1] [Ht Hq].
  cbn [fst snd] in *. subst t1. by apply Hk.
Qed.

Lemma quick_ret {A} p (a : A) : quick p (t_ret a).
Proof. intros dl t w Hp. by apply wp_ret. Qed.

Lemma quick_modify p f :
  (forall w, aw_registry (f w) = aw_registry w /\ aw_accesses (f w) = aw_accesses w) -> quick p (t_modify f).
Proof. intros Hf dl t w Hp. apply wp_modify. cbn. split; [done|]. destruct (Hf w). by eapply ledger_frame. Qed.

Lemma quick_now p : quick p t_now.
Proof. intros dl t w Hp. by apply wp_now. Qed.

Lemma quick_yield p : quick p (yield_now others).
Proof. intros dl t w Hp. unfold yield_now. apply wp_modify. cbn. split; [done|]. by apply ledger_others. Qed.

(** Recording an outcome; [op] is the method as an operation of the registry. *)
Lemma quick_record p (f : Instant -> Registry -> Registry)
    (op : Instant -> reg_op) :
  (forall now reg, f now reg = reg_exec now (op now) reg) -> (forall now, not_acquire (op now)) ->
  quick p (on_registry others f).
Proof.
  intros Hf Hop. unfold on_registry. apply quick_bind with p; [apply quick_yield|intros _].
  intros dl t w Hp. wp_steps. cbn. rewrite Hf. split; [done|]. by apply ledger_record.
Qed.

Lemma quick_success p name : quick p (on_registry others (fun now => record_success now name)).
Proof. by apply (quick_record p _ (fun _ => RSuccess name)). Qed.

Lemma quick_failure p name e m : quick p (on_registry others (fun now => record_failure now name e m)).
Proof. by apply (quick_record p _ (fun _ => RFailure name e m)). Qed.

(** Resolving the guard settles the ledger. *)
Lemma guard_resolves name (f : Instant -> Registry -> Registry) :
  (forall now reg, f now reg = record_probe_success now name reg \/
                   exists e m, f now reg = record_probe_failure now name e m reg) ->
  quick_to (Some name) None (on_registry others f).
Proof.
  intros Hf. unfold on_registry. apply quick_bind with (Some name); [apply quick_yield|intros _].
  intros dl t w Hp. wp_steps. cbn. split; [done|].
  destruct (Hf t (aw_registry w)) as [->|(e & m & ->)].
  - by apply (ledger_resolve name t (RProbeSuccess name)).
  - by apply (ledger_resolve name t (RProbeFailure name e m)).
Qed.

Lemma quick_elapsed p start : quick p (elapsed_ms start).
Proof. apply quick_bind with p; [apply quick_now|]. intros. apply quick_ret. Qed.

Lemma quick_write_log p state log : quick p (write_log state log).
Proof.
  unfold write_log. destruct (st_db_writer state); [|apply quick_ret].
  apply quick_bind with p; [apply quick_now|]. intros. by apply quick_modify.
Qed.

Lemma quick_release p state ctx reason : quick p (spawn_release state ctx reason).
Proof.
  unfold spawn_release. destruct (st_vault state), (cx_reservation_id ctx); try apply quick_ret.
  by apply quick_modify.
Qed.

Lemma quick_settle p state ctx msats md : quick p (spawn_settle state ctx msats md).
Proof.
  unfold spawn_settle. destruct (st_vault state), (cx_reservation_id ctx); try apply quick_ret.
  by apply quick_modify.
Qed.

Lemma quick_record_attempts p l : quick p (record_attempts others l).
Proof.
  induction l as [|a l IH]; cbn [record_attempts]; [apply quick_ret|].
  apply quick_bind with p; [|done]. destruct (is_circuit_failure _); [apply quick_failure|apply quick_ret].
Qed.

(** What the two paths do once the providers have answered resolves the guard. *)
Lemma quick_record_retry resolved r : quick_to (rc_probe_provider resolved) None (record_retry_outcome others resolved r).
Proof.
  unfold record_retry_outcome. destruct (rc_probe_provider resolved) as [name|].
  - destruct r as [[o|e]|]; [destruct (String.eqb _ _)|..]; try (eapply quick_bind; [apply quick_success|intros _]);
      apply guard_resolves; intros; unfold guard_success, guard_failure, guard_drop; cbn; eauto.
  - destruct r as [[o|e]|]; try apply quick_ret. apply quick_success.
Qed.

Lemma quick_record_streaming resolved r :
  quick_to (rc_probe_provider resolved) None (record_streaming_outcome others resolved r).
Proof.
  unfold record_streaming_outcome, resolve_guard. destruct r as [o|e]; cbv zeta.
  - eapply quick_bind; [apply quick_success|intros _]. destruct (rc_probe_provider resolved); [|apply quick_ret].
    apply guard_resolves. intros. destruct (String.eqb _ _); unfold guard_success, guard_failure, guard_drop; cbn; eauto.
  - eapply quick_bind.
    { instantiate (1 := rc_probe_provider resolved).
      destruct (is_circuit_failure _); [apply quick_failure|apply quick_ret]. }
    intros _. destruct (rc_probe_provider resolved); [|apply quick_ret].
    apply guard_resolves. intros. destruct (is_circuit_failure _); unfold guard_failure, guard_drop; cbn; eauto.
Qed.

(** ** The two paths *)

(** A slow start, then a quick rest. *)
Lemma wp_then_quick {A B} p q d (m : Timed AppWorld A) (k : A -> Timed AppWorld B) t w :
  wp m (t, w) (fun _ st' => fst st' <= t + d /\ P p (snd st')) ->
  (forall a, quick_to p q (k a)) ->
  wp (t_bind m k) (t, w) (fun _ st' => fst st' <= t + d /\ P q (snd st')).
Proof.
  intros Hm Hk. apply wp_bind. eapply wp_mono; [exact Hm|]. intros a [t1 w1] [Ht Hp].
  eapply wp_mono; [by apply Hk|]. intros b [t2 w2] [Heq Hq]. cbn [fst snd] in *. by subst t2.
Qed.

Lemma wp_guarded {A} dl probe (m : Timed AppWorld A) st (Q : A -> Instant * AppWorld -> Prop) :
  wpd dl m st Q -> wpd dl (with_probe_guard others probe m) st Q.
Proof. destruct probe; [apply wp_on_drop|done]. Qed.

Lemma quick_finish_streaming state ctx resolved r :
  quick_to (rc_probe_provider resolved) None (finish_streaming others rfc3339 state ctx resolved r).
Proof.
  unfold finish_streaming. eapply quick_bind; [apply quick_record_streaming|intros _].
  eapply quick_bind; [apply quick_elapsed|intros l].
  destruct r as [o|e]; cbv zeta; (eapply quick_bind; [apply quick_write_log|intros _]); [apply quick_ret|].
  eapply quick_bind; [apply quick_release|intros _]. apply quick_ret.
Qed.

Lemma quick_finish_non_streaming state ctx resolved tr atts :
  quick_to (rc_probe_provider resolved) None (finish_non_streaming others rfc3339 state ctx resolved tr atts).
Proof.
  unfold finish_non_streaming. eapply quick_bind; [apply quick_yield|intros _].
  eapply quick_bind; [apply quick_elapsed|intros l]. eapply quick_bind; [apply quick_record_attempts|intros _].
  eapply quick_bind; [apply quick_record_retry|intros _].
  destruct tr as [[o|e]|]; [unfold respond_success|unfold respond_error|unfold respond_timeout]; cbv zeta;
    (eapply quick_bind; [apply quick_write_log|intros _];
     eapply quick_bind; [apply quick_settle || apply quick_release|intros _]; apply quick_ret).
Qed.

Lemma retry_answered ctx request resolved t w :
  rc_candidates resolved <> [] ->
  wp (retry_under_deadline upstream ctx request resolved) (t, w) (fun _ st' =>
    fst st' <= t + RETRY_TIMEOUT /\ aw_registry (snd st') = aw_registry w /\
    aw_accesses (snd st') = aw_accesses w).
Proof.
  intros Hne. unfold retry_under_deadline. wp_steps. apply wp_zoom. cbn [fst snd].
  set (infos := map _ (rc_candidates resolved)). set (send := send_candidate _ _ _ _).
  destruct (retry_exits send infos t (t + RETRY_TIMEOUT)) as (x & t' & s' & Hrun & Ht & _ & Hx).
  { unfold infos. by destruct (rc_candidates resolved). }
  { unfold RETRY_TIMEOUT, secs. lia. }
  apply wp_bind. unfold wpd. rewrite t_timeout_at_first, Hrun by done.
  destruct x as [[v|e]| | |]; try done; (eexists _, _; split; [reflexivity|]);
    (eexists _, _; split; [reflexivity|]; by split_and!).
Qed.

Lemma non_streaming_answered state ctx request resolved t w :
  rc_candidates resolved <> [] -> P (rc_probe_provider resolved) w ->
  wp (handle_non_streaming_path others rfc3339 upstream state ctx request resolved) (t, w) (fun _ st' =>
    fst st' <= t + RETRY_TIMEOUT /\ P None (snd st')).
Proof.
  intros Hne Hp. unfold handle_non_streaming_path. apply wp_then_quick with (rc_probe_provider resolved).
  { eapply wp_guarded, wp_mono; [by apply retry_answered|]. intros a st' (Ht & Hr & Ha). split; [done|]. by eapply ledger_frame. }
  intros [tr atts]. apply quick_finish_non_streaming.
Qed.

Lemma streaming_answered state ctx request resolved t w :
  (forall n r, fst (upstream n r) <= CLIENT_TIMEOUT) ->
  rc_candidates resolved <> [] -> P (rc_probe_provider resolved) w ->
  wp (handle_streaming_path others rfc3339 upstream state ctx request resolved) (t, w) (fun _ st' =>
    fst st' <= t + CLIENT_TIMEOUT /\ P None (snd st')).
Proof.
  intros Hup Hne Hp. unfold handle_streaming_path, t_index.
  destruct (rc_candidates resolved) as [|c rest]; [done|]. cbn [lookup list_lookup].
  apply wp_bind, wp_ret. apply wp_then_quick with (rc_probe_provider resolved).
  - apply wp_guarded. unfold send_streaming. wp_steps. pose proof (Hup 0%nat (upstream_request request c (cx_correlation_id ctx) true)) as Hd.
    destruct (upstream 0 _) as [d r]. cbn [fst] in Hd. wp_steps.
    eapply wp_mono; [apply (quick_yield (rc_probe_provider resolved)); by apply (ledger_frame _ w)|].
    intros _ [t2 w2] [Ht Hp2]. cbn [fst snd] in *.
    destruct (reply_result c r _); wp_steps; cbn [fst snd]; unfold spawn; wp_steps; cbn;
      (split; [lia|by apply (ledger_frame _ w2)]).
  - apply quick_finish_streaming.
Qed.

End WithLedger.

(** ** Candidates when nobody else takes a probe *)

Section NoWait.
Context (t : Instant) (due0 : string -> Prop).
Hypothesis others_record : forall k, only_record (others k).
Hypothesis others_due : forall k reg, (forall n, breaker_is (due t) reg n -> due0 n) ->
  forall n, breaker_is (due t) (reg_run (if_registry (others k)) reg) n -> due0 n.

(** The breakers after the permits of [probed] were probes. *)
Record granted (probed : list string) (reg : Registry) : Prop := {
  gr_blocked : forall n, breaker_is blocked reg n -> In n probed;
  gr_due : forall n, breaker_is (due t) reg n -> due0 n;
  gr_probed : forall n, In n probed -> due0 n;
}.

Lemma granted_yield probed dl w (Q : unit -> Instant * AppWorld -> Prop) :
  granted probed (aw_registry w) -> (forall w', granted probed (aw_registry w') -> Q tt (t, w')) ->
  wpd dl (yield_now others) (t, w) Q.
Proof.
  intros [Hb Hd Hp] HQ. unfold yield_now. apply wp_modify, HQ. cbn. split; [|by apply others_due|done].
  intros n Hn. apply Hb. eapply others_keep_unblocked; [apply others_record|exact Hn].
Qed.

Lemma acquire_granted name probed dl w :
  granted probed (aw_registry w) -> ~ In name probed ->
  wpd dl (acquire_permit others name) (t, w) (fun r st' => fst st' = t /\
    ((r = Ok Probe /\ granted (name :: probed) (aw_registry (snd st'))) \/
     (r <> Ok Probe /\ granted probed (aw_registry (snd st'))))).
Proof.
  intros Hg Hn. unfold acquire_permit. apply wp_bind, (granted_yield probed); [done|]. clear w Hg. intros w [Hb Hd Hp].
  wp_steps. pose proof (acquire_start_cases t name (aw_registry w)) as Hc.
  destruct (acquire_start t name (aw_registry w)) as [[r|rx reason trips] reg']; wp_steps.
  - destruct Hc as [(Hb' & Hd' & Hr) _]. cbn. split; [done|].
    assert (Hdec : r = Ok Probe \/ r <> Ok Probe).
    { destruct r as [[]|e]. all: try (by left). all: by right. }
    destruct Hdec as [Hr'|Hr']; [left|right]; (split; [done|]); split; [|by auto| | |by auto|done].
    + intros n Hb1. destruct (Hb' n Hb1) as [[-> _]|Hb2]; [by left|right; by apply Hb].
    + intros n [<-|Hin]; [|by apply Hp]. by apply Hd, Hr.
    + intros n Hb1. destruct (Hb' n Hb1) as [[_ ?]|Hb2]; [done|by apply Hb].
  - destruct Hc as [Hc _]. by destruct Hn; apply Hb.
Qed.

Definition filtering (probed : list string) (filtered : list SelectedProvider) (probe : option string)
    (reg : Registry) : Prop :=
  granted probed reg /\ (probed = [] \/ filtered <> [] /\ exists n, probe = Some n /\ In n probed).

Lemma filter_granted cs probed filtered probe dl w :
  List.NoDup (map sp_name cs) -> (forall n, In n probed -> ~ In n (map sp_name cs)) ->
  filtering probed filtered probe (aw_registry w) ->
  wpd dl (filter_candidates others cs filtered probe) (t, w) (fun r st' =>
    fst st' = t /\ exists probed', filtering probed' (fst r) (snd r) (aw_registry (snd st'))).
Proof.
  revert probed filtered probe w.
  induction cs as [|c cs IH]; intros probed filtered probe w Hnd Hdis Hinv; cbn [filter_candidates].
  { wp_steps. split; [done|]. by exists probed. }
  apply NoDup_cons_iff in Hnd as [Hc Hnd]. destruct Hinv as [Hg Hp].
  apply wp_bind. eapply wp_mono; [apply (acquire_granted _ probed); [done|]|].
  { intros Hin. apply (Hdis _ Hin). by left. }
  intros r [t1 w1] (Ht & Hr). cbn [fst snd] in *. subst t1.
  assert (Hdis' : forall n, In n probed -> ~ In n (map sp_name cs))
    by (intros n Hin Hn; apply (Hdis n Hin); by right).
  destruct Hr as [[-> Hg']|[Hr Hg']].
  - apply (IH (sp_name c :: probed)); [done|intros n [<-|Hin]; [done|by apply Hdis']|]. split; [done|].
    right. split; [done|]. exists (sp_name c). split; [done|by left].
  - destruct r as [[]|e]; [|done|]; apply (IH probed); try done. split; [done|].
    destruct Hp as [?|[? ?]]; [by left|right]. split; [by destruct filtered|done].
Qed.

(** Resolution takes no time; a refusal leaves the registry calm, and with at most one
    breaker due the only probe is the one that is reported. *)
Definition resolved_calm (r : result ResolvedCandidates Response) (reg : Registry) : Prop :=
  match r with
  | Ok rc => rc_candidates rc <> [] /\ (at_most_one due0 -> only_blocked (rc_probe_provider rc) reg)
  | Err _ => calm reg
  end.

Lemma filtering_done probed c rest probe reg :
  filtering probed (c :: rest) probe reg -> at_most_one due0 -> only_blocked probe reg.
Proof.
  intros [[Hb _ Hp] Hprobe] Hone n Hn. apply Hb in Hn.
  destruct Hprobe as [->|(_ & m & -> & Hm)]; [done|]. f_equal. apply Hone; by apply Hp.
Qed.

Lemma refuse_answered state ctx c m s tr e dl t' w :
  wpd dl (refuse rfc3339 state ctx c m s tr e) (t', w) (fun _ st' =>
    fst st' = t' /\ aw_registry (snd st') = aw_registry w /\ aw_accesses (snd st') = aw_accesses w).
Proof.
  unfold refuse, elapsed_ms, log_error_to_db, write_log. wp_steps. by destruct (st_db_writer state); wp_steps.
Qed.

Lemma resolve_loop_calm fuel state ctx prompt score tier dl w :
  (4 - Tier_rank tier <= fuel + 1)%nat -> granted [] (aw_registry w) ->
  wpd dl (resolve_loop others rfc3339 fuel state ctx prompt score tier) (t, w) (fun r st' =>
    fst st' = t /\ resolved_calm r (aw_registry (snd st'))).
Proof.
  revert tier w. induction fuel as [|fuel IH]; intros tier w Hfuel Hg;
    [destruct tier; simpl in Hfuel; lia|]. cbn [resolve_loop].
  assert (Hrefuse : forall w1 c m s tr e, granted [] (aw_registry w1) ->
    wpd dl (let! r := refuse rfc3339 state ctx c m s tr e in t_ret (Err r)) (t, w1)
      (fun r st' => fst st' = t /\ resolved_calm r (aw_registry (snd st')))).
  { intros w1 c m s tr e [Hb _ _]. wp_steps. eapply wp_mono; [apply refuse_answered|].
    intros r [t2 w2] (Ht & Hr & _). wp_steps. cbn [fst snd] in *. split; [exact Ht|]. simpl. rewrite Hr.
    intros n Hn. by destruct (Hb n Hn). }
  assert (Hnext : forall next w1, escalate tier = Some next -> granted [] (aw_registry w1) ->
    wpd dl (resolve_loop others rfc3339 fuel state ctx prompt score next) (t, w1)
      (fun r st' => fst st' = t /\ resolved_calm r (aw_registry (snd st')))).
  { intros next w1 Hesc Hs. pose proof (escalate_rank _ _ Hesc) as Hrank. apply IH; [lia|done]. }
  destruct (select_candidates _ _ _ _ _) as [cs|e] eqn:Esel.
  - apply select_candidates_meets_spec in Esel as (_ & Hnd & _).
    apply wp_bind. eapply wp_mono; [apply (filter_granted cs [] [] None); [done|done|split; auto]|].
    intros [filtered probe] [t1 w1] [Ht (probed & Hf)]. cbn [fst snd] in *. subst t1.
    destruct filtered as [|c rest].
    + destruct Hf as [Hf [->|[? _]]]; [|done].
      destruct (escalate tier) as [next|] eqn:Ee; [by apply Hnext|by apply Hrefuse].
    + wp_steps. split; [done|]. split; [done|]. by eapply filtering_done.
  - destruct e; try (by apply Hrefuse).
    destruct (escalate tier) as [next|] eqn:Ee; [by apply Hnext|by apply Hrefuse].
Qed.

Lemma resolve_candidates_calm state ctx prompt ms ov dl w :
  granted [] (aw_registry w) ->
  wpd dl (resolve_candidates others rfc3339 state ctx prompt ms ov) (t, w) (fun r st' =>
    fst st' = t /\ resolved_calm r (aw_registry (snd st'))).
Proof.
  unfold resolve_candidates. destruct (initial_tier _ _ _) as [score tier].
  apply resolve_loop_calm. destruct tier; simpl; lia.
Qed.

End NoWait.

(** From a calm registry, whatever is due. *)
Lemma granted_calm t reg : calm reg -> granted t (fun _ => True) [] reg.
Proof. intros Hc. split; [|done..]. intros n Hn. by apply Hc in Hn. Qed.

(** What is due when the request arrives; the others act later than that. *)
Lemma granted_due t reg : calm reg -> granted t (breaker_is (due t) reg) [] reg.
Proof. intros Hc. split; [|done..]. intros n Hn. by apply Hc in Hn. Qed.

Lemma others_keep_due t reg0 k reg :
  only_record (others k) -> dated t (others k) ->
  (forall n, breaker_is (due t) reg n -> breaker_is (due t) reg0 n) ->
  forall n, breaker_is (due t) (reg_run (if_registry (others k)) reg) n -> breaker_is (due t) reg0 n.
Proof.
  intros Hrec Hdate Hi n Hn. apply Hi. clear Hi. revert reg Hn. unfold only_record, dated, reg_run in *.
  induction (if_registry (others k)) as [|[now op] ops IH]; intros reg Hn; [done|].
  inversion Hrec as [|? ? Hop Hrec']; inversion Hdate as [|? ? Ht Hdate']; subst. cbn [fold_left fst snd] in *.
  eapply record_keeps_due; [exact Hop|exact Ht|]. by apply IH.
Qed.

(** ** Candidates when every probe is resolved in time *)

Lemma acquire_waited D name t w :
  0 <= D -> (forall n, probes_end D (others n)) ->
  wp (acquire_permit others name) (t, w) (fun _ st' => fst st' <= t + D).
Proof.
  intros HD Hend. unfold acquire_permit, yield_now. wp_steps. cbn [fst snd].
  set (w1 := interfere _ w). destruct (acquire_start t name (aw_registry w1)) as [[r|rx reason trips] reg'] eqn:Ea;
    wp_steps; cbn [fst snd]; [lia|].
  unfold wait_for_probe. wp_steps. cbn [fst snd].
  set (n := aw_awaits _). destruct (Hend n name) as [Hd He].
  pose proof (resolved_wait_ends _ name rx reason trips _ (acquire_start_waiting _ _ _ _ _ _ _ Ea) He) as Hp.
  unfold interfere, with_registry. cbn [aw_registry waited if_registry].
  destruct (acquire_poll _ _ _ _ _); [|done]. wp_steps. cbn [fst]. lia.
Qed.

Lemma filter_waited D cs filtered probe t w :
  0 <= D -> (forall n, probes_end D (others n)) ->
  wp (filter_candidates others cs filtered probe) (t, w) (fun _ st' => fst st' <= t + Z.of_nat (length cs) * D).
Proof.
  intros HD Hend. revert filtered probe t w.
  induction cs as [|c cs IH]; intros filtered probe t w; cbn [filter_candidates length]; [wp_steps; cbn; lia|].
  apply wp_bind. eapply wp_mono; [by apply acquire_waited|]. intros r [t1 w1] Ht. cbn [fst] in Ht.
  destruct r as [[]|e]; (eapply wp_mono; [apply IH|]); intros a st' Hle; cbv beta in *; lia.
Qed.

Definition provider_count state : Z := Z.of_nat (length (rt_providers (st_router state))).

Lemma select_count state model pn prompt mt cs :
  select_candidates (st_router state) model pn prompt mt = Ok cs -> Z.of_nat (length cs) <= provider_count state.
Proof.
  intros [-> _]%select_candidates_Ok. rewrite length_map. unfold provider_count.
  apply Nat2Z.inj_le. etransitivity; [apply sublist_length, first_by_sublist|].
  rewrite <- (Permutation_length (sort_by_key_perm routing_cost _)). apply List.filter_length_le.
Qed.

Lemma resolve_loop_waited D fuel state ctx prompt score tier t w :
  0 <= D -> (forall n, probes_end D (others n)) -> (4 - Tier_rank tier <= fuel + 1)%nat ->
  wp (resolve_loop others rfc3339 fuel state ctx prompt score tier) (t, w) (fun r st' =>
    fst st' <= t + Z.of_nat fuel * (provider_count state * D) /\ forall rc, r = Ok rc -> rc_candidates rc <> []).
Proof.
  intros HD Hend. revert tier t w. induction fuel as [|fuel IH]; intros tier t w Hfuel;
    [destruct tier; simpl in Hfuel; lia|]. cbn [resolve_loop].
  assert (Hn : 0 <= provider_count state * D) by (unfold provider_count; nia).
  assert (Hrefuse : forall t1 w1 c m s tr e, t1 <= t + provider_count state * D ->
    wp (let! r := refuse rfc3339 state ctx c m s tr e in t_ret (Err r)) (t1, w1)
      (fun r st' => fst st' <= t + Z.of_nat (S fuel) * (provider_count state * D) /\
                    forall rc, r = Ok rc -> rc_candidates rc <> [])).
  { intros t1 w1 c m s tr e Ht1. wp_steps. eapply wp_mono; [apply refuse_answered|].
    intros r [t2 w2] [Ht _]. wp_steps. cbn [fst snd] in *. split; [nia|done]. }
  assert (Hnext : forall next t1 w1, escalate tier = Some next -> t1 <= t + provider_count state * D ->
    wp (resolve_loop others rfc3339 fuel state ctx prompt score next) (t1, w1)
      (fun r st' => fst st' <= t + Z.of_nat (S fuel) * (provider_count state * D) /\
                    forall rc, r = Ok rc -> rc_candidates rc <> [])).
  { intros next t1 w1 Hesc Ht1. pose proof (escalate_rank _ _ Hesc) as Hrank.
    eapply wp_mono; [apply IH; lia|]. intros r st' [Hle Hr]. split; [lia|done]. }
  destruct (select_candidates _ _ _ _ _) as [cs|e] eqn:Esel.
  - apply select_count in Esel. apply wp_bind. eapply wp_mono; [by apply (filter_waited D)|].
    intros [filtered probe] [t1 w1] Ht1. cbn [fst snd] in *.
    assert (Ht1' : t1 <= t + provider_count state * D) by nia.
    destruct filtered as [|c rest]; [|wp_steps; cbn [fst]; split; [nia|by intros rc [= <-]]].
    destruct (escalate tier) as [next|] eqn:Ee; [by apply Hnext|by apply Hrefuse].
  - assert (Ht0 : t <= t + provider_count state * D) by lia.
    destruct e; try (by apply Hrefuse). destruct (escalate tier) as [next|] eqn:Ee; [by apply Hnext|by apply Hrefuse].
Qed.

(** Nobody waits for longer than [D] for a probe: none is in flight and nobody else takes
    one, or whoever holds one resolves it. *)
Definition unblocked (D : Duration) (reg : Registry) : Prop :=
  (calm reg /\ forall n, only_record (others n)) \/ (forall n, probes_end D (others n)).

Lemma unblocked_others D n reg : unblocked D reg -> unblocked D (reg_run (if_registry (others n)) reg).
Proof. intros [[Hc Ho]|He]; [left|by right]. split; [by apply calm_others|done]. Qed.

Definition waiting_time state (D : Duration) : Duration := 3 * (provider_count state * D).

Lemma resolve_unblocked D state ctx prompt ms ov t w :
  0 <= D -> unblocked D (aw_registry w) ->
  wp (resolve_candidates others rfc3339 state ctx prompt ms ov) (t, w) (fun r st' =>
    fst st' <= t + waiting_time state D /\ match r with Ok rc => rc_candidates rc <> [] /\ True | Err _ => True end).
Proof.
  intros HD Hu. assert (Hn : 0 <= provider_count state * D) by (unfold provider_count; nia). unfold waiting_time.
  destruct Hu as [[Hc Ho]|He].
  - eapply wp_mono; [apply (resolve_candidates_calm t (fun _ => True)); [done|done|by apply granted_calm]|].
    intros r [t1 w1] [Ht Hr]. cbn [fst] in *. subst t1. split; [lia|]. destruct r; [|done]. by destruct Hr.
  - unfold resolve_candidates. destruct (initial_tier _ _ _) as [score tier].
    eapply wp_mono; [apply (resolve_loop_waited D); [done|done|destruct tier; simpl; lia]|].
    intros r st' [Ht Hr]. split; [lia|]. destruct r; [|done]. split; [by apply Hr|done].
Qed.

(** ** The handler *)

Definition path_bound ctx : Duration := if cx_is_streaming ctx then CLIENT_TIMEOUT else RETRY_TIMEOUT.

Lemma route_answered P `{!Ledger others P} state ctx request resolved t w :
  (forall n r, fst (upstream n r) <= CLIENT_TIMEOUT) ->
  rc_candidates resolved <> [] -> P (rc_probe_provider resolved) w ->
  wp (route others rfc3339 upstream state ctx request resolved) (t, w) (fun _ st' =>
    fst st' <= t + path_bound ctx /\ P None (snd st')).
Proof.
  intros Hup Hne Hp. unfold route, path_bound.
  destruct (cx_is_streaming ctx); [by apply streaming_answered|by apply non_streaming_answered].
Qed.

Lemma reserve_answered P `{!Ledger others P} state ctx headers request resolved vc p t w :
  (forall n c, fst (post n c) <= VAULT_TIMEOUT) -> rc_candidates resolved <> [] -> P p w ->
  wp (reserve_funds others rfc3339 post vault_others state ctx headers request resolved vc) (t, w) (fun r st' =>
    fst st' <= t + VAULT_TIMEOUT /\ P p (snd st') /\
    forall ctx' request', r = Ok (ctx', request') -> cx_is_streaming ctx' = cx_is_streaming ctx).
Proof.
  intros Hpost Hne Hp. unfold reserve_funds.
  assert (Hv : 0 <= VAULT_TIMEOUT) by (unfold VAULT_TIMEOUT, secs; lia).
  assert (Herr : forall t1 w1 c m (resp : Response), t1 <= t + VAULT_TIMEOUT -> P p w1 ->
    wp (let! _ := log_refusal rfc3339 state ctx resolved c m in t_ret (Err resp)) (t1, w1)
      (fun (r : result (RequestContext * ChatCompletionRequest) Response) st' =>
      fst st' <= t + VAULT_TIMEOUT /\ P p (snd st') /\
      forall ctx' request', r = Ok (ctx', request') -> cx_is_streaming ctx' = cx_is_streaming ctx)).
  { intros t1 w1 c m resp Ht Hp1. apply wp_bind. eapply wp_mono.
    - apply (quick_bind P p p p); [apply quick_elapsed|intros; apply quick_write_log; exact _|exact Hp1].
    - intros _ [t2 w2] [Heq Hp2]. wp_steps. cbn [fst snd] in *. by subst t2. }
  apply wp_bind, wp_get. cbn [snd]. destruct (w_backpressure _); [apply Herr; [lia|done]|].
  destruct (match h_authorization headers with Some v => _ | None => _ end) as [agent|]; [|apply Herr; [lia|done]].
  cbv zeta. apply wp_bind. apply (wp_mono _ _ (fun _ st' => st' = (t, w))).
  { unfold reserve_rates, t_index. destruct (frontier_rates _ _); [by wp_steps|].
    destruct (rc_candidates resolved); [done|]. cbn [lookup list_lookup]. by wp_steps. }
  intros rates ? ->. apply wp_bind. unfold in_vault. apply wp_zoom. unfold reserve, vault_post. cbn [fst snd].
  apply wp_bind. apply wp_bind, wp_get. apply wp_bind, wp_now. cbn [fst snd].
  match goal with |- context [post ?n ?c] => pose proof (Hpost n c) as Hd; destruct (post n c) as [d rep] end.
  cbn [fst] in Hd. wp_steps. cbn [fst snd].
  eapply wp_mono; [apply (quick_yield P p); by apply (ledger_frame _ w)|].
  intros _ [t2 w2] [Ht2 Hp2]. cbn [fst snd] in *. subst t2.
  destruct (reserve_result _ rep) as [rv|e]; [|apply Herr; [lia|done]].
  wp_steps. split_and!; [cbn; lia|done|]. by intros ctx' request' [= <- <-].
Qed.

(** What is known of a request, for any ledger that holds once the candidates are resolved. *)
Lemma chat_answered P `{!Ledger others P} T state request_id headers request t w :
  (st_vault state <> None -> forall n c, fst (post n c) <= VAULT_TIMEOUT) -> (forall n r, fst (upstream n r) <= CLIENT_TIMEOUT) ->
  (forall ctx, wp (resolve_candidates others rfc3339 state ctx (user_prompt request) (messages request)
                     (parse_complexity headers)) (t, w) (fun r st' => fst st' <= t + T /\
     match r with
     | Ok rc => rc_candidates rc <> [] /\ P (rc_probe_provider rc) (snd st')
     | Err _ => P None (snd st')
     end)) ->
  wp (chat_completions others rfc3339 upstream post vault_others state request_id headers request) (t, w)
    (fun _ st' =>
      fst st' <= t + T + (if st_vault state then VAULT_TIMEOUT else 0)
                   + (if default false (stream request) then CLIENT_TIMEOUT else RETRY_TIMEOUT) /\
      (st_vault state = None -> P None (snd st'))).
Proof.
  intros Hpost Hup Hres. unfold chat_completions. apply wp_bind, wp_now. cbn [fst snd].
  set (ctx := Build_RequestContext _ _ _ _ _ _).
  apply (wp_mono _ _ (fun _ st' => fst st' <= t + T + (if st_vault state then VAULT_TIMEOUT else 0) + path_bound ctx /\
    (st_vault state = None -> P None (snd st')))); [|done].
  assert (Hb0 : 0 <= path_bound ctx) by (unfold path_bound, CLIENT_TIMEOUT, RETRY_TIMEOUT, secs; case_match; lia).
  assert (Hv : 0 <= VAULT_TIMEOUT) by (unfold VAULT_TIMEOUT, secs; lia).
  apply wp_bind. eapply wp_mono; [apply Hres|].
  intros r [t1 w1] [Ht Hr]. cbn [fst snd] in *. destruct r as [rc|resp].
  2: { wp_steps. cbn [fst snd]. split; [destruct (st_vault state); lia|done]. }
  destruct Hr as [Hne Hr]. destruct (st_vault state) as [vc|] eqn:Ev; [specialize (Hpost ltac:(done))|].
  - apply wp_bind. eapply wp_mono; [by apply (reserve_answered P) with (p := rc_probe_provider rc)|].
    intros b [t2 w2] (Ht2 & Hp2 & Hs). cbn [fst snd] in *. destruct b as [[ctx' request']|resp].
    + eapply wp_mono; [by apply (route_answered P)|]. intros resp st' [Ht3 _]. split; [|done].
      unfold path_bound in Ht3. rewrite (Hs _ _ eq_refl) in Ht3. fold (path_bound ctx) in Ht3. lia.
    + wp_steps. cbn [fst snd]. split; [lia|done].
  - eapply wp_mono; [by apply (route_answered P)|]. intros resp st' [Ht3 Hp3]. split; [lia|done].
Qed.

Lemma chat_unblocked D state request_id headers request t w :
  (forall n c, fst (post n c) <= VAULT_TIMEOUT) -> (forall n r, fst (upstream n r) <= CLIENT_TIMEOUT) ->
  0 <= D -> unblocked D (aw_registry w) ->
  wp (chat_completions others rfc3339 upstream post vault_others state request_id headers request) (t, w)
    (fun _ st' => fst st' <= t + waiting_time state D + (if st_vault state then VAULT_TIMEOUT else 0)
                               + (if default false (stream request) then CLIENT_TIMEOUT else RETRY_TIMEOUT)).
Proof.
  intros Hpost Hup HD Hu. eapply wp_mono.
  { apply (chat_answered (fun _ _ => True) (waiting_time state D)); [done..|]. intros ctx. by apply resolve_unblocked. }
  by intros resp st' [Ht _].
Qed.

(** C5: every request is answered, whatever the providers, the vault and the other tasks do,
    and without a panic, in two cases: whoever holds a probe that the request waits for
    resolves it within [D]; or no probe is in flight when the request arrives and no other
    task takes one meanwhile (then [D] can be 0).  The time it takes is at most that of the
    waits (three tiers, each provider once per tier), of the reservation when billing is on,
    and of the retry budget of 30 s, or of one provider call for a streaming request. *)
Theorem every_request_is_answered D state request_id headers request t w :
  (forall n c, fst (post n c) <= VAULT_TIMEOUT) -> (forall n r, fst (upstream n r) <= CLIENT_TIMEOUT) ->
  0 <= D -> unblocked D (aw_registry w) ->
  wp (chat_completions others rfc3339 upstream post vault_others state request_id headers request) (t, w)
    (fun _ st' => fst st' <= t + waiting_time state D + (if st_vault state then VAULT_TIMEOUT else 0)
                               + (if default false (stream request) then CLIENT_TIMEOUT else RETRY_TIMEOUT)).
Proof. apply chat_unblocked. Qed.

(** The breakers are calm when the candidates are resolved, but for the reported probe. *)
Lemma resolve_one_due state ctx prompt ms ov dl t w :
  (forall n, only_record (others n)) -> (forall n, dated t (others n)) ->
  calm (aw_registry w) -> one_due t (aw_registry w) ->
  wpd dl (resolve_candidates others rfc3339 state ctx prompt ms ov) (t, w) (fun r st' => fst st' = t /\
    match r with
    | Ok rc => rc_candidates rc <> [] /\ only_blocked (rc_probe_provider rc) (aw_registry (snd st'))
    | Err _ => only_blocked None (aw_registry (snd st'))
    end).
Proof.
  intros Ho Hd Hcalm Hone. eapply wp_mono.
  { apply (resolve_candidates_calm t (breaker_is (due t) (aw_registry w)));
      [done|intros k reg; by apply others_keep_due|by apply granted_due]. }
  intros [rc|resp] st' [Ht Hr]; (split; [exact Ht|]); [|exact Hr]. split; [apply Hr|by apply Hr].
Qed.

(** C11: a request without billing leaves no probe behind.  When at most one breaker is due
    for a probe and the other tasks take no permits meanwhile, the registry it leaves is calm
    again, on every path: success, another provider's success, errors and the timeout. *)
Theorem unbilled_request_leaves_no_probe state request_id headers request t w :
  (forall n, only_record (others n)) -> (forall n, dated t (others n)) ->
  (forall n r, fst (upstream n r) <= CLIENT_TIMEOUT) -> st_vault state = None ->
  calm (aw_registry w) -> one_due t (aw_registry w) ->
  wp (chat_completions others rfc3339 upstream post vault_others state request_id headers request) (t, w)
    (fun _ st' => calm (aw_registry (snd st'))).
Proof.
  intros Ho Hd Hup Hv Hcalm Hone. pose proof (ledger_blocked others Ho).
  eapply wp_mono; [apply (chat_answered blocked_ledger 0); [done..|]|].
  { intros ctx. eapply wp_mono; [by apply resolve_one_due|]. intros r st' [Ht Hr]. split; [lia|exact Hr]. }
  intros resp st' [_ Hc]. by apply Hc.
Qed.

End Liveness.

(** ** Witnesses *)

Section LivenessWitnesses.
#[local] Existing Instances AsciiCase VersionedWatch InsertionOrder json_bill deps_bill http_bill serde_bill.

Lemma calm_run names ops :
  Forall (fun op => not_acquire (snd op)) ops -> calm (reg_run ops (Registry_new names)).
Proof. intros Hops. apply (calm_others {| if_registry := ops; if_writer := []; if_wait := fun _ => (0, []) |}); [exact Hops|apply calm_new]. Qed.

Lemma calm_recovering : calm recovering.
Proof. apply calm_run. repeat constructor. Qed.

Lemma one_due_alpha t : one_due t recovering.
Proof.
  assert (Halpha : forall n, breaker_is (due t) recovering n -> n = "alpha").
  { intros n (cb & Hl & Hp). destruct (decide (n = "alpha")) as [|Hne]; [done|]. exfalso.
    unfold recovering in Hl. rewrite reg_run_other in Hl by (repeat constructor; simpl; congruence).
    rewrite Registry_new_lookup in Hl. destruct (decide _); simplify_eq/=. }
  intros n1 n2 H1 H2. by rewrite (Halpha n1 H1), (Halpha n2 H2).
Qed.

Lemma post_in_time n c : fst (post_reserve n c) <= VAULT_TIMEOUT.
Proof. vm_compute. discriminate. Qed.

Lemma upstream_in_time n r : fst (upstream_ex n r) <= CLIENT_TIMEOUT.
Proof. vm_compute. discriminate. Qed.

(** A billed request while alpha is recovering: answered within 35 s. *)
Lemma every_request_is_answered_witness :
  wp (chat_completions alone clock upstream_ex post_reserve no_others (state_ex (Some client_ex)) "req-1"
        (headers_ex (Some "Bearer agent")) request_ex) (secs 30, world_ex recovering)
    (fun _ st' => fst st' <= secs 65).
Proof.
  refine (every_request_is_answered alone clock upstream_ex post_reserve no_others 0 (state_ex (Some client_ex))
    "req-1" (headers_ex (Some "Bearer agent")) request_ex (secs 30) (world_ex recovering)
    post_in_time upstream_in_time (Z.le_refl 0) _).
  left. split; [exact calm_recovering|intros n; constructor].
Defined.

(** Another request holds alpha's probe and succeeds after 100 ms: this one waits for it. *)
Definition probing_other (n : nat) : Interference := {|
  if_registry := []; if_writer := [];
  if_wait := fun name => (millis 100, [(secs 30 + millis 100, RProbeSuccess name)]) |}.

Lemma probing_other_ends n : probes_end (millis 100) (probing_other n).
Proof. intros name. split; [by vm_compute|]. by apply Exists_cons; left. Qed.

Example waiting_request_is_answered :
  let w := world_ex (reg_exec (secs 30) (RAcquire "alpha") recovering) in
  unblocked probing_other (millis 100) (aw_registry w) /\
  match chat_completions probing_other clock upstream_ex post_reserve no_others (state_ex None) "req-1"
          (headers_ex None) request_ex None (secs 30, w) with
  | (Done resp, (t, w')) => (resp_status resp, t) = (200, secs 30 + millis 300)
  | _ => False
  end.
Proof. split; [right; exact probing_other_ends|]. vm_compute. reflexivity. Qed.

Lemma unbilled_request_leaves_no_probe_witness :
  wp (chat_completions alone clock upstream_ex post_reserve no_others (state_ex None) "req-1"
        (headers_ex None) request_ex) (secs 30, world_ex recovering)
    (fun _ st' => calm (aw_registry (snd st'))).
Proof.
  apply unbilled_request_leaves_no_probe.
  - intros n. constructor.
  - intros n. constructor.
  - exact upstream_in_time.
  - reflexivity.
  - exact calm_recovering.
  - apply one_due_alpha.
Defined.

End LivenessWitnesses.
