(* ===== verification/Stranded.v ===== *)
(** * Probes that nobody resolves

    A breaker that is half-open with a probe in flight makes every later request for its
    provider wait, and two kinds of request leave one behind: a request that gets the probes
    of two providers, and a request that billing refuses after it got one.  Here for any such
    state, providers and requests; other tasks may do anything but report a failure or the
    outcome of a probe of the provider. *)

From S2P Require Import Prelude Machine RustStr Timed Config Errors Types Router Complexity.
From S2P Require Import CircuitBreaker Retry Storage Vault Http Handlers Frames Billing Liveness.

(** ** Programs that end or wait for ever

    [ends_or_waits m st Q]: under any deadline, [m] ends in [Q], or waits until it is cut; it
    does not panic. *)

Definition ends_or_waits {S A} (m : Timed S A) (st : Instant * S) (Q : A -> Instant * S -> Prop) : Prop :=
  forall dl, match m dl st with
             | (Done a, st') => Q a st'
             | (Elapsed, _) => dl <> None
             | (Hung, _) => dl = None
             | (Panicked, _) => False
             end.

(** It never answers: it waits until its future is dropped, for ever if it is not. *)
Definition never_ends {S A} (m : Timed S A) (st : Instant * S) : Prop :=
  fst (m None st) = Hung /\ forall dl, fst (m (Some dl) st) = Elapsed.

Section EndsOrWaits.
Context {S : Type}.
Implicit Types (st : Instant * S).

Lemma ew_mono {A} (m : Timed S A) st (Q Q' : A -> Instant * S -> Prop) :
  ends_or_waits m st Q -> (forall a st', Q a st' -> Q' a st') -> ends_or_waits m st Q'.
Proof. intros Hm HQ dl. specialize (Hm dl). destruct (m dl st) as [[a| | |] p]; auto. Qed.

Lemma ew_bind {A B} (m : Timed S A) (k : A -> Timed S B) st Q :
  ends_or_waits m st (fun a st' => ends_or_waits (k a) st' Q) -> ends_or_waits (t_bind m k) st Q.
Proof. intros Hm dl. specialize (Hm dl). unfold t_bind. destruct (m dl st) as [[a| | |] p]; [apply Hm|exact Hm..]. Qed.

Lemma ew_ret {A} (a : A) st (Q : A -> Instant * S -> Prop) : Q a st -> ends_or_waits (t_ret a) st Q.
Proof. by intros HQ dl. Qed.

Lemma ew_get st (Q : S -> Instant * S -> Prop) : Q (snd st) st -> ends_or_waits t_get st Q.
Proof. by intros HQ dl. Qed.

Lemma ew_now st (Q : Instant -> Instant * S -> Prop) : Q (fst st) st -> ends_or_waits t_now st Q.
Proof. by intros HQ dl. Qed.

Lemma ew_modify f st (Q : unit -> Instant * S -> Prop) : Q tt (fst st, f (snd st)) -> ends_or_waits (t_modify f) st Q.
Proof. by intros HQ dl. Qed.

Lemma ew_hang {A} st (Q : A -> Instant * S -> Prop) : ends_or_waits t_hang st Q.
Proof. by intros [dl|]. Qed.

Lemma ew_await d t s (Q : unit -> Instant * S -> Prop) :
  (forall t', Q tt (t', s)) -> ends_or_waits (t_await d) (t, s) Q.
Proof. intros HQ [dl|]; unfold t_await; [by destruct (_ <=? _)%Z|apply HQ]. Qed.

Lemma ew_never {A} (m : Timed S A) st : ends_or_waits m st (fun _ _ => False) -> never_ends m st.
Proof.
  intros Hm. split; [specialize (Hm None)|intros dl; specialize (Hm (Some dl))];
    destruct (m _ st) as [[a| | |] p]; by try done; destruct Hm.
Qed.

End EndsOrWaits.

Section Stranded.
Context `{Watch} `{HttpDeps} `{ScorerDeps} `{UnicodeCase} `{SerdeJson} `{!VaultSerde} `{SqlOrder}.
Implicit Types (reg : Registry) (w : AppWorld) (state : AppState) (ctx : RequestContext) (name n : string).

(** ** Other tasks that leave the probe of [name] alone *)

Definition spares name (op : reg_op) : Prop :=
  match op with
  | RAcquire _ | RSuccess _ => True
  | RFailure n _ _ | RProbeSuccess n | RProbeFailure n _ _ => n <> name
  end.

Definition sparing name (i : Interference) : Prop :=
  Forall (fun op => spares name (snd op)) (if_registry i) /\
  forall n, Forall (fun op => spares name (snd op)) (snd (if_wait i n)).

Lemma other_exec Q now op reg name :
  reg_op_name op <> name -> breaker_is Q reg name -> breaker_is Q (reg_exec now op reg) name.
Proof.
  intros Hne (cb & Hl & HQ). destruct (reg_exec_lookup now op reg name) as [bop Heq]. exists cb.
  split; [|done]. rewrite Heq, decide_False; congruence.
Qed.

Lemma spares_blocked now op reg name :
  spares name op -> breaker_is blocked reg name -> breaker_is blocked (reg_exec now op reg) name.
Proof.
  intros Hs Hb. destruct (decide (reg_op_name op = name)) as [Hn|Hn]; [|by apply other_exec].
  destruct op as [n|n|n e m|n|n e m]; cbn in Hn, Hs; subst n; try done; destruct Hb as (cb & Hl & Hst & Hp).
  - cbn [reg_exec]. unfold acquire_start. rewrite Hl, (check_half_open_busy _ _ Hst Hp).
    destruct (w_subscribe _) as [rx c]. cbn [snd]. eexists. by rewrite lookup_insert_eq.
  - cbn [reg_exec]. unfold record_success. eexists. rewrite lookup_alter, decide_True, Hl by done. by split.
Qed.

Lemma spares_due t now op reg name :
  spares name op -> not_acquire op -> breaker_is (due t) reg name -> breaker_is (due t) (reg_exec now op reg) name.
Proof.
  intros Hs Ha Hd. destruct (decide (reg_op_name op = name)) as [Hn|Hn]; [|by apply other_exec].
  destruct op as [n|n|n e m|n|n e m]; cbn in Hn, Hs; subst n; try done; destruct Hd as (cb & Hl & Hd).
  cbn [reg_exec]. unfold record_success. eexists. rewrite lookup_alter, decide_True, Hl by done. split; [done|].
  revert Hd. unfold due, check_state, try_acquire_probe. cbn.
  by destruct (CircuitBreaker.state (inner cb)), (opened_at (inner cb)), (probe_in_flight (inner cb)); cbn; try case_match.
Qed.

Lemma spares_run ops reg name :
  Forall (fun op => spares name (snd op)) ops -> breaker_is blocked reg name -> breaker_is blocked (reg_run ops reg) name.
Proof.
  unfold reg_run. intros Hs. revert reg. induction Hs as [|op ops Hop _ IH]; intros reg Hb; [done|].
  cbn [fold_left]. by apply IH, spares_blocked.
Qed.

Lemma spares_run_due t i reg name :
  sparing name i -> only_record i -> breaker_is (due t) reg name -> breaker_is (due t) (reg_run (if_registry i) reg) name.
Proof.
  unfold only_record, reg_run. intros [Hs _] Ho. revert reg.
  induction (if_registry i) as [|op ops IH]; intros reg Hd; [done|].
  inversion Hs; inversion Ho; subst. cbn [fold_left]. by apply IH, spares_due.
Qed.

(** ** A request for a stuck provider never ends *)

(** The provider is among the candidates of the request, at the tier it starts with. *)
Definition selects state (headers : RequestHeaders) (request : ChatCompletionRequest) name : Prop :=
  exists cs, select_candidates (st_router state) (model request) (h_policy headers) (user_prompt request)
      (Some (snd (initial_tier state (messages request) (parse_complexity headers)))) = Ok cs /\
    In name (map sp_name cs).

Section Stuck.
Context (others : nat -> Interference) (rfc3339 : Instant -> string) name (Hsp : forall k, sparing name (others k)).
#[local] Notation stuck w := (breaker_is blocked (aw_registry w) name).

Lemma ew_yield t w (Q : unit -> Instant * AppWorld -> Prop) :
  stuck w -> (forall w', stuck w' -> Q tt (t, w')) -> ends_or_waits (yield_now others) (t, w) Q.
Proof. intros Hb HQ. apply ew_modify, HQ. cbn. apply spares_run; [apply Hsp|done]. Qed.

Lemma acquire_stuck n t w :
  stuck w -> ends_or_waits (acquire_permit others n) (t, w) (fun _ st' => n <> name /\ stuck (snd st')).
Proof.
  intros Hb. unfold acquire_permit. apply ew_bind, ew_yield; [done|]. clear w Hb. intros w Hb.
  apply ew_bind, ew_now, ew_bind, ew_get. cbn [fst snd].
  pose proof (spares_blocked t (RAcquire n) _ _ I Hb) as Hb'. cbn [reg_exec] in Hb'.
  pose proof (acquire_start_cases t n (aw_registry w)) as Hc.
  destruct (acquire_start t n (aw_registry w)) as [[r|rx reason trips] reg'] eqn:Ea; cbn [snd] in *;
    apply ew_bind, ew_modify; cbn [fst snd].
  - apply ew_ret. destruct Hc as [_ Hnb]. split; [|exact Hb']. by intros ->.
  - unfold wait_for_probe. apply ew_bind, ew_bind, ew_get, ew_bind, ew_await. intros t'. apply ew_modify. cbn [fst snd].
    set (k := aw_awaits _). destruct (Hsp k) as [_ Hw]. apply ew_bind, ew_get. cbn [fst snd interfere aw_registry with_registry waited if_registry].
    destruct (acquire_poll n rx reason trips _) as [r|] eqn:Ep; [|apply ew_hang]. apply ew_ret. cbn [snd aw_registry].
    split; [|cbn; apply spares_run; [apply Hw|exact Hb']]. intros ->.
    rewrite (waiter_waits _ _ _ _ _ _ _ _ Ea) in Ep; [done|].
    eapply Forall_impl; [|apply Hw]. by intros [now op]; destruct op.
Qed.

Lemma filter_stuck cs filtered probe t w :
  stuck w -> ends_or_waits (filter_candidates others cs filtered probe) (t, w) (fun _ _ => ~ In name (map sp_name cs)).
Proof.
  revert filtered probe t w. induction cs as [|c cs IH]; intros filtered probe t w Hb; cbn [filter_candidates].
  { apply ew_ret. by intros []. }
  apply ew_bind. eapply ew_mono; [by apply acquire_stuck|]. intros r [t1 w1] [Hne Hb1]. cbn [snd] in Hb1.
  destruct r as [[]|e]; (eapply ew_mono; [by apply IH|]); intros a st' Hn [Heq|Hin]; auto.
Qed.

Lemma stuck_request_never_ends upstream post vault_others state request_id headers request t w :
  stuck w -> selects state headers request name ->
  never_ends (chat_completions others rfc3339 upstream post vault_others state request_id headers request) (t, w).
Proof.
  intros Hb (cs & Hsel & Hin). apply ew_never. unfold chat_completions. apply ew_bind, ew_now, ew_bind. cbv zeta.
  unfold resolve_candidates. destruct (initial_tier _ _ _) as [score tier]. cbn [snd] in Hsel. cbn [resolve_loop].
  cbn [cx_model cx_policy_name]. rewrite Hsel. apply ew_bind. eapply ew_mono; [by apply filter_stuck|]. done.
Qed.

End Stuck.

(** ** Probes left behind *)

Section Left.
Context (others : nat -> Interference) (rfc3339 : Instant -> string).
Context (upstream : nat -> UpstreamRequest -> Duration * result UpstreamReply string).
Context (post : nat -> VaultCall -> Duration * result VaultReply SendError).
Context (vault_others : nat -> list PendingSettlement).
Hypothesis others_record : forall k, only_record (others k).

(** *** Two permits *)

(** [n] has its probe, or will get it. *)
Definition pending (t : Instant) n (cs : list SelectedProvider) reg : Prop :=
  breaker_is blocked reg n \/ (breaker_is (due t) reg n /\ In n (map sp_name cs)).

Lemma acquire_due t name reg :
  breaker_is (due t) reg name -> exists reg', acquire_start t name reg = (Resolved (Ok Probe), reg').
Proof.
  intros (cb & Hl & Hd). unfold acquire_start. rewrite Hl. unfold due in Hd.
  destruct (check_state t (inner cb)) as [r i']. cbn [fst] in Hd. subst r.
  destruct (w_subscribe (probe_watch cb)) as [rx c]. by eexists.
Qed.

(** One permit, for the first of the candidates that are left. *)
Lemma acquire_pending t c cs probed dl w (names : string -> Prop) :
  (forall n k, names n -> sparing n (others k)) ->
  granted t (fun _ => True) probed (aw_registry w) -> ~ In (sp_name c) probed -> ~ In (sp_name c) (map sp_name cs) ->
  (forall n, names n -> pending t n (c :: cs) (aw_registry w)) ->
  wpd dl (acquire_permit others (sp_name c)) (t, w) (fun r st' => fst st' = t /\
    (names (sp_name c) -> In (sp_name c) probed \/ r = Ok Probe) /\
    (forall n, names n -> pending t n cs (aw_registry (snd st')))).
Proof.
  intros Hsp Hg Hp Hc Hpend. unfold acquire_permit, yield_now. do 3 wp_step. cbn [fst snd].
  set (w1 := interfere _ w). set (k := aw_awaits w) in w1.
  assert (Hpend1 : forall n, names n -> pending t n (c :: cs) (aw_registry w1)).
  { intros n Hn. destruct (Hpend n Hn) as [Hb|[Hd Hin]]; [left|right; split; [|done]].
    - apply spares_run; [by apply Hsp|done].
    - apply spares_run_due; [by apply Hsp|apply others_record|done]. }
  assert (Hg1 : forall n, breaker_is blocked (aw_registry w1) n -> In n probed).
  { intros n Hb. apply (gr_blocked _ _ _ _ Hg). eapply others_keep_unblocked; [apply others_record|exact Hb]. }
  wp_steps. cbn [fst snd]. pose proof (acquire_start_cases t (sp_name c) (aw_registry w1)) as Hcase.
  pose proof (fun n => spares_blocked t (RAcquire (sp_name c)) (aw_registry w1) n I) as Hkeep.
  pose proof (fun n => other_exec (due t) t (RAcquire (sp_name c)) (aw_registry w1) n) as Hother. cbn [reg_exec reg_op_name] in *.
  destruct (acquire_start t (sp_name c) (aw_registry w1)) as [[r|rx reason trips] reg'] eqn:Ea; wp_steps; cbn [fst snd] in *.
  2: { exfalso. destruct Hcase as [Hb _]. by apply Hp, Hg1. }
  destruct Hcase as [(_ & _ & Hr) Hnb]. split; [done|]. split.
  - intros Hn. destruct (Hpend1 _ Hn) as [Hb|[Hd _]]; [done|]. apply acquire_due in Hd as (reg1 & Hd). right. congruence.
  - intros n Hn. destruct (Hpend1 n Hn) as [Hb|[Hd [Heq|Hin]]].
    + left. by apply Hkeep.
    + subst n. left. pose proof (acquire_due _ _ _ Hd) as (reg1 & Hd'). apply Hr. congruence.
    + right. split; [|done]. apply Hother; [|done]. intros Heq. apply Hc. by rewrite Heq.
Qed.

(** The whole loop: every due candidate of [names] is left with its probe in flight, and the
    one that is reported is called first. *)
Lemma filter_pending t cs filtered probe probed dl w (names : string -> Prop) :
  (forall n k, names n -> sparing n (others k)) ->
  List.NoDup (map sp_name cs) -> (forall n, In n probed -> ~ In n (map sp_name cs)) ->
  filtering t (fun _ => True) probed filtered probe (aw_registry w) ->
  (forall p, probe = Some p -> exists c rest, filtered = c :: rest /\ sp_name c = p) ->
  (forall n, names n -> pending t n cs (aw_registry w)) -> (forall n, names n -> probe <> None \/ In n (map sp_name cs)) ->
  wpd dl (filter_candidates others cs filtered probe) (t, w) (fun r st' => fst st' = t /\
    (forall n, names n -> breaker_is blocked (aw_registry (snd st')) n /\ snd r <> None) /\
    (forall p, snd r = Some p -> exists c rest, fst r = c :: rest /\ sp_name c = p)).
Proof.
  intros Hsp. revert probed filtered probe w.
  induction cs as [|c cs IH]; intros probed filtered probe w Hnd Hdis Hf Hhead Hpend Hprobe; cbn [filter_candidates].
  { wp_steps. split; [done|]. split; [|exact Hhead]. intros n Hn.
    split; [by destruct (Hpend n Hn) as [|[_ []]]|by destruct (Hprobe n Hn)]. }
  apply NoDup_cons_iff in Hnd as [Hc Hnd]. destruct Hf as [Hg Hp].
  assert (Hcp : ~ In (sp_name c) probed) by (intros Hin; apply (Hdis _ Hin); by left).
  apply wp_bind. destruct (acquire_granted others t (fun _ => True) others_record (fun _ _ _ _ _ => I) (sp_name c) probed dl w Hg Hcp)
    as (r & [t1 w1] & Hrun & Ht & Hr).
  destruct (acquire_pending t c cs probed dl w names Hsp Hg Hcp Hc Hpend) as (r' & st' & Hrun' & _ & Hn & Hpend').
  rewrite Hrun in Hrun'. injection Hrun' as <- <-. cbn [fst snd] in *. subst t1.
  exists r, (t, w1). split; [exact Hrun|].
  assert (Hdis' : forall n, In n probed -> ~ In n (map sp_name cs)) by (intros n Hin Hin'; apply (Hdis n Hin); by right).
  destruct Hr as [[-> Hg']|[Hr Hg']].
  - apply (IH (sp_name c :: probed)); [done|intros n [<-|Hin]; [done|by apply Hdis']| | |done|by left].
    + split; [done|]. right. split; [done|]. exists (sp_name c). split; [done|by left].
    + intros p [= <-]. by exists c, filtered.
  - assert (Hprobe' : forall n, names n -> probe <> None \/ In n (map sp_name cs)).
    { intros n Hin. destruct (Hprobe n Hin) as [?|[<-|?]]; auto. by destruct (Hn Hin). }
    destruct r as [[]|e]; [|done|]; apply (IH probed); try done.
    + split; [done|]. destruct Hp as [?|[? ?]]; [by left|right]. split; [by destruct filtered|done].
    + intros p Hp'. destruct (Hhead p Hp') as (d & rest & -> & Hd). by exists d, (rest ++ [c]).
Qed.

Lemma granted_start t w : calm (aw_registry w) -> granted t (fun _ => True) [] (aw_registry w).
Proof. intros Hc. split; [|done..]. intros n Hn. by apply Hc in Hn. Qed.

(** Resolution, when providers of the first selection are due. *)
Lemma resolve_pending state ctx prompt ms ov cs dl t w (names : string -> Prop) n0 :
  (forall n k, names n -> sparing n (others k)) -> calm (aw_registry w) -> names n0 ->
  select_candidates (st_router state) (cx_model ctx) (cx_policy_name ctx) prompt
    (Some (snd (initial_tier state ms ov))) = Ok cs ->
  (forall n, names n -> breaker_is (due t) (aw_registry w) n /\ In n (map sp_name cs)) ->
  wpd dl (resolve_candidates others rfc3339 state ctx prompt ms ov) (t, w) (fun r st' => fst st' = t /\
    exists rc c rest, r = Ok rc /\ rc_candidates rc = c :: rest /\ rc_probe_provider rc = Some (sp_name c) /\
      forall n, names n -> breaker_is blocked (aw_registry (snd st')) n).
Proof.
  intros Hsp Hcalm H0' Hsel Hdue. unfold resolve_candidates. destruct (initial_tier state ms ov) as [score tier].
  cbn [snd] in Hsel. cbn [resolve_loop]. rewrite Hsel. apply select_candidates_meets_spec in Hsel as (_ & Hnd & _).
  apply wp_bind. eapply wp_mono.
  { apply (filter_pending t cs [] None [] dl w names); try done.
    - split; [by apply granted_start|by left].
    - intros n Hn. right. by apply Hdue.
    - intros n Hn. right. by apply Hdue. }
  intros [filtered probe] [t1 w1] (Ht & Hall & Hhead). cbn [fst snd] in *.
  destruct (Hall n0 H0') as [_ Hne]. destruct probe as [p|]; [|done].
  destruct (Hhead p eq_refl) as (c & rest & -> & <-). wp_steps. cbn [fst snd]. split; [exact Ht|].
  eexists _, c, rest. split; [reflexivity|]. split; [reflexivity|]. split; [reflexivity|]. intros n Hn. by apply Hall.
Qed.

(** *** The rest of the request leaves the other breakers alone *)

Section Keeps.
Context name (Hsp : forall k, sparing name (others k)).
#[local] Notation stuck := (fun w => breaker_is blocked (aw_registry w) name).
#[local] Notation keeps m := (evolves (invariant stuck) m).

#[local] Instance keeps_others : Undisturbed others (invariant stuck).
Proof.
  split; intros k; [intros w Hb|intros n w Hb]; cbn; apply spares_run; try done; apply Hsp.
Qed.

Hint Resolve keeps_others : arb.

Lemma keeps_world f : (forall w, aw_registry (f w) = aw_registry w) -> keeps (t_modify f).
Proof. intros Hf. apply evolves_modify. intros w. unfold invariant. by rewrite Hf. Qed.

Lemma keeps_registry f (op : Instant -> reg_op) :
  (forall now reg, f now reg = reg_exec now (op now) reg) -> (forall now, spares name (op now)) ->
  keeps (on_registry others f).
Proof.
  intros Hf Hop. unfold on_registry. apply evolves_bind; [exact _|auto with arb|intros _].
  apply evolves_bind; [exact _|auto with arb|intros now]. apply evolves_modify. intros w Hb. cbn. rewrite Hf.
  by apply spares_blocked.
Qed.

Lemma keeps_success n : keeps (on_registry others (fun now => record_success now n)).
Proof. by apply (keeps_registry _ (fun _ => RSuccess n)). Qed.
Lemma keeps_failure n e m : n <> name -> keeps (on_registry others (fun now => record_failure now n e m)).
Proof. intros Hn. by apply (keeps_registry _ (fun _ => RFailure n e m)). Qed.
Lemma keeps_guard_success n : n <> name -> keeps (on_registry others (fun now => guard_success now (ProbeGuard_new n))).
Proof. intros Hn. by apply (keeps_registry _ (fun _ => RProbeSuccess n)). Qed.
Lemma keeps_guard_failure n e m :
  n <> name -> keeps (on_registry others (fun now => guard_failure now (ProbeGuard_new n) e m)).
Proof. intros Hn. by apply (keeps_registry _ (fun _ => RProbeFailure n e m)). Qed.

Lemma keeps_guarded {A} p (m : Timed AppWorld A) : p <> name -> keeps m -> keeps (with_probe_guard others (Some p) m).
Proof.
  intros Hp Hm. apply evolves_on_drop; [exact _| |exact Hm]. intros now w Hb. cbn.
  apply (spares_blocked now (RProbeFailure p _ _)); [exact Hp|]. by apply spares_run; [apply Hsp|].
Qed.

Lemma keeps_write_log state log : keeps (write_log state log).
Proof. eapply evolves_write_log; [exact _|]. intros w d Hb. exact Hb. Qed.
Lemma keeps_log_error state ctx l p c m s tr : keeps (log_error_to_db rfc3339 state ctx l p c m s tr).
Proof. apply keeps_write_log. Qed.
Lemma keeps_log_success state ctx l o s tr : keeps (log_success_to_db rfc3339 state ctx l o s tr).
Proof. apply keeps_write_log. Qed.
Lemma keeps_spawn task : keeps (spawn task).
Proof. by apply keeps_world. Qed.
Lemma keeps_release state ctx reason : keeps (spawn_release state ctx reason).
Proof. unfold spawn_release. destruct (st_vault state), (cx_reservation_id ctx); auto using keeps_spawn with arb. Qed.
Lemma keeps_settle state ctx msats md : keeps (spawn_settle state ctx msats md).
Proof. unfold spawn_settle. destruct (st_vault state), (cx_reservation_id ctx); auto using keeps_spawn with arb. Qed.
Hint Resolve keeps_success keeps_failure keeps_guard_success keeps_guard_failure keeps_write_log keeps_log_error
  keeps_log_success keeps_spawn keeps_release keeps_settle : arb.

Lemma keeps_log_refusal state ctx resolved c m : keeps (log_refusal rfc3339 state ctx resolved c m).
Proof. unfold log_refusal. evolves_tac. Qed.

Lemma keeps_reserve state ctx headers request resolved vc :
  keeps (reserve_funds others rfc3339 post vault_others state ctx headers request resolved vc).
Proof.
  assert (Hv : forall A (m : Timed World A), keeps (in_vault m)) by (intros; apply evolves_zoom_any; intros w v Hb; exact Hb).
  unfold reserve_funds. pose proof keeps_log_refusal. evolves_tac.
Qed.

(** Every outcome of the streaming send is about the provider it called. *)
Definition about_provider c (r : result RequestOutcome RequestError) : Prop :=
  match r with Ok o => ro_provider_name o = sp_name c | Err e => re_provider_name e = Some (sp_name c) end.

Lemma send_about state ctx request resolved c :
  returns (about_provider c) (send_streaming others upstream state ctx request resolved c).
Proof.
  unfold send_streaming. do 2 (apply returns_after; intros ?). destruct (upstream 0 _) as [d r].
  do 2 (apply returns_after; intros ?). unfold reply_result. destruct r as [reply|e]; [|by apply returns_ret].
  destruct (negb _); [by apply returns_ret|]. apply returns_after; intros ?. by apply returns_ret.
Qed.

Lemma keeps_streaming state ctx request resolved c rest :
  rc_candidates resolved = c :: rest -> rc_probe_provider resolved = Some (sp_name c) -> sp_name c <> name ->
  keeps (handle_streaming_path others rfc3339 upstream state ctx request resolved).
Proof.
  intros Hc Hp Hn. unfold handle_streaming_path, t_index. rewrite Hc. cbn [lookup list_lookup].
  apply evolves_bind_value with (fun c' => c' = c); [auto with arb|by intros dl st a st' _ [= <- <-]|intros c' ->].
  apply evolves_bind_value with (about_provider c).
  - rewrite Hp. apply keeps_guarded; [done|]. unfold send_streaming. apply evolves_bind; [exact _|auto with arb|intros start].
    apply evolves_bind; [exact _|by apply keeps_world|intros _]. destruct (upstream 0 _) as [d r].
    pose proof (fun w => keeps_spawn). evolves_tac.
  - intros dl st r st' _. rewrite Hp. apply returns_on_drop, send_about.
  - intros r Hr. unfold finish_streaming, record_streaming_outcome, resolve_guard. rewrite Hp. cbv zeta.
    destruct r as [o|e]; cbn in Hr; rewrite Hr.
    + cbn [default]. rewrite String.eqb_refl. evolves_tac.
    + cbn [default]. destruct (is_circuit_failure _); evolves_tac.
Qed.

(** The first call of a non-streaming request is answered with a completion. *)
Definition first_call_completes : Prop := forall r, exists reply,
  snd (upstream 0 r) = Ok reply /\ is_success (up_status reply) = true /\
  forall provider, exists o, handle_non_streaming_response reply provider = Ok o.

Lemma response_provider reply provider o :
  handle_non_streaming_response reply provider = Ok o -> ro_provider_name o = sp_name provider.
Proof. unfold handle_non_streaming_response. intros Hr. by inv_res. Qed.

Lemma retry_first_call ctx request resolved c rest :
  first_call_completes -> rc_candidates resolved = c :: rest ->
  returns (fun r => snd r = [] /\ forall x, fst r = Some x -> exists o, x = Ok o /\ ro_provider_name o = sp_name c)
    (retry_under_deadline upstream ctx request resolved).
Proof.
  intros Hfirst Hc dl [t w] r st'. unfold retry_under_deadline. rewrite Hc. cbn [map].
  set (send := send_candidate _ _ _ _). set (infos := map _ rest).
  assert (Hv : exists o, snd (send 0%nat {| ci_name := sp_name c |}) = Ok o /\ ro_provider_name o = sp_name c).
  { unfold send, send_candidate. cbn [List.find ci_name]. rewrite String.eqb_refl.
    destruct (Hfirst (upstream_request request c (cx_correlation_id ctx) false)) as (reply & Hr & Hs & Ho).
    destruct (upstream 0 _) as [d x]. cbn [snd] in *. subst x. unfold reply_result. rewrite Hs. cbn [negb].
    destruct (Ho c) as [o Ho']. exists o. split; [done|]. by eapply response_provider. }
  destruct Hv as (o & Hv & Hn). unfold t_bind at 1, t_now, t_zoom. cbn [fst snd]. unfold t_bind at 1, t_timeout_at. cbv zeta.
  set (first := match dl with Some _ => _ | None => _ end).
  destruct (retry_first send {| ci_name := sp_name c |} infos o (Some first) t Hv) as (x & t' & s' & Hrun & Ha & Hx).
  rewrite Hrun. destruct Hx as [->| ->]; [|destruct (_ <=? _)%Z; [|done]]; cbn; intros [= <- <-]; (split; [exact Ha|]); cbn;
    [intros x [= <-]; by exists o|done].
Qed.

Lemma keeps_non_streaming state ctx request resolved c rest :
  first_call_completes ->
  rc_candidates resolved = c :: rest -> rc_probe_provider resolved = Some (sp_name c) -> sp_name c <> name ->
  keeps (handle_non_streaming_path others rfc3339 upstream state ctx request resolved).
Proof.
  intros Hfirst Hc Hp Hn. unfold handle_non_streaming_path.
  eapply evolves_bind_value with (fun r => snd r = [] /\ forall x, fst r = Some x -> exists o, x = Ok o /\ ro_provider_name o = sp_name c).
  - rewrite Hp. apply keeps_guarded; [done|]. unfold retry_under_deadline. apply evolves_bind; [exact _|auto with arb|intros now].
    apply evolves_zoom_any. intros w s Hb. exact Hb.
  - intros dl st r st' _. rewrite Hp.
    exact (returns_on_drop _ _ _ (retry_first_call ctx request resolved c rest Hfirst Hc) dl st r st').
  - intros [tr atts] [Ha Hr]. cbn [fst snd] in *. subst atts. unfold finish_non_streaming, record_retry_outcome. rewrite Hp.
    cbn [record_attempts]. cbv zeta. destruct tr as [x|].
    + destruct (Hr x eq_refl) as (o & -> & Ho). rewrite Ho, String.eqb_refl. unfold respond_success. evolves_tac.
    + unfold respond_timeout. evolves_tac.
Qed.

End Keeps.

Lemma wpd_evolves {A} (R : relation AppWorld) dl (m : Timed AppWorld A) st Q :
  evolves R m -> wpd dl m st Q -> wpd dl m st (fun a st' => Q a st' /\ R (snd st) (snd st')).
Proof. intros HR (a & st' & Hr & HQ). exists a, st'. split; [done|]. split; [done|]. by eapply evolves_run. Qed.


(** *** A refusal *)

(** Billing does not let the request through: it has no bearer token, or the vault says no. *)
Definition billing_refuses (headers : RequestHeaders) : Prop :=
  match h_authorization headers with Some v => str_strip_prefix "Bearer " v | None => None end = None \/
  forall k c amount, exists e, reserve_result amount (snd (post k c)) = Err e.

Lemma reserve_refuses state ctx headers request resolved vc :
  billing_refuses headers ->
  returns (fun r => exists resp, r = Err resp /\ 400 <= resp_status resp < 600)
    (reserve_funds others rfc3339 post vault_others state ctx headers request resolved vc).
Proof.
  intros Href. unfold reserve_funds.
  assert (Herr : forall c m (resp : Response), 400 <= resp_status resp < 600 ->
    returns (fun r => exists resp, r = Err resp /\ 400 <= resp_status resp < 600)
      (let! _ := log_refusal rfc3339 state ctx resolved c m in t_ret (@Err (RequestContext * ChatCompletionRequest) _ resp))).
  { intros c m resp Hr. apply returns_after; intros _. apply returns_ret. by exists resp. }
  apply returns_after; intros w. destruct (w_backpressure _); [apply Herr; simpl; lia|].
  destruct Href as [Hnone|Hpost]; [rewrite Hnone; apply Herr; simpl; lia|].
  destruct (match h_authorization headers with Some v => _ | None => _ end); [|apply Herr; simpl; lia].
  cbv zeta. apply returns_after; intros rates.
  apply returns_bind with (fun r => exists e, r = Err e).
  - apply returns_zoom. unfold reserve, vault_post. intros dl st r st'. unfold t_bind, t_get, t_now, t_modify.
    cbn [fst snd]. match goal with |- context [post ?n ?c] => specialize (Hpost n c); destruct (post n c) as [d rep] end.
    cbn [snd] in Hpost. destruct (t_await d dl _) as [[a| | |] p]; [|done..]. cbn. intros [= <- <-]. apply Hpost.
  - intros r [e ->]. apply returns_after; intros _. apply Herr. destruct e; simpl; lia.
Qed.


End Left.
End Stranded.

(** ** Witnesses *)

Section StrandedWitnesses.
#[local] Existing Instances AsciiCase VersionedWatch InsertionOrder json_bill deps_bill http_bill serde_bill.

Lemma alone_spares n k : sparing n (alone k).
Proof. split; [constructor|intros m; constructor]. Qed.

(** Two providers of the model, both tripped at time 0 by the same outage. *)
Definition config_two : Config := {|
  server := server config_ex; database := None; vault := None;
  providers := [provider_ex "alpha" ["gpt-4o"] 20 0 Frontier; provider_ex "beta" ["gpt-4o"] 30 0 Frontier];
  policies := policies config_ex; logging := logging config_ex; routing := routing config_ex |}.

Definition state_two : AppState := {|
  st_router := Router_new (providers config_two) [] "cheapest"; st_config := config_two;
  st_db_writer := true; st_vault := None |}.

Definition outage : Registry :=
  reg_run (flat_map (fun name => repeat (0, RFailure name "5xx" "HTTP 500") 3) ["alpha"; "beta"])
    (Registry_new ["alpha"; "beta"]).

Definition run_two (t : Instant) (w : AppWorld) : exit Response * (Instant * AppWorld) :=
  chat_completions alone clock upstream_ex post_reserve no_others state_two "req-1"
    (headers_ex None) request_ex None (t, w).

Lemma outage_calm : calm outage.
Proof. apply calm_run. repeat constructor. Qed.

(** Both breakers are due after their window. *)
Lemma outage_due n : In n ["alpha"; "beta"] -> breaker_is (due (secs 30)) outage n.
Proof.
  assert (Hdue : forall m, match outage !! m with
    | Some cb => fst (check_state (secs 30) (inner cb)) = ProbePermit | None => False end ->
    breaker_is (due (secs 30)) outage m).
  { intros m. destruct (outage !! m) as [cb|] eqn:E; [|done]. intros Hd. exists cb. split; [exact E|exact Hd]. }
  intros [<-|[<-|[]]]; apply Hdue; vm_compute; reflexivity.
Qed.

Lemma two_select n : In n ["alpha"; "beta"] -> selects state_two (headers_ex None) request_ex n.
Proof.
  intros Hn. unfold selects. eexists. split; [vm_compute; reflexivity|]. vm_compute.
  destruct Hn as [<-|[<-|[]]]; auto.
Qed.

Lemma upstream_completes : first_call_completes upstream_ex.
Proof.
  intros r. exists reply_ex. split; [reflexivity|]. split; [reflexivity|]. intros provider.
  unfold handle_non_streaming_response. cbn. by eexists.
Qed.


(** Which one: the cheaper, whose permit came first. *)
Example second_probe_run :
  match run_two (secs 30) (world_ex outage) with
  | (Done resp, (_, w)) =>
      resp_status resp = 200 /\ aw_sent w = ["beta"] /\
      option_map (fun cb => (state (inner cb), probe_in_flight (inner cb))) (aw_registry w !! "alpha")
        = Some (HalfOpen, true) /\
      forall later, fst (run_two later w) = Hung
  | _ => False
  end.
Proof. vm_compute. split_and!; reflexivity. Qed.

Lemma recovering_due : breaker_is (due (secs 30)) recovering "alpha".
Proof.
  destruct (recovering !! "alpha") as [cb|] eqn:E; [|by vm_compute in E]. exists cb. split; [exact E|].
  vm_compute in E. injection E as <-. vm_compute. reflexivity.
Qed.

Lemma state_selects vc auth : selects (state_ex vc) (headers_ex auth) request_ex "alpha".
Proof. unfold selects. eexists. split; [vm_compute; reflexivity|]. vm_compute. auto. Qed.


Example refused_run :
  match run_ex None (secs 30) (world_ex recovering) with
  | (Done resp, (_, w)) =>
      resp_status resp = 401 /\ aw_sent w = [] /\
      option_map (fun cb => (state (inner cb), probe_in_flight (inner cb))) (aw_registry w !! "alpha")
        = Some (HalfOpen, true) /\
      forall auth later, fst (run_ex auth later w) = Hung
  | _ => False
  end.
Proof. vm_compute. split_and!; reflexivity. Qed.

End StrandedWitnesses.
