(* ===== verification/Disconnect.v ===== *)
(** * Clients that go away

    When the client closes the connection, the server drops the future of the handler: a run
    of [chat_completions] under the deadline at which that happens.  A dropped request bills
    nobody: the reservation it holds is left to the vault.  Its probe guard resolves the
    probe it holds, but only from the moment it exists. *)

From S2P Require Import Prelude Machine RustStr Timed Config Errors Types Router Complexity.
From S2P Require Import CircuitBreaker Retry Storage Vault Http Handlers Frames Billing Liveness.

Section Disconnect.
Context `{Watch} `{HttpDeps} `{ScorerDeps} `{UnicodeCase} `{SerdeJson} `{!VaultSerde} `{SqlOrder}.
Context (others : nat -> Interference) (rfc3339 : Instant -> string).
Context (upstream : nat -> UpstreamRequest -> Duration * result UpstreamReply string).
Context (post : nat -> VaultCall -> Duration * result VaultReply SendError).
Context (vault_others : nat -> list PendingSettlement).
Implicit Types (w : AppWorld) (state : AppState) (ctx : RequestContext).

(** ** Programs and the billing tasks *)

#[local] Notation spawnless m := (leaves aw_spawned m).

(** It is never cut. *)
Definition prompt {A} (m : Timed AppWorld A) : Prop := forall dl st st', m dl st <> (Elapsed, st').

(** If it is cut, it has spawned nothing. *)
Definition spawns_last {A} (m : Timed AppWorld A) : Prop :=
  forall dl st st', m dl st = (Elapsed, st') -> aw_spawned (snd st') = aw_spawned (snd st).

Lemma spawnless_last {A} (m : Timed AppWorld A) : spawnless m -> spawns_last m.
Proof. intros Hm dl st st' Hr. exact (evolves_run _ _ _ _ _ _ Hm Hr). Qed.

(** Spawning may come before a part that is never cut, or after a part that spawns nothing. *)
Lemma last_bind {A B} (m : Timed AppWorld A) (k : A -> Timed AppWorld B) :
  spawnless m -> (forall a, spawns_last (k a)) -> spawns_last (t_bind m k).
Proof.
  intros Hm Hk dl st st'. specialize (Hm dl st). unfold t_bind.
  destruct (m dl st) as [[a| | |] p]; cbn [snd] in *; [|intros [= <-]; done|done..].
  intros Hr. by rewrite (Hk a dl p st' Hr).
Qed.

Lemma last_then_prompt {A B} (m : Timed AppWorld A) (k : A -> Timed AppWorld B) :
  spawns_last m -> (forall a, prompt (k a)) -> spawns_last (t_bind m k).
Proof.
  intros Hm Hk dl st st'. specialize (Hm dl st). unfold t_bind.
  destruct (m dl st) as [[a| | |] p]; [by intros ?%Hk|intros [= <-]; by apply Hm|done..].
Qed.

Lemma prompt_last {A} (m : Timed AppWorld A) : prompt m -> spawns_last m.
Proof. by intros Hm dl st st' ?%Hm. Qed.

(** Quick programs are prompt. *)
Lemma quick_prompt {A} p q (m : Timed AppWorld A) : quick_to (fun _ _ => True) p q m -> prompt m.
Proof. intros Hq dl [t w] st' Hr. destruct (Hq dl t w I) as (a & p' & Hr' & _). congruence. Qed.

Lemma last_guarded {A} probe (m : Timed AppWorld A) : spawns_last m -> spawns_last (with_probe_guard others probe m).
Proof.
  destruct probe as [name|]; [|done]. intros Hm dl st st'. specialize (Hm dl st).
  unfold with_probe_guard, t_on_drop. destruct (m dl st) as [[a| | |] [t w]]; [done| |done..].
  intros [= <-]. cbn. by apply (Hm (t, w)).
Qed.

Lemma spawnless_resolve fuel state ctx prompt score tier :
  spawnless (resolve_loop others rfc3339 fuel state ctx prompt score tier).
Proof. by apply evolves_resolve; try exact _. Qed.

Lemma spawnless_reserve state ctx headers request resolved vc :
  spawnless (reserve_funds others rfc3339 post vault_others state ctx headers request resolved vc).
Proof. apply evolves_reserve_funds; try exact _; [done|]. intros. by apply leaves_in_vault. Qed.
Hint Resolve spawnless_resolve spawnless_reserve : arb.

(** ** A dropped request bills nobody *)

Lemma streaming_spawns_last state ctx request resolved :
  spawns_last (handle_streaming_path others rfc3339 upstream state ctx request resolved).
Proof.
  unfold handle_streaming_path. apply last_bind; [auto with arb|intros provider].
  apply last_then_prompt.
  - apply last_guarded. unfold send_streaming. apply last_bind; [auto with arb|intros start].
    apply last_bind; [apply evolves_modify; done|intros _]. destruct (upstream 0 _) as [d r].
    apply last_bind; [auto with arb|intros _].
    apply last_bind; [auto with arb|intros _]. apply prompt_last. by destruct (reply_result _ _ _).
  - intros r. apply (quick_prompt (rc_probe_provider resolved) None), (quick_finish_streaming others); exact _.
Qed.

Lemma non_streaming_spawns_last state ctx request resolved :
  spawns_last (handle_non_streaming_path others rfc3339 upstream state ctx request resolved).
Proof.
  unfold handle_non_streaming_path. apply last_bind.
  - apply evolves_guarded; [exact _..|]. apply evolves_retry; exact _.
  - intros [tr atts].
    apply prompt_last, (quick_prompt (rc_probe_provider resolved) None), (quick_finish_non_streaming others); exact _.
Qed.

Lemma chat_spawns_last state request_id headers request :
  spawns_last (chat_completions others rfc3339 upstream post vault_others state request_id headers request).
Proof.
  unfold chat_completions. apply last_bind; [auto with arb|intros start]. cbv zeta. apply last_bind.
  { unfold resolve_candidates. destruct (initial_tier _ _ _). auto with arb. }
  assert (Hroute : forall ctx req rc, spawns_last (route others rfc3339 upstream state ctx req rc)).
  { intros. unfold route. destruct (cx_is_streaming _); [apply streaming_spawns_last|apply non_streaming_spawns_last]. }
  intros [rc|resp]; [|apply spawnless_last; auto with arb]. destruct (st_vault state); [|apply Hroute].
  apply last_bind; [apply spawnless_reserve|]. intros [[ctx' req']|resp]; [apply Hroute|].
  apply spawnless_last. auto with arb.
Qed.

(** C8: a dropped request bills nobody.  When its future is dropped before the response, at
    any await, the handler has spawned no task: whatever reservation it holds is neither
    settled nor released, and nothing is stored for the reconciliation to find. *)
Theorem dropped_request_bills_nobody state request_id headers request (dl : Instant) st st' :
  chat_completions others rfc3339 upstream post vault_others state request_id headers request
    (Some dl) st = (Elapsed, st') ->
  aw_spawned (snd st') = aw_spawned (snd st).
Proof. apply chat_spawns_last. Qed.

(** ** A dropped request resolves its probe *)

Section WithLedger.
Context (P : option string -> AppWorld -> Prop) `{!Ledger others P}.

Lemma cut_guarded {A} dl probe (m : Timed AppWorld A) st Q :
  cut dl m st Q (fun st' => P probe (snd st')) ->
  cut dl (with_probe_guard others probe m) st Q (fun st' => P None (snd st')).
Proof.
  destruct probe as [name|]; [|done]. intros Hc. apply cut_on_drop. eapply cut_mono; [exact Hc|done|].
  intros [t w] Hp. cbn in *. unfold guard_drop. cbn.
  apply (ledger_resolve name t (RProbeFailure name "dropped" "probe dropped without resolution")); [done|].
  by apply ledger_others.
Qed.

(** The retry loop leaves the breakers alone, cut or not. *)
Lemma retry_cut dl ctx request resolved t w :
  t <= dl -> rc_candidates resolved <> [] ->
  cut dl (retry_under_deadline upstream ctx request resolved) (t, w)
    (fun _ st' => aw_registry (snd st') = aw_registry w /\ aw_accesses (snd st') = aw_accesses w)
    (fun st' => aw_registry (snd st') = aw_registry w /\ aw_accesses (snd st') = aw_accesses w).
Proof.
  intros Ht Hne. unfold retry_under_deadline. cut_steps. unfold cut at 1. apply cut_zoom. cbn [fst snd].
  set (infos := map _ (rc_candidates resolved)). set (send := send_candidate _ _ _ _).
  assert (Hi : infos <> []) by (unfold infos; by destruct (rc_candidates resolved)).
  apply cut_bind. unfold cut. destruct (Z.leb_spec (t + RETRY_TIMEOUT) dl) as [Hle|Hlt].
  - destruct (retry_exits send infos t (t + RETRY_TIMEOUT) Hi) as (x & t' & s' & Hrun & _ & _ & Hx).
    { unfold RETRY_TIMEOUT, secs. lia. }
    rewrite t_timeout_at_first by (intros o [= <-]; lia). rewrite Hrun. by destruct x as [[v|e]| | |].
  - destruct (retry_exits send infos t dl Hi Ht) as (x & t' & s' & Hrun & _ & _ & Hx).
    rewrite t_timeout_at_later by lia. unfold t_bind. rewrite Hrun. by destruct x as [[v|e]| | |].
Qed.

Lemma route_cut dl state ctx request resolved t w :
  t <= dl -> rc_candidates resolved <> [] -> P (rc_probe_provider resolved) w ->
  cut dl (route others rfc3339 upstream state ctx request resolved) (t, w)
    (fun _ st' => P None (snd st')) (fun st' => P None (snd st')).
Proof.
  intros Ht Hne Hp. unfold route. destruct (cx_is_streaming ctx).
  - unfold handle_streaming_path, t_index. destruct (rc_candidates resolved) as [|c rest]; [done|].
    cbn [lookup list_lookup]. apply cut_bind, cut_wpd, wp_ret, cut_bind, cut_guarded.
    unfold send_streaming. cut_steps. destruct (upstream 0 _) as [d r].
    assert (Hp1 : P (rc_probe_provider resolved) (with_sent w [sp_name c])) by (by apply (ledger_frame _ w)).
    apply cut_bind, cut_await; [exact Ht|intros Hd|exact Hp1]. apply cut_bind, cut_wpd.
    eapply wp_mono; [by apply (quick_yield others P)|]. intros _ [t2 w2] [_ Hp2]. cbn [fst snd] in *.
    assert (Hfin : forall r0 t3 w3, P (rc_probe_provider resolved) w3 ->
      cut dl (finish_streaming others rfc3339 state ctx resolved r0) (t3, w3)
        (fun _ st' => P None (snd st')) (fun st' => P None (snd st'))).
    { intros r0 t3 w3 Hp3. apply cut_wpd. eapply wp_mono; [by apply (quick_finish_streaming others rfc3339 P)|].
      by intros a st' [_ ?]. }
    destruct (reply_result c r _); unfold spawn; cut_steps; apply Hfin; [by apply (ledger_frame _ w2)|done].
  - unfold handle_non_streaming_path. apply cut_bind, cut_guarded.
    eapply cut_mono; [by apply retry_cut| |].
    + intros [tr atts] [t1 w1] [Hr Ha]. cbn [snd] in *. apply cut_wpd.
      eapply wp_mono; [apply (quick_finish_non_streaming others rfc3339 P); by apply (ledger_frame _ w)|].
      by intros a st' [_ ?].
    + intros st' [Hr Ha]. by apply (ledger_frame _ w).
Qed.

(** The whole handler, without billing, for any ledger that holds once the candidates are
    resolved. *)
Lemma chat_cut state request_id headers request dl t w :
  st_vault state = None ->
  (forall ctx, cut dl (resolve_candidates others rfc3339 state ctx (user_prompt request) (messages request)
                         (parse_complexity headers)) (t, w)
    (fun r st' => match r with
     | Ok rc => fst st' <= dl /\ rc_candidates rc <> [] /\ P (rc_probe_provider rc) (snd st')
     | Err _ => P None (snd st')
     end) (fun st' => P None (snd st'))) ->
  cut dl (chat_completions others rfc3339 upstream post vault_others state request_id headers request) (t, w)
    (fun _ st' => P None (snd st')) (fun st' => P None (snd st')).
Proof.
  intros Hv Hres. unfold chat_completions. cut_steps. cbv zeta. eapply cut_mono; [apply Hres| |done].
  intros r [t1 w1] Hr. cbn [fst snd] in *. destruct r as [rc|resp]; [|by cut_steps].
  rewrite Hv. destruct Hr as (Ht & Hne & Hr). by apply route_cut.
Qed.

End WithLedger.

(** C10: a dropped request resolves its probe.  Without billing, from a registry with no probe
    in flight and at most one breaker due, and with other tasks that only record outcomes:
    whenever the client goes away, before, during or after the provider calls, the registry
    that is left has no probe in flight again. *)
Theorem dropped_request_resolves_its_probe state request_id headers request (dl t : Instant) w :
  (forall n, only_record (others n)) -> (forall n, dated t (others n)) -> st_vault state = None -> t <= dl ->
  calm (aw_registry w) -> one_due t (aw_registry w) ->
  cut dl (chat_completions others rfc3339 upstream post vault_others state request_id headers request) (t, w)
    (fun _ st' => calm (aw_registry (snd st'))) (fun st' => calm (aw_registry (snd st'))).
Proof.
  intros Ho Hd Hv Ht Hcalm Hone. pose proof (ledger_blocked others Ho) as HL.
  apply (chat_cut blocked_ledger); [done|]. intros ctx. apply cut_wpd. eapply wp_mono; [by apply resolve_one_due|].
  intros [rc|resp] st' [Heq Hr]; [|exact Hr]. split; [by rewrite Heq|exact Hr].
Qed.

End Disconnect.

(** ** Witnesses, and what a disconnect during the reservation leaves behind *)

Section DisconnectWitnesses.
#[local] Existing Instances AsciiCase VersionedWatch InsertionOrder json_bill deps_bill http_bill serde_bill.

(** The client leaves 100 ms into a request whose reservation was accepted after 5 ms: the
    vault has it on its books, nobody will settle or release it. *)
Definition dropped_run (dl : Instant) (reg : Registry) : exit Response * (Instant * AppWorld) :=
  chat_completions alone clock upstream_ex post_reserve no_others (state_ex (Some client_ex)) "req-1"
    (headers_ex (Some "Bearer agent")) request_ex (Some dl) (secs 30, world_ex reg).

Lemma dropped_request_bills_nobody_witness :
  let '(x, (_, w)) := dropped_run (secs 30 + millis 100) (Registry_new ["alpha"]) in
  x = Elapsed /\ map (fun c => (lc_call c, lc_accepted c)) (w_calls (aw_vault w))
    = [(CallReserve "agent" 81921 "req-1" "gpt-4o", true)] /\
  aw_sent w = ["alpha"] /\ aw_spawned w = [].
Proof.
  pose proof (dropped_request_bills_nobody alone clock upstream_ex post_reserve no_others
    (state_ex (Some client_ex)) "req-1" (headers_ex (Some "Bearer agent")) request_ex (secs 30 + millis 100)
    (secs 30, world_ex (Registry_new ["alpha"]))) as Hd.
  fold (dropped_run (secs 30 + millis 100) (Registry_new ["alpha"])) in Hd.
  destruct (dropped_run _ _) as [x [t w]] eqn:E.
  assert (Hx : x = Elapsed) by (apply (f_equal fst) in E; vm_compute in E; congruence).
  assert (Hc : map (fun c => (lc_call c, lc_accepted c)) (w_calls (aw_vault w))
    = [(CallReserve "agent" 81921 "req-1" "gpt-4o", true)] /\ aw_sent w = ["alpha"])
    by (apply (f_equal (fun r => snd (snd r))) in E; vm_compute in E; subst w; split; reflexivity).
  destruct Hc as [Hc Hs]. split; [exact Hx|]. split; [exact Hc|]. split; [exact Hs|].
  subst x. exact (Hd (t, w) eq_refl).
Defined.

Lemma dropped_request_resolves_its_probe_witness :
  cut (secs 30 + millis 100)
    (chat_completions alone clock upstream_ex post_reserve no_others (state_ex None) "req-1"
       (headers_ex None) request_ex) (secs 30, world_ex recovering)
    (fun _ st' => calm (aw_registry (snd st'))) (fun st' => calm (aw_registry (snd st'))).
Proof.
  apply dropped_request_resolves_its_probe.
  - intros n. constructor.
  - intros n. constructor.
  - reflexivity.
  - vm_compute. discriminate.
  - exact calm_recovering.
  - apply one_due_alpha.
Defined.

(** With billing there is an await before the guard exists: a client that leaves during the
    reservation takes the probe with it, and the reservation too. *)
Example disconnect_during_reservation :
  let '(x, (_, w)) := dropped_run (secs 30 + millis 2) recovering in
  x = Elapsed /\ aw_spawned w = [] /\ map lc_accepted (w_calls (aw_vault w)) = [true] /\
  option_map (fun cb => (CircuitBreaker.state (inner cb), probe_in_flight (inner cb)))
    (aw_registry w !! "alpha") = Some (HalfOpen, true).
Proof. vm_compute. split_and!; reflexivity. Qed.

End DisconnectWitnesses.
