(* ===== verification/Logging.v ===== *)
(** * One log entry per request

    Every chat completion request that is answered sends exactly one entry to the database
    writer, which agrees with the response; a request whose client goes away sends none.
    Stated for the handler alone: the other tasks leave the writer alone meanwhile. *)

From S2P Require Import Prelude Machine RustStr Timed Config Errors Types Router Complexity.
From S2P Require Import CircuitBreaker Retry Storage Vault Http Handlers Frames Billing Liveness.

Section Logging.
Context `{Watch} `{HttpDeps} `{ScorerDeps} `{UnicodeCase} `{SerdeJson} `{!VaultSerde} `{SqlOrder}.
Context (others : nat -> Interference) (rfc3339 : Instant -> string).
Context (upstream : nat -> UpstreamRequest -> Duration * result UpstreamReply string).
Context (post : nat -> VaultCall -> Duration * result VaultReply SendError).
Context (vault_others : nat -> list PendingSettlement).
Hypothesis writer_alone : forall n, if_writer (others n) = [].
Implicit Types (w : AppWorld) (state : AppState) (ctx : RequestContext).

#[local] Instance undisturbed_writer : Undisturbed others (same_part aw_writer).
Proof. split; intros; unfold same_part; cbn; by rewrite writer_alone. Qed.
Hint Resolve undisturbed_writer : arb.

(** What the entry of a request says, given its response. *)
Definition log_agrees ctx (resp : Response) (log : RequestLog) : Prop :=
  correlation_id log = cx_correlation_id ctx /\ rl_model log = cx_model ctx /\
  rl_policy log = cx_policy_name ctx /\ rl_streaming log = cx_is_streaming ctx /\
  if rl_success log
  then resp_status resp = 200 /\ is_Some (rl_provider log) /\
       rl_error_status log = None /\ rl_error_message log = None
  else 400 <= resp_status resp < 600 /\ rl_cost_sats log = None /\
       is_Some (rl_error_status log) /\ is_Some (rl_error_message log).

(** The entry of a failure. *)
Lemma error_agrees ctx resp log :
  correlation_id log = cx_correlation_id ctx /\ rl_model log = cx_model ctx /\
  rl_policy log = cx_policy_name ctx /\ rl_streaming log = cx_is_streaming ctx /\
  rl_success log = false /\ rl_cost_sats log = None /\
  is_Some (rl_error_status log) /\ is_Some (rl_error_message log) ->
  400 <= resp_status resp < 600 -> log_agrees ctx resp log.
Proof. intros (? & ? & ? & ? & Hs & ? & ? & ?) Hr. unfold log_agrees. by rewrite Hs. Qed.

(** The entry of a success. *)
Lemma success_agrees ctx resp log :
  correlation_id log = cx_correlation_id ctx /\ rl_model log = cx_model ctx /\
  rl_policy log = cx_policy_name ctx /\ rl_streaming log = cx_is_streaming ctx /\
  rl_success log = true /\ is_Some (rl_provider log) /\
  rl_error_status log = None /\ rl_error_message log = None ->
  resp_status resp = 200 -> log_agrees ctx resp log.
Proof. intros (? & ? & ? & ? & Hs & ? & ? & ?) Hr. unfold log_agrees. by rewrite Hs. Qed.

(** [m] sends one entry, which satisfies [R]; cut, it sends none. *)
Definition logs_one {A} (R : A -> RequestLog -> Prop) (m : Timed AppWorld A) : Prop :=
  forall dl st,
    match m dl st with
    | (Done a, st') => exists log, aw_writer (snd st') = log_write log (aw_writer (snd st)) /\ R a log
    | (Elapsed, st') => aw_writer (snd st') = aw_writer (snd st)
    | _ => True
    end.

(** [m] ends at once with such a value and leaves the writer alone. *)
Definition closes {A} (Q : A -> Prop) (m : Timed AppWorld A) : Prop :=
  forall dl st, exists a st', m dl st = (Done a, st') /\ aw_writer (snd st') = aw_writer (snd st) /\ Q a.

Lemma closes_ret {A} (Q : A -> Prop) a : Q a -> closes Q (t_ret a).
Proof. intros HQ dl st. by exists a, st. Qed.

Lemma closes_bind {A B} (Q : B -> Prop) (m : Timed AppWorld A) (k : A -> Timed AppWorld B) :
  closes (fun _ => True) m -> (forall a, closes Q (k a)) -> closes Q (t_bind m k).
Proof.
  intros Hm Hk dl st. destruct (Hm dl st) as (a & p & Hr & Hw & _). destruct (Hk a dl p) as (b & p' & Hr' & Hw' & HQ).
  exists b, p'. rewrite (t_bind_done _ _ _ _ _ _ Hr), Hw', Hw. done.
Qed.

Lemma closes_release state ctx reason : closes (fun _ => True) (spawn_release state ctx reason).
Proof.
  unfold spawn_release. destruct (st_vault state), (cx_reservation_id ctx); try (by apply closes_ret).
  intros dl st. by eexists _, _.
Qed.

Lemma closes_settle state ctx msats md : closes (fun _ => True) (spawn_settle state ctx msats md).
Proof.
  unfold spawn_settle. destruct (st_vault state), (cx_reservation_id ctx); try (by apply closes_ret).
  intros dl st. by eexists _, _.
Qed.

Lemma one_before {A B} R (m : Timed AppWorld A) (k : A -> Timed AppWorld B) (U : A -> Prop) :
  leaves aw_writer m -> returns U m -> (forall a, U a -> logs_one R (k a)) -> logs_one R (t_bind m k).
Proof.
  intros Hm HU Hk dl st. specialize (Hm dl st). unfold t_bind.
  destruct (m dl st) as [[a| | |] p] eqn:E; cbn [snd] in *; [|done..].
  specialize (Hk a (HU _ _ _ _ E) dl p). by rewrite Hm in Hk.
Qed.

Lemma one_before_any {A B} R (m : Timed AppWorld A) (k : A -> Timed AppWorld B) :
  leaves aw_writer m -> (forall a, logs_one R (k a)) -> logs_one R (t_bind m k).
Proof. intros Hm Hk. apply (one_before R m k (fun _ => True)); auto using returns_any. Qed.

Lemma one_after {A B} R R' (m : Timed AppWorld A) (k : A -> Timed AppWorld B) :
  logs_one R m -> (forall a, closes (fun b => forall log, R a log -> R' b log) (k a)) -> logs_one R' (t_bind m k).
Proof.
  intros Hm Hk dl st. specialize (Hm dl st). unfold t_bind.
  destruct (m dl st) as [[a| | |] p]; [|done..]. destruct Hm as (log & Hw & HR).
  destruct (Hk a dl p) as (b & p' & -> & Hw' & HR'). exists log. rewrite Hw'. auto.
Qed.

(** The entry, then the rest. *)
Lemma one_write {B} state (R : B -> RequestLog -> Prop) log (k : unit -> Timed AppWorld B) :
  st_db_writer state = true -> closes (fun b => forall now, R b (log now)) (k tt) ->
  logs_one R (t_bind (write_log state log) k).
Proof.
  intros Hs Hk. apply (one_after (fun _ l => exists now, l = log now)).
  - intros dl st. unfold write_log. rewrite Hs. cbn. eexists. split; [reflexivity|]. by eexists.
  - intros []. intros dl st. destruct (Hk dl st) as (b & p & Hr & Hw & HR). exists b, p.
    split_and!; [done..|]. by intros l [now ->].
Qed.

Lemma refuse_logs_one state ctx c m s tr e :
  st_db_writer state = true -> logs_one (log_agrees ctx) (refuse rfc3339 state ctx c m s tr e).
Proof.
  intros Hs. unfold refuse. apply one_before_any; [auto with arb|intros l]. apply one_write; [done|].
  apply closes_ret. intros now. apply error_agrees; [done|]. rewrite attach_status. apply Error_status_range.
Qed.

(** A step that may refuse the request: the refusal is logged, the rest is not. *)
Definition logs_refusal {A} ctx (U : A -> Prop) (m : Timed AppWorld (result A Response)) : Prop :=
  forall dl st,
    match m dl st with
    | (Done (Ok a), st') => aw_writer (snd st') = aw_writer (snd st) /\ U a
    | (Done (Err resp), st') =>
        exists log, aw_writer (snd st') = log_write log (aw_writer (snd st)) /\ log_agrees ctx resp log
    | (Elapsed, st') => aw_writer (snd st') = aw_writer (snd st)
    | _ => True
    end.

Lemma refusal_bind {A B} ctx U (m : Timed AppWorld A) (k : A -> Timed AppWorld (result B Response)) :
  leaves aw_writer m -> (forall a, logs_refusal ctx U (k a)) -> logs_refusal ctx U (t_bind m k).
Proof.
  intros Hm Hk dl st. specialize (Hm dl st). unfold t_bind.
  destruct (m dl st) as [[a| | |] p]; cbn [snd] in *; [|done..].
  specialize (Hk a dl p). by rewrite Hm in Hk.
Qed.

Lemma refusal_ok {A} ctx (U : A -> Prop) a : U a -> logs_refusal ctx U (t_ret (Ok a)).
Proof. by intros HU dl st. Qed.

Lemma refusal_err {A} ctx (U : A -> Prop) (m : Timed AppWorld Response) :
  logs_one (log_agrees ctx) m -> logs_refusal ctx U (let! r := m in t_ret (Err r)).
Proof.
  intros Hm dl st. specialize (Hm dl st). unfold t_bind.
  destruct (m dl st) as [[resp| | |] p]; done.
Qed.

Lemma one_refusal {A} ctx U (m : Timed AppWorld (result A Response)) (k : result A Response -> Timed AppWorld Response) :
  logs_refusal ctx U m -> (forall a, U a -> logs_one (log_agrees ctx) (k (Ok a))) ->
  (forall resp, k (Err resp) = t_ret resp) -> logs_one (log_agrees ctx) (t_bind m k).
Proof.
  intros Hm Hok Herr dl st. specialize (Hm dl st). unfold t_bind.
  destruct (m dl st) as [[[a|resp]| | |] p]; [|by rewrite Herr|done..].
  destruct Hm as [Hw HU]. specialize (Hok a HU dl p). by rewrite Hw in Hok.
Qed.

Lemma resolve_logs_refusal fuel state ctx prompt score tier :
  st_db_writer state = true ->
  logs_refusal ctx (fun _ => True) (resolve_loop others rfc3339 fuel state ctx prompt score tier).
Proof.
  intros Hs. revert tier. induction fuel as [|fuel IH]; intros tier; cbn [resolve_loop].
  { by intros [dl|] st. }
  assert (Hr : forall c m s tr e,
    logs_refusal ctx (fun _ => True) (let! r := refuse rfc3339 state ctx c m s tr e in t_ret (@Err ResolvedCandidates _ r)))
    by (intros; by apply refusal_err, refuse_logs_one).
  destruct (select_candidates _ _ _ _ _) as [cs|e].
  - apply refusal_bind; [auto with arb|]. intros [[|c rest] probe]; [|by apply refusal_ok].
    destruct (escalate tier); [apply IH|apply Hr].
  - destruct e; try apply Hr. destruct (escalate tier); [apply IH|apply Hr].
Qed.

Lemma reserve_logs_refusal state ctx headers request resolved vc :
  st_db_writer state = true ->
  logs_refusal ctx (fun p => log_agrees (fst p) = log_agrees ctx /\ cx_is_streaming (fst p) = cx_is_streaming ctx)
    (reserve_funds others rfc3339 post vault_others state ctx headers request resolved vc).
Proof.
  intros Hs. set (U := fun p : RequestContext * ChatCompletionRequest => _).
  assert (Herr : forall c m body, 400 <= resp_status body < 600 ->
    logs_refusal ctx U (let! _ := log_refusal rfc3339 state ctx resolved c m in t_ret (Err body))).
  { intros c m body Hb dl st. unfold log_refusal, log_error_to_db, elapsed_ms, write_log. rewrite Hs. cbn.
    eexists. split; [reflexivity|]. by apply error_agrees. }
  unfold reserve_funds. apply refusal_bind; [auto with arb|intros w].
  destruct (w_backpressure _); [apply Herr; simpl; lia|].
  destruct (match h_authorization headers with Some v => _ | None => _ end); [|apply Herr; simpl; lia].
  cbv zeta. apply refusal_bind; [auto with arb|intros rates]. apply refusal_bind; [auto with arb|intros r].
  apply refusal_bind; [auto with arb|intros _]. destruct r as [rv|e]; [by apply refusal_ok|].
  apply Herr. destruct e; simpl; lia.
Qed.

(** ** The two paths *)

Lemma guarded_returns {A} (V : A -> Prop) probe (m : Timed AppWorld A) :
  returns V m -> returns V (with_probe_guard others probe m).
Proof. intros Hm. destruct probe; [by apply returns_on_drop|done]. Qed.

Lemma retry_status ctx request resolved :
  returns (fun r => forall o, fst r = Some (Ok o) -> resp_status (ro_response o) = 200)
    (retry_under_deadline upstream ctx request resolved).
Proof.
  eapply returns_bind; [apply returns_any|intros now _]. apply returns_zoom.
  eapply returns_bind; [apply returns_timeout, retry_value|intros r Hr].
  eapply returns_bind; [apply returns_any|intros s _]. apply returns_ret. cbn [fst]. intros o ->.
  destruct Hr as (n & c & Hv). unfold send_candidate in Hv. destruct (List.find _ _) as [provider|]; [|done].
  destruct (upstream n _) as [d x]. cbn [snd] in Hv. unfold reply_result in Hv. destruct x as [reply|e]; [|done].
  destruct (negb _); [done|]. unfold handle_non_streaming_response in Hv. by inv_res.
Qed.

Lemma non_streaming_logs_one state ctx request resolved :
  st_db_writer state = true ->
  logs_one (log_agrees ctx) (handle_non_streaming_path others rfc3339 upstream state ctx request resolved).
Proof.
  intros Hs. unfold handle_non_streaming_path. eapply one_before.
  { apply evolves_guarded; [exact _..|]. apply evolves_retry; exact _. }
  { apply guarded_returns, retry_status. }
  intros [tr atts] Hst. cbn [fst] in Hst. unfold finish_non_streaming.
  apply one_before_any; [auto with arb|intros _]. apply one_before_any; [auto with arb|intros l].
  apply one_before_any; [auto with arb|intros _]. apply one_before_any; [auto with arb|intros _].
  destruct tr as [[o|e]|]; [unfold respond_success|unfold respond_error|unfold respond_timeout]; cbv zeta;
    (apply one_write; [done|]; apply closes_bind; [apply closes_settle || apply closes_release|intros _];
     apply closes_ret; intros now).
  - apply success_agrees; [done|].
    rewrite attach_retries_status, attach_complexity_status, attach_status. by apply Hst.
  - apply error_agrees; [done|]. rewrite attach_retries_status, attach_status. apply Error_status_range.
  - apply error_agrees; [done|]. rewrite attach_retries_status, attach_status. simpl. lia.
Qed.

Lemma send_status state ctx request resolved provider :
  returns (fun r => forall o, r = Ok o -> resp_status (ro_response o) = 200)
    (send_streaming others upstream state ctx request resolved provider).
Proof.
  unfold send_streaming. do 2 (apply returns_after; intros ?). destruct (upstream 0 _) as [d r].
  do 2 (apply returns_after; intros ?). destruct (reply_result _ _ _); [|by apply returns_ret].
  apply returns_after; intros ?. apply returns_ret. by intros o [= <-].
Qed.

Lemma streaming_logs_one state ctx request resolved :
  st_db_writer state = true ->
  logs_one (log_agrees ctx) (handle_streaming_path others rfc3339 upstream state ctx request resolved).
Proof.
  intros Hs. unfold handle_streaming_path. apply one_before_any; [auto with arb|intros provider].
  apply (one_before _ _ _ (fun r => forall o, r = Ok o -> resp_status (ro_response o) = 200)).
  - apply evolves_guarded; [exact _..|]. unfold send_streaming. apply evolves_bind; [exact _|auto with arb|intros start].
    apply evolves_bind; [exact _|by apply evolves_modify|intros _]. destruct (upstream 0 _) as [d r]. evolves_tac.
  - apply guarded_returns, send_status.
  - intros r Hst. unfold finish_streaming. apply one_before_any; [auto with arb|intros _].
    apply one_before_any; [auto with arb|intros l]. destruct r as [o|e]; cbv zeta; (apply one_write; [done|]).
    + apply closes_ret. intros now. apply success_agrees; [done|].
      rewrite attach_complexity_status, attach_status. by apply Hst.
    + apply closes_bind; [apply closes_release|intros _]. apply closes_ret. intros now.
      apply error_agrees; [done|]. rewrite attach_status. apply Error_status_range.
Qed.

(** C7: every answered request is logged, exactly once, and the entry agrees with the
    response: request id, model, policy and streaming flag are the request's; a success has a
    200 response, a provider and no error; a failure has a 4xx or 5xx response, an error status
    and message, and no cost.  A request whose client goes away is not logged at all. *)
Theorem every_request_is_logged_once state request_id headers request dl st :
  st_db_writer state = true ->
  match chat_completions others rfc3339 upstream post vault_others state request_id headers request dl st with
  | (Done resp, st') => exists log,
      aw_writer (snd st') = log_write log (aw_writer (snd st)) /\
      log_agrees {| cx_correlation_id := request_id; cx_model := model request;
                    cx_policy_name := h_policy headers; cx_is_streaming := default false (stream request);
                    cx_start := fst st; cx_reservation_id := None |} resp log
  | (Elapsed, st') => aw_writer (snd st') = aw_writer (snd st)
  | _ => True
  end.
Proof.
  intros Hs. unfold chat_completions. rewrite (t_bind_done _ _ _ _ (fst st) st) by reflexivity. cbv beta zeta.
  set (ctx := Build_RequestContext _ _ _ _ _ _).
  match goal with |- context [t_bind ?m ?k dl st] =>
    enough (Hone : logs_one (log_agrees ctx) (t_bind m k)) by exact (Hone dl st) end.
  assert (Hroute : forall ctx' req rc, log_agrees ctx' = log_agrees ctx ->
    logs_one (log_agrees ctx) (route others rfc3339 upstream state ctx' req rc)).
  { intros ctx' req rc Hc. rewrite <- Hc. unfold route.
    destruct (cx_is_streaming ctx'); [by apply streaming_logs_one|by apply non_streaming_logs_one]. }
  eapply one_refusal; [|intros rc _|done].
  { unfold resolve_candidates. destruct (initial_tier _ _ _). by apply resolve_logs_refusal. }
  destruct (st_vault state); [|by apply Hroute].
  eapply one_refusal; [by apply reserve_logs_refusal| |done]. intros [ctx' req'] [Hc _]. by apply Hroute.
Qed.

End Logging.

Section LoggingWitness.
#[local] Existing Instances AsciiCase VersionedWatch InsertionOrder json_bill deps_bill http_bill serde_bill.

(** The billed request of [Billing]: its entry, in the queue of the writer. *)
Lemma every_request_is_logged_once_witness :
  exists log, aw_writer (snd (snd (run_ex (Some "Bearer agent") 0 (world_ex (Registry_new ["alpha"])))))
    = log_write log (aw_writer (world_ex (Registry_new ["alpha"]))) /\ correlation_id log = "req-1" /\ rl_success log = true.
Proof.
  assert (Hs : st_db_writer (state_ex (Some client_ex)) = true) by reflexivity.
  pose proof (every_request_is_logged_once alone clock upstream_ex post_reserve no_others (fun _ => eq_refl)
    (state_ex (Some client_ex)) "req-1" (headers_ex (Some "Bearer agent")) request_ex None
    (0, world_ex (Registry_new ["alpha"])) Hs) as Hl.
  change (chat_completions alone _ _ _ _ _ _ _ _ None _)
    with (run_ex (Some "Bearer agent") 0 (world_ex (Registry_new ["alpha"]))) in Hl.
  assert (Hr : option_map resp_status (match fst (run_ex (Some "Bearer agent") 0 (world_ex (Registry_new ["alpha"])))
                 with Done r => Some r | _ => None end) = Some 200) by (vm_compute; reflexivity).
  revert Hl Hr. generalize (run_ex (Some "Bearer agent") 0 (world_ex (Registry_new ["alpha"]))).
  intros [[resp| | |] st'] Hl Hr; [|done..]. destruct Hl as (log & Hw & Ha).
  exists log. destruct Ha as (Hc & _ & _ & _ & Ha). cbn [snd] in *. split; [exact Hw|]. split; [exact Hc|].
  destruct (rl_success log); [done|]. cbn in Hr. injection Hr as Hr. rewrite Hr in Ha. lia.
Defined.

End LoggingWitness.
