(* ===== verification/Streaming.v ===== *)
(** * The background task of a streaming response ([src/src/proxy/handlers.rs])

    [handle_streaming_response] spawns a task that forwards the provider's chunks to the
    client, then reads the observer's result, sends a trailing event, updates the request's
    row and settles or releases the reservation.  The stream is pinned in the task
    ([pin_mut!]), so the observer it owns is dropped when the task ends: the end of the task
    is the [ws_drop] of [run_stream_task], after everything else.

    [arrival n] is how long the n-th item (or the end of the stream) takes, [client n] how
    long the n-th send to the response channel waits and whether the channel is still open,
    [writer_others] what other tasks do with the database writer at each await. *)

From S2P Require Import Prelude Machine RustStr Timed Config Errors Types Router Sse Storage.
From S2P Require Import Vault Complexity CircuitBreaker Retry Http Handlers.

(** The JSON values the task builds itself. *)
Inductive Json :=
| JNull
| JFloat (x : f64)
| JInt (n : Z)
| JString (s : string)
| JObject (fields : list (string * Json)).

(** [serde_json::to_string] on them; [None] is the error. *)
Class JsonText := json_text : Json -> option string.

(** [serde_json::Number::from_f64]: [None] unless finite. *)
Definition json_of_f64 (x : option f64) : Json :=
  match x with
  | Some v => if f64_is_finite v then JFloat v else JNull
  | None => JNull
  end.

Definition trailing_json (cost_sats : option f64) (latency_ms : Z) (complexity_score : option f64)
    (tier : option string) : Json :=
  JObject [("arbstr", JObject
    [("cost_sats", json_of_f64 cost_sats); ("latency_ms", JInt latency_ms);
     ("complexity_score", json_of_f64 complexity_score);
     ("tier", match tier with Some t => JString t | None => JNull end)])].

Definition newline : string := String nl EmptyString.

Definition build_trailing_sse_event `{JsonText} (cost_sats : option f64) (latency_ms : Z)
    (complexity_score : option f64) (tier : option string) : list ascii :=
  let json_str := default "" (json_text (trailing_json cost_sats latency_ms complexity_score tier)) in
  String.list_ascii_of_string
    ("data: " +:+ json_str +:+ newline +:+ newline +:+ "data: [DONE]" +:+ newline +:+ newline).

(** ** The task *)

Definition Item : Type := result (list ascii) string.

Record StreamWorld := mkStream {
  sw_stream : WrappedStream;
  sw_delivered : list Item;   (** what the channel to the client took *)
  sw_sends : nat;             (** sends tried on the channel *)
  sw_awaits : nat;
  sw_writer : DbWriter;
  sw_vault : World;
}.

Definition sw_with_stream (w : StreamWorld) (s : WrappedStream) : StreamWorld :=
  mkStream s (sw_delivered w) (sw_sends w) (sw_awaits w) (sw_writer w) (sw_vault w).
Definition sw_with_send (w : StreamWorld) (items : list Item) : StreamWorld :=
  mkStream (sw_stream w) (sw_delivered w ++ items) (S (sw_sends w)) (sw_awaits w) (sw_writer w) (sw_vault w).
Definition sw_with_writer (w : StreamWorld) (d : DbWriter) : StreamWorld :=
  mkStream (sw_stream w) (sw_delivered w) (sw_sends w) (sw_awaits w) d (sw_vault w).
Definition sw_with_vault (w : StreamWorld) (v : World) : StreamWorld :=
  mkStream (sw_stream w) (sw_delivered w) (sw_sends w) (sw_awaits w) (sw_writer w) v.

Section Task.
Context `{SerdeJson} `{!VaultSerde} `{SqlOrder} `{JsonText}.
Context (arrival : nat -> Duration) (client : nat -> Duration * bool).
Context (writer_others : nat -> list writer_event).
Context (post : nat -> VaultCall -> Duration * result VaultReply SendError).
Context (vault_others : nat -> list PendingSettlement) (db_error : nat -> option string).

(** The other tasks' turn with the writer. *)
Definition sw_yield : Timed StreamWorld unit :=
  t_modify (fun w => mkStream (sw_stream w) (sw_delivered w) (sw_sends w) (S (sw_awaits w))
                       (writer_run (writer_others (sw_awaits w)) (sw_writer w)) (sw_vault w)).

(** [tx.send(item).await]: whether the channel took it. *)
Definition tx_send (item : Item) : Timed StreamWorld bool :=
  let! w := t_get in
  let '(d, open) := client (sw_sends w) in
  let! _ := t_await d in
  let! _ := sw_yield in
  let! _ := t_modify (fun w => sw_with_send w (if open then [item] else [])) in
  t_ret open.

(** [observed_stream.next().await] on a stream that has the item. *)
Definition next_item (n : nat) (item : Item) : Timed StreamWorld Item :=
  let! _ := t_await (arrival n) in
  let! _ := sw_yield in
  let! w := t_get in
  let '(out, s) := ws_next item (sw_stream w) in
  let! _ := t_modify (fun w => sw_with_stream w s) in
  t_ret out.

(** The forward loop, from the n-th item: whether the client is still connected. *)
Fixpoint forward (n : nat) (items : list Item) (client_connected : bool) : Timed StreamWorld bool :=
  match items with
  | [] =>
      let! _ := t_await (arrival n) in
      let! _ := sw_yield in
      t_ret client_connected
  | item :: items' =>
      let! chunk := next_item n item in
      let! connected := (if client_connected then tx_send chunk else t_ret false) in
      forward (S n) items' connected
  end.

(** [result_handle.lock().take()] *)
Definition take_result : Timed StreamWorld (option StreamResult) :=
  let! w := t_get in
  let! _ := t_modify (fun w => sw_with_stream w
    {| ws_observer := ws_observer (sw_stream w); ws_handle := None |}) in
  t_ret (ws_handle (sw_stream w)).

Definition stream_usage (provider : SelectedProvider) (r : option StreamResult)
    : option Z * option Z * option f64 :=
  match r with
  | Some sr =>
      match sr_usage sr with
      | Some usage =>
          (Some (prompt_tokens usage), Some (completion_tokens usage),
           Some (actual_cost_sats (prompt_tokens usage) (completion_tokens usage)
                   (sp_input_rate provider) (sp_output_rate provider) (sp_base_fee provider)))
      | None => (None, None, None)
      end
  | None => (None, None, None)
  end.

Definition completion_status (r : option StreamResult) (client_connected : bool) : bool * option string :=
  match r with
  | Some sr =>
      if sr_done_received sr then
        if client_connected then (true, None) else (true, Some "client_disconnected")
      else (false, Some "stream_incomplete")
  | None => (false, Some "stream_incomplete")
  end.

Definition sw_in_vault {A} (m : Timed World A) : Timed StreamWorld A := t_zoom sw_vault sw_with_vault m.

(** The last block: settle on success or usage, release otherwise. *)
Definition bill_stream (vault : option VaultClient) (db_pool : bool) (task : StreamTask)
    (usage : option Z * option Z * option f64) (success : bool) (duration_ms : Z) : Timed StreamWorld unit :=
  match vault, sk_reservation_id task with
  | Some vc, Some rid =>
      let '(input_tokens, output_tokens, cost_sats) := usage in
      if success || bool_decide (is_Some cost_sats) then
        sw_in_vault (spawn_vault_settle post vault_others db_error vc rid (cost_msats cost_sats)
          {| tokens_in := input_tokens; tokens_out := output_tokens;
             sm_provider := sp_name (sk_provider task); sm_latency_ms := duration_ms |} db_pool)
      else
        sw_in_vault (spawn_vault_release post vault_others db_error vc rid
                       "stream_incomplete_no_usage" db_pool)
  | _, _ => t_ret tt
  end.

Definition run_stream_task (writer : bool) (vault : option VaultClient) (db_pool : bool)
    (task : StreamTask) : Timed StreamWorld unit :=
  let! client_connected := forward 0 (sk_items task) true in
  let! now := t_now in
  let duration_ms := as_i64 (duration_since now (sk_start task) / millis 1) in
  let! stream_result := take_result in
  let '(input_tokens, output_tokens, cost_sats) := stream_usage (sk_provider task) stream_result in
  let '(success, error_message) := completion_status stream_result client_connected in
  let! _ := (if client_connected then
               let! _ := tx_send (Ok (build_trailing_sse_event cost_sats duration_ms
                                        (sk_complexity_score task) (sk_tier task))) in
               t_ret tt
             else t_ret tt) in
  let! _ := (if writer then
               t_modify (fun w => sw_with_writer w
                 (stream_completion_update (sk_correlation_id task) {|
                    sc_usage := {| uu_input_tokens := input_tokens; uu_output_tokens := output_tokens;
                                   uu_cost_sats := cost_sats |};
                    sc_stream_duration_ms := duration_ms; sc_success := success;
                    sc_error_message := error_message;
                    sc_complexity_score := sk_complexity_score task; sc_tier := sk_tier task |}
                    (sw_writer w)))
             else t_ret tt) in
  let! _ := bill_stream vault db_pool task (input_tokens, output_tokens, cost_sats) success duration_ms in
  let! _ := sw_yield in
  t_modify (fun w => sw_with_stream w {| ws_observer := ws_observer (sw_stream w);
                                         ws_handle := ws_drop (sw_stream w) |}).

(** ** What the task does *)

Lemma writer_run_app a b w : writer_run (a ++ b) w = writer_run b (writer_run a w).
Proof. apply fold_left_app. Qed.

(** A step that leaves the stream and the vault alone, and delivers [items]. *)
Definition delivers (items : list Item) (w w' : StreamWorld) : Prop :=
  sw_delivered w' = sw_delivered w ++ items /\ sw_vault w' = sw_vault w /\
  exists ev, sw_writer w' = writer_run ev (sw_writer w).

Lemma delivers_trans i1 i2 w1 w2 w3 : delivers i1 w1 w2 -> delivers i2 w2 w3 -> delivers (i1 ++ i2) w1 w3.
Proof.
  intros (Hd1 & Hv1 & e1 & He1) (Hd2 & Hv2 & e2 & He2). split_and!; [|congruence|].
  - by rewrite Hd2, Hd1, app_assoc.
  - exists (e1 ++ e2). by rewrite He2, He1, writer_run_app.
Qed.

Lemma tx_send_wp item t w :
  wp (tx_send item) (t, w) (fun open st' =>
    delivers (if open then [item] else []) w (snd st') /\ sw_stream (snd st') = sw_stream w /\
    open = snd (client (sw_sends w))).
Proof.
  unfold tx_send, sw_yield. wp_steps. destruct (client (sw_sends w)) as [d open]. wp_steps.
  unfold delivers; simpl. split_and!; try done. by eexists.
Qed.

Lemma next_item_wp n item t w :
  wp (next_item n item) (t, w) (fun out st' =>
    out = item /\ delivers [] w (snd st') /\ sw_stream (snd st') = snd (ws_next item (sw_stream w))).
Proof.
  unfold next_item, sw_yield. wp_steps. cbn [sw_stream]. destruct (ws_next item (sw_stream w)) as [out s] eqn:E.
  wp_steps. split; [by destruct item; injection E|]. split; [|done]. unfold delivers; simpl.
  rewrite app_nil_r. split_and!; [done..|by eexists].
Qed.

(** The loop delivers a prefix, and everything if the client stays. *)
Definition forwarded (items : list Item) (connected c : bool) (w w' : StreamWorld) : Prop :=
  exists k, delivers (firstn k items) w w' /\ sw_stream w' = snd (ws_run items (sw_stream w)) /\
    (connected = false -> k = 0%nat /\ c = false) /\
    (c = true -> firstn k items = items) /\
    (c = false -> connected = true -> exists n, snd (client n) = false).

Lemma ws_run_cons item items ws :
  snd (ws_run (item :: items) ws) = snd (ws_run items (snd (ws_next item ws))).
Proof. cbn [ws_run]. destruct (ws_next item ws) as [o s]. cbn [snd]. by destruct (ws_run items s). Qed.

Lemma forward_wp items : forall n connected t w,
  wp (forward n items connected) (t, w) (fun c st' => forwarded items connected c w (snd st')).
Proof.
  induction items as [|item items IH]; intros n connected t w; cbn [forward].
  - unfold sw_yield. wp_steps. exists 0%nat. unfold delivers; simpl. rewrite app_nil_r.
    split_and!; try done; [by eexists|]. by intros ->.
  - wp_steps. eapply wp_mono; [apply next_item_wp|]. intros chunk [t1 w1] (-> & Hd1 & Hs1). wp_steps.
    cbn [snd] in *.
    assert (Hrest : forall conn (sent : list Item) t2 w2, delivers sent w w2 ->
      sw_stream w2 = sw_stream w1 ->
      (conn = true -> sent = [item] /\ connected = true) ->
      (conn = false -> sent = [] /\ (connected = true -> exists n, snd (client n) = false)) ->
      wp (forward (S n) items conn) (t2, w2) (fun c st' => forwarded (item :: items) connected c w (snd st'))).
    { intros conn sent t2 w2 Hd2 Hs2 Hopen Hgone. eapply wp_mono; [apply IH|].
      intros c [t3 w3] (k & Hd3 & Hs3 & Hk & Hyes & Hno). cbn [snd] in *.
      rewrite Hs2, Hs1, <- ws_run_cons in Hs3. pose proof (delivers_trans _ _ _ _ _ Hd2 Hd3) as Hd.
      destruct conn.
      - destruct (Hopen eq_refl) as [-> ->]. exists (S k). split; [exact Hd|]. split_and!; [done|done| |auto].
        intros Hc. simpl. f_equal. auto.
      - destruct (Hgone eq_refl) as [-> Hn], (Hk eq_refl) as [-> ->].
        exists 0%nat. split; [exact Hd|]. split_and!; [done..|auto]. }
    destruct connected.
    + eapply wp_mono; [apply tx_send_wp|]. intros open [t2 w2] (Hd2 & Hs2 & Ho). cbn [snd] in *.
      eapply Hrest; [apply (delivers_trans _ _ _ _ _ Hd1 Hd2)|done|by intros ->|].
      intros ->. split; [done|]. eauto.
    + wp_steps. eapply Hrest; [exact Hd1|done..].
Qed.

Definition ok_bytes (items : list Item) : list (list ascii) :=
  flat_map (fun i => match i with Ok bytes => [bytes] | Err _ => [] end) items.

Lemma ws_run_observer items ws :
  ws_observer (snd (ws_run items ws)) = process_chunks (ok_bytes items) (ws_observer ws).
Proof.
  revert ws. induction items as [|item items IH]; intros ws; [done|]. rewrite ws_run_cons, IH.
  by destruct item.
Qed.

Lemma ws_run_handle items ws : ws_handle (snd (ws_run items ws)) = ws_handle ws.
Proof.
  revert ws. induction items as [|item items IH]; intros ws; [done|]. rewrite ws_run_cons, IH.
  by destruct item.
Qed.

(** A freshly spawned task. *)
Definition stream_start (d : DbWriter) (v : World) : StreamWorld := mkStream wrap_sse_stream [] 0 0 d v.

(** The update of a stream that gave no result. *)
Definition incomplete (task : StreamTask) (duration_ms : Z) : StreamCompletion := {|
  sc_usage := {| uu_input_tokens := None; uu_output_tokens := None; uu_cost_sats := None |};
  sc_stream_duration_ms := duration_ms; sc_success := false;
  sc_error_message := Some "stream_incomplete";
  sc_complexity_score := sk_complexity_score task; sc_tier := sk_tier task |}.

Definition trailing (task : StreamTask) (duration_ms : Z) : Item :=
  Ok (build_trailing_sse_event None duration_ms (sk_complexity_score task) (sk_tier task)).

(** What the client got, when the channel closes early or not. *)
Definition client_got (task : StreamTask) (duration_ms : Z) (got : list Item) : Prop :=
  got = sk_items task ++ [trailing task duration_ms] \/
  exists k n, got = firstn k (sk_items task) /\ snd (client n) = false.

(** The vault sees exactly a release task for the reservation. *)
Definition released (vault : option VaultClient) (db_pool : bool) (task : StreamTask) (v v' : World) : Prop :=
  match vault, sk_reservation_id task with
  | Some vc, Some rid =>
      exists t t', spawn_vault_release post vault_others db_error vc rid "stream_incomplete_no_usage" db_pool
                     None (t, v) = (Done tt, (t', v')) /\
        closed_out db_error db_pool (CallRelease rid "stream_incomplete_no_usage")
          (release_row rid "stream_incomplete_no_usage") v v'
  | _, _ => v' = v
  end.

Definition updated (writer : bool) (task : StreamTask) (duration_ms : Z) (d d' : DbWriter) : Prop :=
  exists before after, d' = writer_run after
    (if writer then stream_completion_update (sk_correlation_id task) (incomplete task duration_ms)
                      (writer_run before d)
     else writer_run before d).

(** The trailing event, to a client that is still there. *)
Lemma trailing_wp (connected : bool) item t w :
  wp (if connected then let! _ := tx_send item in t_ret tt else t_ret tt) (t, w) (fun _ st' =>
    sw_stream (snd st') = sw_stream w /\
    exists sent, delivers sent w (snd st') /\
      (sent = [item] /\ connected = true \/
       sent = [] /\ (connected = true -> exists n, snd (client n) = false))).
Proof.
  assert (Hnone : delivers [] w w) by (split_and!; [by rewrite app_nil_r|done|by exists []]).
  destruct connected; wp_steps.
  - eapply wp_mono; [apply tx_send_wp|]. intros open [t1 w1] (Hd & Hs & Ho). wp_steps. cbn [snd] in *.
    split; [done|]. exists (if open then [item] else []). split; [done|].
    destruct open; [by left|right; split; [done|eauto]].
  - split; [done|]. exists []. split; [done|]. by right.
Qed.

Lemma bill_stream_wp vault db task (ms : Z) t w :
  wp (bill_stream vault db task (None, None, None) false ms) (t, w) (fun _ st' =>
    released vault db task (sw_vault w) (sw_vault (snd st')) /\
    snd st' = sw_with_vault w (sw_vault (snd st'))).
Proof.
  unfold bill_stream, released. destruct vault as [vc|], (sk_reservation_id task) as [rid|]; cbn [orb];
    try (wp_steps; split; [done|by destruct w]).
  rewrite bool_decide_false by (by intros [? ?]). unfold sw_in_vault. apply wp_zoom. cbn [fst snd].
  destruct (spawn_vault_release_wp post vault_others db_error vc rid "stream_incomplete_no_usage" db t (sw_vault w))
    as ([] & [t1 v1] & Hr & Hc).
  exists tt, (t1, v1). split; [exact Hr|]. cbn [fst snd] in *. split; [by exists t, t1|done].
Qed.

Lemma run_stream_task_wp writer vault db task t d v :
  wp (run_stream_task writer vault db task) (t, stream_start d v) (fun _ st' =>
    let w' := snd st' in exists ms,
      client_got task ms (sw_delivered w') /\ updated writer task ms d (sw_writer w') /\
      released vault db task v (sw_vault w') /\
      ws_handle (sw_stream w')
        = Some (into_result (process_chunks (ok_bytes (sk_items task)) SseObserver_new))).
Proof.
  unfold run_stream_task, take_result. wp_steps.
  eapply wp_mono; [apply forward_wp|]. intros connected [t1 w1] (k & Hd & Hs & _ & Hyes & Hno). wp_steps.
  cbn [snd fst] in *. rewrite Hs, ws_run_handle. cbn [stream_start sw_stream wrap_sse_stream ws_handle stream_usage completion_status].
  set (ms := as_i64 _). wp_step. eapply wp_mono; [apply trailing_wp|].
  intros u2 [t2 w2] (Hs2 & sent & Hd2 & Hsent). wp_steps. cbn [snd fst] in *.
  destruct Hd as (Hdel1 & Hv1 & e1 & He1), Hd2 as (Hdel2 & Hv2 & e2 & He2).
  cbn [sw_with_stream sw_delivered sw_vault sw_writer sw_stream stream_start] in *.
  apply (wp_mono _ _ (fun _ st' => snd st' =
    (if writer then sw_with_writer w2 (stream_completion_update (sk_correlation_id task)
       (incomplete task ms) (sw_writer w2)) else w2))).
  { destruct writer; wp_steps; reflexivity. }
  intros u3 [t3 w3] Hw3. wp_steps. cbn [snd] in Hw3.
  eapply wp_mono; [apply bill_stream_wp|]. intros u4 [t4 w4] (Hb & Hw4). cbn [snd] in *. wp_steps.
  unfold sw_yield. wp_steps.
  assert (Hw3' : sw_delivered w3 = sw_delivered w2 /\ sw_vault w3 = sw_vault w2 /\
    sw_stream w3 = sw_stream w2 /\
    sw_writer w3 = (if writer then stream_completion_update (sk_correlation_id task)
       (incomplete task ms) (sw_writer w2) else sw_writer w2)).
  { rewrite Hw3. by destruct writer. }
  destruct Hw3' as (Hdel3 & Hv3 & Hs3 & Hwr3).
  rewrite Hw4. cbn [sw_with_vault sw_with_stream sw_delivered sw_vault sw_writer sw_stream sw_awaits].
  exists ms. split_and!.
  - rewrite Hdel3, Hdel2, Hdel1. cbn [app]. destruct Hsent as [(-> & Hc)|(-> & Hn)].
    + left. by rewrite (Hyes Hc).
    + right. rewrite app_nil_r. destruct connected; [destruct Hn as [n ?]|destruct Hno as [n ?]]; eauto.
  - unfold updated. exists (e1 ++ e2), (writer_others (sw_awaits w3)).
    by rewrite Hwr3, He2, He1, writer_run_app.
  - rewrite Hv3, Hv2, Hv1 in Hb. exact Hb.
  - rewrite Hs3, Hs2. cbn [ws_handle ws_observer]. unfold ws_drop. cbn [ws_observer].
    by rewrite ws_run_observer.
Qed.

(** *** When the task is cut *)

Lemma tx_send_steady item : steady (tx_send item).
Proof. unfold tx_send, sw_yield. steady_tac. Qed.

Lemma tx_send_vault item : leaves sw_vault (tx_send item).
Proof. unfold tx_send, sw_yield. evolves_tac. Qed.

Lemma forward_steady items : forall n connected, steady (forward n items connected).
Proof.
  induction items as [|item items IH]; intros n connected; cbn [forward].
  - unfold sw_yield. steady_tac.
  - apply steady_bind; [unfold next_item, sw_yield; steady_tac|intros chunk].
    apply steady_bind; [destruct connected; [apply tx_send_steady|auto with arb]|intros c; apply IH].
Qed.

Lemma forward_vault items : forall n connected, leaves sw_vault (forward n items connected).
Proof.
  induction items as [|item items IH]; intros n connected; cbn [forward].
  - unfold sw_yield. evolves_tac.
  - apply evolves_bind; [exact _|unfold next_item, sw_yield; evolves_tac|intros chunk].
    apply evolves_bind; [exact _|destruct connected; [apply tx_send_vault|auto with arb]|intros c; apply IH].
Qed.

(** It was cut before the release of its reservation, or in it. *)
Definition release_cut (vault : option VaultClient) (db_pool : bool) (task : StreamTask) (dl : Instant) (v v' : World)
    : Prop :=
  v' = v \/ exists vc rid t t', vault = Some vc /\ sk_reservation_id task = Some rid /\
    spawn_vault_release post vault_others db_error vc rid "stream_incomplete_no_usage" db_pool (Some dl) (t, v)
      = (Elapsed, (t', v')).

Lemma bill_stream_cut vault db task (ms dl : Z) t w :
  cut dl (bill_stream vault db task (None, None, None) false ms) (t, w) (fun _ _ => True)
    (fun st' => release_cut vault db task dl (sw_vault w) (sw_vault (snd st'))).
Proof.
  unfold bill_stream. destruct vault as [vc|] eqn:Ev, (sk_reservation_id task) as [rid|] eqn:Er; cbn [orb];
    try (by cut_steps).
  rewrite bool_decide_false by (by intros [? ?]). unfold sw_in_vault. apply cut_zoom. cbn [fst snd].
  eapply cut_mono; [apply cut_run; [apply steady_release_task|apply spawn_vault_release_wp]|done|].
  intros [t1 v1] Hr. right. cbn [fst snd sw_vault sw_with_vault]. exists vc, rid, t, t1. by rewrite Er.
Qed.

Lemma run_stream_task_cut writer vault db task dl t d v :
  cut dl (run_stream_task writer vault db task) (t, stream_start d v) (fun _ _ => True)
    (fun st' => release_cut vault db task dl v (sw_vault (snd st'))).
Proof.
  unfold run_stream_task, take_result. apply cut_bind. eapply cut_mono.
  - apply (cut_steady dl _ _ (same_part sw_vault)); [apply forward_steady|apply forward_wp|apply forward_vault].
  - intros connected [t1 w1] (k & Hd & Hs & _). cut_steps. cbn [snd fst] in *. rewrite Hs, ws_run_handle.
    cbn [stream_start sw_stream wrap_sse_stream ws_handle stream_usage completion_status].
    set (ms := as_i64 _). destruct Hd as (_ & Hv1 & _). apply cut_bind. eapply cut_mono.
    + apply (cut_steady dl _ _ (same_part sw_vault));
        [destruct connected; [apply steady_bind; [apply tx_send_steady|auto with arb]|auto with arb]|apply trailing_wp|].
      destruct connected; [apply evolves_bind; [exact _|apply tx_send_vault|auto with arb]|auto with arb].
    + intros u2 [t2 w2] (_ & sent & (_ & Hv2 & _) & _). cbn [snd sw_vault sw_with_stream] in Hv2.
      cut_steps. apply cut_at_once; [destruct writer; auto with arb|].
      apply (wp_mono _ _ (fun _ st' => sw_vault (snd st') = v)).
      { destruct writer; wp_steps; cbn [snd sw_vault sw_with_writer]; by rewrite Hv2, Hv1. }
      intros u3 [t3 w3] Hw3. cbn [snd] in Hw3. cut_steps. eapply cut_mono; [apply bill_stream_cut|..].
      * intros u4 [t4 w4] _. unfold sw_yield. by cut_steps.
      * intros [t4 w4] Hc. by rewrite Hw3 in Hc.
    + intros [t2 w2] Hsame. left. unfold same_part in Hsame. cbn [snd sw_vault sw_with_stream] in *. by rewrite Hsame, Hv1.
  - intros [t1 w1] Hsame. left. exact Hsame.
Qed.

(** C38: what the client of a stream gets.  The task ends, and the channel has received the
    provider's items unaltered and in order, followed by the trailing event; or, if the
    client left, a prefix of them. *)
Theorem stream_reaches_client writer vault db task (t : Instant) d v :
  exists t' w' ms,
    run_stream_task writer vault db task None (t, stream_start d v) = (Done tt, (t', w')) /\
    client_got task ms (sw_delivered w').
Proof.
  destruct (run_stream_task_wp writer vault db task t d v) as ([] & [t' w'] & Hr & ms & Hg & _).
  by exists t', w', ms.
Qed.

(** C13: a stream is never recorded as complete and never paid for, whatever the provider
    sends.  The task reads the shared result while it still owns the observer that writes it
    on drop, so it always finds none: the row is updated to a failed, incomplete request
    without tokens or cost, and the whole reservation goes through a release task with
    [stream_incomplete_no_usage], it is never settled.  The result it should have used (the parse of
    everything the provider sent) is in the handle once the task is over. *)
Theorem stream_result_read_too_early writer vault db task (t : Instant) d v :
  exists t' w' ms,
    run_stream_task writer vault db task None (t, stream_start d v) = (Done tt, (t', w')) /\
    updated writer task ms d (sw_writer w') /\ released vault db task v (sw_vault w') /\
    ws_handle (sw_stream w')
      = Some (into_result (process_chunks (ok_bytes (sk_items task)) SseObserver_new)).
Proof.
  destruct (run_stream_task_wp writer vault db task t d v) as ([] & [t' w'] & Hr & ms & _ & Hu).
  by exists t', w', ms.
Qed.

End Task.

(** ** A complete stream, with usage and the end marker *)

Section StreamExample.

#[local] Instance json_stream : SerdeJson := ToyJson [("{final}", final_chunk)].
#[local] Instance text_stream : JsonText := fun _ => Some "{}".
#[local] Instance serde_stream : VaultSerde.
Proof.
  refine {| settle_response_from_value := fun _ => Ok {| settled := true; refunded_msats := None |};
            metadata_to_string := fun _ => None; metadata_from_str := fun _ => Err "none" |}; discriminate.
Defined.
#[local] Existing Instance InsertionOrder.

Definition stream_task_ex : StreamTask := {|
  sk_correlation_id := "req-1"; sk_provider :=
    SelectedProvider_from (provider_ex "alpha" ["gpt-4o"] 20 0 Frontier);
  sk_reservation_id := Some "rsv-1"; sk_start := 0; sk_complexity_score := None;
  sk_tier := Some "frontier"; sk_items := map Ok cut_stream |}.

Definition writer_ex : DbWriter :=
  DbWriter_new (insert_log (log_ex "req-1" "2026-01-01T00:00:00Z" true) RequestsTable_new).

Definition post_vault (n : nat) (c : VaultCall) : Duration * result VaultReply SendError :=
  (millis 5, Ok {| vr_status := 200; vr_json := Ok (TObj []); vr_text := None |}).

(** The provider sends [[DONE]] and the usage (6 prompt and 10 completion tokens); the row
    says failed and incomplete, the vault gets its reservation back. *)
Example complete_stream_is_released :
  match run_stream_task (fun _ => millis 1) (fun _ => (0, true)) (fun _ => [Turn true]) post_vault
          (fun _ => []) (fun _ => None) true (Some client_ex) true stream_task_ex None
          (0, stream_start writer_ex World_new) with
  | (Done _, (_, w)) =>
      (map (fun r => (rl_success (rq_log r), rl_error_message (rq_log r), rl_output_tokens (rq_log r)))
         (rq_rows (wr_table (sw_writer w))),
       map lc_call (w_calls (sw_vault w)), option_map sr_usage (ws_handle (sw_stream w)),
       length (sw_delivered w))
  | _ => ([], [], None, 0%nat)
  end
  = ([(false, Some "stream_incomplete", None)], [CallRelease "rsv-1" "stream_incomplete_no_usage"],
     Some (Some {| prompt_tokens := 6; completion_tokens := 10 |}), 4%nat).
Proof. vm_compute. reflexivity. Qed.

End StreamExample.
