(* ===== verification/Reservations.v ===== *)
(** * Reservations from grant to end

    The handler, the background tasks and the reconciliation composed: a transition system
    whose steps are requests (answered, or dropped by their client), tasks and
    reconciliation passes, in any order.  No reservation is forgotten, and every closing call
    for a reservation is the same call. *)

From S2P Require Import Prelude Machine RustStr Timed Config Errors Types Router Complexity.
From S2P Require Import CircuitBreaker Retry Storage Vault Sse Http Handlers Frames Billing Liveness.
From S2P Require Import Disconnect Streaming.

(** The vault's tasks run one at a time: each is a step of its own. *)
Definition no_inserts (n : nat) : list PendingSettlement := [].

(** The reservation a call ends. *)
Definition closing (c : VaultCall) : option string :=
  match c with
  | CallSettle rid _ _ | CallRelease rid _ => Some rid
  | CallReserve _ _ _ _ => None
  end.

Lemma call_of_closing `{VaultSerde} r c : call_of r = Some c -> closing c = Some (row_reservation_id r).
Proof.
  unfold call_of. destruct (String.eqb (row_type r) "settle"); [|destruct (String.eqb (row_type r) "release")].
  - destruct (metadata_from_str (row_metadata r)); [by intros [= <-]|discriminate].
  - by intros [= <-].
  - discriminate.
Qed.

(** ** Invariants of the vault programs *)

Section VaultInvariants.
Context `{SerdeJson} `{!VaultSerde} `{SqlOrder}.
Context (post : nat -> VaultCall -> Duration * result VaultReply SendError).
Context (db_error : nat -> option string).

(** [I] survives what the tasks do: calls that satisfy [okc] and inserts that satisfy [oks]. *)
Context (I : World -> Prop) (okc : VaultCall -> Prop) (oks : PendingSettlement -> Prop).
Class TaskInvariant := {
  inv_call : forall v c, okc (lc_call c) -> I v -> I (with_calls v (w_calls v ++ [c]));
  inv_sql : forall v n, I v -> I (with_sql v n);
  inv_insert : forall v now s, oks s -> I v -> I (with_pending v (insert_row now s (w_pending v)));
}.
(** And the statements of the reconciliation; and what it says of a row covers the call that
    replays it. *)
Class VaultInvariant := {
  inv_task :: TaskInvariant;
  inv_backpressure : forall v b, I v -> I (with_backpressure v b);
  inv_delete : forall v id, I v -> I (with_pending v (delete_row id (w_pending v)));
  inv_increment : forall v id, I v -> I (with_pending v (increment_row id (w_pending v)));
  inv_rows : forall v r c, I v -> In r (rows (w_pending v)) -> call_of r = Some c -> okc c;
}.
#[local] Notation holds m := (evolves (invariant I) m).

Section Tasks.
Context `{!TaskInvariant}.

Lemma same_pending v : with_pending v (w_pending v) = v.
Proof. by destruct v. Qed.

Lemma holds_post vc url call : okc call -> holds (vault_post post no_inserts vc url call).
Proof.
  intros Hc. apply evolves_vault_post; [exact _|intros v c Heq HI; apply inv_call; [by rewrite Heq|exact HI]|].
  intros v n later HI. cbn. by rewrite same_pending.
Qed.

Lemma holds_settle vc rid msats md :
  okc (CallSettle rid msats md) -> holds (settle post no_inserts vc rid msats md).
Proof.
  intros Hc. apply evolves_vault_settle; [exact _|intros v c Heq HI; apply inv_call; [by rewrite Heq|exact HI]|].
  intros v n later HI. cbn. by rewrite same_pending.
Qed.

Lemma holds_release vc rid reason : okc (CallRelease rid reason) -> holds (release post no_inserts vc rid reason).
Proof.
  intros Hc. apply evolves_vault_release; [exact _|intros v c Heq HI; apply inv_call; [by rewrite Heq|exact HI]|].
  intros v n later HI. cbn. by rewrite same_pending.
Qed.

Lemma holds_sql {A} (f : PendingTable -> A * PendingTable) :
  (forall v, I v -> I (with_pending v (snd (f (w_pending v))))) -> holds (sql db_error f).
Proof.
  intros Hf dl [t v] HI. unfold sql, t_bind, t_get, t_modify. cbn [fst snd].
  destruct (db_error (w_sql v)); cbn [snd]; [by apply inv_sql|]. cbn [w_pending with_sql].
  destruct (f (w_pending v)) as [a t'] eqn:Ef. cbn [t_ret fst snd].
  specialize (Hf _ (inv_sql v (S (w_sql v)) HI)). cbn [w_pending with_sql] in Hf. by rewrite Ef in Hf.
Qed.

Lemma holds_insert s : oks s -> holds (insert_pending_settlement db_error s).
Proof.
  intros Hs. apply evolves_bind; [exact _|auto with arb|intros now]. apply holds_sql. intros v. by apply inv_insert.
Qed.

Lemma holds_settle_task vc rid msats md db :
  okc (CallSettle rid msats md) -> oks (settle_row rid msats md) ->
  holds (spawn_vault_settle post no_inserts db_error vc rid msats md db).
Proof.
  intros Hc Hs. apply evolves_bind; [exact _|by apply holds_settle|intros [|]; [auto with arb|]].
  destruct db; [|auto with arb]. apply evolves_bind; [exact _|by apply holds_insert|auto with arb].
Qed.

Lemma holds_release_task vc rid reason db :
  okc (CallRelease rid reason) -> oks (release_row rid reason) ->
  holds (spawn_vault_release post no_inserts db_error vc rid reason db).
Proof.
  intros Hc Hs. apply evolves_bind; [exact _|by apply holds_release|intros [|]; [auto with arb|]].
  destruct db; [|auto with arb]. apply evolves_bind; [exact _|by apply holds_insert|auto with arb].
Qed.

End Tasks.

Context `{!VaultInvariant}.

Lemma holds_delete id : holds (delete_pending db_error id).
Proof. apply holds_sql. intros v. apply inv_delete. Qed.

Lemma holds_increment id : holds (increment_attempts db_error id).
Proof. apply holds_sql. intros v. apply inv_increment. Qed.

(** A fetched settlement whose replay is allowed. *)
Definition item_ok (item : Z * PendingSettlement * Z) : Prop :=
  exists r, item = fetched r /\ forall c, call_of r = Some c -> okc c.

Lemma holds_replay_one vc item : item_ok item -> holds (replay_one post no_inserts vc (snd (fst item))).
Proof.
  intros (r & -> & Hc). unfold replay_one, call_of in *. cbn [fetched fst snd settlement_type ps_metadata
    amount_msats ps_reservation_id].
  destruct (String.eqb (row_type r) "settle").
  - destruct (metadata_from_str (row_metadata r)) as [md|e]; [|auto with arb].
    apply evolves_bind; [exact _|by apply holds_settle, Hc|auto with arb].
  - destruct (String.eqb (row_type r) "release"); [by apply holds_release, Hc|auto with arb].
Qed.

Lemma holds_replay_step vc item c : item_ok item -> holds (replay_step post no_inserts db_error vc item c).
Proof.
  intros Hi. pose proof (holds_replay_one vc item Hi) as Hone. destruct item as [[id s] attempts], c as [[a b] d].
  cbn [fst snd] in Hone. unfold replay_step.
  destruct (MAX_SETTLEMENT_ATTEMPTS <=? attempts)%Z.
  - apply evolves_bind; [exact _|apply holds_delete|intros [|]; auto with arb].
  - apply evolves_bind; [exact _|exact Hone|intros [|]].
    + apply evolves_bind; [exact _|apply holds_delete|intros [|]; auto with arb].
    + apply evolves_bind; [exact _|apply holds_increment|auto with arb].
Qed.

Lemma holds_replay_all vc items c : Forall item_ok items -> holds (replay_all post no_inserts db_error vc items c).
Proof.
  intros Hf. revert c. induction Hf as [|item items Hi _ IH]; intros c; cbn [replay_all]; [auto with arb|].
  apply evolves_bind; [exact _|by apply holds_replay_step|apply IH].
Qed.

Lemma holds_reconcile vc : holds (reconcile_once post no_inserts db_error vc).
Proof.
  unfold reconcile_once. apply evolves_bind; [exact _|apply holds_sql; intros v; by rewrite same_pending|intros [n|]];
    [|auto with arb].
  apply evolves_bind; [exact _|apply evolves_modify; intros v HI; by apply inv_backpressure|intros _].
  destruct (n =? 0)%Z; [auto with arb|].
  apply (evolves_bind_value I (fun r => match r with Ok items => Forall item_ok items | Err _ => True end)).
  - apply holds_sql. intros v. by rewrite same_pending.
  - intros dl [t v] r st' HI. unfold fetch_pending, sql, t_bind, t_get, t_modify. cbn [fst snd].
    destruct (db_error (w_sql v)); cbn [t_ret]; intros [= <- _]; [done|]. apply List.Forall_forall.
    intros item Hin. apply in_map_iff in Hin as (q & <- & Hq). exists q. split; [done|]. intros c.
    apply (inv_rows v); [exact HI|]. by apply (Permutation_in q (order_by_perm _)).
  - intros [items|] Hv; [by apply holds_replay_all|auto with arb].
Qed.

End VaultInvariants.

(** ** The system *)

Section System.
Context `{Watch} `{HttpDeps} `{ScorerDeps} `{UnicodeCase} `{SerdeJson} `{!VaultSerde} `{SqlOrder} `{JsonText}.
Context (rfc3339 : Instant -> string).
Context (post : nat -> VaultCall -> Duration * result VaultReply SendError).
Context (db_error : nat -> option string) (db : bool).
Context (state : AppState) (vc : VaultClient).
Implicit Types (w : AppWorld) (v : World).

(** The ids of the reservations the vault granted, read off the log of calls. *)
Definition grant (n : nat) (c : LoggedCall) : list string :=
  match lc_call c with
  | CallReserve _ amount _ _ =>
      match reserve_result amount (snd (post n (lc_call c))) with Ok rv => [rv_id rv] | Err _ => [] end
  | _ => []
  end.

Fixpoint grants_from (n : nat) (calls : list LoggedCall) : list string :=
  match calls with
  | [] => []
  | c :: calls' => grant n c ++ grants_from (S n) calls'
  end.
Definition grants w : list string := grants_from 0 (w_calls (aw_vault w)).

(** Running a spawned task, on the vault and, for a stream, the log. *)
Definition run_task (arrival : nat -> Duration) (client : nat -> Duration * bool)
    (writer_others : nat -> list writer_event) (task : Task) : Timed AppWorld unit :=
  match task with
  | TaskSettle rid msats md => in_vault (spawn_vault_settle post no_inserts db_error vc rid msats md db)
  | TaskRelease rid reason => in_vault (spawn_vault_release post no_inserts db_error vc rid reason db)
  | TaskStream sk =>
      t_zoom (fun w => stream_start (aw_writer w) (aw_vault w))
        (fun w sw => with_vault (with_writer w (sw_writer sw)) (sw_vault sw))
        (run_stream_task arrival client writer_others post no_inserts db_error (st_db_writer state)
           (st_vault state) db sk)
  end.

Definition with_spawned w (l : list Task) : AppWorld :=
  mkApp (aw_registry w) (aw_writer w) (aw_vault w) l (aw_sent w) (aw_accesses w) (aw_awaits w).

(** The SQL statements run between two states all succeeded. *)
Definition sql_ok v v' : bool :=
  forallb (fun n => match db_error n with None => true | Some _ => false end)
    (seq (w_sql v) (w_sql v' - w_sql v)).

Definition option_list {A} (o : option A) : list A := match o with Some a => [a] | None => [] end.

(** The system, with the reservations that were given up so far. *)
Record System := mkSystem { sy_world : AppWorld; sy_lost : list string }.

(** The rows a pass gives up without a call. *)
Definition tried_out v : list string :=
  map row_reservation_id
    (List.filter (fun r => MAX_SETTLEMENT_ATTEMPTS <=? row_attempts r) (rows (w_pending v))).

(** A new process: fresh breakers, no backpressure and no tasks; the database has what it had,
    the commands queued for the log are gone. *)
Definition restarted reg w : AppWorld :=
  mkApp reg (DbWriter_new (wr_table (aw_writer w))) (with_backpressure (aw_vault w) false) [] (aw_sent w) [] 0.

(** A step at any time, whatever providers, client and other tasks do: a request that is
    answered; a request whose client goes away, which gives up what it reserved; a spawned
    task, which gives up its reservation when it cannot store it; a reconciliation pass,
    which gives up what was tried ten times; a task or a pass that is cut at an await because
    the process ends; and a new process, for which the tasks that were left are gone. *)
Inductive system_step : System -> System -> Prop :=
| step_answered others upstream request_id headers request t t' w w' lost resp :
    chat_completions others rfc3339 upstream post no_inserts state request_id headers request None (t, w)
      = (Done resp, (t', w')) ->
    system_step (mkSystem w lost) (mkSystem w' lost)
| step_dropped others upstream request_id headers request dl t t' w w' lost :
    chat_completions others rfc3339 upstream post no_inserts state request_id headers request (Some dl) (t, w)
      = (Elapsed, (t', w')) ->
    system_step (mkSystem w lost)
      (mkSystem w' (lost ++ grants_from (length (w_calls (aw_vault w)))
                              (skipn (length (w_calls (aw_vault w))) (w_calls (aw_vault w')))))
| step_task arrival client writer_others before task after t t' w w' lost :
    aw_spawned w = before ++ task :: after ->
    run_task arrival client writer_others task None (t, with_spawned w (before ++ after)) = (Done tt, (t', w')) ->
    system_step (mkSystem w lost)
      (mkSystem w' (if (db && sql_ok (aw_vault w) (aw_vault w'))%bool then lost
                    else lost ++ option_list (task_reservation task)))
| step_reconcile t t' w v' lost counts :
    reconcile_once post no_inserts db_error vc None (t, aw_vault w) = (Done counts, (t', v')) ->
    system_step (mkSystem w lost)
      (mkSystem (with_vault w v') (lost ++ tried_out (aw_vault w)))
| step_task_killed arrival client writer_others before task after dl t t' w w' lost :
    aw_spawned w = before ++ task :: after ->
    run_task arrival client writer_others task (Some dl) (t, with_spawned w (before ++ after)) = (Elapsed, (t', w')) ->
    system_step (mkSystem w lost) (mkSystem w' (lost ++ option_list (task_reservation task)))
| step_reconcile_killed dl t t' w v' lost :
    reconcile_once post no_inserts db_error vc (Some dl) (t, aw_vault w) = (Elapsed, (t', v')) ->
    system_step (mkSystem w lost) (mkSystem (with_vault w v') (lost ++ tried_out (aw_vault w)))
| step_restarted reg w lost :
    system_step (mkSystem w lost)
      (mkSystem (restarted reg w) (lost ++ flat_map (fun task => option_list (task_reservation task)) (aw_spawned w))).

(** Nothing has happened yet. *)
Definition system_start (reg : Registry) (d : DbWriter) : System :=
  mkSystem (mkApp reg d World_new [] [] [] 0) [].

(** Where a reservation can be: with a task, in the table, or ended at the vault. *)
Definition accounted (s : System) (rid : string) : Prop :=
  let w := sy_world s in
  In rid (sy_lost s) \/
  (exists task, In task (aw_spawned w) /\ task_reservation task = Some rid) \/
  In rid (map row_reservation_id (rows (w_pending (aw_vault w)))) \/
  (exists c, In c (w_calls (aw_vault w)) /\ lc_accepted c = true /\ closing (lc_call c) = Some rid).

(** ** What a step does to the log of calls *)

Lemma grants_from_app n l1 l2 : grants_from n (l1 ++ l2) = grants_from n l1 ++ grants_from (n + length l1) l2.
Proof.
  revert n. induction l1 as [|c l1 IH]; intros n; simpl; [by rewrite Nat.add_0_r|].
  by rewrite IH, app_assoc, Nat.add_succ_r.
Qed.

(** Calls that end reservations grant none. *)
Lemma grants_closing n l : Forall (fun c => closing (lc_call c) <> None) l -> grants_from n l = [].
Proof.
  intros Hf. revert n. induction Hf as [|c l Hc _ IH]; intros n; simpl; [done|]. rewrite IH, app_nil_r.
  unfold grant. by destruct (lc_call c).
Qed.

(** The calls since [calls], all closing. *)
Definition closings_since (calls : list LoggedCall) v : Prop :=
  exists new, w_calls v = calls ++ new /\ Forall (fun c => closing (lc_call c) <> None) new.

#[local] Instance closings_invariant calls :
  VaultInvariant (closings_since calls) (fun c => closing c <> None) (fun _ => True).
Proof.
  split; [split|..]; try (intros v n (new & Hc & Hf); by exists new); try (intros v now s _ (new & Hc & Hf); by exists new).
  - intros v c Hok (new & Hc & Hf). exists (new ++ [c]). cbn. rewrite Hc, app_assoc. split; [done|].
    apply Forall_app. by repeat constructor.
  - intros v r c _ _ Hc. by rewrite (call_of_closing _ _ Hc).
Qed.

Lemma closings_start v : closings_since (w_calls v) v.
Proof. exists []. by rewrite app_nil_r. Qed.

(** The calls since [calls] are all reservations, and the table is [p]. *)
Definition reserves_only (calls : list LoggedCall) (p : PendingTable) w : Prop :=
  w_pending (aw_vault w) = p /\
  exists new, w_calls (aw_vault w) = calls ++ new /\ Forall (fun c => closing (lc_call c) = None) new.

Lemma chat_reserves_only others upstream request_id headers request calls p :
  evolves (invariant (reserves_only calls p))
    (chat_completions others rfc3339 upstream post no_inserts state request_id headers request).
Proof.
  apply evolves_chat; [exact _|by split; repeat intro|by split; repeat intro|by intros w d Hi|by intros w t _ Hi|].
  intros vc' agent amount cid m _ dl [t w] [Hp (new & Hc & Hf)]. cbn [snd] in *. unfold in_vault, t_zoom, reserve, vault_post, t_bind.
  cbn [fst snd t_get t_now t_modify t_ret].
  destruct (post _ _) as [d r]. cbn [fst snd].
  destruct dl as [dl|]; unfold t_await; cbn [fst snd]; [destruct (_ <=? _)%Z|]; cbn;
    (split; [exact Hp|]; eexists (new ++ [_]); rewrite Hc, app_assoc; split; [reflexivity|];
     apply Forall_app; by repeat constructor).
Qed.

(** ** No reservation is forgotten *)

Record billing_inv (s : System) : Prop := {
  bi_table : table_wf (w_pending (aw_vault (sy_world s)));
  bi_accounted : forall rid, In rid (grants (sy_world s)) -> accounted s rid;
}.

Lemma insert_row_present now s t :
  settlement_type s = "settle" \/ settlement_type s = "release" ->
  In (ps_reservation_id s) (map row_reservation_id (rows (insert_row now s t))).
Proof.
  intros Ht. unfold insert_row.
  assert (Hty : (String.eqb (settlement_type s) "settle" || String.eqb (settlement_type s) "release")%bool = true)
    by (destruct Ht as [-> | ->]; reflexivity).
  rewrite Hty. cbn [negb orb]. destruct (existsb _ _) eqn:E.
  - apply existsb_exists in E as (r & Hr & Heq). apply String.eqb_eq in Heq. rewrite <- Heq. by apply in_map.
  - cbn [rows]. rewrite map_app. apply in_app_iff. right. by left.
Qed.

Lemma keeps_rids t t' rid :
  keeps [] t t' -> table_wf t -> In rid (map row_reservation_id (rows t)) ->
  In rid (map row_reservation_id (rows t')).
Proof.
  intros Hk Hwf Hin. apply in_map_iff in Hin as (r & <- & Hr). apply in_map. eapply keeps_In; eauto.
Qed.

(** A statement that failed shows in the counter. *)
Lemma sql_failed v v' : db_error (w_sql v) <> None -> w_sql v' = S (w_sql v) -> sql_ok v v' = false.
Proof.
  intros Hdb Hs. unfold sql_ok. rewrite Hs. replace (S (w_sql v) - w_sql v)%nat with 1%nat by lia. cbn.
  by destruct (db_error (w_sql v)).
Qed.

(** The call a task makes, and what it stores when that fails. *)
Definition task_call (task : Task) : option VaultCall :=
  match task with
  | TaskSettle rid msats md => Some (CallSettle rid msats md)
  | TaskRelease rid reason => Some (CallRelease rid reason)
  | TaskStream sk =>
      option_map (fun rid => CallRelease rid "stream_incomplete_no_usage") (sk_reservation_id sk)
  end.

Lemma task_call_reservation task c : task_call task = Some c -> closing c = task_reservation task.
Proof. destruct task as [| |sk]; [by intros [= <-]..|]. cbn. by destruct (sk_reservation_id sk); intros [= <-]. Qed.

Hypothesis vault_on : st_vault state = Some vc.

(** What a task does to the vault. *)
Definition task_program (task : Task) : option (Timed World unit) :=
  match task with
  | TaskSettle rid msats md => Some (spawn_vault_settle post no_inserts db_error vc rid msats md db)
  | TaskRelease rid reason => Some (spawn_vault_release post no_inserts db_error vc rid reason db)
  | TaskStream sk =>
      option_map (fun rid => spawn_vault_release post no_inserts db_error vc rid "stream_incomplete_no_usage" db)
        (sk_reservation_id sk)
  end.

(** What it stores when its call fails. *)
Definition task_row (task : Task) : option PendingSettlement :=
  match task with
  | TaskSettle rid msats md => Some (settle_row rid msats md)
  | TaskRelease rid reason => Some (release_row rid reason)
  | TaskStream sk => option_map (fun rid => release_row rid "stream_incomplete_no_usage") (sk_reservation_id sk)
  end.

Definition task_ran (task : Task) v v' : Prop :=
  match task_program task with
  | Some prog => exists t t', prog None (t, v) = (Done tt, (t', v'))
  | None => v' = v
  end.

Lemma run_task_ran arrival client writer_others task t w t' w' :
  run_task arrival client writer_others task None (t, w) = (Done tt, (t', w')) ->
  aw_spawned w' = aw_spawned w /\ task_ran task (aw_vault w) (aw_vault w').
Proof.
  unfold task_ran, run_task. intros Hr. destruct task as [rid msats md|rid reason|sk]; cbn [task_program].
  1,2: unfold in_vault, t_zoom in Hr; cbn [fst snd] in Hr;
    match type of Hr with context [let (_, _) := ?m in _] => destruct m as [r [t1 v1]] eqn:Er end;
    injection Hr as -> <- <-; split; [done|by exists t, t1].
  destruct (run_stream_task_wp arrival client writer_others post no_inserts db_error (st_db_writer state)
    (st_vault state) db sk t (aw_writer w) (aw_vault w)) as ([] & [t1 w1] & Hs & ms & _ & _ & Hrel & _).
  unfold t_zoom in Hr. cbn [fst snd] in *. rewrite Hs in Hr. injection Hr as <- <-. split; [done|].
  unfold released in Hrel. rewrite vault_on in Hrel. cbn [aw_vault with_vault]. destruct (sk_reservation_id sk); cbn.
  - destruct Hrel as (t2 & t3 & Hrel & _). by exists t2, t3.
  - exact Hrel.
Qed.

(** The same when it is cut: nothing was done, or the program was cut. *)
Definition task_cut (task : Task) v v' : Prop :=
  v' = v \/ exists prog dl t t', task_program task = Some prog /\ prog (Some dl) (t, v) = (Elapsed, (t', v')).

Lemma run_task_cut arrival client writer_others task dl t w t' w' :
  run_task arrival client writer_others task (Some dl) (t, w) = (Elapsed, (t', w')) ->
  aw_spawned w' = aw_spawned w /\ task_cut task (aw_vault w) (aw_vault w').
Proof.
  unfold task_cut, run_task. intros Hr. destruct task as [rid msats md|rid reason|sk]; cbn [task_program].
  1,2: unfold in_vault, t_zoom in Hr; cbn [fst snd] in Hr;
    match type of Hr with context [let (_, _) := ?m in _] => destruct m as [r [t1 v1]] eqn:Er end;
    injection Hr as -> <- <-; (split; [done|]); right; eexists _, dl, t, t1; (split; [reflexivity|exact Er]).
  unfold t_zoom in Hr. cbn [fst snd] in Hr.
  pose proof (run_stream_task_cut arrival client writer_others post no_inserts db_error (st_db_writer state)
    (st_vault state) db sk dl t (aw_writer w) (aw_vault w)) as Hc. unfold cut in Hc.
  destruct (run_stream_task _ _ _ _ _ _ _ _ _ _ _ _) as [r [t1 sw]]. injection Hr as -> <- <-.
  split; [done|]. cbn [aw_vault with_vault] in *. destruct Hc as [Hv|(vc' & rid & t2 & t3 & Hvc & Hrid & Hr)]; [by left|].
  right. assert (vc' = vc) as -> by congruence. rewrite Hrid. eexists _, dl, t2, t3. split; [reflexivity|exact Hr].
Qed.

(** An invariant of the tasks that covers what a task calls and stores holds after it, over or
    cut. *)
Section TaskInvariants.
Context (I : World -> Prop) (okc : VaultCall -> Prop) (oks : PendingSettlement -> Prop) `{!TaskInvariant I okc oks}.

Definition covers (task : Task) : Prop :=
  (forall c, task_call task = Some c -> okc c) /\ (forall s, task_row task = Some s -> oks s).

Lemma holds_task_program task prog : covers task -> task_program task = Some prog -> evolves (invariant I) prog.
Proof.
  intros [Hc Hs] Hp. destruct task as [rid msats md|rid reason|sk]; cbn in *; [injection Hp as <-..|].
  - apply (holds_settle_task post db_error I okc oks); [by apply Hc|by apply Hs].
  - apply (holds_release_task post db_error I okc oks); [by apply Hc|by apply Hs].
  - destruct (sk_reservation_id sk) as [rid|]; [|done]. injection Hp as <-.
    apply (holds_release_task post db_error I okc oks); [by apply Hc|by apply Hs].
Qed.

Lemma holds_task_ran task v v' : covers task -> task_ran task v v' -> I v -> I v'.
Proof.
  intros Hcov Hran. unfold task_ran in Hran. destruct (task_program task) as [prog|] eqn:Ep; [|by subst v'].
  destruct Hran as (t & t' & Hr). exact (evolves_run _ _ _ _ _ _ (holds_task_program _ _ Hcov Ep) Hr).
Qed.

Lemma holds_task_cut task v v' : covers task -> task_cut task v v' -> I v -> I v'.
Proof.
  intros Hcov [->|(prog & dl & t & t' & Hp & Hr)]; [done|].
  exact (evolves_run _ _ _ _ _ _ (holds_task_program _ _ Hcov Hp) Hr).
Qed.

End TaskInvariants.

(** What a task leaves: its reservation closed out, or nothing to do. *)
Lemma task_closed_out task v v' :
  task_ran task v v' ->
  match task_call task, task_row task with
  | Some c, Some s => closed_out db_error db c s v v' /\ task_reservation task = Some (ps_reservation_id s) /\
                      (settlement_type s = "settle" \/ settlement_type s = "release")
  | None, None => v' = v /\ task_reservation task = None
  | _, _ => False
  end.
Proof.
  assert (Hrel : forall rid reason, (exists t t', spawn_vault_release post no_inserts db_error vc rid reason db None (t, v)
      = (Done tt, (t', v'))) -> closed_out db_error db (CallRelease rid reason) (release_row rid reason) v v').
  { intros rid reason (t & t' & Hr).
    destruct (spawn_vault_release_wp post no_inserts db_error vc rid reason db t v) as ([] & [t1 v1] & Hs & Hc).
    rewrite Hr in Hs. by injection Hs as _ <-. }
  unfold task_ran. destruct task as [rid msats md|rid reason|sk]; cbn.
  - intros (t & t' & Hr).
    destruct (spawn_vault_settle_wp post no_inserts db_error vc rid msats md db t v) as ([] & [t1 v1] & Hs & Hc).
    rewrite Hr in Hs. injection Hs as _ <-. auto.
  - auto.
  - destruct (sk_reservation_id sk); cbn; auto.
Qed.

Lemma accounted_task w lost task rid :
  In task (aw_spawned w) -> task_reservation task = Some rid -> accounted (mkSystem w lost) rid.
Proof. intros. right; left. eauto. Qed.

(** What was accounted for stays so while rows and calls are kept and tasks are kept or done. *)
Lemma accounted_mono w w' lost lost' rid :
  (forall x, In x lost -> In x lost') ->
  (forall task, In task (aw_spawned w) -> task_reservation task = Some rid -> accounted (mkSystem w' lost') rid) ->
  (In rid (map row_reservation_id (rows (w_pending (aw_vault w)))) -> accounted (mkSystem w' lost') rid) ->
  (forall c, In c (w_calls (aw_vault w)) -> In c (w_calls (aw_vault w'))) ->
  accounted (mkSystem w lost) rid -> accounted (mkSystem w' lost') rid.
Proof.
  intros Hl Ht Hr Hc [?|[(task & ? & ?)|[?|(c & ? & ?)]]]; [left; by apply Hl|by eapply Ht|by apply Hr|].
  right; right; right. exists c. auto.
Qed.

Lemma chat_table others upstream request_id headers request dl t w x t' w' :
  chat_completions others rfc3339 upstream post no_inserts state request_id headers request dl (t, w) = (x, (t', w')) ->
  w_pending (aw_vault w') = w_pending (aw_vault w) /\
  exists new, w_calls (aw_vault w') = w_calls (aw_vault w) ++ new /\
    Forall (fun c => closing (lc_call c) = None) new.
Proof.
  intros Hr. pose proof (evolves_run _ _ _ _ _ _ (chat_reserves_only others upstream request_id headers request
    (w_calls (aw_vault w)) (w_pending (aw_vault w))) Hr) as He. apply He. cbn [snd]. split; [done|].
  exists []. by rewrite app_nil_r.
Qed.

Lemma answered_inv others upstream request_id headers request t t' w w' lost resp :
  chat_completions others rfc3339 upstream post no_inserts state request_id headers request None (t, w)
    = (Done resp, (t', w')) ->
  billing_inv (mkSystem w lost) -> billing_inv (mkSystem w' lost).
Proof.
  intros Hr [Hwf Hacc]. destruct (chat_table _ _ _ _ _ _ _ _ _ _ _ Hr) as (Hp & new0 & Hc0 & _).
  pose proof (safe_done _ _ _ _ _ (chat_completions_safe others rfc3339 upstream post no_inserts state request_id
    headers request t w) Hr) as (tasks & names & Hs & _ & Hv). cbn [snd] in *. rewrite vault_on in Hv.
  split; cbn [sy_world] in *; [by rewrite Hp|]. intros rid Hin.
  assert (Hold : In rid (grants w) -> accounted (mkSystem w' lost) rid).
  { intros Hg. apply (accounted_mono w w' lost lost rid); [done|..|by apply Hacc].
    - intros task Ht. apply accounted_task. rewrite Hs. apply in_app_iff. by left.
    - intros Hrow. right; right; left. cbn. by rewrite Hp.
    - intros c. rewrite Hc0, in_app_iff. by left. }
  destruct Hv as [(Hc & _)|(agent & amount & c & Hc & Hlc & Hres)]; unfold grants in Hin, Hold; rewrite Hc in Hin.
  - by apply Hold.
  - rewrite grants_from_app, in_app_iff in Hin. destruct Hin as [Hin|Hin]; [by apply Hold|].
    cbn [grants_from] in Hin. unfold grant in Hin. rewrite Hlc, app_nil_r in Hin. rewrite <- Hlc in Hin. cbn in Hin.
    destruct (reserve_result amount _) as [rv|e]; [|done]. destruct Hin as [<-|[]].
    destruct Hres as (task & -> & Ht). right; left. exists task. split; [|exact Ht]. cbn. rewrite Hs.
    apply in_app_iff. right. by left.
Qed.

Lemma dropped_inv others upstream request_id headers request dl t t' w w' lost :
  chat_completions others rfc3339 upstream post no_inserts state request_id headers request (Some dl) (t, w)
    = (Elapsed, (t', w')) ->
  billing_inv (mkSystem w lost) ->
  billing_inv (mkSystem w' (lost ++ grants_from (length (w_calls (aw_vault w)))
                                     (skipn (length (w_calls (aw_vault w))) (w_calls (aw_vault w'))))).
Proof.
  intros Hr [Hwf Hacc]. destruct (chat_table _ _ _ _ _ _ _ _ _ _ _ Hr) as (Hp & new & Hc & _).
  pose proof (chat_spawns_last _ _ _ _ _ _ _ _ _ _ _ _ Hr) as Hs. cbn [snd] in Hs.
  split; cbn [sy_world] in *; [by rewrite Hp|]. intros rid Hin. unfold grants in Hin. rewrite Hc in Hin |- *.
  rewrite skipn_app, skipn_all, Nat.sub_diag. cbn [skipn app].
  rewrite grants_from_app, in_app_iff in Hin. destruct Hin as [Hin|Hin].
  - apply (accounted_mono w w' lost); [| | | |by apply Hacc].
    + intros x. rewrite in_app_iff. by left.
    + intros task. rewrite <- Hs. apply accounted_task.
    + intros Hrow. right; right; left. cbn. by rewrite Hp.
    + intros c. rewrite Hc, in_app_iff. by left.
  - left. cbn. apply in_app_iff. by right.
Qed.

(** What became of the reservation of a task that ended. *)
Lemma closed_out_accounted w w' lost rid c s :
  closed_out db_error db c s (aw_vault w) (aw_vault w') -> table_wf (w_pending (aw_vault w)) ->
  closing c = Some rid -> ps_reservation_id s = rid ->
  settlement_type s = "settle" \/ settlement_type s = "release" ->
  accounted (mkSystem w' (if (db && sql_ok (aw_vault w) (aw_vault w'))%bool then lost else lost ++ [rid])) rid.
Proof.
  intros (new & Hl & _ & Hout) Hwf Hcl Hs Hty. destruct Hout as [Ht|[->|[[Hdb Hq]|(now & t0 & _ & Hp)]]].
  - destruct (took_In _ _ _ _ Hl Ht) as (d & Hd & Ha & ->). destruct Hl as (Hc & _).
    right; right; right. exists d. split; [|done]. cbn. rewrite Hc. apply in_app_iff. by right.
  - left. cbn. apply in_app_iff. right. by left.
  - left. rewrite (sql_failed _ _ Hdb Hq), andb_false_r. cbn. apply in_app_iff. right. by left.
  - right; right; left. cbn. rewrite Hp, <- Hs. by apply insert_row_present.
Qed.

Lemma closed_out_table c s v v' :
  closed_out db_error db c s v v' -> keeps [] (w_pending v) (w_pending v').
Proof.
  intros (new & (_ & _ & Hk) & _ & _). exact Hk.
Qed.

(** Closing calls leave the grants as they were. *)
Lemma grants_kept w w' new :
  w_calls (aw_vault w') = w_calls (aw_vault w) ++ new -> Forall (fun c => closing (lc_call c) <> None) new ->
  grants w' = grants w.
Proof. intros Hc Hf. unfold grants. by rewrite Hc, grants_from_app, (grants_closing _ new Hf), app_nil_r. Qed.

Lemma task_inv arrival client writer_others before task after t t' w w' lost :
  aw_spawned w = before ++ task :: after ->
  run_task arrival client writer_others task None (t, with_spawned w (before ++ after)) = (Done tt, (t', w')) ->
  billing_inv (mkSystem w lost) ->
  billing_inv (mkSystem w' (if (db && sql_ok (aw_vault w) (aw_vault w'))%bool then lost
                            else lost ++ option_list (task_reservation task))).
Proof.
  intros Hs0 Hr [Hwf Hacc]. cbn [sy_world] in *. destruct (run_task_ran _ _ _ _ _ _ _ _ Hr) as [Hs Hd].
  cbn [aw_spawned with_spawned aw_vault] in Hs, Hd.
  assert (Hgrow : forall lost' rid, (forall x, In x lost -> In x lost') ->
    (In rid (map row_reservation_id (rows (w_pending (aw_vault w)))) -> accounted (mkSystem w' lost') rid) ->
    (forall c, In c (w_calls (aw_vault w)) -> In c (w_calls (aw_vault w'))) ->
    (task_reservation task = Some rid -> accounted (mkSystem w' lost') rid) ->
    In rid (grants w) -> accounted (mkSystem w' lost') rid).
  { intros lost' rid Hl Hrow Hc Ht Hg. apply (accounted_mono w w' lost); [exact Hl| |exact Hrow|exact Hc|by apply Hacc].
    intros task' Hin Hres. rewrite Hs0 in Hin. apply in_elt_inv in Hin as [<-|Hin]; [by apply Ht|].
    apply (accounted_task _ _ task'); [by rewrite Hs|done]. }
  apply task_closed_out in Hd.
  destruct (task_call task) as [c|] eqn:Etc, (task_row task) as [s|]; try done.
  - destruct Hd as (Hco & Hres & Hty). pose proof (task_call_reservation _ _ Etc) as Hcl. rewrite Hres in Hcl |- *.
    pose proof (closed_out_table _ _ _ _ Hco) as Hk. pose proof Hco as (new & (Hc & Hf & _) & _).
    split; cbn [sy_world]; [by apply Hk|]. intros rid Hin.
    rewrite (grants_kept w w' new Hc) in Hin by (eapply List.Forall_impl; [|exact Hf]; intros ? ->; by rewrite Hcl).
    apply Hgrow; [|intros Hrow; right; right; left; by eapply keeps_rids| | |exact Hin].
    + intros x Hx. destruct (_ && _)%bool; [done|]. apply in_app_iff. by left.
    + intros d Hd. rewrite Hc. apply in_app_iff. by left.
    + rewrite Hres. intros [= Heq]. cbn [option_list]. rewrite Heq in *. by eapply closed_out_accounted.
  - destruct Hd as [Hd Hnone]. rewrite Hnone. split; cbn [sy_world]; rewrite ?Hd; [done|]. intros rid Hin.
    assert (Hg : grants w' = grants w) by (unfold grants; by rewrite Hd). rewrite Hg in Hin.
    apply Hgrow; [|intros Hrow; right; right; left; cbn; by rewrite Hd|by rewrite Hd|by rewrite Hnone|exact Hin].
    intros x Hx. destruct (_ && _)%bool; [done|]. apply in_app_iff. by left.
Qed.

(** A pass, over or cut. *)
Lemma passed_inv w v' lost :
  passed (aw_vault w) v' -> closings_since (w_calls (aw_vault w)) v' ->
  billing_inv (mkSystem w lost) -> billing_inv (mkSystem (with_vault w v') (lost ++ tried_out (aw_vault w))).
Proof.
  intros (Hwf' & new & Hc & Hfate) (new' & Hc' & Hf) [Hwf Hacc]. cbn [sy_world] in *.
  rewrite Hc in Hc'. apply app_inv_head in Hc' as <-.
  split; cbn [sy_world aw_vault with_vault]; [done|]. intros rid Hin.
  rewrite (grants_kept w (with_vault w v') new Hc Hf) in Hin.
  apply (accounted_mono w _ lost); [| | | |by apply Hacc].
  - intros x Hx. apply in_app_iff. by left.
  - intros task Ht Hres. by apply (accounted_task _ _ task).
  - intros Hrow. apply in_map_iff in Hrow as (r & <- & Hrow).
    destruct (Hfate r Hrow) as [Hk|[Hk|[_ [Hatt|(d & Hd & Ha & Hcall)]]]].
    + right; right; left. cbn. by apply in_map.
    + right; right; left. cbn. by apply (in_map row_reservation_id) in Hk.
    + left. cbn. apply in_app_iff. right. apply in_map, filter_In. split; [done|]. by apply Z.leb_le.
    + right; right; right. exists d. cbn. rewrite Hc. split; [apply in_app_iff; by right|]. split; [done|].
      by apply call_of_closing.
  - intros d Hd. cbn. rewrite Hc. apply in_app_iff. by left.
Qed.

Lemma reconcile_closings v dl t out t' v' :
  reconcile_once post no_inserts db_error vc dl (t, v) = (out, (t', v')) -> closings_since (w_calls v) v'.
Proof.
  intros Hr. exact (evolves_run _ _ _ _ _ _ (holds_reconcile post db_error _ _ _ vc) Hr (closings_start v)).
Qed.

Lemma reconcile_inv t t' w v' lost counts :
  reconcile_once post no_inserts db_error vc None (t, aw_vault w) = (Done counts, (t', v')) ->
  billing_inv (mkSystem w lost) -> billing_inv (mkSystem (with_vault w v') (lost ++ tried_out (aw_vault w))).
Proof.
  intros Hr Hi. apply passed_inv; [|by eapply reconcile_closings|exact Hi].
  destruct (reconcile_once_wp post no_inserts db_error vc t (aw_vault w) (bi_table _ Hi)) as (c & [t1 v1] & Hr' & Hp).
  rewrite Hr in Hr'. by injection Hr' as _ <- <-.
Qed.

Lemma reconcile_killed_inv dl t t' w v' lost :
  reconcile_once post no_inserts db_error vc (Some dl) (t, aw_vault w) = (Elapsed, (t', v')) ->
  billing_inv (mkSystem w lost) -> billing_inv (mkSystem (with_vault w v') (lost ++ tried_out (aw_vault w))).
Proof.
  intros Hr Hi. apply passed_inv; [|by eapply reconcile_closings|exact Hi].
  exact (cut_elapsed _ _ _ _ _ (fun st' => passed (aw_vault w) (snd st'))
           (reconcile_once_cut post no_inserts db_error vc dl t (aw_vault w) (bi_table _ Hi)) Hr).
Qed.

#[local] Instance touched_invariant v0 : TaskInvariant (touches [] v0) (fun _ => True) (fun _ => True).
Proof.
  split.
  - intros v c _ (Hk & new & Hc). split; [exact Hk|]. exists (new ++ [c]). cbn. by rewrite Hc, app_assoc.
  - intros v n (Hk & new & Hc). split; [exact Hk|by exists new].
  - intros v now s _ (Hk & new & Hc). split; [exact (keeps_trans [] [] _ _ _ Hk (insert_keeps now s _))|by exists new].
Qed.

Lemma task_covers_closing task : covers (fun c => closing c <> None) (fun _ => True) task.
Proof.
  split; [|done]. intros c. destruct task as [rid msats md|rid reason|sk]; cbn; [by intros [= <-]..|].
  by destruct (sk_reservation_id sk); intros [= <-].
Qed.

(** A killed task gives its reservation up, wherever it was cut; the others keep theirs. *)
Lemma task_killed_inv arrival client writer_others before task after dl t t' w w' lost :
  aw_spawned w = before ++ task :: after ->
  run_task arrival client writer_others task (Some dl) (t, with_spawned w (before ++ after)) = (Elapsed, (t', w')) ->
  billing_inv (mkSystem w lost) ->
  billing_inv (mkSystem w' (lost ++ option_list (task_reservation task))).
Proof.
  intros Hs0 Hr [Hwf Hacc]. cbn [sy_world] in *. destruct (run_task_cut _ _ _ _ _ _ _ _ _ Hr) as [Hs Hd].
  cbn [aw_spawned with_spawned aw_vault] in Hs, Hd.
  destruct (holds_task_cut (touches [] (aw_vault w)) _ _ task _ _ (conj (fun _ _ => I) (fun _ _ => I)) Hd
    (touches_refl [] _)) as (Hk & _).
  destruct (holds_task_cut (closings_since (w_calls (aw_vault w))) _ _ task _ _ (task_covers_closing task) Hd
    (closings_start _)) as (new & Hc & Hf).
  split; cbn [sy_world]; [by apply Hk|]. intros rid Hin. rewrite (grants_kept w w' new Hc Hf) in Hin.
  apply (accounted_mono w w' lost); [| | | |by apply Hacc].
  - intros x Hx. apply in_app_iff. by left.
  - intros task' Hin' Hres. rewrite Hs0 in Hin'. apply in_elt_inv in Hin' as [<-|Hin'].
    + left. cbn. rewrite Hres. apply in_app_iff. right. by left.
    + apply (accounted_task _ _ task'); [by rewrite Hs|done].
  - intros Hrow. right; right; left. by eapply keeps_rids.
  - intros d Hd'. rewrite Hc. apply in_app_iff. by left.
Qed.

Lemma restarted_inv reg w lost :
  billing_inv (mkSystem w lost) ->
  billing_inv (mkSystem (restarted reg w)
                 (lost ++ flat_map (fun task => option_list (task_reservation task)) (aw_spawned w))).
Proof.
  intros [Hwf Hacc]. split; [exact Hwf|]. intros rid Hin.
  apply (accounted_mono w _ lost); [| | |done|by apply Hacc].
  - intros x Hx. apply in_app_iff. by left.
  - intros task Ht Hres. left. cbn. apply in_app_iff. right. apply in_flat_map. exists task.
    split; [done|]. rewrite Hres. by left.
  - intros Hrow. by right; right; left.
Qed.

Lemma step_inv s s' : system_step s s' -> billing_inv s -> billing_inv s'.
Proof.
  destruct 1; intros Hi.
  - by eapply answered_inv.
  - by eapply dropped_inv.
  - by eapply task_inv.
  - by eapply reconcile_inv.
  - by eapply task_killed_inv.
  - by eapply reconcile_killed_inv.
  - by apply restarted_inv.
Qed.

Lemma start_inv reg d : billing_inv (system_start reg d).
Proof. split; [apply table_wf_new|done]. Qed.

Lemma reachable_inv reg d s : star system_step (system_start reg d) s -> billing_inv s.
Proof.
  intros Hs. eapply (star_invariant system_step billing_inv); [|exact Hs|apply start_inv].
  intros s1 s2 Hi Hst. by eapply step_inv.
Qed.

(** C2: no reservation is forgotten.  Whatever the providers, the vault and the database do,
    and in whatever order requests, client disconnects, tasks, reconciliation passes, ends of
    the process and restarts come: every reservation the vault ever granted is at every point
    with a task that will end it, or in the table of pending settlements, or the vault
    accepted a call that ends it, or it was given up in one of four ways: its request was
    dropped by the client before a task was spawned, its task could not store it, its task
    ended with the process, or it ran out of attempts. *)
Theorem no_reservation_is_forgotten reg d s rid :
  star system_step (system_start reg d) s -> In rid (grants (sy_world s)) -> accounted s rid.
Proof. intros Hs. exact (bi_accounted _ (reachable_inv _ _ _ Hs) rid). Qed.

(** ** One ending per reservation *)

(** The vault never gives out an id twice. *)
Definition fresh_ids : Prop := forall n m c1 c2 a1 a2 rv1 rv2,
  reserve_result a1 (snd (post n c1)) = Ok rv1 -> reserve_result a2 (snd (post m c2)) = Ok rv2 ->
  rv_id rv1 = rv_id rv2 -> n = m.

(** [ks] fixes the call that ends each reservation in [G]; calls, rows and tasks agree. *)
Section Endings.
Context (ks : string -> VaultCall) (G : string -> Prop).

Definition call_ends (c : VaultCall) : Prop := exists rid, closing c = Some rid /\ c = ks rid /\ G rid.
Definition row_ends (r : PendingRow) : Prop :=
  G (row_reservation_id r) /\ forall c, call_of r = Some c -> c = ks (row_reservation_id r).
Definition stores_ends (s : PendingSettlement) : Prop := forall id at_second,
  row_ends (mkRow id (settlement_type s) (ps_reservation_id s) (option_map as_i64 (amount_msats s))
              (ps_metadata s) at_second 0).
Record ends v : Prop := {
  en_calls : forall c, In c (w_calls v) -> closing (lc_call c) <> None -> call_ends (lc_call c);
  en_rows : Forall row_ends (rows (w_pending v));
}.
Definition task_ends (task : Task) : Prop := task_wf task /\ forall c, task_call task = Some c -> call_ends c.

#[local] Instance ends_invariant : VaultInvariant ends call_ends stores_ends.
Proof.
  split; [split|..]; try (intros v x [Hc Hr]; by split).
  - intros v c Hok [Hc Hr]. split; [|done]. intros d. cbn. rewrite in_app_iff.
    intros [?|[<-|[]]] ?; [by apply Hc|done].
  - intros v now s Hs [Hc Hr]. split; [done|]. cbn. unfold insert_row. destruct (_ || _)%bool; [done|].
    apply Forall_app. split; [done|]. constructor; [apply Hs|constructor].
  - intros v id [Hc Hr]. split; [done|]. rewrite List.Forall_forall in *. cbn. intros r Hin.
    apply filter_In in Hin as [Hin _]. auto.
  - intros v id [Hc Hr]. split; [done|]. rewrite List.Forall_forall in *. cbn. intros r Hin.
    apply in_map_iff in Hin as (q & <- & Hq). destruct (_ =? _)%Z; [exact (Hr q Hq)|auto].
  - intros v r c [Hc Hr] Hin Hcall. rewrite List.Forall_forall in Hr. destruct (Hr r Hin) as [HG Hk].
    exists (row_reservation_id r). split; [by eapply call_of_closing|auto].
Qed.

(** What a task stores replays as its call. *)
Lemma task_row_ends task s : task_ends task -> task_row task = Some s -> stores_ends s.
Proof.
  intros [Hwf Hc] Hs id at_second.
  assert (Hrel : forall rid reason, call_ends (CallRelease rid reason) -> s = release_row rid reason ->
    row_ends (mkRow id (settlement_type s) (ps_reservation_id s) (option_map as_i64 (amount_msats s))
                (ps_metadata s) at_second 0)).
  { intros rid reason (x & [= <-] & Heq & HG) ->. split; [exact HG|]. intros c [= <-]. exact Heq. }
  destruct task as [rid msats md|rid reason|sk]; cbn in *.
  - injection Hs as <-. destruct (Hc _ eq_refl) as (x & [= <-] & Heq & HG). split; [exact HG|]. intros c. cbn.
    unfold call_of. cbn. rewrite as_i64_u64 by done. destruct (metadata_to_string md) as [str|] eqn:Emd; cbn.
    + rewrite (metadata_roundtrip _ _ Emd). by intros [= <-].
    + destruct (metadata_from_str "") as [m|] eqn:E0; [by apply metadata_from_empty in E0|discriminate].
  - injection Hs as <-. by apply (Hrel rid reason); [apply Hc|].
  - destruct (sk_reservation_id sk) as [rid|]; [|done]. injection Hs as <-.
    by apply (Hrel rid "stream_incomplete_no_usage"); [apply Hc|].
Qed.

Lemma task_ends_covers task : task_ends task -> covers call_ends stores_ends task.
Proof. intros Ht. split; [apply Ht|]. intros s. by apply task_row_ends. Qed.

End Endings.
#[local] Existing Instance ends_invariant.

Lemma call_ends_mono ks ks' (G G' : string -> Prop) c :
  (forall rid, G rid -> G' rid /\ ks' rid = ks rid) -> call_ends ks G c -> call_ends ks' G' c.
Proof. intros Hm (rid & Hc & -> & HG). destruct (Hm rid HG) as [HG' Hk]. exists rid. by rewrite Hk. Qed.

Lemma task_ends_mono ks ks' (G G' : string -> Prop) task :
  (forall rid, G rid -> G' rid /\ ks' rid = ks rid) -> task_ends ks G task -> task_ends ks' G' task.
Proof. intros Hm [Hwf Hc]. split; [done|]. intros c Htc. eapply call_ends_mono; eauto. Qed.

(** Reservations and nothing else were added, and grants with them. *)
Lemma ends_extend ks ks' (G G' : string -> Prop) v v' new :
  (forall rid, G rid -> G' rid /\ ks' rid = ks rid) -> w_pending v' = w_pending v ->
  w_calls v' = w_calls v ++ new -> Forall (fun c => closing (lc_call c) = None) new ->
  ends ks G v -> ends ks' G' v'.
Proof.
  intros Hm Hp Hc Hf [Hcs Hrs]. split.
  - intros c Hin Hcl. rewrite Hc, in_app_iff in Hin. destruct Hin as [Hin|Hin].
    + eapply call_ends_mono; eauto.
    + rewrite List.Forall_forall in Hf. by destruct Hcl; apply Hf.
  - rewrite Hp. eapply List.Forall_impl; [|exact Hrs]. intros r [HG Hk]. destruct (Hm _ HG) as [HG' Heq].
    split; [exact HG'|]. by rewrite Heq.
Qed.

Definition granted w (rid : string) : Prop := In rid (grants w).

Definition one_ending (s : System) : Prop :=
  exists ks, ends ks (granted (sy_world s)) (aw_vault (sy_world s)) /\
    Forall (task_ends ks (granted (sy_world s))) (aw_spawned (sy_world s)).

Lemma grants_grow w w' new rid :
  w_calls (aw_vault w') = w_calls (aw_vault w) ++ new -> granted w rid -> granted w' rid.
Proof. intros Hc Hg. unfold granted, grants in *. rewrite Hc, grants_from_app, in_app_iff. by left. Qed.

(** An id granted before was granted by an earlier call. *)
Lemma granted_by w rid :
  granted w rid -> exists n c amount rv, (n < length (w_calls (aw_vault w)))%nat /\
    reserve_result amount (snd (post n c)) = Ok rv /\ rv_id rv = rid.
Proof.
  unfold granted, grants. change (length (w_calls (aw_vault w))) with (0 + length (w_calls (aw_vault w)))%nat.
  generalize 0%nat as k. induction (w_calls (aw_vault w)) as [|c l IH]; intros k; cbn [grants_from]; [done|].
  rewrite in_app_iff. intros [Hg|Hg].
  - unfold grant in Hg. destruct (lc_call c) as [agent amount cid m| |] eqn:Ec; try done.
    destruct (reserve_result amount _) as [rv|] eqn:Er; [|done]. destruct Hg as [<-|[]].
    exists k, (CallReserve agent amount cid m), amount, rv. cbn. split; [lia|done].
  - destruct (IH (S k) Hg) as (n & d & amount & rv & Hn & ?). exists n, d, amount, rv. cbn in *. split; [lia|done].
Qed.

Lemma task_call_some task rid :
  task_reservation task = Some rid -> exists c, task_call task = Some c /\ closing c = Some rid.
Proof. destruct task as [| |sk]; cbn; [intros [= ->]; eauto..|]. destruct (sk_reservation_id sk); [intros [= ->]; eauto|done]. Qed.

Lemma chat_tasks_wf others upstream request_id headers request dl t w x t' w' :
  chat_completions others rfc3339 upstream post no_inserts state request_id headers request dl (t, w) = (x, (t', w')) ->
  Forall task_wf (aw_spawned w) -> Forall task_wf (aw_spawned w').
Proof.
  intros Hr Hw. refine (evolves_run (invariant (fun w => Forall task_wf (aw_spawned w))) _ _ _ _ _ _ Hr Hw).
  apply evolves_chat; [exact _|by split; repeat intro|by split; repeat intro|by intros v d Hv| |].
  - intros v task Hwf Hv. cbn. apply Forall_app. by repeat constructor.
  - intros vc' agent amount cid m _. apply evolves_zoom_any. by intros v r Hv.
Qed.

(** A request only reserves: what it adds agrees with the calls fixed before, and the call of
    a newly granted reservation is that of the one task spawned for it. *)
Lemma answered_endings others upstream request_id headers request t t' w w' lost resp :
  fresh_ids ->
  chat_completions others rfc3339 upstream post no_inserts state request_id headers request None (t, w)
    = (Done resp, (t', w')) ->
  one_ending (mkSystem w lost) -> one_ending (mkSystem w' lost).
Proof.
  intros Hfresh Hr (ks & Hv & Ht). cbn [sy_world] in *.
  destruct (chat_table _ _ _ _ _ _ _ _ _ _ _ Hr) as (Hp & new & Hc0 & Hf).
  pose proof (safe_done _ _ _ _ _ (chat_completions_safe others rfc3339 upstream post no_inserts state request_id
    headers request t w) Hr) as (tasks & names & Hs & _ & Hcase). cbn [snd] in *. rewrite vault_on in Hcase.
  assert (Hkeep : tasks = [] -> one_ending (mkSystem w' lost)).
  { intros ->. rewrite app_nil_r in Hs. assert (Hm : forall rid, granted w rid -> granted w' rid /\ ks rid = ks rid)
      by (intros rid Hg; split; [by eapply grants_grow|done]).
    exists ks. cbn [sy_world]. split; [by eapply ends_extend|]. rewrite Hs.
    eapply List.Forall_impl; [|exact Ht]. intros task. by apply task_ends_mono. }
  destruct Hcase as [(_ & -> & _)|(agent & amount & c & Hc & Hlc & Hres)]; [by apply Hkeep|].
  destruct (reserve_result amount _) as [rv|e] eqn:Er; [|by destruct Hres as [-> _]; apply Hkeep].
  destruct Hres as (task & -> & Hrid). destruct (task_call_some _ _ Hrid) as (k & Hk & Hcl).
  assert (Hnew : ~ granted w (rv_id rv)).
  { intros Hg. destruct (granted_by _ _ Hg) as (n & c' & amount' & rv' & Hn & Hr' & Heq).
    rewrite (Hfresh _ _ _ _ _ _ _ _ Hr' Er Heq) in Hn. lia. }
  set (ks' := fun rid => if String.eqb rid (rv_id rv) then k else ks rid).
  assert (Hm : forall rid, granted w rid -> granted w' rid /\ ks' rid = ks rid).
  { intros rid Hg. split; [by eapply grants_grow|]. unfold ks'.
    destruct (String.eqb_spec rid (rv_id rv)) as [->|]; [by destruct Hnew|done]. }
  exists ks'. cbn [sy_world]. split; [exact (ends_extend ks ks' _ _ _ _ _ Hm Hp Hc0 Hf Hv)|]. rewrite Hs. apply Forall_app. split.
  - eapply List.Forall_impl; [|exact Ht]. intros task'. by apply task_ends_mono.
  - constructor; [|constructor]. split.
    + assert (Hwf : Forall task_wf (aw_spawned w')).
      { eapply chat_tasks_wf; [exact Hr|]. eapply List.Forall_impl; [|exact Ht]. by intros ? [? _]. }
      rewrite Hs, Forall_app in Hwf. destruct Hwf as [_ Hwf]. by inversion Hwf.
    + intros c1 Hc1. assert (c1 = k) as -> by congruence. exists (rv_id rv). split; [done|]. split.
      * unfold ks'. by rewrite String.eqb_refl.
      * unfold granted, grants. rewrite Hc, grants_from_app, in_app_iff. right. cbn [grants_from]. unfold grant.
        rewrite Hlc in Er |- *. cbn [Nat.add]. rewrite Er. by left.
Qed.

Lemma dropped_endings others upstream request_id headers request dl t t' w w' lost lost' :
  chat_completions others rfc3339 upstream post no_inserts state request_id headers request (Some dl) (t, w)
    = (Elapsed, (t', w')) ->
  one_ending (mkSystem w lost) -> one_ending (mkSystem w' lost').
Proof.
  intros Hr (ks & Hv & Ht). cbn [sy_world] in *.
  destruct (chat_table _ _ _ _ _ _ _ _ _ _ _ Hr) as (Hp & new & Hc & Hf).
  pose proof (chat_spawns_last _ _ _ _ _ _ _ _ _ _ _ _ Hr) as Hs. cbn [snd] in Hs.
  assert (Hm : forall rid, granted w rid -> granted w' rid /\ ks rid = ks rid)
    by (intros rid Hg; split; [by eapply grants_grow|done]).
  exists ks. cbn [sy_world]. split; [by eapply ends_extend|]. rewrite Hs.
  eapply List.Forall_impl; [|exact Ht]. intros task. by apply task_ends_mono.
Qed.

(** Tasks and reconciliation make only closing calls, so the grants stay. *)
Lemma closings_endings ks w w' :
  closings_since (w_calls (aw_vault w)) (aw_vault w') -> ends ks (granted w) (aw_vault w') ->
  Forall (task_ends ks (granted w)) (aw_spawned w') ->
  ends ks (granted w') (aw_vault w') /\ Forall (task_ends ks (granted w')) (aw_spawned w').
Proof. intros (new & Hc & Hf). unfold granted. by rewrite (grants_kept w w' new Hc Hf). Qed.

(** A task, over or cut, and a pass, over or cut: what preserves [closings_since] and [ends]. *)
Lemma task_endings before task after w w' lost lost' :
  aw_spawned w = before ++ task :: after -> aw_spawned w' = before ++ after ->
  (forall I okc oks, TaskInvariant I okc oks -> covers okc oks task -> I (aw_vault w) -> I (aw_vault w')) ->
  one_ending (mkSystem w lost) -> one_ending (mkSystem w' lost').
Proof.
  intros Hs0 Hs Hholds (ks & Hv & Ht). cbn [sy_world] in *. rewrite Hs0, Forall_app in Ht.
  destruct Ht as [Hbefore Ht]. inversion Ht as [|? ? Htask Hafter]; subst. exists ks. cbn [sy_world].
  apply (closings_endings ks w w').
  - exact (Hholds _ _ _ _ (task_covers_closing task) (closings_start _)).
  - exact (Hholds _ _ _ _ (task_ends_covers _ _ task Htask) Hv).
  - rewrite Hs. by apply Forall_app.
Qed.

Lemma reconcile_endings dl t t' w v' lost lost' out :
  reconcile_once post no_inserts db_error vc dl (t, aw_vault w) = (out, (t', v')) ->
  one_ending (mkSystem w lost) -> one_ending (mkSystem (with_vault w v') lost').
Proof.
  intros Hr (ks & Hv & Ht). cbn [sy_world] in *. exists ks. cbn [sy_world].
  apply (closings_endings ks w (with_vault w v')); [by eapply reconcile_closings| |exact Ht].
  exact (evolves_run _ _ _ _ _ _ (holds_reconcile post db_error (ends ks (granted w)) _ _ vc) Hr Hv).
Qed.

Lemma reachable_endings reg d s : fresh_ids -> star system_step (system_start reg d) s -> one_ending s.
Proof.
  intros Hfresh Hs. eapply (star_invariant system_step one_ending); [|exact Hs|].
  - intros s1 s2 Hi Hst.
    destruct Hst as [| |arr cl wo bf task af t t' w w' lost Hs0 Hr| |arr cl wo bf task af dl t t' w w' lost Hs0 Hr| |].
    + by eapply answered_endings.
    + by eapply dropped_endings.
    + destruct (run_task_ran _ _ _ _ _ _ _ _ Hr) as [Hs' Hd]. eapply task_endings; [exact Hs0|exact Hs'| |exact Hi].
      intros I okc oks HI Hcov. by eapply holds_task_ran.
    + by eapply reconcile_endings.
    + destruct (run_task_cut _ _ _ _ _ _ _ _ _ Hr) as [Hs' Hd]. eapply task_endings; [exact Hs0|exact Hs'| |exact Hi].
      intros I okc oks HI Hcov. by eapply holds_task_cut.
    + by eapply reconcile_endings.
    + destruct Hi as (ks & [Hc Hrows] & _). exists ks. split; [by split|constructor].
  - exists (fun rid => CallRelease rid ""). split; [split; [done|constructor]|constructor].
Qed.

(** C3: one ending per reservation.  If the vault never gives out a reservation id twice,
    then over every history of requests, disconnects, tasks, failed calls, stored rows,
    replays and restarts, all calls that end one reservation are the same call: a reservation is never
    both settled and released, nor settled at two amounts, and what the reconciliation
    replays is what the task tried.  And only reservations the vault granted are ended. *)
Theorem one_ending_per_reservation reg d s c1 c2 rid :
  fresh_ids -> star system_step (system_start reg d) s ->
  In c1 (w_calls (aw_vault (sy_world s))) -> In c2 (w_calls (aw_vault (sy_world s))) ->
  closing (lc_call c1) = Some rid -> closing (lc_call c2) = Some rid ->
  lc_call c1 = lc_call c2 /\ In rid (grants (sy_world s)).
Proof.
  intros Hfresh Hs Hin1 Hin2 Hc1 Hc2. destruct (reachable_endings _ _ _ Hfresh Hs) as (ks & [Hv _] & _).
  destruct (Hv c1 Hin1) as (r1 & Hr1 & -> & HG); [by rewrite Hc1|].
  destruct (Hv c2 Hin2) as (r2 & Hr2 & -> & _); [by rewrite Hc2|].
  assert (r1 = rid) as -> by congruence. assert (r2 = rid) as -> by congruence. by split.
Qed.

End System.

(** ** Witnesses *)

Section ReservationsWitnesses.
#[local] Existing Instances AsciiCase VersionedWatch InsertionOrder json_bill deps_bill http_bill
  SettleMetadata_eq_dec text_stream.

Definition metadata_run : SettleMetadata :=
  {| tokens_in := Some 100; tokens_out := Some 50; sm_provider := "alpha"; sm_latency_ms := 205 |}.

#[local] Instance serde_run : VaultSerde.
Proof.
  refine {| settle_response_from_value := fun _ => Ok {| settled := true; refunded_msats := None |};
            metadata_to_string := fun m => if decide (m = metadata_run) then Some "{run}" else None;
            metadata_from_str := fun s => if String.eqb s "{run}" then Ok metadata_run else Err "bad" |}.
  - intros m s. destruct (decide (m = metadata_run)) as [->|]; [|discriminate]. intros [= <-]. reflexivity.
  - discriminate.
Defined.


(** The vault grants [rsv-1], then fails three times, then answers again. *)
Definition post_run (n : nat) (c : VaultCall) : Duration * result VaultReply SendError :=
  match n with
  | O => post_reserve n c
  | 1%nat | 2%nat | 3%nat => (millis 5, Ok {| vr_status := 503; vr_json := Err "empty"; vr_text := None |})
  | _ => post_ok n c
  end.

Lemma post_run_fresh : fresh_ids post_run.
Proof.
  assert (Hz : forall n c a rv, reserve_result a (snd (post_run n c)) = Ok rv -> n = 0%nat).
  { intros [|[|[|[|n]]]] c a rv; cbn; [done|discriminate..]. }
  intros n m c1 c2 a1 a2 rv1 rv2 Hr1 Hr2 _. rewrite (Hz _ _ _ _ Hr1). symmetry. by eapply Hz.
Qed.

Definition db_up (n : nat) : option string := None.

Definition request_run := chat_completions alone clock upstream_ex post_run no_inserts (state_ex (Some client_ex)) "req-1"
  (headers_ex (Some "Bearer agent")) request_ex.

(** The worlds after an answered request, its task, and a reconciliation pass. *)
Definition answered_world : AppWorld := snd (snd (request_run None (0, world_ex (Registry_new ["alpha"])))).
Definition settle_run : Task := TaskSettle "rsv-1" 1100 metadata_run.
Definition settled_world : AppWorld :=
  snd (snd (run_task post_run db_up true (state_ex (Some client_ex)) client_ex (fun _ => 0) (fun _ => (0, true))
              (fun _ => []) settle_run None (secs 1, with_spawned answered_world []))).
Definition replayed_vault : World :=
  snd (snd (reconcile_once post_run no_inserts db_up client_ex None (secs 60, aw_vault settled_world))).
Definition replayed : System := mkSystem (with_vault settled_world replayed_vault) [].

#[local] Abbreviation step_run := (system_step clock post_run db_up true (state_ex (Some client_ex)) client_ex).
#[local] Abbreviation start_run := (system_start (Registry_new ["alpha"]) (DbWriter_new RequestsTable_new)).

Lemma lost_is (R : System -> System -> Prop) s w lost lost' : lost = lost' -> R s (mkSystem w lost) -> R s (mkSystem w lost').
Proof. by intros ->. Qed.

Lemma replayed_reachable : star step_run start_run replayed.
Proof.
  apply (star_cons _ _ (mkSystem answered_world [])).
  { eapply (step_answered clock post_run db_up true (state_ex (Some client_ex)) client_ex alone upstream_ex "req-1"
      (headers_ex (Some "Bearer agent")) request_ex 0 (millis 205) _ _ []).
    vm_compute. reflexivity. }
  apply (star_cons _ _ (mkSystem settled_world [])).
  { refine (lost_is _ _ _ _ _ _ (step_task clock post_run db_up true (state_ex (Some client_ex)) client_ex
      (fun _ => 0) (fun _ => (0, true)) (fun _ => []) [] settle_run [] (secs 1) _ answered_world settled_world [] _ _));
      vm_compute; reflexivity. }
  apply (star_cons _ _ replayed); [|apply star_nil].
  refine (lost_is _ _ _ _ _ _ (step_reconcile clock post_run db_up true (state_ex (Some client_ex)) client_ex (secs 60) _
    settled_world replayed_vault [] _ _)); vm_compute; reflexivity.
Qed.

Lemma no_reservation_is_forgotten_witness :
  In "rsv-1" (grants post_run (sy_world replayed)) /\ accounted replayed "rsv-1".
Proof.
  assert (Hin : In "rsv-1" (grants post_run (sy_world replayed))) by (vm_compute; auto).
  split; [exact Hin|].
  exact (no_reservation_is_forgotten clock post_run db_up true (state_ex (Some client_ex)) client_ex eq_refl
    _ _ _ _ replayed_reachable Hin).
Defined.

(** Three settle calls that fail and the replay that is accepted: four times the same call. *)
Lemma one_ending_per_reservation_witness :
  map (fun c => (lc_call c, lc_accepted c)) (w_calls (aw_vault (sy_world replayed)))
    = (CallReserve "agent" 81921 "req-1" "gpt-4o", true) ::
      map (fun b => (CallSettle "rsv-1" 1100 metadata_run, b)) [false; false; false; true] /\
  forall c1 c2, In c1 (w_calls (aw_vault (sy_world replayed))) -> In c2 (w_calls (aw_vault (sy_world replayed))) ->
    closing (lc_call c1) = Some "rsv-1" -> closing (lc_call c2) = Some "rsv-1" -> lc_call c1 = lc_call c2.
Proof.
  split; [vm_compute; reflexivity|]. intros c1 c2 H1 H2 Hc1 Hc2.
  exact (proj1 (one_ending_per_reservation clock post_run db_up true (state_ex (Some client_ex)) client_ex eq_refl
    _ _ _ _ _ _ post_run_fresh replayed_reachable H1 H2 Hc1 Hc2)).
Defined.

(** The client leaves while the provider works: the reservation is among the lost. *)
Example dropped_reservation_is_lost :
  let run := request_run (Some (millis 100)) (0, world_ex (Registry_new ["alpha"])) in
  let w := snd (snd run) in
  fst run = Elapsed /\ aw_spawned w = [] /\
  star step_run start_run (mkSystem w (grants post_run w)) /\ grants post_run w = ["rsv-1"].
Proof.
  cbv zeta. split; [vm_compute; reflexivity|]. split; [vm_compute; reflexivity|].
  split; [|vm_compute; reflexivity]. apply (star_cons _ _ (mkSystem
    (snd (snd (request_run (Some (millis 100)) (0, world_ex (Registry_new ["alpha"])))))
    (grants post_run (snd (snd (request_run (Some (millis 100)) (0, world_ex (Registry_new ["alpha"]))))))));
    [|apply star_nil].
  refine (lost_is _ _ _ _ _ _ (step_dropped clock post_run db_up true (state_ex (Some client_ex)) client_ex alone
    upstream_ex "req-1" (headers_ex (Some "Bearer agent")) request_ex (millis 100) 0 _ _ _ [] _)); vm_compute; reflexivity.
Qed.

(** The process ends while a settle call is retried.  The reservation was granted and its
    request answered; the new process has no task for it and no row, and the vault was never
    told: a crash between reserve and settle is not recovered from the table, because the row
    is written only after the retries have failed. *)
Definition killed_world : AppWorld :=
  snd (snd (run_task post_run db_up true (state_ex (Some client_ex)) client_ex (fun _ => 0) (fun _ => (0, true))
              (fun _ => []) settle_run (Some (secs 1 + millis 10)) (secs 1, with_spawned answered_world []))).

Theorem crash_forgets_settlement :
  let w := restarted (Registry_new ["alpha"]) killed_world in
  star step_run start_run (mkSystem w ["rsv-1"]) /\
  grants post_run w = ["rsv-1"] /\ aw_spawned w = [] /\ rows (w_pending (aw_vault w)) = [] /\
  map (fun c => (closing (lc_call c), lc_accepted c)) (w_calls (aw_vault w)) = [(None, true); (Some "rsv-1", false)].
Proof.
  cbv zeta. split; [|vm_compute; by split_and!].
  apply (star_cons _ _ (mkSystem answered_world [])).
  { eapply (step_answered clock post_run db_up true (state_ex (Some client_ex)) client_ex alone upstream_ex "req-1"
      (headers_ex (Some "Bearer agent")) request_ex 0 (millis 205) _ _ []).
    vm_compute. reflexivity. }
  apply (star_cons _ _ (mkSystem killed_world ["rsv-1"])).
  { refine (lost_is _ _ _ _ _ _ (step_task_killed clock post_run db_up true (state_ex (Some client_ex)) client_ex
      (fun _ => 0) (fun _ => (0, true)) (fun _ => []) [] settle_run [] (secs 1 + millis 10) (secs 1) _
      answered_world killed_world [] _ _)); vm_compute; reflexivity. }
  apply (star_cons _ _ (mkSystem (restarted (Registry_new ["alpha"]) killed_world) ["rsv-1"])); [|apply star_nil].
  refine (lost_is _ _ _ _ _ _ (step_restarted clock post_run db_up true (state_ex (Some client_ex)) client_ex
    (Registry_new ["alpha"]) killed_world ["rsv-1"])). vm_compute. reflexivity.
Qed.

End ReservationsWitnesses.
