(* ===== verification/Service.v ===== *)
(** * Many requests on one breaker

    Requests that run at the same time share the circuit breakers.  Here a deployment with one
    provider and no vault: whatever the requests that run concurrently do to each other, each
    resolves the probe it takes, so the proxy never wedges.  ([Stranded] shows what two
    providers, or a vault, do to it.)  The concurrency is that of the registry: every access of
    a request is atomic, and the accesses of different requests interleave in any way. *)

From S2P Require Import Prelude Machine RustStr Timed Config Errors Types Router Complexity.
From S2P Require Import CircuitBreaker Retry Storage Vault Http Handlers Frames Billing Liveness Disconnect.

(** ** Programs under any deadline

    [runs_to dl m st Q R]: [m] does not panic; if it ends it is in time and in [Q], and if it
    is cut or waits for ever the state it leaves is in [R]. *)

Definition in_time (dl : option Instant) (t : Instant) : Prop :=
  match dl with Some d => t <= d | None => True end.

Definition runs_to {S A} (dl : option Instant) (m : Timed S A) (st : Instant * S)
    (Q : A -> Instant * S -> Prop) (R : S -> Prop) : Prop :=
  match m dl st with
  | (Done a, st') => in_time dl (fst st') /\ Q a st'
  | (Elapsed, st') | (Hung, st') => R (snd st')
  | (Panicked, _) => False
  end.

Section RunsTo.
Context {S : Type}.
Implicit Types (st : Instant * S) (dl : option Instant).

Lemma rt_bind {A B} dl (m : Timed S A) (k : A -> Timed S B) st Q R :
  runs_to dl m st (fun a st' => in_time dl (fst st') -> runs_to dl (k a) st' Q R) R -> runs_to dl (t_bind m k) st Q R.
Proof.
  unfold runs_to, t_bind. destruct (m dl st) as [[a| | |] p]; [|done..]. intros [Ht Hk]. by apply Hk.
Qed.

Lemma rt_mono {A} dl (m : Timed S A) st (Q Q' : A -> Instant * S -> Prop) (R R' : S -> Prop) :
  runs_to dl m st Q R -> (forall a st', in_time dl (fst st') -> Q a st' -> Q' a st') ->
  (forall s, R s -> R' s) -> runs_to dl m st Q' R'.
Proof. unfold runs_to. destruct (m dl st) as [[a| | |] p]; auto. intros [Ht HQ] HQ' _. auto. Qed.

Lemma rt_ret {A} dl (a : A) st (Q : A -> Instant * S -> Prop) R :
  in_time dl (fst st) -> Q a st -> runs_to dl (t_ret a) st Q R.
Proof. by split. Qed.
Lemma rt_get dl st (Q : S -> Instant * S -> Prop) R : in_time dl (fst st) -> Q (snd st) st -> runs_to dl t_get st Q R.
Proof. by split. Qed.
Lemma rt_now dl st (Q : Instant -> Instant * S -> Prop) R : in_time dl (fst st) -> Q (fst st) st -> runs_to dl t_now st Q R.
Proof. by split. Qed.
Lemma rt_modify dl f st (Q : unit -> Instant * S -> Prop) R :
  in_time dl (fst st) -> Q tt (fst st, f (snd st)) -> runs_to dl (t_modify f) st Q R.
Proof. by split. Qed.
Lemma rt_hang {A} dl st (Q : A -> Instant * S -> Prop) (R : S -> Prop) : R (snd st) -> runs_to dl t_hang st Q R.
Proof. by destruct dl. Qed.

Lemma rt_await dl d t s (Q : unit -> Instant * S -> Prop) (R : S -> Prop) :
  (forall t', Q tt (t', s)) -> R s -> runs_to dl (t_await d) (t, s) Q R.
Proof.
  intros HQ HR. unfold runs_to, t_await. destruct dl as [dl|]; [|by split].
  destruct (Z.leb_spec (fst (t, s) + d) dl); [by split|done].
Qed.

Lemma rt_wp {A} (m : Timed S A) st Q R : wp m st Q -> runs_to None m st Q R.
Proof. intros (a & p & Hr & HQ). unfold runs_to. by rewrite Hr. Qed.

Lemma rt_at_once {A} dl (m : Timed S A) st Q R :
  in_time dl (fst st) -> wpd dl m st (fun a st' => fst st' = fst st /\ Q a st') -> runs_to dl m st Q R.
Proof. intros Ht (a & p & Hr & Heq & HQ). unfold runs_to. rewrite Hr. split; [by rewrite Heq|done]. Qed.

End RunsTo.

Section Service.
Context `{Watch} `{HttpDeps} `{ScorerDeps} `{UnicodeCase} `{SerdeJson} `{!VaultSerde} `{SqlOrder}.
Implicit Types (w : AppWorld) (reg : Registry) (state : AppState) (ctx : RequestContext).

(** ** What a request did to the breakers *)

(** An access that takes the probe of [name]. *)
Definition takes (name : string) (a : Registry * Registry) : Prop :=
  ~ breaker_is blocked (fst a) name /\ breaker_is blocked (snd a) name.

(** After these accesses the request has taken a probe of [name], and has not since then left
    the breaker without one in flight. *)
Definition holding (name : string) (l : list (Registry * Registry)) : Prop :=
  exists l1 a l2, l = l1 ++ a :: l2 /\ takes name a /\ Forall (fun b => breaker_is blocked (snd b) name) l2.

Lemma holding_snoc name l a :
  holding name (l ++ [a]) -> takes name a \/ (holding name l /\ breaker_is blocked (snd a) name).
Proof.
  intros (l1 & b & l2 & Heq & Ht & Hf). destruct l2 as [|c l2 _] using rev_ind.
  - apply app_inj_tail in Heq as [_ ->]. by left.
  - right. rewrite app_comm_cons, app_assoc in Heq. apply app_inj_tail in Heq as [-> ->].
    apply Forall_app in Hf as [Hf Hc]. inversion Hc; subst. split; [|done]. by exists l1, b, l2.
Qed.

(** [p] is the only probe that the request holds. *)
Definition holds_only (p : option string) (w : AppWorld) : Prop :=
  forall name, holding name (aw_accesses w) -> p = Some name.

Lemma holds_access p q w reg :
  holds_only p w -> (forall name, takes name (aw_registry w, reg) -> q = Some name) ->
  (forall name, p = Some name -> breaker_is blocked reg name -> q = Some name) -> holds_only q (with_registry w reg).
Proof.
  intros Hp Ht Hk name [Htake|[Hh Hb]]%holding_snoc; [by apply Ht|]. by apply Hk; [apply Hp|].
Qed.

Lemma no_takes name w reg : (forall n, breaker_is blocked reg n -> breaker_is blocked (aw_registry w) n) ->
  ~ takes name (aw_registry w, reg).
Proof. intros Hk [Hn Hb]. by apply Hn, Hk. Qed.

(** It is a ledger whatever the other tasks do. *)
#[export] Instance ledger_holds others : Ledger others holds_only.
Proof.
  split.
  - intros p now op w Hop Hp. apply (holds_access p); [done| |done]. intros name Ht. exfalso. revert Ht. apply no_takes.
    intros n. by apply record_keeps_unblocked.
  - done.
  - intros name now op w Hop Hp. apply (holds_access (Some name)); [done| |].
    + intros n Ht. exfalso. revert Ht. apply no_takes. intros m. apply record_keeps_unblocked. by eapply resolves_records.
    + intros n [= <-] Hb. exfalso. by eapply resolved_unblocked.
  - intros p w w' _ Ha. unfold holds_only. by rewrite Ha.
Qed.

(** ** A request resolves the probe it takes *)

Section Request.
Context (others : nat -> Interference) (rfc3339 : Instant -> string).
Context (upstream : nat -> UpstreamRequest -> Duration * result UpstreamReply string).
Context (post : nat -> VaultCall -> Duration * result VaultReply SendError).
Context (vault_others : nat -> list PendingSettlement).

Lemma poll_no_probe name rx reason trips reg : acquire_poll name rx reason trips reg <> Some (Ok Probe).
Proof. unfold acquire_poll. destruct (reg !! name); [|done]. destruct (w_changed _ _); [by destruct (w_borrow _ _)|done]. Qed.

(** The probe that comes with a permit. *)
Definition probe_of (name : string) (r : result PermitType CircuitOpenError) : option string :=
  match r with Ok Probe => Some name | _ => None end.

Lemma acquire_holds dl name t w :
  in_time dl t -> holds_only None w ->
  runs_to dl (acquire_permit others name) (t, w)
    (fun r st' => holds_only (probe_of name r) (snd st')) (holds_only None).
Proof.
  intros Ht Hh. unfold acquire_permit. apply rt_bind, rt_modify; [done|]. intros _. cbn [fst snd].
  apply rt_bind, rt_now; [done|]. intros _. apply rt_bind, rt_get; [done|]. intros _. cbn [fst snd].
  set (w1 := interfere _ w). assert (Hh1 : holds_only None w1) by exact Hh. clearbody w1.
  pose proof (acquire_start_cases t name (aw_registry w1)) as Hc.
  destruct (acquire_start t name (aw_registry w1)) as [[r|rx reason trips] reg'];
    apply rt_bind, rt_modify; try done; intros _; cbn [fst snd].
  - apply rt_ret; [done|]. destruct Hc as [(Hb & _ & _) _]. cbn [snd]. apply (holds_access None); [done| |done].
    intros n [Hn Hb']. destruct (Hb n Hb') as [[-> ->]|?]; done.
  - destruct Hc as [_ Hsame].
    assert (Hh2 : holds_only None (with_registry w1 reg')).
    { apply (holds_access None); [done| |done]. intros n Hn. exfalso. revert Hn. apply no_takes. intros m. by apply Hsame. }
    unfold wait_for_probe. apply rt_bind, rt_bind, rt_get; [done|]. intros _. cbv zeta. apply rt_bind, rt_await; [|done].
    intros t' Ht'. apply rt_modify; [done|]. intros _. cbn [fst snd] in *. apply rt_bind, rt_get; [done|]. intros _.
    cbn [fst snd]. destruct (acquire_poll _ _ _ _ _) as [r|] eqn:Ep; [|by apply rt_hang]. apply rt_ret; [done|].
    destruct r as [[]|]; [exact Hh2| |exact Hh2]. exfalso. by eapply poll_no_probe.
Qed.

(** One provider: the selection of any tier is that provider. *)
Definition lone state : Prop := forall p q, In p (rt_providers (st_router state)) ->
  In q (rt_providers (st_router state)) -> p_name p = p_name q.

Lemma lone_selection state model pn prompt mt cs :
  lone state -> select_candidates (st_router state) model pn prompt mt = Ok cs -> exists c, cs = [c].
Proof.
  intros Hl Hsel. apply select_candidates_meets_spec in Hsel as (Hne & Hnd & _ & Hin & _).
  destruct cs as [|c [|d cs]]; [done|by exists c|]. exfalso.
  destruct (Hin c) as (p & Hp & ->); [by left|]. destruct (Hin d) as (q & Hq & ->); [by right; left|].
  apply eligible_In in Hp as [Hp _]. apply eligible_In in Hq as [Hq _].
  cbn in Hnd. inversion Hnd as [|? ? Hn _]; subst. apply Hn. left. cbn. by apply Hl.
Qed.

Definition resolution (r : result ResolvedCandidates Response) (st : Instant * AppWorld) : Prop :=
  match r with
  | Ok rc => rc_candidates rc <> [] /\ holds_only (rc_probe_provider rc) (snd st)
  | Err _ => holds_only None (snd st)
  end.

Lemma resolve_holds fuel dl state ctx prompt score tier t w :
  lone state -> in_time dl t -> holds_only None w ->
  runs_to dl (resolve_loop others rfc3339 fuel state ctx prompt score tier) (t, w) resolution (holds_only None).
Proof.
  intros Hl. revert tier t w. induction fuel as [|fuel IH]; intros tier t w Ht Hh; cbn [resolve_loop]; [by apply rt_hang|].
  assert (Hrefuse : forall t1 w1 c m s tr e, in_time dl t1 -> holds_only None w1 ->
    runs_to dl (let! r := refuse rfc3339 state ctx c m s tr e in t_ret (Err r)) (t1, w1) resolution (holds_only None)).
  { intros t1 w1 c m s tr e Ht1 Hh1. apply rt_bind, rt_at_once; [done|]. eapply wp_mono; [by apply refuse_answered|].
    intros r [t2 w2] (Heq & Hr & Ha). cbn [fst snd] in *. split; [done|]. intros _. apply rt_ret; [by subst t2|].
    cbn [resolution snd]. unfold holds_only. by rewrite Ha. }
  destruct (select_candidates _ _ _ _ _) as [cs|e] eqn:Esel.
  - destruct (lone_selection _ _ _ _ _ _ Hl Esel) as [c ->]. cbn [filter_candidates].
    apply rt_bind, rt_bind. eapply rt_mono; [by apply acquire_holds| |done]. intros r [t1 w1] Ht1 Hr _. cbn [fst snd] in *.
    destruct r as [[]|e]; (apply rt_ret; [done|]); intros _; cbn [fst snd app].
    + apply rt_ret; [done|]. by split.
    + apply rt_ret; [done|]. by split.
    + destruct (escalate tier); [by apply IH|by apply Hrefuse].
  - destruct e; try (by apply Hrefuse). destruct (escalate tier); [by apply IH|by apply Hrefuse].
Qed.

(** Whatever the other tasks do, permits included, and however the request ends: answered,
    dropped by its client, or waiting for ever. *)
Definition leaves_only {A} (dl : option Instant) (m : Timed AppWorld A) st : Prop :=
  match m dl st with (Panicked, _) => False | (_, st') => holds_only None (snd st') end.

Lemma leaves_bind {A B} dl (m : Timed AppWorld A) (k : A -> Timed AppWorld B) st Q :
  runs_to dl m st Q (holds_only None) ->
  (forall a st', in_time dl (fst st') -> Q a st' -> leaves_only dl (k a) st') -> leaves_only dl (t_bind m k) st.
Proof.
  unfold runs_to, leaves_only, t_bind. destruct (m dl st) as [[a| | |] p]; [|done..]. intros [Ht HQ] Hk. by apply Hk.
Qed.

Lemma chat_holds dl state request_id headers request t w :
  st_vault state = None -> lone state -> (forall k r, fst (upstream k r) <= CLIENT_TIMEOUT) ->
  in_time dl t -> aw_accesses w = [] ->
  leaves_only dl (chat_completions others rfc3339 upstream post vault_others state request_id headers request) (t, w).
Proof.
  intros Hv Hl Hup Ht Hw. unfold chat_completions.
  apply (leaves_bind dl _ _ _ (fun _ st' => st' = (t, w))); [by apply rt_now|]. intros start ? _ ->. cbv zeta.
  assert (Hh : holds_only None w) by (intros n (l1 & a & l2 & Heq & _); rewrite Hw in Heq; by destruct l1).
  set (ctx := Build_RequestContext _ _ _ _ _ _). apply (leaves_bind dl _ _ _ resolution).
  { unfold resolve_candidates. destruct (initial_tier _ _ _). by apply resolve_holds. }
  intros [rc|resp] [t1 w1] Ht1 Hr; [|exact Hr]. cbn [fst snd] in *.
  rewrite Hv. destruct Hr as [Hne Hr]. unfold leaves_only. destruct dl as [dl|].
  - pose proof (route_cut others rfc3339 upstream holds_only dl state ctx request rc t1 w1 Ht1 Hne Hr) as Hc.
    unfold cut in Hc. by destruct (route _ _ _ _ _ _ _ _ _) as [[a| | |] p].
  - destruct (route_answered others rfc3339 upstream holds_only state ctx request rc t1 w1 Hup Hne Hr)
      as (resp & st' & -> & _ & Hd). exact Hd.
Qed.

End Request.
(** ** Requests at the same time *)

Abbreviation Access := (nat * (Registry * Registry))%type.

(** What one request did to the breakers: the accesses of a run of it, among any other tasks,
    with any deadline of its client and providers that answer within the client's timeout. *)
Definition request_accesses state (l : list (Registry * Registry)) : Prop :=
  exists others rfc3339 upstream post vault_others request_id headers request dl t w,
    (forall k r, fst (upstream k r) <= CLIENT_TIMEOUT) /\ in_time dl t /\ aw_accesses w = [] /\
    aw_accesses (snd (snd (chat_completions others rfc3339 upstream post vault_others state request_id headers
      request dl (t, w)))) = l.

(** Accesses of numbered requests to the shared registry, one after the other. *)
Fixpoint interleaving reg (G : list Access) reg' : Prop :=
  match G with
  | [] => reg = reg'
  | e :: G => fst (snd e) = reg /\ interleaving (snd (snd e)) G reg'
  end.

Definition accesses_of (i : nat) (G : list Access) : list (Registry * Registry) :=
  map snd (List.filter (fun e => Nat.eqb (fst e) i) G).

Lemma interleaving_app reg G1 G2 reg' :
  interleaving reg (G1 ++ G2) reg' <-> exists m, interleaving reg G1 m /\ interleaving m G2 reg'.
Proof.
  revert reg. induction G1 as [|[i [a b]] G1 IH]; intros reg; cbn [app interleaving].
  - split; [by exists reg|]. by intros (m & -> & Hm).
  - rewrite IH. split; [by intros (-> & m & ? & ?); exists m|by intros (m & [-> ?] & ?); split; [|exists m]].
Qed.

Lemma accesses_of_app i G1 G2 : accesses_of i (G1 ++ G2) = accesses_of i G1 ++ accesses_of i G2.
Proof. unfold accesses_of. by rewrite List.filter_app, map_app. Qed.

#[local] Instance blocked_dec reg name : Decision (breaker_is blocked reg name).
Proof.
  destruct (reg !! name) as [cb|] eqn:E; [|right; intros (cb & Hl & _); congruence].
  destruct (decide (CircuitBreaker.state (inner cb) = HalfOpen /\ probe_in_flight (inner cb) = true)) as [Hb|Hb];
    [left; by exists cb|right; intros (cb' & Hl & Hb'); simplify_eq; by apply Hb].
Defined.

(** A probe in flight is held by the request that took it last. *)
Lemma somebody_holds reg G reg' name :
  calm reg -> interleaving reg G reg' -> breaker_is blocked reg' name -> exists i, holding name (accesses_of i G).
Proof.
  intros Hc. revert reg'. induction G as [|[i [a b]] G IH] using rev_ind; intros reg' Hi Hb.
  { cbn in Hi. subst. by apply Hc in Hb. }
  apply interleaving_app in Hi as (m & Hm & Hi). cbn in Hi. destruct Hi as [-> <-]. destruct (decide (breaker_is blocked m name)) as [Hb'|Hb'].
  - destruct (IH _ Hm Hb') as [j (l1 & x & l2 & Heq & Ht & Hf)]. exists j. rewrite accesses_of_app, Heq.
    exists l1, x, (l2 ++ accesses_of j [(i, (m, b))]). rewrite <- app_assoc. split; [done|]. split; [done|].
    apply Forall_app. split; [done|]. unfold accesses_of. cbn. destruct (Nat.eqb i j); by repeat constructor.
  - exists i. rewrite accesses_of_app. exists (accesses_of i G), (m, b), []. unfold accesses_of at 2. cbn.
    rewrite Nat.eqb_refl. split; [done|]. split; [by split|done].
Qed.

Lemma accesses_resolve state l name :
  st_vault state = None -> lone state -> request_accesses state l -> ~ holding name l.
Proof.
  intros Hv Hl (others & rfc & upstream & post & vo & rid & hs & rq & dl & t & w & Hup & Ht & Hw & <-).
  pose proof (chat_holds others rfc upstream post vo dl state rid hs rq t w Hv Hl Hup Ht Hw) as Hh.
  unfold leaves_only in Hh. destruct (chat_completions _ _ _ _ _ _ _ _ _ _ _) as [[a| | |] st']; [| |done|];
    intros Hn; by apply Hh in Hn.
Qed.

(** The request that holds a probe now lets it go later. *)
Lemma holder_resolves name l1 l2 :
  holding name l1 -> ~ holding name (l1 ++ l2) -> exists a, In a l2 /\ ~ breaker_is blocked (snd a) name.
Proof.
  intros (k1 & a & k2 & -> & Ht & Hf) Hn.
  destruct (decide (Forall (fun b => breaker_is blocked (snd b) name) l2)) as [Hall|Hex].
  - destruct Hn. exists k1, a, (k2 ++ l2). rewrite <- app_assoc. split; [done|]. split; [done|]. by apply Forall_app.
  - apply not_Forall_Exists, Exists_exists in Hex as (b & Hb & Hnb); [|apply _]. exists b.
    by split.
Qed.

Lemma accesses_of_In i a G : In a (accesses_of i G) -> In (i, a) G.
Proof.
  unfold accesses_of. intros ([j b] & <- & [Hin Hj%Nat.eqb_eq]%filter_In)%in_map_iff. cbn in *. by subst j.
Qed.

(** C40: one provider never wedges.  In a deployment with one provider and no vault, start from
    a registry with no probe in flight (as after startup) and let any requests run, at the
    same time, their accesses to the breakers interleaved in any way, each answered, dropped by
    its client at any moment, or kept waiting.  Whenever a probe is in flight, the request that
    took it is still running and a later access of it ends the probe, so that whoever waits is
    let through or rejected; when all requests are over no probe is in flight, and the next
    request is answered in time while nobody else takes a probe. *)
Theorem lone_provider_never_wedges state G reg reg' :
  st_vault state = None -> lone state -> calm reg -> interleaving reg G reg' ->
  (forall i, In i (map fst G) -> request_accesses state (accesses_of i G)) ->
  (forall G1 G2 reg1 name, G = G1 ++ G2 -> interleaving reg G1 reg1 -> breaker_is blocked reg1 name ->
     exists i a, holding name (accesses_of i G1) /\ In (i, a) G2 /\ ~ breaker_is blocked (snd a) name) /\
  calm reg' /\
  forall others rfc3339 upstream post vault_others request_id headers request t w,
    (forall k, only_record (others k)) -> (forall k r, fst (upstream k r) <= CLIENT_TIMEOUT) -> aw_registry w = reg' ->
    wp (chat_completions others rfc3339 upstream post vault_others state request_id headers request) (t, w)
      (fun _ st' => fst st' <= t + (if default false (stream request) then CLIENT_TIMEOUT else RETRY_TIMEOUT)).
Proof.
  intros Hv Hl Hc Hi Hreq.
  assert (Hres : forall G1 G2 reg1 name, G = G1 ++ G2 -> interleaving reg G1 reg1 -> breaker_is blocked reg1 name ->
    exists i a, holding name (accesses_of i G1) /\ In (i, a) G2 /\ ~ breaker_is blocked (snd a) name).
  { intros G1 G2 reg1 name -> Hi1 Hb. destruct (somebody_holds _ _ _ _ Hc Hi1 Hb) as [i Hh].
    assert (Hin : In i (map fst (G1 ++ G2))).
    { destruct Hh as (l1 & a & l2 & Heq & _). rewrite map_app. apply in_app_iff. left.
      assert (Ha : In a (accesses_of i G1)) by (rewrite Heq; apply in_elt). apply accesses_of_In in Ha.
      apply in_map_iff. by exists (i, a). }
    pose proof (accesses_resolve _ _ name Hv Hl (Hreq i Hin)) as Hn. rewrite accesses_of_app in Hn.
    destruct (holder_resolves _ _ _ Hh Hn) as (a & Ha & Hna). exists i, a. split; [done|]. split; [|done].
    by apply accesses_of_In. }
  assert (Hcalm : calm reg').
  { intros name Hb. destruct (Hres G [] reg' name) as (i & a & _ & [] & _); [by rewrite app_nil_r|done|done]. }
  split; [exact Hres|]. split; [exact Hcalm|]. intros others rfc upstream post vo rid hs rq t w Ho Hup Hw.
  eapply wp_mono.
  { apply (chat_answered others rfc upstream post vo (fun _ _ => True) 0); [done|done|]. intros ctx. eapply wp_mono.
    { apply (resolve_unblocked others rfc 0); [done|]. left. rewrite Hw. by split. }
    intros r st' [Ht Hr]. split; [|exact Hr]. unfold waiting_time in Ht. lia. }
  intros r st' [Ht _]. rewrite Hv in Ht. lia.
Qed.

End Service.

(** ** Witness: two requests after an outage, the second waits for the probe of the first *)

Section ServiceWitness.
#[local] Existing Instances AsciiCase VersionedWatch InsertionOrder json_bill deps_bill http_bill serde_bill.

(** While the first is calling the provider, the second asks for a permit. *)
Definition during_first (n : nat) : Interference := {|
  if_registry := match n with 1%nat => [(secs 30 + millis 100, RAcquire "alpha")] | _ => [] end;
  if_writer := []; if_wait := fun _ => (0, []) |}.

(** While the second waits, the first succeeds. *)
Definition during_second (n : nat) : Interference := {|
  if_registry := []; if_writer := [];
  if_wait := fun name => (millis 100, [(secs 30 + millis 200, RProbeSuccess name)]) |}.

Definition accesses_run (others : nat -> Interference) (t : Instant) (reg : Registry) : list (Registry * Registry) :=
  aw_accesses (snd (snd (chat_completions others clock upstream_ex post_reserve no_others (state_ex None) "req-1"
    (headers_ex None) request_ex None (t, world_ex reg)))).

Definition first_accesses : list (Registry * Registry) := accesses_run during_first (secs 30) recovering.
Definition probing_registry : Registry := reg_exec (secs 30) (RAcquire "alpha") recovering.
Definition second_accesses : list (Registry * Registry) :=
  accesses_run during_second (secs 30 + millis 100) probing_registry.

Definition nth_access (l : list (Registry * Registry)) (k : nat) : Registry * Registry := nth k l (∅, ∅).

Definition schedule_ex : list (nat * (Registry * Registry)) :=
  [(0%nat, nth_access first_accesses 0); (1%nat, nth_access second_accesses 0);
   (0%nat, nth_access first_accesses 1); (1%nat, nth_access second_accesses 1)].

Definition after_both : Registry := snd (nth_access second_accesses 1).

(** Decided by evaluation, without printing the registries. *)
Ltac by_vm := lazymatch goal with |- ?x = ?y => exact (@eq_refl _ x <: x = y) end.

Lemma schedule_interleaves : interleaving recovering schedule_ex after_both.
Proof. unfold schedule_ex. cbn [interleaving fst snd]. split_and!; by_vm. Qed.

Lemma schedule_complete :
  accesses_of 0 schedule_ex = first_accesses /\ accesses_of 1 schedule_ex = second_accesses.
Proof. split; by_vm. Qed.

Lemma run_accesses others t reg : request_accesses (state_ex None) (accesses_run others t reg).
Proof.
  exists others, clock, upstream_ex, post_reserve, no_others, "req-1", (headers_ex None), request_ex, None, t, (world_ex reg).
  split; [exact upstream_in_time|]. by repeat split.
Qed.

Lemma lone_provider_never_wedges_witness :
  interleaving recovering schedule_ex after_both /\ calm after_both.
Proof.
  split; [exact schedule_interleaves|]. apply (lone_provider_never_wedges (state_ex None) schedule_ex recovering after_both).
  - reflexivity.
  - intros p q [<-|[]] [<-|[]]. reflexivity.
  - exact calm_recovering.
  - exact schedule_interleaves.
  - destruct schedule_complete as [H0' H1']. intros i Hin.
    assert (Hcase : i = 0%nat \/ i = 1%nat) by (clear - Hin; simpl in Hin; lia).
    destruct Hcase as [-> | ->]; [rewrite H0'|rewrite H1']; apply run_accesses.
Defined.

End ServiceWitness.
