(* ===== verification/TypeSafety.v ===== *)
(** * The billing state is well typed

    Amounts leave the program as 64-bit unsigned words and sit in a signed column, and a row
    of the pending table is a tagged union kept in untyped columns.  In every state the system
    reaches, calls, rows and tasks have the types the code reads them back at. *)

From S2P Require Import Prelude Machine RustStr Timed Config Errors Types Router Complexity.
From S2P Require Import CircuitBreaker Retry Storage Vault Sse Http Handlers Frames Billing Liveness.
From S2P Require Import Disconnect Streaming Reservations.

Definition call_typed (c : VaultCall) : Prop :=
  match c with
  | CallReserve _ amount _ _ => in_u64 amount
  | CallSettle _ actual _ => in_u64 actual
  | CallRelease _ _ => True
  end.

(** The tag and the amount of a settlement, before and after the table. *)
Definition tagged {A} (P : A -> Prop) (tag : string) (amount : option A) : Prop :=
  (tag = "settle" /\ exists a, amount = Some a /\ P a) \/ (tag = "release" /\ amount = None).

Definition row_typed (r : PendingRow) : Prop :=
  tagged in_i64 (row_type r) (row_amount r) /\ 0 <= row_attempts r.
Definition settlement_typed (s : PendingSettlement) : Prop :=
  tagged in_u64 (settlement_type s) (amount_msats s).

Record vault_typed (v : World) : Prop := {
  vt_calls : Forall (fun c => call_typed (lc_call c)) (w_calls v);
  vt_rows : Forall row_typed (rows (w_pending v));
}.

Record well_typed `{Watch} (w : AppWorld) : Prop := {
  wt_vault : vault_typed (aw_vault w);
  wt_tasks : Forall task_wf (aw_spawned w);
}.

(** A typed settlement makes a typed row, and a typed row is fetched as a typed settlement. *)
Lemma stored_typed s id at_second :
  settlement_typed s ->
  row_typed (mkRow id (settlement_type s) (ps_reservation_id s) (option_map as_i64 (amount_msats s))
               (ps_metadata s) at_second 0).
Proof.
  intros [(Ht & a & Ha & Hr)|(Ht & Ha)]; (split; [|cbn; lia]); cbn; rewrite Ha; [left|by right].
  split; [done|]. exists (as_i64 a). split; [done|]. apply as_i64_range.
Qed.

Lemma fetched_typed r : row_typed r -> settlement_typed (snd (fst (fetched r))).
Proof.
  intros [[(Ht & a & Ha & Hr)|(Ht & Ha)] _]; unfold settlement_typed; cbn; rewrite Ha; [left|by right].
  split; [done|]. exists (as_u64 a). split; [done|]. apply as_u64_range.
Qed.

Section Typed.
Context `{Watch} `{HttpDeps} `{ScorerDeps} `{UnicodeCase} `{SerdeJson} `{!VaultSerde} `{SqlOrder} `{JsonText}.
Context (rfc3339 : Instant -> string).
Context (post : nat -> VaultCall -> Duration * result VaultReply SendError).
Context (db_error : nat -> option string) (db : bool) (state : AppState) (vc : VaultClient).
Hypothesis vault_on : st_vault state = Some vc.

#[local] Instance typed_invariant : VaultInvariant vault_typed call_typed settlement_typed.
Proof.
  split; [split|..]; try (intros v x [Hc Hr]; by split).
  - intros v c Hok [Hc Hr]. split; [|done]. apply Forall_app. by repeat constructor.
  - intros v now s Hs [Hc Hr]. split; [done|]. cbn. unfold insert_row. destruct (_ || _)%bool; [done|].
    apply Forall_app. split; [done|]. constructor; [by apply stored_typed|constructor].
  - intros v id [Hc Hr]. split; [done|]. rewrite List.Forall_forall in *. cbn. intros r Hin.
    apply filter_In in Hin as [Hin _]. auto.
  - intros v id [Hc Hr]. split; [done|]. rewrite List.Forall_forall in *. cbn. intros r Hin.
    apply in_map_iff in Hin as (q & <- & Hq). destruct (_ =? _)%Z; [|auto].
    destruct (Hr q Hq) as [Ht Ha]. split; [exact Ht|cbn; lia].
  - intros v r c [Hc Hr] Hin Hcall. rewrite List.Forall_forall in Hr. destruct (Hr r Hin) as [Ht _].
    unfold call_of in Hcall. destruct Ht as [(Ht & a & Hamount & Ha)|[Ht Hamount]];
      rewrite Ht, ?Hamount in Hcall; cbn in Hcall.
    + destruct (metadata_from_str _); [|done]. injection Hcall as <-. apply as_u64_range.
    + by injection Hcall as <-.
Qed.

(** The whole handler, whatever its exit. *)
Lemma chat_typed others upstream request_id headers request :
  evolves (invariant well_typed)
    (chat_completions others rfc3339 upstream post no_inserts state request_id headers request).
Proof.
  apply evolves_chat; [exact _| | | | |].
  - split; [intros w now op [Hv Ht]|intros w l [Hv Ht]]; by split.
  - split; [intros n w [Hv Ht]|intros n name w [Hv Ht]]; by split.
  - intros w d [Hv Ht]. by split.
  - intros w t Hwf [Hv Ht]. split; [done|]. cbn. apply Forall_app. by repeat constructor.
  - intros vc' agent amount cid m Ha. apply (evolves_zoom _ (invariant vault_typed)).
    + unfold reserve. apply evolves_bind; [exact _| |auto with arb].
      by apply (holds_post post vault_typed call_typed settlement_typed).
    + by intros w s' Hs [Hv Ht]; split; [apply Hs|].
Qed.

Lemma task_covers_typed task : task_wf task -> covers call_typed settlement_typed task.
Proof.
  intros Hwf. split.
  - intros c. destruct task as [rid msats md|rid reason|sk]; cbn in *; [by intros [= <-]..|].
    by destruct (sk_reservation_id sk); intros [= <-].
  - intros s. destruct task as [rid msats md|rid reason|sk]; cbn in *; [intros [= <-]; left; cbn; eauto|intros [= <-]; by right|].
    destruct (sk_reservation_id sk); intros [= <-]. by right.
Qed.

#[local] Abbreviation step := (system_step rfc3339 post db_error db state vc).

(** A task, over or cut. *)
Lemma task_typed before task after w w' :
  aw_spawned w = before ++ task :: after -> aw_spawned w' = before ++ after ->
  (forall I okc oks, TaskInvariant I okc oks -> covers okc oks task -> I (aw_vault w) -> I (aw_vault w')) ->
  well_typed w -> well_typed w'.
Proof.
  intros Hs Hs' Hholds [Hv Ht]. rewrite Hs in Ht. apply Forall_app in Ht as [Hb Ht].
  inversion Ht as [|? ? Htask Ha]; subst. split; [|rewrite Hs'; by apply Forall_app].
  exact (Hholds _ _ _ _ (task_covers_typed task Htask) Hv).
Qed.

Lemma reconcile_typed dl t t' w v' out :
  reconcile_once post no_inserts db_error vc dl (t, aw_vault w) = (out, (t', v')) ->
  well_typed w -> well_typed (with_vault w v').
Proof.
  intros Hr [Hv Ht]. split; [|exact Ht].
  exact (evolves_run _ _ _ _ _ _ (holds_reconcile post db_error vault_typed _ _ vc) Hr Hv).
Qed.

Lemma step_typed s s' : step s s' -> well_typed (sy_world s) -> well_typed (sy_world s').
Proof.
  destruct 1 as [others up rid hd rq t t' w w' lost resp Hr|others up rid hd rq dl t t' w w' lost Hr
                |arr cl wo before task after t t' w w' lost Hs Hr|t t' w v' lost counts Hr
                |arr cl wo before task after dl t t' w w' lost Hs Hr|dl t t' w v' lost Hr|reg w lost];
    cbn [sy_world]; intros Hw.
  - exact (evolves_run _ _ _ _ _ _ (chat_typed others up rid hd rq) Hr Hw).
  - exact (evolves_run _ _ _ _ _ _ (chat_typed others up rid hd rq) Hr Hw).
  - destruct (run_task_ran _ _ _ _ _ vault_on _ _ _ _ _ _ _ _ Hr) as [Hs' Hran].
    eapply task_typed; [exact Hs|exact Hs'| |exact Hw]. intros I okc oks HI Hcov. by eapply holds_task_ran.
  - by eapply reconcile_typed.
  - destruct (run_task_cut _ _ _ _ _ vault_on _ _ _ _ _ _ _ _ _ Hr) as [Hs' Hcut].
    eapply task_typed; [exact Hs|exact Hs'| |exact Hw]. intros I okc oks HI Hcov. by eapply holds_task_cut.
  - by eapply reconcile_typed.
  - destruct Hw as [[Hc Hr] _]. split; [by split|constructor].
Qed.

(** C15: types.  In every state the system reaches, whatever is answered, dropped, stored and
    replayed: every amount the vault was ever sent and every amount a task holds is a 64-bit
    unsigned word; every row of the pending table is a settle with an amount that fits its
    signed column, or a release without one, with a count of attempts that is not negative;
    and what the reconciliation fetches from the table is a settlement of those types again. *)
Theorem billing_is_well_typed reg d s :
  star step (system_start reg d) s ->
  well_typed (sy_world s) /\
  Forall (fun r => settlement_typed (snd (fst (fetched r)))) (rows (w_pending (aw_vault (sy_world s)))).
Proof.
  intros Hs. assert (Hw : well_typed (sy_world s)).
  { eapply (star_invariant step (fun s => well_typed (sy_world s))); [|exact Hs|by repeat constructor].
    intros s1 s2 Hi Hst. by eapply step_typed. }
  split; [exact Hw|]. eapply List.Forall_impl; [|apply Hw]. exact fetched_typed.
Qed.

End Typed.

Section TypeSafetyWitness.
#[local] Existing Instances AsciiCase VersionedWatch InsertionOrder json_bill deps_bill http_bill serde_run text_stream.

Lemma billing_is_well_typed_witness : well_typed (sy_world replayed).
Proof.
  exact (proj1 (billing_is_well_typed clock post_run db_up true (state_ex (Some client_ex)) client_ex
    eq_refl _ _ _ replayed_reachable)).
Defined.

End TypeSafetyWitness.
