(* ===== verification/Agreement.v ===== *)
(** * Two handlers that differ in secrets

    Two servers whose configurations differ in the providers' keys and the vault's token only.
    The router offers the same candidates but for their keys, and the chat completion handler
    of the one runs in step with that of the other, with the rules of [Relational]. *)

From S2P Require Import Prelude Machine RustStr Timed Relational Config Errors Types Router Complexity.
From S2P Require Import CircuitBreaker Retry Storage Vault Http Handlers Frames Reservations.

(** ** Providers and candidates *)

Definition unkeyed (p : ProviderConfig) : ProviderConfig := {|
  p_name := p_name p; p_url := p_url p; p_api_key := None; p_models := p_models p;
  p_input_rate := p_input_rate p; p_output_rate := p_output_rate p; p_base_fee := p_base_fee p;
  p_tier := p_tier p; p_auto_discover := p_auto_discover p |}.

Definition sp_unkeyed (c : SelectedProvider) : SelectedProvider := {|
  sp_name := sp_name c; sp_url := sp_url c; sp_api_key := None; sp_input_rate := sp_input_rate c;
  sp_output_rate := sp_output_rate c; sp_base_fee := sp_base_fee c; sp_tier := sp_tier c |}.

Definition sp_alike (c d : SelectedProvider) : Prop := sp_unkeyed c = sp_unkeyed d.

(** The same routing, with other keys. *)
Record router_alike (r s : Router) : Prop := {
  rr_providers : map unkeyed (rt_providers r) = map unkeyed (rt_providers s);
  rr_rules : rt_policy_rules r = rt_policy_rules s;
}.

Lemma filter_map_same {A} (f : A -> bool) (g : A -> A) l :
  (forall x, f (g x) = f x) -> List.filter f (map g l) = map g (List.filter f l).
Proof. intros Hf. induction l as [|x l IH]; [done|]. cbn. rewrite Hf, IH. by destruct (f x). Qed.

Lemma sort_map_same {A} (key : A -> Z) (g : A -> A) l :
  (forall x, key (g x) = key x) -> sort_by_key key (map g l) = map g (sort_by_key key l).
Proof.
  intros Hk. assert (Hi : forall x l, insert_by_key key (g x) (map g l) = map g (insert_by_key key x l)).
  { intros x k. induction k as [|y k IH]; [done|]. cbn. rewrite !Hk, IH. by destruct (_ <=? _)%Z. }
  induction l as [|x l IH]; [done|]. cbn [map sort_by_key fold_right]. fold (sort_by_key key (map g l)).
  by rewrite IH, Hi.
Qed.

Lemma first_by_map_same {A K} `{EqDecision K} (key : A -> K) (g : A -> A) l : (forall x, key (g x) = key x) ->
  forall seen, first_by key seen (map g l) = map g (first_by key seen l).
Proof.
  intros Hk. induction l as [|x l IH]; intros seen; [done|]. cbn [map first_by]. rewrite Hk.
  case_bool_decide; [apply IH|]. cbn [map]. by rewrite IH.
Qed.

(** An emptiness test before and after a map. *)
Ltac nil_map :=
  repeat case_bool_decide; try done;
  exfalso; match goal with
  | H1 : map _ ?l = [], H2 : ?l <> [] |- _ => exact (H2 (proj1 (map_eq_nil_iff _ _) H1))
  | H1 : map _ ?l <> [], H2 : ?l = [] |- _ => apply H1; rewrite H2; reflexivity
  end.

Section Alike.
Context `{UnicodeCase}.

Definition unkeyed_router (r : Router) : Router :=
  Router_new (map unkeyed (rt_providers r)) (rt_policy_rules r) (rt_default_strategy r).

Definition fmap_ok {T U E} (f : T -> U) (r : result T E) : result U E :=
  match r with Ok x => Ok (f x) | Err e => Err e end.

(** Selection does not look at keys. *)
Lemma select_unkeyed r mdl pn prompt mt :
  select_candidates (unkeyed_router r) mdl pn prompt mt
  = fmap_ok (map sp_unkeyed) (select_candidates r mdl pn prompt mt).
Proof.
  unfold select_candidates. cbn [unkeyed_router rt_providers Router_new].
  change (find_policy (unkeyed_router r) pn prompt) with (find_policy r pn prompt).
  rewrite filter_map_same by done. generalize (List.filter (serves mdl) (rt_providers r)) as l. intros l.
  assert (Hn : forall X (a b : X), (if bool_decide (map unkeyed l = []) then a else b) = (if bool_decide (l = []) then a else b))
    by (intros; nil_map).
  rewrite Hn. repeat case_bool_decide; try done.
  assert (Ht : apply_tier (map unkeyed l) mt mdl = fmap_ok (map unkeyed) (apply_tier l mt mdl)).
  { unfold apply_tier. destruct mt; [|done]. cbv zeta. rewrite filter_map_same by done.
    cbv zeta. nil_map. }
  rewrite Ht. destruct (apply_tier l mt mdl) as [k|]; [|done]. cbn [fmap_ok result_bind].
  assert (Hp : forall po, apply_policy (map unkeyed k) po mdl = fmap_ok (map unkeyed) (apply_policy k po mdl)).
  { intros [po|]; [|done]. unfold apply_policy, apply_policy_constraints. destruct (negb _); [done|].
    rewrite filter_map_same by done. cbv zeta. nil_map. }
  rewrite Hp. destruct (apply_policy k _ mdl) as [j|]; [|done]. cbn [fmap_ok result_bind].
  rewrite sort_map_same by done. rewrite first_by_map_same by done.
  set (u := first_by p_name [] (sort_by_key routing_cost j)).
  replace (map SelectedProvider_from (map unkeyed u)) with (map sp_unkeyed (map SelectedProvider_from u))
    by (by rewrite !map_map).
  nil_map.
Qed.

Lemma alike_of_map cs ds : map sp_unkeyed cs = map sp_unkeyed ds -> Forall2 sp_alike cs ds.
Proof.
  revert ds. induction cs as [|c cs IH]; intros [|d ds] Hm; try done. injection Hm as Hc Hm. constructor; [|by apply IH].
  unfold sp_alike, sp_unkeyed. congruence.
Qed.

Definition selection_alike (x y : result (list SelectedProvider) Error) : Prop :=
  match x, y with
  | Ok cs, Ok ds => Forall2 sp_alike cs ds
  | Err e, Err e' => e = e'
  | _, _ => False
  end.

Lemma select_alike r s mdl pn prompt mt :
  router_alike r s -> selection_alike (select_candidates r mdl pn prompt mt) (select_candidates s mdl pn prompt mt).
Proof.
  intros [Hp Hr]. pose proof (select_unkeyed r mdl pn prompt mt) as H1. pose proof (select_unkeyed s mdl pn prompt mt) as H2.
  assert (Heq : select_candidates (unkeyed_router r) mdl pn prompt mt = select_candidates (unkeyed_router s) mdl pn prompt mt).
  { unfold select_candidates, find_policy, unkeyed_router. cbn [rt_providers rt_policy_rules Router_new]. by rewrite Hp, Hr. }
  rewrite Heq in H1. rewrite H1 in H2. unfold selection_alike.
  destruct (select_candidates r _ _ _ _), (select_candidates s _ _ _ _); try done; cbn in H2; [|congruence].
  apply alike_of_map. congruence.
Qed.

Lemma frontier_alike r s mdl : router_alike r s -> frontier_rates r mdl = frontier_rates s mdl.
Proof.
  intros [Hp _].
  assert (Hu : forall r, frontier_rates r mdl = frontier_rates (unkeyed_router r) mdl).
  { intros x. unfold frontier_rates, unkeyed_router. cbn [rt_providers Router_new]. rewrite filter_map_same by done.
    rewrite !map_map. nil_map. }
  rewrite (Hu r), (Hu s). unfold frontier_rates, unkeyed_router.
  cbn [rt_providers Router_new]. by rewrite Hp.
Qed.

End Alike.

(** ** The vault's books, but for the token the calls were made with *)

Definition unsigned_call (c : LoggedCall) : LoggedCall := {|
  lc_at := lc_at c; lc_url := lc_url c; lc_token := ""; lc_call := lc_call c; lc_accepted := lc_accepted c |}.

Definition unsigned_vault (v : World) : World := with_calls v (map unsigned_call (w_calls v)).

Definition same_books (v1 v2 : World) : Prop := unsigned_vault v1 = unsigned_vault v2.

Lemma same_books_spec v1 v2 : same_books v1 v2 <->
  map unsigned_call (w_calls v1) = map unsigned_call (w_calls v2) /\ w_sql v1 = w_sql v2 /\
  w_pending v1 = w_pending v2 /\ w_backpressure v1 = w_backpressure v2.
Proof.
  unfold same_books, unsigned_vault. destruct v1, v2. unfold with_calls. cbn. split; [by intros [= -> -> -> ->]|].
  by intros (-> & -> & -> & ->).
Qed.

(** ** The shared state, but for the keys in stream tasks *)

Definition unkeyed_task (t : Task) : Task :=
  match t with
  | TaskStream k => TaskStream {|
      sk_correlation_id := sk_correlation_id k; sk_provider := sp_unkeyed (sk_provider k);
      sk_reservation_id := sk_reservation_id k; sk_start := sk_start k;
      sk_complexity_score := sk_complexity_score k; sk_tier := sk_tier k; sk_items := sk_items k |}
  | _ => t
  end.

Section World.
Context `{Watch}.

Definition unkeyed_world (w : AppWorld) : AppWorld :=
  with_vault (with_spawned w (map unkeyed_task (aw_spawned w))) (unsigned_vault (aw_vault w)).

Definition same_world (w1 w2 : AppWorld) : Prop := unkeyed_world w1 = unkeyed_world w2.

Lemma same_world_spec w1 w2 : same_world w1 w2 <->
  aw_registry w1 = aw_registry w2 /\ aw_writer w1 = aw_writer w2 /\ same_books (aw_vault w1) (aw_vault w2) /\
  map unkeyed_task (aw_spawned w1) = map unkeyed_task (aw_spawned w2) /\ aw_sent w1 = aw_sent w2 /\
  aw_accesses w1 = aw_accesses w2 /\ aw_awaits w1 = aw_awaits w2.
Proof.
  unfold same_world, same_books, unkeyed_world. split.
  - intros Heq. pose proof (f_equal aw_registry Heq). pose proof (f_equal aw_writer Heq). pose proof (f_equal aw_vault Heq).
    pose proof (f_equal aw_spawned Heq). pose proof (f_equal aw_sent Heq). pose proof (f_equal aw_accesses Heq). by pose proof (f_equal aw_awaits Heq).
  - unfold with_vault, with_spawned. cbn. by intros (-> & -> & -> & -> & -> & -> & ->).
Qed.

Lemma same_world_parts w1 w2 : same_world w1 w2 ->
  aw_registry w1 = aw_registry w2 /\ aw_writer w1 = aw_writer w2 /\ same_books (aw_vault w1) (aw_vault w2) /\
  aw_awaits w1 = aw_awaits w2.
Proof. intros (Hr & Hw & Hv & _ & _ & _ & Ha)%same_world_spec. by split_and!. Qed.

(** What does not look at the tasks keeps them the same. *)
Lemma agree_common f :
  (forall w, unkeyed_world (f w) = f (unkeyed_world w)) -> agree same_world eq (t_modify f) (t_modify f).
Proof. intros Hf. apply agree_modify. unfold same_world. intros w1 w2 Hw. by rewrite !Hf, Hw. Qed.

Lemma agree_spawn t1 t2 : unkeyed_task t1 = unkeyed_task t2 -> agree same_world eq (spawn t1) (spawn t2).
Proof.
  intros Ht. apply agree_modify. intros w1 w2. rewrite !same_world_spec. cbn.
  intros (-> & -> & Hv & Hs & -> & -> & ->). by rewrite !map_app, Hs; cbn; rewrite Ht.
Qed.

Lemma agree_vault {A B} (V : A -> B -> Prop) m1 m2 :
  agree same_books V m1 m2 -> agree same_world V (in_vault m1) (in_vault m2).
Proof.
  apply agree_zoom. intros w1 w2. rewrite same_world_spec. intros (Hr & Hw & Hv & Hs & Hse & Hac & Ha).
  split; [done|]. intros v1 v2 Hv'. by apply same_world_spec.
Qed.

Lemma agree_interfere i w1 w2 : same_world w1 w2 -> same_world (interfere i w1) (interfere i w2).
Proof.
  unfold same_world. intros Hw.
  change (interfere i (unkeyed_world w1) = interfere i (unkeyed_world w2)). by rewrite Hw.
Qed.

Lemma agree_yield others : agree same_world eq (yield_now others) (yield_now others).
Proof.
  apply agree_modify. intros w1 w2 Hw. destruct (same_world_parts _ _ Hw) as (_ & _ & _ & Ha). rewrite Ha.
  by apply agree_interfere.
Qed.

Lemma agree_wait others name : agree same_world eq (wait_for_probe others name) (wait_for_probe others name).
Proof.
  unfold wait_for_probe. eapply agree_bind; [apply agree_get|]. intros w1 w2 Hw.
  destruct (same_world_parts _ _ Hw) as (_ & _ & _ & ->). apply agree_bind_eq; [apply agree_await|intros _].
  apply agree_modify. intros w3 w4. apply agree_interfere.
Qed.

Lemma agree_registry others f : agree same_world eq (on_registry others f) (on_registry others f).
Proof.
  unfold on_registry. apply agree_bind_eq; [apply agree_yield|intros _]. agree_tac. by apply agree_common.
Qed.

Lemma agree_elapsed start : agree same_world eq (elapsed_ms start) (elapsed_ms start).
Proof. unfold elapsed_ms. agree_tac. Qed.

Lemma agree_acquire others name : agree same_world eq (acquire_permit others name) (acquire_permit others name).
Proof.
  unfold acquire_permit. apply agree_bind_eq; [apply agree_yield|intros _]. apply agree_bind_eq; [apply agree_now|intros now].
  eapply agree_bind; [apply agree_get|]. intros w1 w2 Hw. destruct (same_world_parts _ _ Hw) as (-> & _).
  destruct (acquire_start now name (aw_registry w2)) as [acq reg].
  apply agree_bind_eq; [by apply agree_common|intros _]. destruct acq as [r|rx reason trips]; [by apply agree_ret|].
  apply agree_bind_eq; [apply agree_wait|intros _]. eapply agree_bind; [apply agree_get|].
  intros w3 w4 Hw'. destruct (same_world_parts _ _ Hw') as (-> & _).
  destruct (acquire_poll _ _ _ _ _); [by apply agree_ret|apply agree_hang].
Qed.

Lemma agree_probe_guard {A B} (V : A -> B -> Prop) others probe m1 m2 :
  agree same_world V m1 m2 -> agree same_world V (with_probe_guard others probe m1) (with_probe_guard others probe m2).
Proof.
  intros Hm. destruct probe as [name|]; [|exact Hm]. apply agree_on_drop; [exact Hm|].
  intros t w1 w2 Hw. destruct (same_world_parts _ _ Hw) as (_ & _ & _ & ->).
  pose proof (agree_interfere (others (aw_awaits w2)) _ _ Hw) as Hi. revert Hi.
  rewrite !same_world_spec. cbn. by intros (-> & ? & ? & ? & ? & -> & ?).
Qed.

End World.

#[export] Hint Resolve agree_registry agree_vault agree_yield agree_elapsed agree_acquire : agree.

(** ** The handler *)

Section Handler.
Context `{Watch} `{HttpDeps} `{ScorerDeps} `{UnicodeCase} `{SerdeJson} `{!VaultSerde} `{SqlOrder}.
Context (others : nat -> Interference) (rfc3339 : Instant -> string).
Context (upstream : nat -> UpstreamRequest -> Duration * result UpstreamReply string).
Context (post : nat -> VaultCall -> Duration * result VaultReply SendError).
Context (vault_others : nat -> list PendingSettlement).

Definition unsigned (r : UpstreamRequest) : UpstreamRequest := {|
  ur_url := ur_url r; ur_idempotency_key := ur_idempotency_key r; ur_authorization := None; ur_body := ur_body r |}.

(** Every provider replies to a request the same whatever key it is signed with. *)
Context (upstream_unsigned : forall n r, upstream n r = upstream n (unsigned r)).

Definition vault_alike (v w : VaultClient) : Prop :=
  base_url v = base_url w /\ vc_default_reserve_tokens v = vc_default_reserve_tokens w.

Record state_alike (s1 s2 : AppState) : Prop := {
  sa_router : router_alike (st_router s1) (st_router s2);
  sa_routing : routing (st_config s1) = routing (st_config s2);
  sa_writer : st_db_writer s1 = st_db_writer s2;
  sa_vault : option_Forall2 vault_alike (st_vault s1) (st_vault s2);
}.

Context (s1 s2 : AppState) (Hs : state_alike s1 s2).

Lemma agree_write_log log : agree same_world eq (write_log s1 log) (write_log s2 log).
Proof.
  unfold write_log. rewrite (sa_writer _ _ Hs). destruct (st_db_writer s2); [|by apply agree_ret].
  apply agree_bind_eq; [apply agree_now|intros now]. by apply agree_common.
Qed.

Lemma agree_log_error ctx l p c m s tr :
  agree same_world eq (log_error_to_db rfc3339 s1 ctx l p c m s tr) (log_error_to_db rfc3339 s2 ctx l p c m s tr).
Proof. apply agree_write_log. Qed.

Lemma agree_log_success ctx l o s tr :
  agree same_world eq (log_success_to_db rfc3339 s1 ctx l o s tr) (log_success_to_db rfc3339 s2 ctx l o s tr).
Proof. apply agree_write_log. Qed.

Lemma agree_release ctx reason : agree same_world eq (spawn_release s1 ctx reason) (spawn_release s2 ctx reason).
Proof.
  unfold spawn_release. destruct (sa_vault _ _ Hs); [|by apply agree_ret].
  destruct (cx_reservation_id ctx); [by apply agree_spawn|by apply agree_ret].
Qed.

Lemma agree_settle ctx ms md : agree same_world eq (spawn_settle s1 ctx ms md) (spawn_settle s2 ctx ms md).
Proof.
  unfold spawn_settle. destruct (sa_vault _ _ Hs); [|by apply agree_ret].
  destruct (cx_reservation_id ctx); [by apply agree_spawn|by apply agree_ret].
Qed.

#[local] Hint Resolve agree_log_error agree_log_success agree_release agree_settle : agree.

Lemma agree_refuse ctx c m s tr e :
  agree same_world eq (refuse rfc3339 s1 ctx c m s tr e) (refuse rfc3339 s2 ctx c m s tr e).
Proof. unfold refuse. agree_tac. Qed.

(** *** Candidates *)

Definition filtered_alike (x y : list SelectedProvider * option string) : Prop :=
  Forall2 sp_alike (fst x) (fst y) /\ snd x = snd y.

Lemma sp_alike_name c d : sp_alike c d -> sp_name c = sp_name d.
Proof. unfold sp_alike, sp_unkeyed. congruence. Qed.

Lemma agree_filter cs ds : Forall2 sp_alike cs ds -> forall f1 f2 probe, Forall2 sp_alike f1 f2 ->
  agree same_world filtered_alike (filter_candidates others cs f1 probe) (filter_candidates others ds f2 probe).
Proof.
  induction 1 as [|c d cs ds Hcd _ IH]; intros f1 f2 probe Hf; cbn [filter_candidates]; [by apply agree_ret|].
  rewrite (sp_alike_name _ _ Hcd). apply agree_bind_eq; [apply agree_acquire|]. intros [[|]|e]; apply IH;
    [apply Forall2_app; [done|by constructor]|by constructor|done].
Qed.

Record resolved_alike (x y : ResolvedCandidates) : Prop := {
  ra_candidates : Forall2 sp_alike (rc_candidates x) (rc_candidates y);
  ra_probe : rc_probe_provider x = rc_probe_provider y;
  ra_score : rc_complexity_score x = rc_complexity_score y;
  ra_tier : rc_tier x = rc_tier y;
}.

Definition or_refused {A} (R : A -> A -> Prop) (x y : result A Response) : Prop :=
  match x, y with Ok a, Ok b => R a b | Err r, Err r' => r = r' | _, _ => False end.

Lemma agree_resolve_loop fuel ctx prompt score tier :
  agree same_world (or_refused resolved_alike)
    (resolve_loop others rfc3339 fuel s1 ctx prompt score tier) (resolve_loop others rfc3339 fuel s2 ctx prompt score tier).
Proof.
  revert tier. induction fuel as [|fuel IH]; intros tier; cbn [resolve_loop]; [apply agree_hang|].
  assert (Hr : forall c m s tr e, agree same_world (or_refused resolved_alike)
    (let! r := refuse rfc3339 s1 ctx c m s tr e in t_ret (Err r)) (let! r := refuse rfc3339 s2 ctx c m s tr e in t_ret (Err r)))
    by (intros; apply agree_bind_eq; [apply agree_refuse|intros r; by apply agree_ret]).
  pose proof (select_alike (st_router s1) (st_router s2) (cx_model ctx) (cx_policy_name ctx) prompt (Some tier) (sa_router _ _ Hs)) as Hsel.
  destruct (select_candidates (st_router s1) _ _ _ _) as [cs|e], (select_candidates (st_router s2) _ _ _ _) as [ds|e']; try done.
  - eapply agree_bind; [by apply agree_filter|]. intros [f1 probe] [f2 probe'] [Hf Hp]. cbn [fst snd] in *. subst probe'.
    destruct Hf as [|c d f1 f2 Hcd Hf]; [destruct (escalate tier); [apply IH|apply Hr]|].
    apply agree_ret. split; [by constructor|done..].
  - cbn [selection_alike] in Hsel. subst e'. destruct e; try apply Hr. destruct (escalate tier); [apply IH|apply Hr].
Qed.

Lemma agree_resolve ctx prompt ms ov :
  agree same_world (or_refused resolved_alike)
    (resolve_candidates others rfc3339 s1 ctx prompt ms ov) (resolve_candidates others rfc3339 s2 ctx prompt ms ov).
Proof.
  unfold resolve_candidates, initial_tier. rewrite (sa_routing _ _ Hs).
  destruct ov; cbv zeta; apply agree_resolve_loop.
Qed.

(** *** Sending *)

Lemma upstream_alike n req c d cid b : sp_alike c d ->
  upstream n (upstream_request req c cid b) = upstream n (upstream_request req d cid b).
Proof.
  intros Hcd. rewrite upstream_unsigned, (upstream_unsigned n (upstream_request req d cid b)).
  unfold unsigned, upstream_request. cbn. unfold sp_alike, sp_unkeyed in Hcd. do 2 f_equal. congruence.
Qed.

Lemma reply_result_alike {A} c d r (k1 k2 : UpstreamReply -> result A RequestError) :
  sp_alike c d -> (forall reply, k1 reply = k2 reply) -> reply_result c r k1 = reply_result d r k2.
Proof.
  intros Hcd Hk. unfold reply_result, request_error. rewrite (sp_alike_name _ _ Hcd).
  destruct r as [reply|e]; [|done]. by destruct (negb _).
Qed.

Lemma send_alike req cs ds cid n info : Forall2 sp_alike cs ds ->
  send_candidate upstream req cs cid n info = send_candidate upstream req ds cid n info.
Proof.
  intros Hf. unfold send_candidate.
  assert (Hfind : option_Forall2 sp_alike (List.find (fun c => String.eqb (sp_name c) (ci_name info)) cs)
                                  (List.find (fun c => String.eqb (sp_name c) (ci_name info)) ds)).
  { induction Hf as [|c d cs ds Hcd _ IH]; [constructor|]. cbn [List.find]. rewrite (sp_alike_name _ _ Hcd).
    destruct (String.eqb _ _); [by constructor|done]. }
  destruct Hfind as [c d Hcd|]; [|done]. rewrite (upstream_alike n req c d cid false Hcd).
  destruct (upstream n _) as [dur r]. f_equal. apply reply_result_alike; [done|]. intros reply.
  unfold handle_non_streaming_response, request_error, usage_cost, sp_alike, sp_unkeyed in *.
  injection Hcd as -> _ -> -> -> _. done.
Qed.

(** *** The two paths *)

(** The retry loop asks nothing of the candidates but their names, and the closure. *)
Lemma agree_retry ctx req x y : resolved_alike x y ->
  agree same_world eq (retry_under_deadline upstream ctx req x) (retry_under_deadline upstream ctx req y).
Proof.
  intros [Hc _ _ _]. unfold retry_under_deadline. apply agree_bind_eq; [apply agree_now|intros now].
  set (infos := map _ (rc_candidates x)).
  assert (Hi : map (fun c => {| ci_name := sp_name c |}) (rc_candidates y) = infos).
  { subst infos. induction Hc as [|c d cs ds Hcd _ IH]; [done|]. cbn [map]. by rewrite IH, (sp_alike_name _ _ Hcd). }
  rewrite Hi. apply (agree_zoom _ eq).
  { intros w1 w2. rewrite same_world_spec. intros (Hrg & Hw & Hv & Hsp & Hse & Hac & Ha). split; [done|].
    intros p1 p2 ->. apply same_world_spec. cbn. by rewrite Hse. }
  apply agree_refl. intros dl st. unfold t_bind, t_timeout_at. cbv zeta.
  erewrite retry_ext; [reflexivity|]. intros n c. by apply send_alike.
Qed.

Lemma agree_record_attempts l : agree same_world eq (record_attempts others l) (record_attempts others l).
Proof. induction l as [|a l IH]; cbn [record_attempts]; agree_tac. Qed.

Lemma agree_record_retry x y r : resolved_alike x y ->
  agree same_world eq (record_retry_outcome others x r) (record_retry_outcome others y r).
Proof. intros Hr. unfold record_retry_outcome. rewrite (ra_probe _ _ Hr). agree_tac. Qed.

Lemma agree_record_streaming x y r : resolved_alike x y ->
  agree same_world eq (record_streaming_outcome others x r) (record_streaming_outcome others y r).
Proof. intros Hr. unfold record_streaming_outcome, resolve_guard. rewrite (ra_probe _ _ Hr). agree_tac. Qed.

#[local] Hint Resolve agree_record_attempts agree_record_retry agree_record_streaming : agree.

Lemma agree_non_streaming ctx req x y : resolved_alike x y ->
  agree same_world eq (handle_non_streaming_path others rfc3339 upstream s1 ctx req x)
    (handle_non_streaming_path others rfc3339 upstream s2 ctx req y).
Proof.
  intros Hr. unfold handle_non_streaming_path. rewrite (ra_probe _ _ Hr).
  apply agree_bind_eq; [apply agree_probe_guard, agree_retry, Hr|]. intros [tr atts]. unfold finish_non_streaming.
  agree_tac; unfold respond_success, respond_error, respond_timeout; rewrite (ra_score _ _ Hr), (ra_tier _ _ Hr); agree_tac.
Qed.

Lemma agree_send_streaming ctx req x y c d : resolved_alike x y -> sp_alike c d ->
  agree same_world eq (send_streaming others upstream s1 ctx req x c) (send_streaming others upstream s2 ctx req y d).
Proof.
  intros Hr Hcd. unfold send_streaming. rewrite (upstream_alike _ _ _ _ _ _ Hcd), (sp_alike_name _ _ Hcd), (ra_score _ _ Hr), (ra_tier _ _ Hr).
  apply agree_bind_eq; [apply agree_now|intros start]. apply agree_bind_eq; [by apply agree_common|intros _].
  destruct (upstream 0 _) as [dur r]. apply agree_bind_eq; [apply agree_await|intros _].
  apply agree_bind_eq; [apply agree_yield|intros _]. rewrite (reply_result_alike c d r _ (fun reply => Ok reply)) by done.
  destruct (reply_result _ _ _); [|by apply agree_ret]. apply agree_bind_eq; [|intros _; by apply agree_ret].
  apply agree_spawn. cbn. by rewrite Hcd.
Qed.

Lemma agree_streaming ctx req x y : resolved_alike x y ->
  agree same_world eq (handle_streaming_path others rfc3339 upstream s1 ctx req x)
    (handle_streaming_path others rfc3339 upstream s2 ctx req y).
Proof.
  intros Hr. unfold handle_streaming_path. eapply agree_bind; [apply agree_index, (ra_candidates _ _ Hr)|].
  intros c d Hcd. rewrite (ra_probe _ _ Hr).
  apply agree_bind_eq; [by apply agree_probe_guard, agree_send_streaming|]. intros r. unfold finish_streaming.
  rewrite (ra_score _ _ Hr), (ra_tier _ _ Hr). agree_tac.
Qed.

Lemma agree_route ctx req x y : resolved_alike x y ->
  agree same_world eq (route others rfc3339 upstream s1 ctx req x) (route others rfc3339 upstream s2 ctx req y).
Proof. intros Hr. unfold route. destruct (cx_is_streaming ctx); [by apply agree_streaming|by apply agree_non_streaming]. Qed.

(** *** Billing and the whole handler *)

Lemma agree_rates ctx x y : resolved_alike x y -> agree same_world eq (reserve_rates s1 ctx x) (reserve_rates s2 ctx y).
Proof.
  intros Hr. unfold reserve_rates. rewrite (frontier_alike _ _ _ (sa_router _ _ Hs)).
  destruct (frontier_rates _ _); [by apply agree_ret|]. eapply agree_bind; [apply agree_index, (ra_candidates _ _ Hr)|].
  intros c d Hcd. apply agree_ret. unfold sp_alike, sp_unkeyed in Hcd. congruence.
Qed.

(** The vault replies the same, and books the same but for the token. *)
Lemma agree_post v1 v2 url call :
  agree same_books eq (vault_post post vault_others v1 url call) (vault_post post vault_others v2 url call).
Proof.
  unfold vault_post. eapply agree_bind; [apply agree_get|]. intros w1 w2 (Hc & _)%same_books_spec.
  apply (f_equal length) in Hc. rewrite !length_map in Hc. rewrite Hc.
  apply agree_bind_eq; [apply agree_now|intros now]. destruct (post _ call) as [d r].
  apply agree_bind_eq; [|intros _].
  { apply agree_modify. intros a b. rewrite !same_books_spec. cbn. intros (Hab & ? & ? & ?). by rewrite !map_app, Hab. }
  apply agree_bind_eq; [apply agree_await|intros _]. apply agree_bind_eq; [apply agree_now|intros later].
  apply agree_bind_eq; [|intros _; by apply agree_ret].
  apply agree_modify. intros a b. rewrite !same_books_spec. cbn. intros (? & ? & -> & ?). done.
Qed.

Lemma agree_reserve_funds ctx headers req x y v1 v2 : resolved_alike x y -> vault_alike v1 v2 ->
  agree same_world eq (reserve_funds others rfc3339 post vault_others s1 ctx headers req x v1)
    (reserve_funds others rfc3339 post vault_others s2 ctx headers req y v2).
Proof.
  intros Hr [Hu Ht]. unfold reserve_funds.
  assert (Href : forall c m, agree same_world eq (log_refusal rfc3339 s1 ctx x c m) (log_refusal rfc3339 s2 ctx y c m)).
  { intros c m. unfold log_refusal. rewrite (ra_score _ _ Hr), (ra_tier _ _ Hr). agree_tac. }
  eapply agree_bind; [apply agree_get|]. intros w1 w2 Hw. destruct (same_world_parts _ _ Hw) as (_ & _ & (_ & _ & _ & ->)%same_books_spec & _).
  destruct (w_backpressure _); [apply agree_bind_eq; [apply Href|intros _; by apply agree_ret]|].
  destruct (match h_authorization headers with Some v => _ | None => _ end) as [token|];
    [|apply agree_bind_eq; [apply Href|intros _; by apply agree_ret]].
  rewrite Ht. cbv zeta. apply agree_bind_eq; [by apply agree_rates|intros rates].
  unfold reserve_amount, reserve. rewrite Ht, Hu.
  apply agree_bind_eq; [apply agree_vault, agree_bind_eq; [apply agree_post|intros r; by apply agree_ret]|intros r]. apply agree_bind_eq; [apply agree_yield|intros _].
  destruct r; [by apply agree_ret|]. apply agree_bind_eq; [apply Href|intros _; by apply agree_ret].
Qed.

Lemma agree_chat request_id headers req :
  agree same_world eq (chat_completions others rfc3339 upstream post vault_others s1 request_id headers req)
    (chat_completions others rfc3339 upstream post vault_others s2 request_id headers req).
Proof.
  unfold chat_completions. apply agree_bind_eq; [apply agree_now|intros start]. cbv zeta.
  eapply agree_bind; [apply agree_resolve|]. intros [x|r] [y|r'] Hr; try done.
  destruct (sa_vault _ _ Hs) as [v1 v2 Hv|]; [|by apply agree_route].
  apply agree_bind_eq; [by apply agree_reserve_funds|]. intros [[ctx' req']|r]; [by apply agree_route|by apply agree_ret].
Qed.

End Handler.
