(* ===== verification/Query.v ===== *)
(** * The log listing and statistics endpoints
    ([src/src/proxy/{validation,stats,logs}.rs])

    Time ranges, filter validation, the paginated listing and the statistics, on top of the
    queries of file Storage.  Each handler runs a query of each kind at most once; [read q]
    is the table that query sees, or the error of the database, so other tasks may write
    between the queries.  Timestamps are the crate [chrono]'s (class [Chrono]); the order in
    which a hash map or set is iterated is arbitrary (class [HashOrder]). *)

From S2P Require Import Prelude Machine RustStr Timed Config Errors Storage.

(** Times are nanoseconds in UTC. *)
Class Chrono := {
  (** [DateTime::parse_from_rfc3339(s)] in UTC, or the text of its error *)
  parse_from_rfc3339 : string -> result Z string;
  to_rfc3339 : Z -> string;
}.

Class HashOrder := {
  iter_order : forall A : Type, list A -> list A;
  iter_order_perm : forall A (l : list A), Permutation (iter_order A l) l;
}.

(** ** Time ranges *)

Inductive RangePreset := Last1h | Last24h | Last7d | Last30d.

Definition RangePreset_parse (s : string) : option RangePreset :=
  if String.eqb s "last_1h" then Some Last1h
  else if String.eqb s "last_24h" then Some Last24h
  else if String.eqb s "last_7d" then Some Last7d
  else if String.eqb s "last_30d" then Some Last30d
  else None.

Definition hours (n : Z) : Z := secs (3600 * n).

Definition RangePreset_duration (r : RangePreset) : Z :=
  match r with
  | Last1h => hours 1
  | Last24h => hours 24
  | Last7d => hours (24 * 7)
  | Last30d => hours (24 * 30)
  end.

Section Query.
Context `{Chrono} `{UnicodeCase} `{SqlEngine} `{HashOrder}.

Definition parse_bound (which s : string) : result Z Error :=
  map_err (fun e => BadRequest ("Invalid '" +:+ which +:+ "' timestamp: " +:+ e)) (parse_from_rfc3339 s).

Definition resolve_time_range (now : Z) (range since until : option string) : result (Z * Z) Error :=
  let? since_dt :=
    match since with
    | Some s => parse_bound "since" s
    | None =>
        match range with
        | Some r =>
            let? preset := ok_or (RangePreset_parse r) (BadRequest
              ("Invalid range '" +:+ r +:+ "'. Supported: last_1h, last_24h, last_7d, last_30d")) in
            Ok (now - RangePreset_duration preset)
        | None => Ok (now - RangePreset_duration Last7d)
        end
    end in
  let? until_dt := match until with Some u => parse_bound "until" u | None => Ok now end in
  Ok (since_dt, until_dt).

(** ** Queries and filters *)

Inductive Query := QModelExists | QProviderExists | QCount | QPage | QAggregate | QGroups.

Definition Reads : Type := Query -> result RequestsTable string.

(** A query of the handler: [sqlx] errors become [Error::Database]. *)
Definition run_query {A} (read : Reads) (q : Query) (f : RequestsTable -> A) : result A Error :=
  let? t := map_err EDatabase (read q) in Ok (f t).

Definition validate_model_filter (config : Config) (read : Reads) (model : string) : result unit Error :=
  let in_config := existsb (fun p =>
    existsb (fun m => str_eq_ignore_ascii_case m model) (p_models p)) (providers config) in
  if in_config then Ok tt
  else
    let? in_db := run_query read QModelExists (exists_in_db "model" model) in
    if in_db then Ok tt else Err (NotFound ("Model '" +:+ model +:+ "' not found")).

Definition validate_provider_filter (config : Config) (read : Reads) (provider : string) : result unit Error :=
  let in_config := existsb (fun p => str_eq_ignore_ascii_case (p_name p) provider) (providers config) in
  if in_config then Ok tt
  else
    let? in_db := run_query read QProviderExists (exists_in_db "provider" provider) in
    if in_db then Ok tt else Err (NotFound ("Provider '" +:+ provider +:+ "' not found")).

(** [if let Some(ref x) = filter { validate(x).await?; }] *)
Definition validate_opt (validate : string -> result unit Error) (filter : option string) : result unit Error :=
  match filter with Some x => validate x | None => Ok tt end.

(** ** The log listing *)

Record LogsQuery := {
  lq_range : option string; lq_since : option string; lq_until : option string;
  lq_model : option string; lq_provider : option string;
  lq_success : option bool; lq_streaming : option bool;
  lq_page : option Z; lq_per_page : option Z;
  lq_sort : option string; lq_order : option string;
}.

Record ErrorSection := { er_status : option Z; er_message : option string }.

Record LogEntry := {
  le_id : Z; le_timestamp : string; le_model : string; le_provider : option string;
  le_streaming : bool; le_success : bool;
  le_input : option Z; le_output : option Z; le_sats : option f64;
  le_latency_ms : Z; le_stream_duration_ms : option Z;
  le_error : option ErrorSection;
}.

Record LogsResponse := {
  lr_data : list LogEntry; lr_page : Z; lr_per_page : Z; lr_total : Z; lr_total_pages : Z;
  lr_since : string; lr_until : string;
}.

Definition validate_sort_field (field : string) : result string Error :=
  if String.eqb field "timestamp" then Ok "timestamp"
  else if String.eqb field "cost_sats" then Ok "cost_sats"
  else if String.eqb field "latency_ms" then Ok "latency_ms"
  else Err (BadRequest ("Invalid sort field '" +:+ field
                        +:+ "'. Valid options: timestamp, cost_sats, latency_ms")).

Definition validate_sort_order (order : string) : result string Error :=
  if String.eqb (to_lowercase order) "asc" then Ok "ASC"
  else if String.eqb (to_lowercase order) "desc" then Ok "DESC"
  else Err (BadRequest ("Invalid sort order '" +:+ order +:+ "'. Valid options: asc, desc")).

(** The closure of [rows.into_iter().map(..)]. *)
Definition log_entry (row : RequestRow) : LogEntry :=
  let l := rq_log row in {|
  le_id := rq_id row; le_timestamp := timestamp l; le_model := rl_model l; le_provider := rl_provider l;
  le_streaming := rl_streaming l; le_success := rl_success l;
  le_input := rl_input_tokens l; le_output := rl_output_tokens l; le_sats := rl_cost_sats l;
  le_latency_ms := rl_latency_ms l; le_stream_duration_ms := rq_stream_duration_ms row;
  le_error := match rl_error_status l, rl_error_message l with
              | None, None => None
              | st, m => Some {| er_status := st; er_message := m |}
              end |}.

Definition logs_filter (params : LogsQuery) (since until : Z) : LogFilter := {|
  lf_since := to_rfc3339 since; lf_until := to_rfc3339 until;
  lf_model := lq_model params; lf_provider := lq_provider params;
  lf_success := lq_success params; lf_streaming := lq_streaming params |}.

Definition sort_column (params : LogsQuery) : result string Error :=
  match lq_sort params with Some field => validate_sort_field field | None => Ok "timestamp" end.
Definition sort_direction (params : LogsQuery) : result string Error :=
  match lq_order params with Some order => validate_sort_order order | None => Ok "DESC" end.

Definition effective_page (params : LogsQuery) : Z := Z.max (default 1 (lq_page params)) 1.
Definition effective_per_page (params : LogsQuery) : Z :=
  Z.min (Z.max (default 20 (lq_per_page params)) 1) 100.

(** [(page - 1) * per_page] in [u32], which wraps. *)
Definition page_offset (page per_page : Z) : Z := u32_mul (u32_sub page 1) per_page.

Definition count_pages (total per_page : Z) : Z :=
  if (total =? 0)%Z then 0 else div_ceil (as_u32 total) per_page.

Definition logs_handler (config : Config) (read_db : option Reads) (now : Z) (params : LogsQuery)
    : result LogsResponse Error :=
  let? read := ok_or read_db (Internal "Database not available") in
  let? (since, until) := resolve_time_range now (lq_range params) (lq_since params) (lq_until params) in
  let? _ := validate_opt (validate_model_filter config read) (lq_model params) in
  let? _ := validate_opt (validate_provider_filter config read) (lq_provider params) in
  let? sort_column := sort_column params in
  let? sort_direction := sort_direction params in
  let page := effective_page params in
  let per_page := effective_per_page params in
  let f := logs_filter params since until in
  let? total := run_query read QCount (count_logs f) in
  let? rows := run_query read QPage
    (query_logs f sort_column sort_direction per_page (page_offset page per_page)) in
  Ok {| lr_data := map log_entry rows; lr_page := page; lr_per_page := per_page; lr_total := total;
        lr_total_pages := count_pages total per_page;
        lr_since := to_rfc3339 since; lr_until := to_rfc3339 until |}.

(** *** What the listing returns *)

Definition at_page (params : LogsQuery) (page : Z) : LogsQuery := {|
  lq_range := lq_range params; lq_since := lq_since params; lq_until := lq_until params;
  lq_model := lq_model params; lq_provider := lq_provider params;
  lq_success := lq_success params; lq_streaming := lq_streaming params;
  lq_page := Some page; lq_per_page := lq_per_page params;
  lq_sort := lq_sort params; lq_order := lq_order params |}.

(** The answer for one page. *)
Definition listing (params : LogsQuery) (since until : Z) (col dir : string) (page : Z)
    (t_count t_page : RequestsTable) : LogsResponse :=
  let f := logs_filter params since until in
  let per_page := effective_per_page params in {|
  lr_data := map log_entry (query_logs f col dir per_page (page_offset page per_page) t_page);
  lr_page := page; lr_per_page := per_page; lr_total := count_logs f t_count;
  lr_total_pages := count_pages (count_logs f t_count) per_page;
  lr_since := to_rfc3339 since; lr_until := to_rfc3339 until |}.

Lemma logs_handler_inv config read now params r :
  logs_handler config (Some read) now params = Ok r ->
  exists since until col dir t1 t2,
    resolve_time_range now (lq_range params) (lq_since params) (lq_until params) = Ok (since, until) /\
    sort_column params = Ok col /\ sort_direction params = Ok dir /\ read QCount = Ok t1 /\ read QPage = Ok t2 /\
    r = listing params since until col dir (effective_page params) t1 t2 /\
    forall p, 1 <= p -> logs_handler config (Some read) now (at_page params p)
                        = Ok (listing params since until col dir p t1 t2).
Proof.
  unfold logs_handler, run_query. cbn [ok_or result_bind]. intros Hr. inv_res.
  destruct x as [since until]. inv_res.
  destruct (read QCount) as [t1|e1] eqn:Er1; cbn [map_err result_bind] in *; [|discriminate].
  destruct (read QPage) as [t2|e2] eqn:Er2; cbn [map_err result_bind] in *; [|discriminate].
  injection E7 as ->. injection E6 as ->. exists since, until, x1, x2, x6, x5. split_and!; [done..|].
  intros p Hp. change (sort_column (at_page params p)) with (sort_column params).
  change (sort_direction (at_page params p)) with (sort_direction params). cbn [at_page lq_range lq_since lq_until lq_model lq_provider lq_sort lq_order].
  repeat match goal with E : ?x = Ok _ |- context [result_bind ?x _] => rewrite E; cbn [result_bind] end.
  by replace (effective_page (at_page params p)) with p by (unfold effective_page; simpl; lia).
Qed.

Lemma logs_response_bounds' config read now params r :
  logs_handler config (Some read) now params = Ok r ->
  1 <= lr_page r /\ 1 <= lr_per_page r <= 100 /\
  Z.of_nat (length (lr_data r)) <= lr_per_page r /\
  (lr_total r <= U32_MAX -> lr_total r <= lr_total_pages r * lr_per_page r /\
     (lr_total r = 0 \/ (lr_total_pages r - 1) * lr_per_page r < lr_total r)).
Proof.
  intros Hr. apply logs_handler_inv in Hr as (since & until & col & dir & t1 & t2 & _ & _ & _ & _ & _ & -> & _).
  cbn [listing lr_page lr_per_page lr_data lr_total lr_total_pages].
  assert (Hpp : 1 <= effective_per_page params <= 100) by (unfold effective_per_page; lia).
  split_and!; [unfold effective_page; lia|lia|lia| |].
  - rewrite length_map. unfold query_logs. rewrite length_take. lia.
  - intros Ht. set (n := count_logs _ t1) in *. assert (0 <= n) by (unfold n, count_logs; lia).
    unfold count_pages. rewrite as_u32_id by (unfold in_u32; lia).
    destruct (Z.eqb_spec n 0); [lia|].
    destruct (div_ceil_spec n (effective_per_page params)) as [[? ?]|]; lia.
Qed.


(** every answer of the listing is a page within its bounds: a page number of at least
    one, one to a hundred rows per page and no more rows than that, and the page count of
    the total it reports. *)
Theorem logs_response_bounds config read now params r :
  logs_handler config (Some read) now params = Ok r ->
  1 <= lr_page r /\ 1 <= lr_per_page r <= 100 /\
  Z.of_nat (length (lr_data r)) <= lr_per_page r /\
  (lr_total r <= U32_MAX -> lr_total r <= lr_total_pages r * lr_per_page r /\
     (lr_total r = 0 \/ (lr_total_pages r - 1) * lr_per_page r < lr_total r)).
Proof. apply logs_response_bounds'. Qed.

Definition page_data (r : result LogsResponse Error) : list LogEntry :=
  match r with Ok resp => lr_data resp | Err _ => [] end.

(** Below the [u32] range the offset does not wrap. *)
Lemma page_offset_small (page per_page : Z) :
  1 <= page <= U32_MAX -> 0 <= per_page -> (page - 1) * per_page <= U32_MAX ->
  page_offset page per_page = (page - 1) * per_page.
Proof.
  intros Hp Hq Hm. unfold page_offset, u32_mul, u32_sub.
  rewrite (as_u32_id (page - 1)) by (unfold in_u32; lia). apply as_u32_id. unfold in_u32. nia.
Qed.

(** C39: the listing shows every matching request, in the order that was asked for (by default
    the latest first).  When nothing is written in between and the rows are fewer than 2^32,
    the pages from one to the reported page count, read in this order, are as long as the
    matching rows and show, place by place, a matching row that the sort column cannot tell from
    the one of the sorted list.  If no two matching rows tie in that column, they are the
    matching rows in sorted order, each exactly once; rows that tie may be repeated or skipped
    from page to page, since the query has no second sort key. *)
Theorem listing_is_complete config t now params r :
  logs_handler config (Some (fun _ => Ok t)) now params = Ok r -> lr_total r <= U32_MAX ->
  exists since until col dir rows shown,
    resolve_time_range now (lq_range params) (lq_since params) (lq_until params) = Ok (since, until) /\
    sort_column params = Ok col /\ sort_direction params = Ok dir /\
    let matching := List.filter (where_clause (logs_filter params since until)) (rq_rows t) in
    lr_total r = Z.of_nat (length matching) /\
    Permutation rows matching /\ StronglySorted (row_before col dir) rows /\
    concat (map (fun i => page_data (logs_handler config (Some (fun _ => Ok t)) now
                                       (at_page params (Z.of_nat i + 1))))
              (seq 0 (Z.to_nat (lr_total_pages r))))
    = map log_entry shown /\
    Forall2 (fun s r => In s matching /\ tied col s r) shown rows /\
    (untied col matching -> shown = rows).
Proof.
  intros Hr Ht. pose proof (logs_response_bounds' _ _ _ _ _ Hr) as (_ & Hpp & _ & Hpages).
  apply logs_handler_inv in Hr as (since & until & col & dir & t1 & t2 & Hs & Hc & Hd & [= <-] & [= <-] & -> & Hat).
  set (f := logs_filter params since until) in *. set (pp := effective_per_page params).
  set (n := Z.to_nat (count_pages (count_logs f t) pp)). set (m := List.filter (where_clause f) (rq_rows t)).
  exists since, until, col, dir, (sort_rows pp 0 col dir m),
    (concat (map (fun i => query_logs f col dir pp (Z.of_nat i * pp) t) (seq 0 n))).
  cbn [listing lr_total lr_total_pages lr_per_page] in *. fold f pp in Ht, Hpp, Hpages |- *. specialize (Hpages Ht).
  assert (Hties : Forall2 (fun s r => In s m /\ In r m /\ tied col s r)
    (concat (map (fun i => query_logs f col dir pp (Z.of_nat i * pp) t) (seq 0 n))) (sort_rows pp 0 col dir m)).
  { apply pages_up_to_ties; [lia|]. unfold n, count_pages in *. destruct (Z.eqb_spec (count_logs f t) 0); lia. }
  cbv zeta. fold m. split_and!; [done..|apply sort_rows_perm|apply sort_rows_sorted| | |].
  - assert (Hn : forall i, In i (seq 0 n) -> Z.of_nat i * pp <= U32_MAX /\ Z.of_nat i + 1 <= U32_MAX).
    { intros i Hi. apply in_seq in Hi. unfold n in Hi. set (np := count_pages _ pp) in *.
      destruct Hpages as [_ [Hz|Hlt]]; [unfold np, count_pages in Hi; rewrite Hz in Hi; simpl in Hi; lia|].
      assert (Z.of_nat i * pp <= (np - 1) * pp) by (apply Z.mul_le_mono_nonneg_r; lia).
      assert (Z.of_nat i * 1 <= Z.of_nat i * pp) by (apply Z.mul_le_mono_nonneg_l; lia). lia. }
    rewrite concat_map, map_map. f_equal. apply map_ext_in. intros i Hi. destruct (Hn i Hi).
    rewrite Hat by lia. cbn [page_data listing lr_data]. fold f pp.
    rewrite page_offset_small by (rewrite ?Z.add_simpl_r; lia). by rewrite Z.add_simpl_r.
  - eapply List.Forall2_impl; [|exact Hties]. by intros s r (Hi & _ & Hsr).
  - intros Hu. apply list_eq_Forall2. eapply List.Forall2_impl; [|exact Hties]. intros s r (Hi & Hj & Hsr). auto.
Qed.

(** page numbers wrap.  The offset is computed in 32 bits, so with [k] rows per page
    the page [2^32 / k] places further on (for [k] a power of two) shows the rows of the
    page asked for instead of none. *)
Theorem page_offset_wraps (page k e : Z) :
  0 <= e <= 32 -> k = 2 ^ e -> 1 <= page ->
  page_offset (page + 2 ^ (32 - e)) k = page_offset page k.
Proof.
  intros He -> Hp. unfold page_offset, u32_mul, u32_sub, as_u32.
  rewrite !Zmult_mod_idemp_l.
  replace ((page + 2 ^ (32 - e) - 1) * 2 ^ e) with ((page - 1) * 2 ^ e + 2 ^ (32 - e) * 2 ^ e) by ring.
  rewrite <- Z.pow_add_r by lia. replace (32 - e + e) with 32 by lia.
  replace (2 ^ 32) with (1 * 2 ^ 32) at 1 by lia. by rewrite Z_mod_plus_full.
Qed.

(** ** Statistics *)

Record StatsQuery := {
  sq_range : option string; sq_since : option string; sq_until : option string;
  sq_model : option string; sq_provider : option string; sq_group_by : option string;
}.

(** The [counts], [costs] and [performance] sections. *)
Record StatsEntry := {
  se_total : Z; se_success : Z; se_error : Z; se_streaming : Z;
  se_cost_sats : f64; se_input_tokens : Z; se_output_tokens : Z; se_avg_latency_ms : f64;
}.

(** [model_row_to_json], [tier_row_to_json] and the sections of the response. *)
Definition entry_of (a : AggregateRow) : StatsEntry := {|
  se_total := total_requests a; se_success := success_count a; se_error := error_count a;
  se_streaming := streaming_count a; se_cost_sats := total_cost_sats a;
  se_input_tokens := f64_to_i64 (total_input_tokens a);
  se_output_tokens := f64_to_i64 (total_output_tokens a);
  se_avg_latency_ms := avg_latency_ms a |}.

Definition zeroed : StatsEntry := {|
  se_total := 0; se_success := 0; se_error := 0; se_streaming := 0; se_cost_sats := f64_zero;
  se_input_tokens := 0; se_output_tokens := 0; se_avg_latency_ms := f64_zero |}.

Record StatsResponse := {
  sr_since : string; sr_until : string; sr_empty : option bool; sr_message : option string;
  sr_totals : StatsEntry;
  sr_models : option (gmap string StatsEntry); sr_tiers : option (gmap string StatsEntry);
}.

(** The grouping of both maps: index the SQL rows by [norm] of their name, give every known
    name its row or zeros, then add the rows that are left under their own name. *)
Definition index_rows (norm : string -> string) (rows : list (string * StatsEntry))
    : gmap string (string * StatsEntry) :=
  fold_left (fun m r => <[norm (fst r) := r]> m) rows ∅.

Definition fill_known (norm : string -> string) (known : list string)
    (st : gmap string StatsEntry * gmap string (string * StatsEntry))
    : gmap string StatsEntry * gmap string (string * StatsEntry) :=
  fold_left (fun '(acc, idx) name =>
    match idx !! norm name with
    | Some r => (<[name := snd r]> acc, delete (norm name) idx)
    | None => (<[name := zeroed]> acc, idx)
    end) known st.

Definition add_rest (rest : list (string * (string * StatsEntry))) (acc : gmap string StatsEntry)
    : gmap string StatsEntry :=
  fold_left (fun acc r => <[fst (snd r) := snd (snd r)]> acc) rest acc.

Definition fill_groups (norm : string -> string) (known : list string)
    (rows : list (string * StatsEntry)) : gmap string StatsEntry :=
  let '(acc, idx) := fill_known norm known (∅, index_rows norm rows) in
  add_rest (iter_order _ (map_to_list idx)) acc.

(** The names of all configured models, without duplicates, in the order of a hash set. *)
Definition configured_models (config : Config) : list string :=
  iter_order _ (List.nodup String.string_dec (flat_map p_models (providers config))).

Definition model_groups (config : Config) (rows : list ModelRow) : gmap string StatsEntry :=
  fill_groups to_lowercase (configured_models config)
    (map (fun r => (mr_model r, entry_of (mr_agg r))) rows).

Definition tier_groups (rows : list TierRow) : gmap string StatsEntry :=
  fill_groups (fun t => t) ["local"; "standard"; "frontier"]
    (map (fun r => (tr_tier r, entry_of (tr_agg r))) rows).

Definition stats_handler (config : Config) (read_db : option Reads) (now : Z) (params : StatsQuery)
    : result StatsResponse Error :=
  let? read := ok_or read_db (Internal "Database not available") in
  let? (since, until) := resolve_time_range now (sq_range params) (sq_since params) (sq_until params) in
  let since_str := to_rfc3339 since in
  let until_str := to_rfc3339 until in
  let? _ := validate_opt (validate_model_filter config read) (sq_model params) in
  let? _ := validate_opt (validate_provider_filter config read) (sq_provider params) in
  let? _ := match sq_group_by params with
            | Some gb => if String.eqb gb "model" || String.eqb gb "tier" then Ok tt
                         else Err (BadRequest "Invalid group_by value. Supported: 'model', 'tier'")
            | None => Ok tt
            end in
  let? row := run_query read QAggregate
                (query_aggregate since_str until_str (sq_model params) (sq_provider params)) in
  let grouped_by (g : string) := match sq_group_by params with Some gb => String.eqb gb g | None => false end in
  let? models :=
    if grouped_by "model" then
      let? rows := run_query read QGroups
                     (query_grouped_by_model since_str until_str (sq_provider params)) in
      Ok (Some (model_groups config rows))
    else Ok None in
  let? tiers :=
    if grouped_by "tier" then
      let? rows := run_query read QGroups
                     (query_grouped_by_tier since_str until_str (sq_model params) (sq_provider params)) in
      Ok (Some (tier_groups rows))
    else Ok None in
  let none_found := (total_requests row =? 0)%Z in
  Ok {| sr_since := since_str; sr_until := until_str;
        sr_empty := if none_found then Some true else None;
        sr_message := if none_found then Some "No requests found in the specified time range" else None;
        sr_totals := entry_of row; sr_models := models; sr_tiers := tiers |}.

(** *** The groups *)

Definition totals (m : gmap string StatsEntry) : Z := map_fold (fun _ e n => se_total e + n) 0 m.
Definition row_totals (rows : list (string * StatsEntry)) : Z :=
  fold_right (fun r n => se_total (snd r) + n) 0 rows.

Lemma totals_insert k e m : m !! k = None -> totals (<[k := e]> m) = se_total e + totals m.
Proof. intros Hk. unfold totals. apply (map_fold_insert_L (fun _ e n => se_total e + n)); [intros; lia|done]. Qed.

Lemma totals_empty : totals ∅ = 0.
Proof. apply map_fold_empty. Qed.

Lemma row_totals_perm l l' : Permutation l l' -> row_totals l = row_totals l'.
Proof. induction 1; simpl; lia. Qed.

Section Groups.
Context (norm : string -> string).
Implicit Types (rows : list (string * StatsEntry)) (idx : gmap string (string * StatsEntry)).

(** The rows of an index, and that its keys are those of its rows. *)
Definition idx_rows idx : list (string * StatsEntry) := map snd (map_to_list idx).
Definition idx_ok idx : Prop := forall k r, idx !! k = Some r -> norm (fst r) = k.

Lemma idx_rows_insert k r idx :
  idx !! k = None -> Permutation (idx_rows (<[k := r]> idx)) (r :: idx_rows idx).
Proof. intros Hk. unfold idx_rows. by rewrite (map_to_list_insert idx k r Hk). Qed.

Lemma idx_rows_delete k r idx :
  idx !! k = Some r -> Permutation (idx_rows idx) (r :: idx_rows (delete k idx)).
Proof. intros Hk. unfold idx_rows. by rewrite <- (map_to_list_delete idx k r Hk). Qed.

Lemma index_rows_spec rows :
  List.NoDup (map (fun r => norm (fst r)) rows) ->
  Permutation (idx_rows (index_rows norm rows)) rows /\ idx_ok (index_rows norm rows) /\
  forall r, In r rows -> index_rows norm rows !! norm (fst r) = Some r.
Proof.
  unfold index_rows. induction rows as [|r rows IH] using rev_ind; intros Hnd.
  { split_and!; [done| |done]. intros k r. cbn [fold_left]. by rewrite lookup_empty. }
  rewrite map_app in Hnd. apply List.NoDup_remove in Hnd as [Hnd Hni]. rewrite app_nil_r in Hnd, Hni.
  rewrite fold_left_app. cbn [fold_left]. destruct (IH Hnd) as (Hp & Hok & Hl).
  set (m := fold_left _ rows ∅) in *.
  assert (Hk : m !! norm (fst r) = None).
  { destruct (m !! norm (fst r)) as [q|] eqn:E; [|done]. exfalso. apply Hni.
    rewrite <- (Hok _ _ E). apply (in_map (fun r => norm (fst r))). rewrite <- Hp.
    apply (in_map snd _ (norm (fst r), q)). apply list_elem_of_In. by apply elem_of_map_to_list. }
  split_and!.
  - rewrite (idx_rows_insert _ _ _ Hk), Hp. apply Permutation_cons_append.
  - intros k q. rewrite lookup_insert. destruct (decide _) as [<-|]; [by intros [= <-]|apply Hok].
  - intros q Hq. rewrite lookup_insert. destruct (decide _) as [He|Hne].
    + apply in_app_or in Hq as [Hq|[<-|[]]]; [|done]. apply Hl in Hq. rewrite <- He in Hq. congruence.
    + apply in_app_or in Hq as [Hq|[<-|[]]]; [by apply Hl|done].
Qed.

(** The loop over the known names moves their rows from the index to the result. *)
Lemma fill_known_spec known : forall acc idx,
  List.NoDup (map norm known) -> (forall n, In n known -> acc !! n = None) ->
  let '(acc', idx') := fill_known norm known (acc, idx) in
  totals acc' + row_totals (idx_rows idx') = totals acc + row_totals (idx_rows idx) /\
  (forall k, In k (map norm known) -> idx' !! k = None) /\
  (forall k, ~ In k (map norm known) -> idx' !! k = idx !! k) /\
  (forall n, In n known -> acc' !! n = Some (match idx !! norm n with Some r => snd r | None => zeroed end)) /\
  (forall n, ~ In n known -> acc' !! n = acc !! n).
Proof.
  unfold fill_known. induction known as [|n known IH]; intros acc idx Hnd Hfresh; [by split_and!|].
  cbn [map] in Hnd. apply List.NoDup_cons_iff in Hnd as [Hni Hnd]. cbn [fold_left]. cbv beta iota.
  assert (Hstep : (match idx !! norm n with
                   | Some r => (<[n := snd r]> acc, delete (norm n) idx)
                   | None => (<[n := zeroed]> acc, idx)
                   end) = (<[n := match idx !! norm n with Some r => snd r | None => zeroed end]> acc,
                           delete (norm n) idx)).
  { destruct (idx !! norm n) eqn:E; [done|]. by rewrite delete_id. }
  rewrite Hstep. clear Hstep. set (e := match idx !! norm n with Some r => snd r | None => zeroed end) in *.
  set (idx1 := delete (norm n) idx).
  assert (Hsum : se_total e + row_totals (idx_rows idx1) = row_totals (idx_rows idx)).
  { unfold e, idx1. destruct (idx !! norm n) as [r|] eqn:E.
    - by rewrite (row_totals_perm _ _ (idx_rows_delete _ _ _ E)).
    - by rewrite delete_id. }
  assert (Hn : ~ In n known) by (intros Hin; apply Hni; by apply in_map).
  specialize (IH (<[n := e]> acc) idx1 Hnd). 
  destruct (fold_left _ known _) as [acc' idx'].
  destruct IH as (Ht & Hin & Hout & Hk & Ho).
  { intros k Hk. rewrite lookup_insert_ne by (intros ->; done). apply Hfresh. by right. }
  rewrite totals_insert in Ht by (apply Hfresh; by left).
  split_and!.
  - lia.
  - intros k [<-|Hk']; [|by apply Hin]. rewrite Hout by done. unfold idx1. by rewrite lookup_delete_eq.
  - intros k Hk'. cbn [map In] in Hk'. rewrite Hout by tauto. unfold idx1.
    rewrite lookup_delete_ne; [done|tauto].
  - intros k [<-|Hk']; [rewrite Ho by done; by rewrite lookup_insert_eq|]. rewrite Hk by done.
    unfold idx1. rewrite lookup_delete_ne; [done|]. intros He. apply Hni. rewrite He. by apply in_map.
  - intros k Hk'. cbn [In] in Hk'. rewrite Ho by tauto. rewrite lookup_insert_ne; [done|tauto].
Qed.

Lemma add_rest_spec rest : forall acc,
  List.NoDup (map (fun q => fst (snd q)) rest) -> (forall q, In q rest -> acc !! fst (snd q) = None) ->
  totals (add_rest rest acc) = totals acc + row_totals (map snd rest) /\
  (forall q, In q rest -> add_rest rest acc !! fst (snd q) = Some (snd (snd q))) /\
  (forall n, (forall q, In q rest -> fst (snd q) <> n) -> add_rest rest acc !! n = acc !! n).
Proof.
  unfold add_rest. induction rest as [|q rest IH]; intros acc Hnd Hfresh; [split_and!; [simpl; lia|done|done]|].
  cbn [map] in Hnd. apply List.NoDup_cons_iff in Hnd as [Hni Hnd]. cbn [fold_left].
  assert (Hne : forall p, In p rest -> fst (snd p) <> fst (snd q)).
  { intros p Hp He. apply Hni. rewrite <- He. by apply (in_map (fun q => fst (snd q))). }
  destruct (IH (<[fst (snd q) := snd (snd q)]> acc) Hnd) as (Ht & Hin & Hout).
  { intros p Hp. rewrite lookup_insert_ne by (intros He; by apply (Hne p)). apply Hfresh. by right. }
  rewrite totals_insert in Ht by (apply Hfresh; by left). split_and!.
  - simpl. lia.
  - intros p [<-|Hp]; [|by apply Hin]. rewrite Hout by done. by rewrite lookup_insert_eq.
  - intros n Hn. rewrite Hout by (intros p Hp; apply Hn; by right).
    rewrite lookup_insert_ne; [done|]. apply Hn. by left.
Qed.

Definition has_name (n : string) (r : string * StatsEntry) : Prop := norm (fst r) = norm n.

Lemma fill_groups_spec known rows :
  List.NoDup (map norm known) -> List.NoDup (map (fun r => norm (fst r)) rows) ->
  let m := fill_groups norm known rows in
  totals m = row_totals rows /\
  (forall n r, In n known -> In r rows -> has_name n r -> m !! n = Some (snd r)) /\
  (forall n, In n known -> (forall r, In r rows -> ~ has_name n r) -> m !! n = Some zeroed) /\
  (forall r, In r rows -> ~ In (norm (fst r)) (map norm known) -> m !! fst r = Some (snd r)).
Proof.
  intros Hk Hr. destruct (index_rows_spec rows Hr) as (Hp & Hok & Hl). unfold fill_groups.
  pose proof (fill_known_spec known ∅ (index_rows norm rows) Hk) as Hf.
  set (idx := index_rows norm rows) in *. destruct (fill_known norm known (∅, idx)) as [acc idx'].
  destruct Hf as (Ht & Hin & Hout & Hkn & Hoth); [intros; apply lookup_empty|]. cbv zeta beta iota.
  assert (Hrest : forall q, In q (iter_order _ (map_to_list idx')) <-> idx' !! fst q = Some (snd q)).
  { intros [k r]. rewrite <- elem_of_map_to_list, list_elem_of_In.
    split; apply Permutation_in; [|symmetry]; apply iter_order_perm. }
  assert (Hok' : forall k r, idx' !! k = Some r -> ~ In k (map norm known) /\ idx !! k = Some r).
  { intros k r E. destruct (in_dec String.string_dec k (map norm known)) as [Hi|Hi];
      [by rewrite (Hin k Hi) in E|]. by rewrite <- (Hout k Hi). }
  destruct (add_rest_spec (iter_order _ (map_to_list idx')) acc) as (Hsum & Hget & Hkeep).
  { apply (List.NoDup_map_inv norm). rewrite map_map.
    rewrite (map_ext_in _ fst).
    - eapply Permutation_NoDup; [|apply NoDup_ListNoDup, (NoDup_fst_map_to_list idx')].
      apply Permutation_map, Permutation_sym, iter_order_perm.
    - intros q Hq. apply Hrest, Hok' in Hq as [_ Hq]. by apply Hok. }
  { intros q Hq. apply Hrest, Hok' in Hq as [Hni Hq]. rewrite Hoth; [apply lookup_empty|].
    intros Hi. apply Hni. rewrite <- (Hok _ _ Hq). by apply in_map. }
  assert (Hacc : forall n, In n known -> add_rest (iter_order _ (map_to_list idx')) acc !! n = acc !! n).
  { intros n Hn. apply Hkeep. intros q Hq <-. apply Hrest, Hok' in Hq as [Hni Hq]. apply Hni.
    rewrite <- (Hok _ _ Hq). by apply in_map. }
  split_and!.
  - rewrite Hsum. rewrite (row_totals_perm _ (idx_rows idx')).
    + rewrite Ht, totals_empty. by rewrite (row_totals_perm _ _ Hp).
    + apply Permutation_map, iter_order_perm.
  - intros n r Hn Hi Hname. rewrite Hacc, Hkn by done. rewrite <- Hname. by rewrite (Hl r Hi).
  - intros n Hn Hno. rewrite Hacc, Hkn by done. destruct (idx !! norm n) as [r|] eqn:E; [|done].
    exfalso. apply (Hno r); [|by apply Hok]. rewrite <- Hp. unfold idx_rows.
    apply (in_map snd _ (norm n, r)), list_elem_of_In. by apply elem_of_map_to_list.
  - intros r Hi Hni. apply (Hget (norm (fst r), r)), Hrest. cbn [fst snd].
    rewrite Hout by done. by apply Hl.
Qed.

End Groups.

(** *** The statistics add up *)

Lemma stats_handler_inv config read now params r :
  stats_handler config (Some read) now params = Ok r ->
  exists since until t1, read QAggregate = Ok t1 /\
    let agg := query_aggregate (to_rfc3339 since) (to_rfc3339 until) (sq_model params) (sq_provider params) t1 in
    sr_since r = to_rfc3339 since /\ sr_until r = to_rfc3339 until /\ sr_totals r = entry_of agg /\
    (sq_group_by params = Some "model" -> exists t2, read QGroups = Ok t2 /\
       sr_models r = Some (model_groups config (query_grouped_by_model (to_rfc3339 since)
                                                  (to_rfc3339 until) (sq_provider params) t2))) /\
    (sq_group_by params = Some "tier" -> exists t2, read QGroups = Ok t2 /\
       sr_tiers r = Some (tier_groups (query_grouped_by_tier (to_rfc3339 since) (to_rfc3339 until)
                                         (sq_model params) (sq_provider params) t2))).
Proof.
  unfold stats_handler, run_query. cbn [ok_or result_bind]. intros Hr. inv_res.
  destruct x as [since until]. inv_res.
  destruct (read QAggregate) as [ta|ea] eqn:Ea; cbn [map_err] in *; [|discriminate]. injection E6 as ->.
  exists since, until, x5. split; [done|]. cbv zeta. split_and!; try done; intros Hg.
  - rewrite Hg in E4. cbn in E4. destruct (read QGroups) as [t2|]; [|discriminate].
    injection E4 as <-. by exists t2.
  - rewrite Hg in E5. cbn in E5. destruct (read QGroups) as [t2|]; [|discriminate].
    injection E5 as <-. by exists t2.
Qed.

Lemma row_totals_map {A} (f : A -> string) (g : A -> AggregateRow) (l : list A) :
  row_totals (map (fun a => (f a, entry_of (g a))) l)
  = fold_right (fun a n => total_requests (g a) + n) 0 l.
Proof. induction l as [|a l IH]; simpl; [done|]. by rewrite IH. Qed.

(** [group_by=tier] accounts for every request.  On an unchanging table the totals of
    the tier map sum to the total reported, the three known tiers are always there, and a
    tier's entry is the aggregate of its rows. *)
Theorem stats_tiers_add_up config t now params r :
  stats_handler config (Some (fun _ => Ok t)) now params = Ok r -> sq_group_by params = Some "tier" ->
  exists m, sr_tiers r = Some m /\ totals m = se_total (sr_totals r) /\
    (forall n, In n ["local"; "standard"; "frontier"] -> is_Some (m !! n)) /\
    (forall g, In g (query_grouped_by_tier (sr_since r) (sr_until r) (sq_model params) (sq_provider params) t) ->
       m !! tr_tier g = Some (entry_of (tr_agg g))).
Proof.
  intros Hr Hg. apply stats_handler_inv in Hr as (since & until & t1 & [= <-] & Hs & Hu & Ht & _ & Hm).
  destruct (Hm Hg) as (t2 & [= <-] & ->). rewrite Hs, Hu, Ht. eexists. split; [reflexivity|].
  unfold tier_groups. set (rows := query_grouped_by_tier _ _ _ _ _).
  destruct (group_by_spec tier_or_unknown (fun k a => {| tr_tier := k; tr_agg := a |}) tr_agg tr_tier
    (selected (to_rfc3339 since) (to_rfc3339 until) (sq_model params) (sq_provider params) t))
    as [Hsum Hnames]; [done..|].
  fold (query_grouped_by_tier (to_rfc3339 since) (to_rfc3339 until) (sq_model params) (sq_provider params) t)
    in Hsum, Hnames. fold rows in Hsum, Hnames.
  destruct (fill_groups_spec (fun t => t) ["local"; "standard"; "frontier"]
    (map (fun r => (tr_tier r, entry_of (tr_agg r))) rows)) as (Htot & Hrow & Hzero & Hrest).
  { repeat constructor; simpl; intuition discriminate. }
  { rewrite map_map. change (List.NoDup (map tr_tier rows)). rewrite Hnames. apply sql_groups_NoDup. }
  assert (Hget : forall g, In g rows -> fill_groups (fun t => t) ["local"; "standard"; "frontier"]
    (map (fun r => (tr_tier r, entry_of (tr_agg r))) rows) !! tr_tier g = Some (entry_of (tr_agg g))).
  { intros g Hi. pose proof (in_map (fun r => (tr_tier r, entry_of (tr_agg r))) _ _ Hi) as Hi'.
    destruct (in_dec String.string_dec (tr_tier g) ["local"; "standard"; "frontier"]) as [Hk|Hk].
    - by apply (Hrow _ _ Hk Hi').
    - apply (Hrest _ Hi'). by rewrite map_id. }
  split_and!; [|intros n Hn|exact Hget].
  - rewrite Htot, row_totals_map, Hsum. reflexivity.
  - destruct (in_dec String.string_dec n (map tr_tier rows)) as [Hi|Hi].
    + apply in_map_iff in Hi as (g & <- & Hi). rewrite (Hget g Hi). by eexists.
    + rewrite Hzero; [by eexists|done|]. intros q Hq Hname. apply Hi.
      apply in_map_iff in Hq as (g & <- & Hq). unfold has_name in Hname. cbn [fst] in Hname.
      rewrite <- Hname. by apply in_map.
Qed.

(** [group_by=model] accounts for every request up to letter case, and for every model.
    On an unchanging table where neither the configured names nor the logged ones clash in
    lower case, a configured model shows the aggregate of its rows or zeros, an
    unconfigured one its own rows, and the totals sum to all requests in the range: the
    [model] filter of the query does not apply to this map. *)
Theorem stats_models_add_up config t now params r :
  stats_handler config (Some (fun _ => Ok t)) now params = Ok r -> sq_group_by params = Some "model" ->
  let rows := query_grouped_by_model (sr_since r) (sr_until r) (sq_provider params) t in
  let known := configured_models config in
  List.NoDup (map to_lowercase known) -> List.NoDup (map (fun g => to_lowercase (mr_model g)) rows) ->
  exists m, sr_models r = Some m /\
    totals m = total_requests (query_aggregate (sr_since r) (sr_until r) None (sq_provider params) t) /\
    (forall name g, In name known -> In g rows -> to_lowercase (mr_model g) = to_lowercase name ->
       m !! name = Some (entry_of (mr_agg g))) /\
    (forall name, In name known ->
       (forall g, In g rows -> to_lowercase (mr_model g) <> to_lowercase name) -> m !! name = Some zeroed) /\
    (forall g, In g rows -> ~ In (to_lowercase (mr_model g)) (map to_lowercase known) ->
       m !! mr_model g = Some (entry_of (mr_agg g))).
Proof.
  intros Hr Hg. apply stats_handler_inv in Hr as (since & until & t1 & [= <-] & Hs & Hu & Ht & Hm & _).
  destruct (Hm Hg) as (t2 & [= <-] & ->). rewrite Hs, Hu. cbv zeta. intros Hk Hn.
  eexists. split; [reflexivity|]. unfold model_groups. set (rows := query_grouped_by_model _ _ _ _) in *.
  destruct (group_by_spec (fun r => rl_model (rq_log r)) (fun k a => {| mr_model := k; mr_agg := a |})
    mr_agg mr_model (selected (to_rfc3339 since) (to_rfc3339 until) None (sq_provider params) t))
    as [Hsum _]; [done..|].
  fold (query_grouped_by_model (to_rfc3339 since) (to_rfc3339 until) (sq_provider params) t) in Hsum.
  fold rows in Hsum.
  destruct (fill_groups_spec to_lowercase (configured_models config)
    (map (fun r => (mr_model r, entry_of (mr_agg r))) rows) Hk) as (Htot & Hrow & Hzero & Hrest).
  { by rewrite map_map. }
  assert (Hin : forall g, In g rows -> In (mr_model g, entry_of (mr_agg g))
    (map (fun r => (mr_model r, entry_of (mr_agg r))) rows))
    by (intros g; apply (in_map (fun r => (mr_model r, entry_of (mr_agg r))))).
  split_and!.
  - rewrite Htot, row_totals_map, Hsum. reflexivity.
  - intros name g Hi Hgr Hname. by apply (Hrow _ _ Hi (Hin _ Hgr)).
  - intros name Hi Hno. apply (Hzero _ Hi). intros q Hq.
    apply in_map_iff in Hq as (g & <- & Hq). by apply Hno.
  - intros g Hgr Hni. by apply (Hrest _ (Hin _ Hgr)).
Qed.

End Query.

(** ** Witnesses *)

Section QueryWitnesses.
#[local] Existing Instance AsciiCase.
#[local] Existing Instance ListEngine.

(** Negative times are in 2025, the others in 2027. *)
#[local] Instance chrono_ex : Chrono := {|
  parse_from_rfc3339 := fun s => Err "premature end of input";
  to_rfc3339 := fun z => if z <? 0 then "2025-12-25T00:00:00+00:00" else "2027-01-01T00:00:00+00:00" |}.
#[local] Instance order_ex : HashOrder :=
  {| iter_order := fun _ l => l; iter_order_perm := fun _ l => Permutation_refl l |}.

Definition query_config_ex : Config := {|
  server := {| listen := default_listen; rate_limit_rps := None; auth_token := None |};
  database := None; vault := None;
  providers := [{| p_name := "alpha"; p_url := "http://alpha"; p_api_key := None;
                   p_models := ["GPT-4o"; "claude"]; p_input_rate := 1; p_output_rate := 20;
                   p_base_fee := 0; p_tier := Frontier; p_auto_discover := false |}];
  policies := {| default_strategy := "cheapest"; rules := [] |};
  logging := LoggingConfig_default; routing := RoutingConfig_default |}.

Definition logs_query_ex : LogsQuery := {|
  lq_range := None; lq_since := None; lq_until := None; lq_model := Some "gpt-4o"; lq_provider := None;
  lq_success := None; lq_streaming := None; lq_page := None; lq_per_page := Some 1;
  lq_sort := None; lq_order := Some "asc" |}.

Definition stats_query_ex (g : string) : StatsQuery := {|
  sq_range := Some "last_24h"; sq_since := None; sq_until := None; sq_model := None; sq_provider := None;
  sq_group_by := Some g |}.

Definition unchanged (t : RequestsTable) : Reads := fun _ => Ok t.

(** Two rows, one per page. *)
Definition logs_response_ex : LogsResponse :=
  listing logs_query_ex (- hours (24 * 7)) 0 "timestamp" "ASC" 1 table_ex table_ex.

Lemma logs_handler_ex :
  logs_handler query_config_ex (Some (unchanged table_ex)) 0 logs_query_ex = Ok logs_response_ex.
Proof. vm_compute. reflexivity. Qed.

Lemma logs_response_bounds_witness :
  logs_handler query_config_ex (Some (unchanged table_ex)) 0 logs_query_ex = Ok logs_response_ex /\
  1 <= lr_page logs_response_ex /\ 1 <= lr_per_page logs_response_ex <= 100.
Proof.
  pose proof (logs_response_bounds _ _ _ _ _ logs_handler_ex) as (Hp & Hpp & _).
  split; [exact logs_handler_ex|]. split; [exact Hp|exact Hpp].
Defined.

Lemma listing_is_complete_witness :
  exists rows, Permutation rows (rq_rows table_ex) /\ StronglySorted (row_before "timestamp" "ASC") rows /\
  concat (map (fun i => page_data (logs_handler query_config_ex (Some (unchanged table_ex)) 0
                                     (at_page logs_query_ex (Z.of_nat i + 1)))) (seq 0 2))
  = map log_entry rows.
Proof.
  assert (Ht : lr_total logs_response_ex <= U32_MAX) by (vm_compute; discriminate).
  destruct (listing_is_complete _ _ _ _ _ logs_handler_ex Ht)
    as (since & until & col & dir & rows & shown & Hs & Hc & Hd & _ & Hp & Hsort & Hpages & _ & Hu).
  injection Hc as <-. injection Hd as <-. vm_compute in Hs. injection Hs as <- <-.
  exists rows. split; [exact Hp|]. split; [exact Hsort|].
  rewrite <- Hu; [exact Hpages|].
  intros r1 r2 H1 H2 [Ha Hb]. vm_compute in H1, H2.
  destruct H1 as [<-|[<-|[]]], H2 as [<-|[<-|[]]]; try reflexivity; vm_compute in Ha, Hb; discriminate.
Defined.

(** Of two requests of one instant the two pages may show one twice and the other not at all. *)
Definition tied_table : RequestsTable :=
  insert_log (log_ex "c2" "2026-01-01T00:00:00Z" false)
    (insert_log (log_ex "c1" "2026-01-01T00:00:00Z" true) RequestsTable_new).

Example tied_rows_are_lost :
  map (fun i => map le_id (page_data (@logs_handler chrono_ex AsciiCase TieEngine query_config_ex
                                        (Some (unchanged tied_table)) 0 (at_page logs_query_ex i)))) [1; 2]
  = [[1]; [1]].
Proof. vm_compute. reflexivity. Qed.

(** Twenty rows would be pages 1 to 5 of four; page 2^30 + 1 shows the first one again. *)
Lemma page_offset_wraps_witness : page_offset (1 + 2 ^ 30) 4 = page_offset 1 4.
Proof. apply (page_offset_wraps 1 4 2); [lia|reflexivity|lia]. Defined.

Lemma stats_tiers_add_up_witness :
  exists r m, stats_handler query_config_ex (Some (unchanged table_ex)) 0 (stats_query_ex "tier") = Ok r /\
    sr_tiers r = Some m /\ totals m = 2.
Proof.
  destruct (stats_handler query_config_ex (Some (unchanged table_ex)) 0 (stats_query_ex "tier")) as [r|e] eqn:E;
    [|vm_compute in E; discriminate E].
  destruct (stats_tiers_add_up _ _ _ _ _ E eq_refl) as (m & Hm & Ht & _).
  exists r, m. split; [reflexivity|]. split; [exact Hm|]. rewrite Ht.
  vm_compute in E. injection E as <-. reflexivity.
Defined.

Lemma stats_models_add_up_witness :
  exists r m, stats_handler query_config_ex (Some (unchanged table_ex)) 0 (stats_query_ex "model") = Ok r /\
    sr_models r = Some m /\ totals m = 2 /\ m !! "claude" = Some zeroed.
Proof.
  destruct (stats_handler query_config_ex (Some (unchanged table_ex)) 0 (stats_query_ex "model")) as [r|e] eqn:E;
    [|vm_compute in E; discriminate E].
  assert (Hr : sr_since r = "2025-12-25T00:00:00+00:00" /\ sr_until r = "2027-01-01T00:00:00+00:00")
    by (vm_compute in E; injection E as <-; split; reflexivity).
  destruct Hr as [Hs Hu].
  destruct (stats_models_add_up _ _ _ _ _ E eq_refl) as (m & Hm & Ht & _ & Hz & _).
  - vm_compute. repeat constructor; simpl; intuition discriminate.
  - rewrite Hs, Hu. vm_compute. repeat constructor; simpl; intuition discriminate.
  - exists r, m. split; [reflexivity|]. split; [exact Hm|]. split.
    + rewrite Ht, Hs, Hu. vm_compute. reflexivity.
    + apply Hz; [vm_compute; tauto|]. rewrite Hs, Hu. intros g [<-|[]]. vm_compute. discriminate.
Defined.

(** Two logged models that differ in case only: one of them is lost. *)
Definition clash_table : RequestsTable :=
  let upper := log_ex "c3" "2026-01-01T00:00:02Z" true in
  insert_log {| correlation_id := "c3"; timestamp := timestamp upper; rl_model := "GPT-4O";
                rl_provider := None; rl_policy := None; rl_streaming := false; rl_input_tokens := None;
                rl_output_tokens := None; rl_cost_sats := None; rl_provider_cost_sats := None;
                rl_latency_ms := 1; rl_success := true; rl_error_status := None;
                rl_error_message := None; rl_complexity_score := None; rl_tier := None |} table_ex.

Example clashing_models_lose_rows :
  match stats_handler query_config_ex (Some (unchanged clash_table)) 0 (stats_query_ex "model") with
  | Ok r => (se_total (sr_totals r), option_map totals (sr_models r))
  | Err _ => (0, None)
  end = (3, Some 1).
Proof. vm_compute. reflexivity. Qed.

End QueryWitnesses.
