(* ===== verification/Server.v ===== *)
(** * Startup, routing table and the small endpoints
    ([src/src/proxy/{server,discovery,handlers}.rs])

    Model discovery, the state [run_server] builds, the bearer-token check in front of the
    proxied endpoints, and the endpoints that only read the state: models, health, cost
    estimate and providers.  The HTTP replies of discovery are the parameter [fetch], and
    whether the SQLite pools open are parameters of [run_server]. *)

From S2P Require Import Prelude Machine RustStr Timed Config Errors Types Router Complexity.
From S2P Require Import CircuitBreaker Storage Vault Http Handlers.

(** ** Discovery *)

(** The reply to [GET .../models]: its status, and the model ids of its body. *)
Record ModelsReply := { mp_status : Z; mp_models : result (list string) string }.

Definition with_models (p : ProviderConfig) (models : list string) : ProviderConfig := {|
  p_name := p_name p; p_url := p_url p; p_api_key := p_api_key p; p_models := models;
  p_input_rate := p_input_rate p; p_output_rate := p_output_rate p; p_base_fee := p_base_fee p;
  p_tier := p_tier p; p_auto_discover := p_auto_discover p |}.

Section Discovery.
Context (fetch : string -> option ApiKey -> result ModelsReply string).

Definition discover_one (p : ProviderConfig) : ProviderConfig :=
  if negb (p_auto_discover p) then p
  else
    match fetch (str_trim_end_char "/" (p_url p) +:+ "/models") (p_api_key p) with
    | Ok resp =>
        if is_success (mp_status resp) then
          match mp_models resp with
          | Ok model_ids => with_models p model_ids
          | Err _ => p
          end
        else p
    | Err _ => p
    end.

Definition discover_models (ps : list ProviderConfig) : list ProviderConfig := map discover_one ps.

(** discovery changes nothing but model lists, and only those of providers that asked for
    it and whose endpoint answered with a list; the number, order, names, rates and tiers of
    the providers stay. *)
Theorem discovery_only_replaces_models (ps : list ProviderConfig) (i : nat) (p : ProviderConfig) :
  ps !! i = Some p ->
  length (discover_models ps) = length ps /\
  exists models, discover_models ps !! i = Some (with_models p models) /\
    (models = p_models p \/
     p_auto_discover p = true /\ exists resp,
       fetch (str_trim_end_char "/" (p_url p) +:+ "/models") (p_api_key p) = Ok resp /\
       is_success (mp_status resp) = true /\ mp_models resp = Ok models).
Proof.
  intros Hi. unfold discover_models. rewrite length_map, list_lookup_fmap, Hi. split; [done|].
  cbn [fmap option_fmap option_map]. unfold discover_one.
  assert (Hid : p = with_models p (p_models p)) by (by destruct p).
  destruct (p_auto_discover p) eqn:Ea; cbn [negb]; [|by exists (p_models p); rewrite <- Hid; auto].
  destruct (fetch _ _) as [resp|] eqn:Ef; [|by exists (p_models p); rewrite <- Hid; auto].
  destruct (is_success _) eqn:Es; [|by exists (p_models p); rewrite <- Hid; auto].
  destruct (mp_models resp) as [ids|] eqn:Em; [|by exists (p_models p); rewrite <- Hid; auto].
  exists ids. split; [done|]. right. split; [done|]. by exists resp.
Qed.

(** a provider whose endpoint answers with no models becomes a candidate for every model,
    known or not: the selector takes an empty list as a wildcard. *)
Theorem empty_discovery_serves_everything (p : ProviderConfig) (resp : ModelsReply) (model : string) :
  p_auto_discover p = true ->
  fetch (str_trim_end_char "/" (p_url p) +:+ "/models") (p_api_key p) = Ok resp ->
  is_success (mp_status resp) = true -> mp_models resp = Ok [] ->
  serves model (discover_one p) = true.
Proof. intros Ha Hf Hs Hm. unfold discover_one. by rewrite Ha, Hf, Hs, Hm. Qed.

End Discovery.

(** ** The router of the server *)

Inductive Method := GET | POST.

Inductive Endpoint := ChatCompletions | ListModels | CostEstimate | Stats | Requests | Health | Providers.

#[export] Instance Endpoint_eq_dec : EqDecision Endpoint.
Proof. solve_decision. Defined.

Definition endpoint_route (e : Endpoint) : Method * string :=
  match e with
  | ChatCompletions => (POST, "/v1/chat/completions")
  | ListModels => (GET, "/v1/models")
  | CostEstimate => (POST, "/v1/cost")
  | Stats => (GET, "/v1/stats")
  | Requests => (GET, "/v1/requests")
  | Health => (GET, "/health")
  | Providers => (GET, "/providers")
  end.

(** The routes under [proxy_routes]. *)
Definition is_proxy_route (e : Endpoint) : bool :=
  match e with ChatCompletions | ListModels | CostEstimate => true | _ => false end.

Definition unauthorized : Response :=
  mkResponse 401 {[ "content-type" := "application/json" ]}
    (ErrorObject "Invalid or missing bearer token" "authentication_error" "invalid_api_key").

(** [auth_middleware]: [None] runs the handler. *)
Definition auth_middleware (expected_token : string) (authorization : option string) : option Response :=
  match authorization with
  | Some value =>
      match str_strip_prefix "Bearer " value with
      | Some t => if String.eqb t expected_token then None else Some unauthorized
      | None => Some unauthorized
      end
  | None => Some unauthorized
  end.

(** The layer [create_router] puts around [proxy_routes], if any. *)
Definition guard_proxy (state : AppState) (authorization : option string) : option Response :=
  match st_vault state with
  | None =>
      match auth_token (server (st_config state)) with
      | Some token => auth_middleware token authorization
      | None => None
      end
  | Some _ => None
  end.

(** What is in front of an endpoint. *)
Definition guard_endpoint (state : AppState) (e : Endpoint) (authorization : option string)
    : option Response :=
  if is_proxy_route e then guard_proxy state authorization else None.

(** who gets through.  Statistics, logs, health and providers are open to all.  The
    proxied endpoints want exactly [Bearer <token>] when a token is configured and no vault
    is; with a vault the configured token is not asked for anywhere. *)
Theorem guard_endpoint_spec (state : AppState) (e : Endpoint) (authorization : option string) :
  (guard_endpoint state e authorization = None <->
   is_proxy_route e = false \/ st_vault state <> None \/
   auth_token (server (st_config state)) = None \/
   exists token, auth_token (server (st_config state)) = Some token /\
     authorization = Some ("Bearer " +:+ token)) /\
  (forall resp, guard_endpoint state e authorization = Some resp -> resp_status resp = 401).
Proof.
  assert (Hm : forall token, auth_middleware token authorization = None <->
                             authorization = Some ("Bearer " +:+ token)).
  { intros token. unfold auth_middleware. destruct authorization as [v|]; [|by split].
    pose proof (str_strip_prefix_Some "Bearer " v token) as Hp.
    destruct (str_strip_prefix "Bearer " v) as [s|].
    - destruct (String.eqb_spec s token) as [->|Hne]; split; try done.
      + intros _. f_equal. by apply Hp.
      + intros [= Hv]. destruct Hne. apply Hp in Hv. by injection Hv.
    - split; [done|]. intros [= Hv]. apply Hp in Hv. done. }
  unfold guard_endpoint, guard_proxy. destruct (is_proxy_route e); [|by split; [tauto|]].
  destruct (st_vault state) as [vc|]; [by split; [split; [right; left|]|]|].
  destruct (auth_token _) as [token|]; [|by split; [tauto|]]. split.
  - rewrite Hm. split; [intros ->; do 3 right; by exists token|].
    intros [?|[?|[?|(? & [= <-] & ?)]]]; done.
  - intros resp. unfold auth_middleware. destruct authorization as [v|]; [|by intros [= <-]].
    destruct (str_strip_prefix _ v) as [s|]; [|by intros [= <-]].
    destruct (String.eqb s token); [done|by intros [= <-]].
Qed.

(** ** Models *)

Record ModelInfo := { mi_id : string; mi_object : string; mi_owned_by : string }.

(** The nested loop of [list_models], over [models] so far and the set of names seen. *)
Definition push_models (st : list ModelInfo * gset string) (models : list string)
    : list ModelInfo * gset string :=
  fold_left (fun '(out, seen) m =>
    if bool_decide (m ∈ seen) then (out, seen)
    else (out ++ [{| mi_id := m; mi_object := "model"; mi_owned_by := "routstr" |}], {[ m ]} ∪ seen))
    models st.

Definition list_models (state : AppState) : list ModelInfo :=
  fst (fold_left (fun st p => push_models st (p_models p)) (rt_providers (st_router state)) ([], ∅)).

Definition models_ok (done : list string) (st : list ModelInfo * gset string) : Prop :=
  List.NoDup (map mi_id (fst st)) /\
  (forall m, In m (map mi_id (fst st)) <-> In m done) /\ (forall m, m ∈ snd st <-> In m done).

Lemma push_models_ok models : forall done st,
  models_ok done st -> models_ok (done ++ models) (push_models st models).
Proof.
  unfold push_models. induction models as [|m models IH]; intros done [out seen] (Hnd & Hin & Hseen).
  { by rewrite app_nil_r. }
  cbn [fold_left]. replace (done ++ m :: models) with ((done ++ [m]) ++ models) by (by rewrite <- app_assoc).
  apply IH. cbn [fst snd] in *.
  assert (Hd : forall k, In k (done ++ [m]) <-> In k done \/ k = m).
  { intros k. rewrite in_app_iff. simpl. intuition congruence. }
  case_bool_decide as Hm.
  - split_and!; [done|..]; intros k; rewrite Hd; cbn [fst snd]; [rewrite Hin|rewrite Hseen];
      (split; [tauto|]); intros [?| ->]; try done; by apply Hseen.
  - split_and!; cbn [fst snd]; rewrite ?map_app; cbn [map mi_id].
    + apply NoDup_snoc; [done|]. rewrite Hin, <- Hseen. done.
    + intros k. rewrite Hd, in_app_iff, Hin. simpl. intuition congruence.
    + intros k. rewrite Hd, elem_of_union, elem_of_singleton, Hseen. tauto.
Qed.

(** the model list has every model of every provider exactly once. *)
Theorem list_models_spec (state : AppState) :
  List.NoDup (map mi_id (list_models state)) /\
  forall m, In m (map mi_id (list_models state)) <->
            exists p, In p (rt_providers (st_router state)) /\ In m (p_models p).
Proof.
  unfold list_models. set (ps := rt_providers (st_router state)).
  assert (Hok : models_ok (flat_map p_models ps)
    (fold_left (fun st p => push_models st (p_models p)) ps ([], ∅))).
  { clearbody ps. induction ps as [|p ps IH] using rev_ind.
    - split_and!; cbn; [constructor|tauto|intros m; set_solver].
    - rewrite fold_left_app, flat_map_app. cbn [fold_left flat_map]. rewrite app_nil_r.
      by apply push_models_ok. }
  destruct Hok as (Hnd & Hin & _). split; [done|]. intros m. rewrite Hin. apply in_flat_map.
Qed.

(** ** Health *)

Record ProviderHealth := { ph_state : string; ph_failure_count : Z; ph_tier : string }.
Record HealthResponse := { hr_status : string; hr_providers : gmap string ProviderHealth }.

Section Health.
Context `{Watch}.

(** Collected into a map, so the last provider of a name counts. *)
Definition tier_map (ps : list ProviderConfig) : gmap string string :=
  fold_left (fun m p => <[p_name p := Tier_to_string (p_tier p)]> m) ps ∅.

Definition provider_health (tiers : gmap string string) (snap : CircuitSnapshot) : ProviderHealth := {|
  ph_state := CircuitState_as_str (cs_state snap); ph_failure_count := cs_failure_count snap;
  ph_tier := default "standard" (tiers !! cs_name snap) |}.

Definition is_state (s : CircuitState) (snap : CircuitSnapshot) : bool := bool_decide (cs_state snap = s).

Definition health_status (snapshots : list CircuitSnapshot) : string * Z :=
  match snapshots with
  | [] => ("ok", 200)
  | _ =>
      if forallb (is_state Open) snapshots then ("unhealthy", 503)
      else if existsb (fun s => is_state Open s || is_state HalfOpen s) snapshots then ("degraded", 200)
      else ("ok", 200)
  end.

Definition health_providers (tiers : gmap string string) (snapshots : list CircuitSnapshot)
    : gmap string ProviderHealth :=
  fold_left (fun m s => <[cs_name s := provider_health tiers s]> m) snapshots ∅.

Definition health (state : AppState) (reg : Registry) : Z * HealthResponse :=
  let snapshots := all_states reg in
  let tiers := tier_map (rt_providers (st_router state)) in
  let '(status_text, status_code) := health_status snapshots in
  (status_code, {| hr_status := status_text; hr_providers := health_providers tiers snapshots |}).

Definition circuit_of (reg : Registry) (name : string) : option CircuitState :=
  option_map (fun cb => CircuitBreaker.state (inner cb)) (reg !! name).

Lemma all_states_In (reg : Registry) snap :
  In snap (all_states reg) <->
  exists cb, reg !! cs_name snap = Some cb /\ cs_state snap = CircuitBreaker.state (inner cb) /\
             cs_failure_count snap = failure_count (inner cb).
Proof.
  unfold all_states. rewrite in_map_iff. split.
  - intros ([name cb] & <- & Hi). apply list_elem_of_In, elem_of_map_to_list in Hi. by exists cb.
  - intros (cb & Hl & Hs & Hf). exists (cs_name snap, cb). split; [by destruct snap; simpl in *; subst|].
    apply list_elem_of_In. by apply elem_of_map_to_list.
Qed.

Lemma insert_all_lookup {A B} (f : A -> string) (g : A -> B) (l : list A) : forall (m : gmap string B) k,
  List.NoDup (map f l) ->
  fold_left (fun m s => <[f s := g s]> m) l m !! k
  = match List.find (fun s => String.eqb (f s) k) l with Some s => Some (g s) | None => m !! k end.
Proof.
  induction l as [|s l IH]; intros m k Hnd; [done|]. cbn [map] in Hnd.
  apply List.NoDup_cons_iff in Hnd as [Hni Hnd]. cbn [fold_left List.find]. rewrite IH by done.
  destruct (String.eqb_spec (f s) k) as [<-|Hne].
  - destruct (List.find _ l) as [s'|] eqn:E; [|by rewrite lookup_insert_eq].
    apply find_some in E as [Hin Heq]. apply String.eqb_eq in Heq. exfalso. apply Hni. rewrite <- Heq.
    by apply in_map.
  - destruct (List.find _ l); [done|]. by rewrite lookup_insert_ne.
Qed.

Lemma all_states_NoDup (reg : Registry) : List.NoDup (map cs_name (all_states reg)).
Proof.
  unfold all_states. rewrite map_map. rewrite (map_ext _ fst) by (by intros [? ?]).
  apply NoDup_ListNoDup, NoDup_fst_map_to_list.
Qed.

(** The status by the states of the snapshots. *)
Lemma health_status_cases (snaps : list CircuitSnapshot) :
  let st := health_status snaps in
  (st = ("ok", 200) /\ (forall s, In s snaps -> cs_state s = Closed)) \/
  (st = ("unhealthy", 503) /\ snaps <> [] /\ (forall s, In s snaps -> cs_state s = Open)) \/
  (st = ("degraded", 200) /\ (exists s, In s snaps /\ cs_state s <> Closed) /\
   exists s, In s snaps /\ cs_state s <> Open).
Proof.
  unfold health_status, is_state. destruct snaps as [|s0 snaps]; [left; split; [done|intros s []]|].
  set (l := s0 :: snaps). assert (l <> []) by done. clearbody l. clear s0 snaps.
  destruct (forallb _ l) eqn:Ea.
  - right; left. split_and!; [done..|]. intros s Hs. rewrite forallb_forall in Ea.
    specialize (Ea s Hs). by apply bool_decide_eq_true_1 in Ea.
  - assert (Hno : exists s, In s l /\ cs_state s <> Open).
    { clear -Ea. induction l as [|s l IH]; [done|]. cbn [forallb] in Ea. apply andb_false_iff in Ea as [E|E].
      - exists s. split; [by left|]. by apply bool_decide_eq_false_1 in E.
      - destruct (IH E) as (q & ? & ?). exists q. split; [by right|done]. }
    destruct (existsb _ l) eqn:Ee.
    + right; right. split_and!; [done| |done]. apply existsb_exists in Ee as (s & Hs & E).
      exists s. split; [done|]. apply orb_true_iff in E as [E|E]; apply bool_decide_eq_true_1 in E; congruence.
    + left. split; [done|]. intros s Hs. apply (existsb_false _ _ _ Ee) in Hs.
      apply orb_false_iff in Hs as [E1 E2]. apply bool_decide_eq_false_1 in E1, E2. by destruct (cs_state s).
Qed.

(** The circuits, by their snapshots. *)
Lemma circuit_of_snapshot (reg : Registry) name c :
  circuit_of reg name = Some c <->
  exists s, In s (all_states reg) /\ cs_name s = name /\ cs_state s = c.
Proof.
  unfold circuit_of. split.
  - destruct (reg !! name) as [cb|] eqn:E; [|done]. intros [= <-].
    exists {| cs_name := name; cs_state := CircuitBreaker.state (inner cb);
              cs_failure_count := failure_count (inner cb) |}.
    split; [|done]. apply all_states_In. by exists cb.
  - intros (s & Hs & <- & <-). by apply all_states_In in Hs as (cb & -> & -> & _).
Qed.

Definition health_of (tiers : gmap string string) (reg : Registry) (name : string) : option ProviderHealth :=
  option_map (fun cb => {|
    ph_state := CircuitState_as_str (CircuitBreaker.state (inner cb));
    ph_failure_count := failure_count (inner cb);
    ph_tier := default "standard" (tiers !! name) |}) (reg !! name).

Lemma health_providers_lookup tiers (reg : Registry) name :
  health_providers tiers (all_states reg) !! name = health_of tiers reg name.
Proof.
  unfold health_providers, health_of. rewrite insert_all_lookup by apply all_states_NoDup.
  destruct (List.find _ (all_states reg)) as [s|] eqn:E.
  - apply find_some in E as [Hs Hn]. apply String.eqb_eq in Hn. subst name.
    apply all_states_In in Hs as (cb & -> & Hst & Hf). unfold provider_health. simpl. by rewrite Hst, Hf.
  - rewrite lookup_empty. destruct (reg !! name) as [cb|] eqn:El; [|done]. exfalso.
    destruct (proj1 (circuit_of_snapshot reg name (CircuitBreaker.state (inner cb)))) as (s & Hs & Hn & _);
      [unfold circuit_of; by rewrite El|].
    apply (find_none _ _ E) in Hs. by rewrite Hn, String.eqb_refl in Hs.
Qed.

(** the health endpoint tells the truth about the circuits.  It is [unhealthy] with 503
    exactly when there are circuits and all are open, [ok] exactly when all are closed, and
    [degraded] with 200 otherwise; every provider of the registry is listed with its state,
    its failures and its tier. *)
Theorem health_spec (state : AppState) (reg : Registry) :
  let '(code, resp) := health state reg in
  let all s := forall name c, circuit_of reg name = Some c -> c = s in
  (hr_status resp = "unhealthy" <-> (exists name c, circuit_of reg name = Some c) /\ all Open) /\
  (hr_status resp = "ok" <-> all Closed) /\
  (hr_status resp = "degraded" <-> ~ all Open /\ ~ all Closed) /\
  code = (if String.eqb (hr_status resp) "unhealthy" then 503 else 200) /\
  forall name, hr_providers resp !! name
               = health_of (tier_map (rt_providers (st_router state))) reg name.
Proof.
  unfold health. pose proof (circuit_of_snapshot reg) as Hc.
  pose proof (health_providers_lookup (tier_map (rt_providers (st_router state))) reg) as Hmap.
  set (some_circuit := exists name c, circuit_of reg name = Some c).
  assert (Hall : forall s, (forall name c, circuit_of reg name = Some c -> c = s) <->
    forall q, In q (all_states reg) -> cs_state q = s).
  { intros s. split; [intros Ha q Hq; apply (Ha (cs_name q)), Hc; eauto|].
    intros Ha name c Hn. apply Hc in Hn as (q & Hq & _ & <-). auto. }
  assert (Hsome : some_circuit <-> exists q, In q (all_states reg)).
  { unfold some_circuit. setoid_rewrite Hc. split; [intros (? & ? & q & Hq & _); eauto|].
    intros [q Hq]. exists (cs_name q), (cs_state q). eauto. }
  cbv zeta. destruct (health_status_cases (all_states reg))
    as [(-> & Hcl)|[(-> & Hne & Hop)|(-> & (s1 & Hs1 & Hn1) & s2 & Hs2 & Hn2)]];
    cbn [hr_status hr_providers]; (split_and!; [| | | |exact Hmap]); try done;
    rewrite ?Hall, ?Hsome; split; try done.
  - intros [[q Hq] Ho]. specialize (Ho q Hq). by rewrite (Hcl q Hq) in Ho.
  - by intros [_ Hx].
  - intros _. split; [|done]. destruct (all_states reg) as [|q l]; [done|]. exists q. by left.
  - intros Hx. destruct (all_states reg) as [|q l]; [done|]. pose proof (Hx q) as H1.
    rewrite Hop in H1 by (by left). discriminate H1. by left.
  - by intros [Hx _].
  - by intros [_ Hx]; destruct Hn2; apply Hx.
  - by intros Hx; destruct Hn1; apply Hx.
  - intros _. split; intros Hx; [destruct Hn2|destruct Hn1]; by apply Hx.
Qed.

End Health.

(** ** Cost estimates *)

Record CostReply := {
  cr_model : string; cr_provider : string; cr_input_tokens : Z; cr_output_tokens : Z;
  cr_cost_sats : f64; cr_input_rate : Z; cr_output_rate : Z; cr_base_fee : Z;
}.

Section Cost.
Context `{UnicodeCase} `{SerdeJson}.

(** [cost_estimate]; [None] is the panic of [select] on an empty list of candidates. *)
Definition cost_estimate (state : AppState) (policy_name : option string)
    (request : ChatCompletionRequest) : option (result CostReply Error) :=
  match select (st_router state) (model request) policy_name (user_prompt request) None with
  | None => None
  | Some r => Some (
      let? provider := r in
      let '(est_input, est_output) := estimate_tokens request 256 in
      Ok {| cr_model := model request; cr_provider := sp_name provider;
            cr_input_tokens := est_input; cr_output_tokens := est_output;
            cr_cost_sats := actual_cost_sats est_input est_output (sp_input_rate provider)
                              (sp_output_rate provider) (sp_base_fee provider);
            cr_input_rate := sp_input_rate provider; cr_output_rate := sp_output_rate provider;
            cr_base_fee := sp_base_fee provider |})
  end.

(** an estimate is always an answer, for the first candidate the router would offer
    without a tier limit: its rates, its cost for the estimated tokens; and it fails exactly
    as routing does. *)
Theorem cost_estimate_spec (state : AppState) (policy_name : option string)
    (request : ChatCompletionRequest) :
  match select_candidates (st_router state) (model request) policy_name (user_prompt request) None with
  | Err e => cost_estimate state policy_name request = Some (Err e)
  | Ok cs => exists c rest reply, cs = c :: rest /\
      cost_estimate state policy_name request = Some (Ok reply) /\
      cr_provider reply = sp_name c /\
      (cr_input_tokens reply, cr_output_tokens reply) = estimate_tokens request 256 /\
      cr_cost_sats reply = actual_cost_sats (cr_input_tokens reply) (cr_output_tokens reply)
                             (sp_input_rate c) (sp_output_rate c) (sp_base_fee c)
  end.
Proof.
  unfold cost_estimate, select.
  destruct (select_candidates _ _ _ _ _) as [cs|e] eqn:E; [|done].
  destruct (select_candidates_meets_spec _ _ _ _ _ _ E) as (Hne & _).
  destruct cs as [|c rest]; [done|]. cbn [result_bind].
  destruct (estimate_tokens request 256) as [i o]. eexists c, rest, _. by split_and!.
Qed.

End Cost.

(** ** Providers *)

Record ProviderInfo := {
  pi_name : string; pi_models : list string; pi_input_rate : Z; pi_output_rate : Z;
  pi_base_fee : Z; pi_tier : string; pi_api_key : option string;
}.

(** [None] is the panic of [masked_prefix]. *)
Definition provider_info (p : ProviderConfig) : option ProviderInfo :=
  let info key := {| pi_name := p_name p; pi_models := p_models p; pi_input_rate := p_input_rate p;
    pi_output_rate := p_output_rate p; pi_base_fee := p_base_fee p;
    pi_tier := Tier_to_string (p_tier p); pi_api_key := key |} in
  match p_api_key p with
  | Some key => match masked_prefix key with Some m => Some (info (Some m)) | None => None end
  | None => Some (info None)
  end.

Fixpoint collect_infos (ps : list ProviderConfig) : option (list ProviderInfo) :=
  match ps with
  | [] => Some []
  | p :: ps' =>
      match provider_info p with
      | Some i => match collect_infos ps' with Some l => Some (i :: l) | None => None end
      | None => None
      end
  end.

Definition list_providers (state : AppState) : option (list ProviderInfo) :=
  collect_infos (rt_providers (st_router state)).

(** ** Startup *)

Record Server `{Watch} := {
  sv_state : AppState;
  sv_db : bool;
  sv_read_db : bool;
  sv_registry : Registry;
  sv_reconciles : bool;
}.

Section Startup.
Context `{Watch} `{UnicodeCase}.
Context (fetch : string -> option ApiKey -> result ModelsReply string).

Definition with_providers (c : Config) (ps : list ProviderConfig) : Config := {|
  server := server c; database := database c; vault := vault c; providers := ps;
  policies := policies c; logging := logging c; routing := routing c |}.

(** [run_server] up to [axum::serve]: [db_opens] and [read_opens] are the outcomes of the
    two pool initialisations. *)
Definition run_server (config : Config) (db_opens read_opens : bool) : Server :=
  let config := with_providers config (discover_models fetch (providers config)) in
  let provider_router := Router_new (providers config) (rules (policies config))
                           (default_strategy (policies config)) in
  let db := db_opens in
  let read_db := if db then read_opens else false in
  let vault_client := option_map VaultClient_new (vault config) in {|
  sv_state := {| st_router := provider_router; st_config := config; st_db_writer := db;
                 st_vault := vault_client |};
  sv_db := db; sv_read_db := read_db;
  sv_registry := Registry_new (map p_name (providers config));
  sv_reconciles := db && match vault_client with Some _ => true | None => false end |}.

(** the server starts in a consistent state.  Every candidate the router can ever offer,
    under any request, policy and tier, has a circuit breaker, closed, and no other name
    has; every provider comes from the configuration with only its models changed; pending
    settlements are replayed exactly when there is a vault and a database. *)
Theorem startup_is_consistent (config : Config) (db_opens read_opens : bool) :
  let sv := run_server config db_opens read_opens in
  (forall mdl pn prompt mt cs c,
     select_candidates (st_router (sv_state sv)) mdl pn prompt mt = Ok cs -> In c cs ->
     circuit_of (sv_registry sv) (sp_name c) = Some Closed) /\
  (forall name, is_Some (sv_registry sv !! name) <-> In name (map p_name (providers config))) /\
  map p_name (rt_providers (st_router (sv_state sv))) = map p_name (providers config) /\
  providers (st_config (sv_state sv)) = rt_providers (st_router (sv_state sv)) /\
  (sv_reconciles sv = true <-> is_Some (vault config) /\ db_opens = true) /\
  reg_inv (sv_registry sv).
Proof.
  assert (Hnames : map p_name (discover_models fetch (providers config)) = map p_name (providers config)).
  { unfold discover_models. rewrite map_map. apply map_ext. intros p. unfold discover_one.
    repeat case_match; done. }
  cbn [run_server sv_state st_router sv_registry sv_reconciles providers with_providers rt_providers
       Router_new st_config vault].
  split_and!; try done.
  - intros mdl pn prompt mt cs c Hs Hc.
    destruct (select_candidates_meets_spec _ _ _ _ _ _ Hs) as (_ & _ & _ & Hel & _).
    destruct (Hel c Hc) as (p & Hp & ->). apply eligible_In in Hp as (Hp & _).
    unfold circuit_of. rewrite Registry_new_lookup, decide_True; [done|]. by apply (in_map p_name).
  - intros name. rewrite Registry_new_lookup, Hnames. by destruct (decide _); split; intros Hx.
  - destruct db_opens, (vault config); simpl; split; try done; intros [[? ?] ?]; done.
  - apply reg_inv_new.
Qed.

End Startup.

(** ** Witnesses *)

Section ServerWitnesses.

Definition discovered_ex : ProviderConfig := {|
  p_name := "mesh"; p_url := "http://mesh/"; p_api_key := None; p_models := ["static"];
  p_input_rate := 1; p_output_rate := 2; p_base_fee := 0; p_tier := Local; p_auto_discover := true |}.

(** An endpoint with no models. *)
Definition fetch_ex (url : string) (key : option ApiKey) : result ModelsReply string :=
  if String.eqb url "http://mesh/models" then Ok {| mp_status := 200; mp_models := Ok [] |}
  else Err "connection refused".

Lemma discovery_only_replaces_models_witness :
  exists models, discover_models fetch_ex [discovered_ex] !! 0%nat = Some (with_models discovered_ex models).
Proof.
  destruct (discovery_only_replaces_models fetch_ex [discovered_ex] 0 discovered_ex eq_refl)
    as (_ & models & Hm & _).
  exists models. exact Hm.
Defined.

Lemma empty_discovery_serves_everything_witness :
  serves "unheard-of" (discover_one fetch_ex discovered_ex) = true.
Proof.
  apply (empty_discovery_serves_everything fetch_ex discovered_ex {| mp_status := 200; mp_models := Ok [] |});
    reflexivity.
Defined.

End ServerWitnesses.
