(* ===== verification/Cli.v ===== *)
(** * The command line ([src/src/main.rs])

    The three commands of the binary as programs that print lines, log events and end: the
    loaded configuration goes through the listen override into the server, a configuration
    that does not load ends the command with its error, and no secret is printed but through
    [masked_prefix].  [run_server] is here with its log, around the state it builds (file
    Server).  The argument parser, the file system, the environment, the TOML parser, the
    database and the socket are parameters. *)

From S2P Require Import Prelude Machine RustStr Timed Config Errors Types Router Complexity.
From S2P Require Import CircuitBreaker Storage Vault Http Handlers Server.

(** ** Programs with output *)

Inductive Level := LInfo | LWarn | LError.

(** What a command shows: lines on the two streams, events with their fields for the
    subscriber, and the server it serves on an address. *)
Inductive Output `{Watch} :=
| Stdout (line : string)
| Stderr (line : string)
| Event (level : Level) (fields : list (string * string)) (message : string)
| Serves (address : string) (sv : Server).

Inductive MainError :=
| FromConfig (e : ConfigError)
| FromServer (e : string).

(** How the process ends: [main] returns, calls [std::process::exit], or panics. *)
Inductive Outcome := Returned (r : result unit MainError) | Exited (code : Z) | Panicked.

Section Programs.
Context `{Watch}.

(** A value, or the end of the process; with the output so far. *)
Definition Program (A : Type) : Type := list Output * (A + Outcome).

Definition p_ret {A} (a : A) : Program A := ([], inl a).
Definition p_end {A} (o : Outcome) : Program A := ([], inr o).
Definition p_out (o : Output) : Program unit := ([o], inl tt).
Definition p_bind {A B} (m : Program A) (k : A -> Program B) : Program B :=
  match m with
  | (out, inl a) => let '(out', r) := k a in (out ++ out', r)
  | (out, inr e) => (out, inr e)
  end.

(** The [?] operator in [main]. *)
Definition p_try {A E} (f : E -> MainError) (r : result A E) : Program A :=
  match r with Ok a => p_ret a | Err e => p_end (Returned (Err (f e))) end.

Fixpoint p_for {A} (l : list A) (body : A -> Program unit) : Program unit :=
  match l with
  | [] => p_ret tt
  | a :: l' => p_bind (body a) (fun _ => p_for l' body)
  end.

Definition println (line : string) : Program unit := p_out (Stdout line).
Definition info (fields : list (string * string)) (message : string) : Program unit :=
  p_out (Event LInfo fields message).
Definition warn (fields : list (string * string)) (message : string) : Program unit :=
  p_out (Event LWarn fields message).

End Programs.

Declare Scope program_scope.
Delimit Scope program_scope with program.
Notation "'step!' x ':=' m 'in' k" := (p_bind m (fun x => k)) (at level 200, x pattern, k at level 200) : program_scope.
Notation "m ';!' k" := (p_bind m (fun _ => k)) (at level 100, k at level 200, right associativity) : program_scope.
#[local] Open Scope program_scope.

(** [{:04o}]: octal digits, padded with zeros to four. *)
Fixpoint octal_digits (fuel : nat) (n : Z) (acc : string) : string :=
  match fuel with
  | O => acc
  | S fuel' =>
      let acc := pretty_Z (n mod 8) +:+ acc in
      if (n / 8 =? 0)%Z then acc else octal_digits fuel' (n / 8) acc
  end.
(** A [u32] has at most eleven octal digits. *)
Definition fmt_octal4 (n : Z) : string := pad_left 4 (octal_digits 11 n "").

(** What ended a server that shut down in good order. *)
Inductive Signal := SigInt | SigTerm.

Definition newline : string := String "010" "".
Definition quote : string := String "034" "".

(** ** The commands *)

Inductive Commands :=
| Serve (config : string) (listen : option string) (mock : bool)
| Check (config : string)
| Providers (config : string).

Record Cli := { command : Commands }.

(** The [default_value] of the [config] argument. *)
Definition default_config_path : string := "config.toml".

(** What the panic hook is given. *)
Inductive PanicPayload := PayloadStr (s : string) | PayloadString (s : string) | PayloadOther.

Definition panic_message (p : PanicPayload) : string :=
  match p with
  | PayloadStr s | PayloadString s => s
  | PayloadOther => "unknown panic payload"
  end.

Definition panic_location (l : option (string * Z * Z)) : string :=
  match l with
  | Some (file, line, column) => file +:+ ":" +:+ pretty_Z line +:+ ":" +:+ pretty_Z column
  | None => "unknown"
  end.

Definition panic_hook `{Watch} (payload : PanicPayload) (location : option (string * Z * Z)) : Program unit :=
  p_out (Event LError [("panic.message", panic_message payload); ("panic.location", panic_location location)]
           "panic occurred").

Definition mock_provider (name url key : string) (models : list string) (input_rate output_rate base_fee : Z)
    : ProviderConfig := {|
  p_name := name; p_url := url; p_api_key := Some (mkApiKey key); p_models := models;
  p_input_rate := input_rate; p_output_rate := output_rate; p_base_fee := base_fee;
  p_tier := Tier_default; p_auto_discover := false |}.

Definition mock_config : Config := {|
  server := {| listen := "127.0.0.1:8080"; rate_limit_rps := None; auth_token := None |};
  database := Some {| db_path := ":memory:" |};
  vault := None;
  providers :=
    [mock_provider "mock-cheap" "http://localhost:9999/v1" "mock-test-key-cheap"
       ["gpt-4o"; "gpt-4o-mini"; "claude-3.5-sonnet"] 5 15 0;
     mock_provider "mock-expensive" "http://localhost:9998/v1" "mock-test-key-expensive"
       ["gpt-4o"; "claude-3.5-sonnet"] 10 30 1];
  policies := {| default_strategy := "cheapest";
    rules := [{| r_name := "code"; r_allowed_models := ["gpt-4o"; "claude-3.5-sonnet"];
                 r_strategy := "lowest_cost"; r_max_sats_per_1k_output := Some 50;
                 r_keywords := ["code"; "function"; "implement"] |}] |};
  logging := {| level := "debug"; log_requests := true |};
  routing := RoutingConfig_default;
|}.

(** [config.server.listen = addr]. *)
Definition with_listen (c : Config) (addr : string) : Config := {|
  server := {| listen := addr; rate_limit_rps := rate_limit_rps (server c); auth_token := auth_token (server c) |};
  database := database c; vault := vault c; providers := providers c; policies := policies c;
  logging := logging c; routing := routing c |}.

Section Main.
Context `{Watch} `{UnicodeCase}.
(** [None]: the file has no metadata. *)
Context (file_mode : string -> option Z).
Context (read_to_string : string -> result string string) (env_var : string -> option string).
Context (toml_raw : string -> result RawConfig string).
(** The text the standard library panics with when a string is cut inside a character. *)
Context (slice_panic : string -> string) (slice_location : option (string * Z * Z)).
(** The environment of the server: [Client::builder().build()], discovery, the two pools,
    [TcpListener::bind], and how [axum::serve] ends; the texts of an HTTP status and of a list
    of strings in the log. *)
Context (client_builds : result unit string).
Context (fetch : string -> option ApiKey -> result ModelsReply string) (db_opens read_opens : result unit string).
Context (bind : string -> result unit string) (axum_serve : Server -> result Signal string).
Context (status_text : Z -> string) (debug_strings : list string -> string).

Definition load (path : string) : result (Config * list (string * KeySource)) ConfigError :=
  from_file_with_env read_to_string env_var toml_raw path.

(** [validate] on the way: a configuration without providers is valid, with a warning. *)
Definition load_logged (path : string) : Program (result (Config * list (string * KeySource)) ConfigError) :=
  let loaded := load path in
  (match loaded with
   | Ok ({| providers := [] |}, _) => warn [] "No providers configured - proxy will reject all requests"
   | _ => p_ret tt
   end) ;!
  p_ret loaded.

Definition opens (r : result unit string) : bool := match r with Ok _ => true | Err _ => false end.

(** The turn of a provider in [discover_models]. *)
Definition log_discovery (provider : ProviderConfig) : Program unit :=
  if negb (p_auto_discover provider) then p_ret tt
  else
    let name := ("provider", p_name provider) in
    let url := str_trim_end_char "/" (p_url provider) +:+ "/models" in
    info [name; ("url", url)] "Discovering models" ;!
    match fetch url (p_api_key provider) with
    | Ok resp =>
        if is_success (mp_status resp) then
          match mp_models resp with
          | Ok model_ids =>
              info [name; ("models", debug_strings model_ids); ("count", pretty_Z (Z.of_nat (length model_ids)))]
                "Discovered models"
          | Err e => warn [name; ("error", e)] "Failed to parse /v1/models response, keeping static models"
          end
        else warn [name; ("status", status_text (mp_status resp))]
               "Discovery endpoint returned non-success status, keeping static models"
    | Err e =>
        warn [name; ("error", e)] "Failed to reach discovery endpoint, keeping static models" ;!
        match p_models provider with
        | [] => warn [name] "Provider has no models after failed discovery -- it won't match any requests until restarted with the provider available"
        | _ => p_ret tt
        end
    end.

Definition log_databases (config : Config) : Program unit :=
  match db_opens with
  | Ok _ =>
      info [("path", db_path (database_config config))] "Database initialized" ;!
      match read_opens with
      | Ok _ => info [] "Read-only database pool initialized"
      | Err e => warn [("error", e)] "Failed to initialize read-only pool, stats disabled"
      end
  | Err e => warn [("error", e)] "Failed to initialize database, logging disabled"
  end.

(** The vault, its reconciliation task, and the rate limit of [create_router]. *)
Definition log_services (config : Config) (sv : Server) : Program unit :=
  match vault config with
  | Some v => info [("url", v_url v)] "Vault treasury integration enabled"
  | None => p_ret tt
  end ;!
  (if sv_reconciles sv then info [] "Vault reconciliation task started (60s interval)" else p_ret tt) ;!
  match rate_limit_rps (server config) with
  | Some rps => if (0 <? rps)%Z then info [("rps", pretty_Z rps)] "Rate limiting enabled" else p_ret tt
  | None => p_ret tt
  end.

Definition log_startup (config : Config) (sv : Server) : Program unit :=
  p_for (providers config) log_discovery ;!
  log_databases config ;!
  log_services config sv.

Definition shutdown_text (signal : Signal) : string :=
  match signal with
  | SigInt => "Received SIGINT, starting graceful shutdown"
  | SigTerm => "Received SIGTERM, starting graceful shutdown"
  end.

(** [run_server(config).await?]. *)
Definition serve_config (config : Config) : Program unit :=
  p_try FromServer client_builds ;!
  let sv := run_server fetch config (opens db_opens) (opens read_opens) in
  log_startup config sv ;!
  p_try FromServer (bind (listen (server config))) ;!
  info [("address", listen (server config))] "Starting arbstr proxy server" ;!
  p_out (Serves (listen (server config)) sv) ;!
  step! signal := p_try FromServer (axum_serve sv) in
  info [] (shutdown_text signal) ;!
  info [] "Server shutdown complete".

(** The startup log of where a key came from. *)
Definition log_key_source (key_source : string * KeySource) : Program unit :=
  let '(provider_name, source) := key_source in
  match source with
  | Literal =>
      let var := convention_env_var_name provider_name in
      info [("provider", provider_name)] "key from config-literal" ;!
      warn [("provider", provider_name)]
        ("Plaintext API key in config file. Consider using environment variables: set " +:+ var +:+
         " or use api_key = " +:+ quote +:+ "${" +:+ var +:+ "}" +:+ quote)
  | EnvExpanded => info [("provider", provider_name)] "key from env-expanded"
  | Convention var => info [("provider", provider_name); ("env_var", var)] "key from convention"
  | NoKey => warn [("provider", provider_name)] "no api key available"
  end.

Definition load_for_serve (config_path : string) (mock : bool)
    : Program (Config * list (string * KeySource)) :=
  if mock then
    info [] "Using mock configuration" ;!
    p_ret (mock_config, [])
  else
    info [("config", config_path)] "Loading configuration" ;!
    step! loaded := load_logged config_path in
    step! result := p_try FromConfig loaded in
    (match check_file_permissions config_path (file_mode config_path) with
         | Some (path, mode) =>
             warn [("file", path); ("permissions", fmt_octal4 mode)]
               ("Config file has permissions more open than 0600. Consider: chmod 600 " +:+ path)
         | None => p_ret tt
         end) ;!
    p_ret result.

Definition cmd_serve (config_path : string) (listen_arg : option string) (mock : bool) : Program unit :=
  info [] "Starting arbstr proxy server" ;!
  step! (config, key_sources) := load_for_serve config_path mock in
  let config := match listen_arg with Some addr => with_listen config addr | None => config end in
  info [("listen", listen (server config)); ("providers", pretty_Z (Z.of_nat (length (providers config))))]
        "Configuration loaded" ;!
  p_for key_sources log_key_source ;!
  serve_config config.

(** The line, or lines, of [check] about a provider's key. *)
Definition print_key_source (key_source : string * KeySource) : Program unit :=
  let '(name, source) := key_source in
  match source with
  | Literal =>
      let conv_var := convention_env_var_name name in
      println ("  " +:+ name +:+ ": key from config-literal") ;!
      println ("    WARNING: Plaintext key. Consider: set " +:+ conv_var +:+
               " or use api_key = " +:+ quote +:+ "${" +:+ conv_var +:+ "}" +:+ quote)
  | EnvExpanded => println ("  " +:+ name +:+ ": key from env-expanded")
  | Convention var => println ("  " +:+ name +:+ ": key from convention (" +:+ var +:+ ")")
  | NoKey => println ("  " +:+ name +:+ ": no key (set " +:+ convention_env_var_name name
                        +:+ " or add api_key to config)")
  end.

Definition cmd_check (config_path : string) : Program unit :=
  step! loaded := load_logged config_path in
  match loaded with
  | Ok (config, key_sources) =>
      println "Configuration is valid!" ;!
      println ("  Listen: " +:+ listen (server config)) ;!
      println ("  Providers: " +:+ pretty_Z (Z.of_nat (length (providers config)))) ;!
      println ("  Policy rules: " +:+ pretty_Z (Z.of_nat (length (rules (policies config))))) ;!
      (match check_file_permissions config_path (file_mode config_path) with
           | Some (path, mode) =>
               println "" ;!
               println ("  WARNING: Config file '" +:+ path +:+ "' has permissions " +:+ fmt_octal4 mode
                            +:+ " (more open than 0600)") ;!
               println ("  Consider: chmod 600 " +:+ path)
           | None => p_ret tt
           end) ;!
      println "" ;!
      println "Provider key status:" ;!
      p_for key_sources print_key_source
  | Err e =>
      p_out (Stderr ("Configuration error: " +:+ ConfigError_to_string e)) ;!
      p_end (Exited 1)
  end.

(** A failed slice panics: the hook logs, the process ends. *)
Definition print_masked (api_key : ApiKey) : Program unit :=
  match masked_prefix api_key with
  | Some masked => println ("    Key: " +:+ masked)
  | None =>
      panic_hook (PayloadString (slice_panic (expose_secret api_key))) slice_location ;!
      p_end Panicked
  end.

Definition print_provider (provider : ProviderConfig) : Program unit :=
  println ("  " +:+ p_name provider +:+ " (" +:+ p_url provider +:+ ")") ;!
  (match p_models provider with
       | [] => p_ret tt
       | models => println ("    Models: " +:+ str_join ", " models)
       end) ;!
  println ("    Rates: " +:+ pretty_Z (p_input_rate provider) +:+ " sats/1k input, "
               +:+ pretty_Z (p_output_rate provider) +:+ " sats/1k output") ;!
  (if (0 <? p_base_fee provider)%Z
       then println ("    Base fee: " +:+ pretty_Z (p_base_fee provider) +:+ " sats")
       else p_ret tt) ;!
  (match p_api_key provider with Some api_key => print_masked api_key | None => p_ret tt end) ;!
  println "".

Definition cmd_providers (config_path : string) : Program unit :=
  step! loaded := load_logged config_path in
  step! (config, _) := p_try FromConfig loaded in
  match providers config with
  | [] => println "No providers configured."
  | ps =>
      println ("Configured providers:" +:+ newline) ;!
      p_for ps print_provider
  end.

(** [main] after its argument parser: the output, and how the process ends. *)
Definition main (cli : Cli) : list Output * Outcome :=
  let '(out, r) :=
    match command cli with
    | Serve config_path listen_arg mock => cmd_serve config_path listen_arg mock
    | Check config_path => cmd_check config_path
    | Providers config_path => cmd_providers config_path
    end in
  (out, match r with inl _ => Returned (Ok tt) | inr o => o end).

End Main.

(** ** Programs *)

Lemma p_bind_ok `{Watch} {A B} (out : list Output) (a : A) (k : A -> Program B) :
  p_bind (out, inl a) k = (out ++ fst (k a), snd (k a)).
Proof. unfold p_bind. by destruct (k a). Qed.

(** A loop whose body prints and goes on prints in order. *)
Lemma p_for_ok `{Watch} {A} (l : list A) (body : A -> Program unit) :
  (forall a, snd (body a) = inl tt) -> p_for l body = (flat_map (fun a => fst (body a)) l, inl tt).
Proof.
  intros Hb. induction l as [|a l IH]; [done|]. cbn [p_for flat_map]. specialize (Hb a).
  destruct (body a) as [out r]. cbn in Hb |- *. subst r. by rewrite IH.
Qed.

(** What a program prints last, if it goes on. *)
Definition ends_with `{Watch} (tail : list Output) (m : Program unit) : Prop := exists head, m = (head ++ tail, inl tt).

Lemma ends_with_bind `{Watch} tail (m : Program unit) k :
  (exists out, m = (out, inl tt)) -> ends_with tail (k tt) -> ends_with tail (p_bind m k).
Proof. intros (out & ->) (head & Hk). cbn. rewrite Hk. exists (out ++ head). by rewrite app_assoc. Qed.

(** Two programs that print the same and end the same are equal after equal ones. *)
Lemma p_for_ext `{Watch} {A B} (R : A -> B -> Prop) l1 l2 (f : A -> Program unit) (g : B -> Program unit) :
  Forall2 R l1 l2 -> (forall a b, R a b -> f a = g b) -> p_for l1 f = p_for l2 g.
Proof. intros Hl Hfg. induction Hl as [|a b l1 l2 Hab _ IH]; [done|]. cbn [p_for]. by rewrite (Hfg _ _ Hab), IH. Qed.

(** ** What the commands do *)

Section Commands.
Context `{Watch} `{UnicodeCase} (file_mode : string -> option Z).
Context (read_to_string : string -> result string string) (env_var : string -> option string).
Context (toml_raw : string -> result RawConfig string).
Context (slice_panic : string -> string) (slice_location : option (string * Z * Z)).
Context (client_builds : result unit string).
Context (fetch : string -> option ApiKey -> result ModelsReply string) (db_opens read_opens : result unit string).
Context (bind : string -> result unit string) (axum_serve : Server -> result Signal string).
Context (status_text : Z -> string) (debug_strings : list string -> string).

#[local] Abbreviation load_at := (load read_to_string env_var toml_raw).
#[local] Abbreviation run := (main file_mode read_to_string env_var toml_raw slice_panic slice_location client_builds
  fetch db_opens read_opens bind axum_serve status_text debug_strings).
#[local] Abbreviation serve_it := (serve_config client_builds fetch db_opens read_opens bind axum_serve status_text debug_strings).
#[local] Abbreviation startup_of c := (log_startup fetch db_opens read_opens status_text debug_strings c
  (run_server fetch c (opens db_opens) (opens read_opens))).

Lemma log_key_source_ok ks : snd (log_key_source ks) = inl tt.
Proof. by destruct ks as [name []]. Qed.

Lemma print_key_source_ok ks : snd (print_key_source ks) = inl tt.
Proof. by destruct ks as [name []]. Qed.

Definition is_event (o : Output) : bool := match o with Event _ _ _ => true | _ => false end.

Lemma log_key_source_events ks : Forall (fun o => is_event o = true) (fst (log_key_source ks)).
Proof. destruct ks as [name []]; repeat constructor. Qed.

(** A program that only logs. *)
Definition logs_only (m : Program unit) : Prop := Forall (fun o => is_event o = true) (fst m) /\ snd m = inl tt.

Lemma logs_ret : logs_only (p_ret tt).
Proof. by split. Qed.

Lemma logs_out l fields m : logs_only (p_out (Event l fields m)).
Proof. split; [by repeat constructor|done]. Qed.

Lemma logs_bind m k : logs_only m -> logs_only (k tt) -> logs_only (p_bind m k).
Proof.
  intros [Hm Hi] [Hk Hj]. destruct m as [out r]. cbn [fst snd] in *. subst r. rewrite p_bind_ok.
  split; [by apply Forall_app|done].
Qed.

Lemma logs_for {A} (l : list A) body : (forall a, logs_only (body a)) -> logs_only (p_for l body).
Proof. intros Hb. induction l as [|a l IH]; cbn [p_for]; [apply logs_ret|by apply logs_bind]. Qed.

Lemma startup_logs c : logs_only (startup_of c).
Proof.
  unfold log_startup, log_databases, log_services. repeat first [apply logs_bind | apply logs_out | apply logs_ret | case_match].
  apply logs_for. intros p. unfold log_discovery, info, warn.
  repeat first [apply logs_bind | apply logs_out | apply logs_ret | case_match].
Qed.

(** The outcome of a server that was given [c]. *)
Definition serve_outcome (c : Config) : Outcome :=
  match (let? _ := client_builds in
         let? _ := bind (listen (server c)) in
         axum_serve (run_server fetch c (opens db_opens) (opens read_opens))) with
  | Ok _ => Returned (Ok tt)
  | Err e => Returned (Err (FromServer e))
  end.

(** What it shows: its startup, and once the socket is bound the server and its shutdown. *)
Definition served (c : Config) : list Output :=
  let sv := run_server fetch c (opens db_opens) (opens read_opens) in
  match client_builds, bind (listen (server c)) with
  | Ok _, Ok _ =>
      fst (startup_of c) ++
      [Event LInfo [("address", listen (server c))] "Starting arbstr proxy server"; Serves (listen (server c)) sv] ++
      match axum_serve sv with
      | Ok signal => [Event LInfo [] (shutdown_text signal); Event LInfo [] "Server shutdown complete"]
      | Err _ => []
      end
  | Ok _, Err _ => fst (startup_of c)
  | Err _, _ => []
  end.

Lemma serve_config_runs c :
  fst (serve_it c) = served c /\
  match snd (serve_it c) with inl _ => Returned (Ok tt) | inr o => o end = serve_outcome c.
Proof.
  unfold serve_config, served, serve_outcome. destruct client_builds as [[]|]; [|done].
  pose proof (startup_logs c) as [_ Hs]. destruct (startup_of c) as [out r]. cbn [snd] in Hs. subst r.
  cbn [p_try p_ret p_bind app result_bind]. destruct (bind _) as [[]|]; cbn; [|by rewrite app_nil_r].
  by destruct (axum_serve _).
Qed.

(** What loading logs, and the events of [serve], from what it gave. *)
Definition Loaded : Type := result (Config * list (string * KeySource)) ConfigError.

Definition validation_events (r : Loaded) : list Output :=
  match r with
  | Ok ({| providers := [] |}, _) => [Event LWarn [] "No providers configured - proxy will reject all requests"]
  | _ => []
  end.

Definition permission_events (path : string) (r : Loaded) : list Output :=
  match r, check_file_permissions path (file_mode path) with
  | Ok _, Some (path, mode) =>
      [Event LWarn [("file", path); ("permissions", fmt_octal4 mode)]
         ("Config file has permissions more open than 0600. Consider: chmod 600 " +:+ path)]
  | _, _ => []
  end.

Definition load_events (path : string) (mock : bool) (r : Loaded) : list Output :=
  if mock then [Event LInfo [] "Using mock configuration"]
  else Event LInfo [("config", path)] "Loading configuration" :: validation_events r ++ permission_events path r.

Definition start_events (config : Config) (key_sources : list (string * KeySource)) : list Output :=
  Event LInfo [("listen", listen (server config)); ("providers", pretty_Z (Z.of_nat (length (providers config))))]
    "Configuration loaded" :: flat_map (fun ks => fst (log_key_source ks)) key_sources.

Definition override (listen_arg : option string) (config : Config) : Config :=
  match listen_arg with Some addr => with_listen config addr | None => config end.

Definition loaded_config (path : string) (mock : bool) : Loaded :=
  if mock then Ok (mock_config, []) else load_at path.

Definition serve_events (path : string) (listen_arg : option string) (mock : bool) : list Output :=
  Event LInfo [] "Starting arbstr proxy server" ::
  load_events path mock (loaded_config path mock) ++
  match loaded_config path mock with
  | Ok (config, srcs) => start_events (override listen_arg config) srcs
  | Err _ => []
  end.

Lemma load_logged_runs path :
  load_logged read_to_string env_var toml_raw path = (validation_events (load_at path), inl (load_at path)).
Proof. unfold load_logged. by destruct (load_at path) as [[[? ? ? [|] ? ? ?] srcs]|e]. Qed.

Lemma load_for_serve_runs path mock :
  load_for_serve file_mode read_to_string env_var toml_raw path mock
  = (load_events path mock (loaded_config path mock),
     match loaded_config path mock with Ok r => inl r | Err e => inr (Returned (Err (FromConfig e))) end).
Proof.
  unfold load_for_serve, load_events, loaded_config, permission_events. destruct mock; [done|].
  rewrite load_logged_runs. destruct (load_at path) as [r|e]; [|done]. cbn.
  by destruct (check_file_permissions _ _) as [[p mode]|].
Qed.

Lemma run_serve path listen_arg mock :
  run {| command := Serve path listen_arg mock |}
  = match loaded_config path mock with
    | Ok (config, _) => (serve_events path listen_arg mock ++ served (override listen_arg config),
                         serve_outcome (override listen_arg config))
    | Err e => (serve_events path listen_arg mock, Returned (Err (FromConfig e)))
    end.
Proof.
  unfold main, cmd_serve, serve_events. cbn [command]. rewrite load_for_serve_runs.
  destruct (loaded_config path mock) as [[config srcs]|e]; [|cbn -[load_events]; by rewrite app_nil_r].
  change (match listen_arg with Some addr => with_listen config addr | None => config end)
    with (override listen_arg config). set (c := override listen_arg config).
  cbn -[serve_config p_for load_events]. fold (override listen_arg config). fold c.
  rewrite (p_for_ok srcs log_key_source log_key_source_ok).
  pose proof (serve_config_runs c) as [Hs Ho]. destruct (serve_it c) as [out' r]. cbn [fst snd p_bind] in *. subst out'.
  rewrite <- Ho. unfold start_events. cbn. by rewrite <- !app_assoc.
Qed.

Lemma serve_events_are path listen_arg mock : Forall (fun o => is_event o = true) (serve_events path listen_arg mock).
Proof.
  constructor; [done|]. apply Forall_app. split.
  - unfold load_events, validation_events, permission_events. destruct mock; [by repeat constructor|].
    constructor; [done|]. apply Forall_app. split; repeat case_match; by repeat constructor.
  - destruct (loaded_config path mock) as [[config srcs]|e]; [|done]. constructor; [done|].
    apply Forall_flat_map, List.Forall_forall. intros ks _. apply log_key_source_events.
Qed.

(** [serve] runs the server it was told to.  A configuration that does not load ends the
    command with its error, and nothing is served.  Otherwise the one server that is ever
    served is the one [run_server] builds from the loaded configuration with the listen
    address overridden and nothing else changed, on that address; everything else the command
    shows is log events; and how the client builder, the socket and the server end is how
    [main] ends.  With [--mock] the configuration is the mock, whatever is in the files. *)
Theorem serve_runs_what_it_loaded (path : string) (listen_arg : option string) (mock : bool) :
  Forall (fun o => is_event o = true) (serve_events path listen_arg mock) /\
  run {| command := Serve path listen_arg mock |}
  = match loaded_config path mock with
    | Err e => (serve_events path listen_arg mock, Returned (Err (FromConfig e)))
    | Ok (config, _) =>
        (serve_events path listen_arg mock ++ served (override listen_arg config),
         serve_outcome (override listen_arg config))
    end.
Proof. split; [apply serve_events_are|apply run_serve]. Qed.

(** What [check] should say of a provider's key, read off the file and the environment. *)
Definition key_report (rp : RawProviderConfig) : list Output :=
  let var := convention_env_var_name (rp_name rp) in
  match rp_api_key rp with
  | Some key =>
      if str_contains key "${" then [Stdout ("  " +:+ rp_name rp +:+ ": key from env-expanded")]
      else [Stdout ("  " +:+ rp_name rp +:+ ": key from config-literal");
            Stdout ("    WARNING: Plaintext key. Consider: set " +:+ var +:+ " or use api_key = " +:+ quote
                    +:+ "${" +:+ var +:+ "}" +:+ quote)]
  | None =>
      match env_var var with
      | Some _ => [Stdout ("  " +:+ rp_name rp +:+ ": key from convention (" +:+ var +:+ ")")]
      | None => [Stdout ("  " +:+ rp_name rp +:+ ": no key (set " +:+ var +:+ " or add api_key to config)")]
      end
  end.

Lemma key_report_source rp key src :
  resolve_api_key rp env_var = Ok (key, src) -> fst (print_key_source (rp_name rp, src)) = key_report rp.
Proof.
  unfold resolve_api_key, key_report. destruct (rp_api_key rp) as [raw_key|].
  - destruct (str_contains raw_key "${"); [|by intros [= _ <-]].
    destruct (expand_env_vars_with _ _ _); cbn [result_bind]; [by intros [= _ <-]|discriminate].
  - destruct (env_var _); by intros [= _ <-].
Qed.

Lemma key_reports rps : forall ps srcs,
  providers_of_raw rps env_var = Ok (ps, srcs) ->
  flat_map (fun ks => fst (print_key_source ks)) srcs = flat_map key_report rps.
Proof.
  induction rps as [|rp rps IH]; intros ps srcs Hr; [by injection Hr as <- <-|]. cbn [providers_of_raw] in Hr.
  destruct (resolve_api_key rp env_var) as [[key src]|e] eqn:E; [|discriminate]. cbn [result_bind] in Hr.
  destruct (providers_of_raw rps env_var) as [[ps' srcs']|e]; [|discriminate]. injection Hr as <- <-.
  cbn [flat_map]. by rewrite (IH _ _ eq_refl), (key_report_source _ _ _ E).
Qed.

(** The first error of a list of results. *)
Fixpoint first_error {A E} (l : list (result A E)) : option E :=
  match l with
  | [] => None
  | Ok _ :: l' => first_error l'
  | Err e :: _ => Some e
  end.

(** Why a file does not load: it is not read, it is not a configuration in TOML, the key of a
    provider has a reference that does not expand, or a provider has no URL. *)
Definition load_problem (path : string) : option ConfigError :=
  match read_to_string path with
  | Err e => Some (ConfigIo path e)
  | Ok content =>
      match toml_raw content with
      | Err e => Some (ConfigParse e)
      | Ok raw =>
          match first_error (map (fun rp => resolve_api_key rp env_var) (raw_providers raw)),
                List.find (fun rp => str_is_empty (rp_url rp)) (raw_providers raw) with
          | Some e, _ => Some e
          | None, Some rp => Some (ConfigValidation ("Provider '" +:+ rp_name rp +:+ "' has empty URL"))
          | None, None => None
          end
      end
  end.

(** What [check] prints of a file that loads. *)
Definition check_report (path : string) (raw : RawConfig) : list Output :=
  match raw_providers raw with
  | [] => [Event LWarn [] "No providers configured - proxy will reject all requests"]
  | _ => []
  end ++
  [Stdout "Configuration is valid!";
   Stdout ("  Listen: " +:+ listen (raw_server raw));
   Stdout ("  Providers: " +:+ pretty_Z (Z.of_nat (length (raw_providers raw))));
   Stdout ("  Policy rules: " +:+ pretty_Z (Z.of_nat (length (rules (raw_policies raw)))))] ++
  match check_file_permissions path (file_mode path) with
  | Some (path, mode) =>
      [Stdout "";
       Stdout ("  WARNING: Config file '" +:+ path +:+ "' has permissions " +:+ fmt_octal4 mode
               +:+ " (more open than 0600)");
       Stdout ("  Consider: chmod 600 " +:+ path)]
  | None => []
  end ++
  [Stdout ""; Stdout "Provider key status:"] ++ flat_map key_report (raw_providers raw).

Lemma providers_of_raw_error rps :
  match providers_of_raw rps env_var with
  | Ok (ps, srcs) => first_error (map (fun rp => resolve_api_key rp env_var) rps) = None /\
      length ps = length rps /\
      validate_providers ps
      = match List.find (fun rp => str_is_empty (rp_url rp)) rps with
        | Some rp => Err (ConfigValidation ("Provider '" +:+ rp_name rp +:+ "' has empty URL"))
        | None => Ok tt
        end
  | Err e => first_error (map (fun rp => resolve_api_key rp env_var) rps) = Some e
  end.
Proof.
  induction rps as [|rp rps IH]; [done|]. cbn [providers_of_raw map first_error].
  destruct (resolve_api_key rp env_var) as [[key src]|e]; [|done]. cbn [result_bind].
  destruct (providers_of_raw rps env_var) as [[ps srcs]|e]; [|done]. cbn [result_bind].
  destruct IH as (He & Hl & Hv). split_and!; [done|by cbn; rewrite Hl|]. cbn [validate_providers List.find].
  cbn [provider_of_raw p_url p_name]. by destruct (str_is_empty (rp_url rp)).
Qed.

(** What loading gives, in terms of the file. *)
Lemma load_cases path :
  match load_problem path with
  | Some e => load_at path = Err e
  | None => exists content raw ps srcs,
      read_to_string path = Ok content /\ toml_raw content = Ok raw /\
      providers_of_raw (raw_providers raw) env_var = Ok (ps, srcs) /\
      length ps = length (raw_providers raw) /\
      load_at path = Ok ({| server := raw_server raw; database := raw_database raw; vault := raw_vault raw;
                            providers := ps; policies := raw_policies raw; logging := raw_logging raw;
                            routing := raw_routing raw |}, srcs)
  end.
Proof.
  unfold load_problem, load, from_file_with_env, from_raw, from_raw_with_lookup.
  destruct (read_to_string path) as [content|e]; [|done]. cbn [map_err result_bind].
  destruct (toml_raw content) as [raw|e] eqn:Ht; [|done]. cbn [map_err result_bind].
  pose proof (providers_of_raw_error (raw_providers raw)) as Hp.
  destruct (providers_of_raw _ _) as [[ps srcs]|e] eqn:Ep; [|by rewrite Hp].
  destruct Hp as (-> & Hl & Hv). cbn [result_bind]. unfold validate. cbn [providers]. rewrite Hv.
  destruct (List.find _ _) as [rp|]; [done|]. by exists content, raw, ps, srcs.
Qed.

(** C32: [check] is a verdict and a report.  When the configuration does not load, whatever the
    reason (a file that cannot be read, a TOML error, a reference to a variable that is not set,
    a provider without a URL), it prints that error and nothing else and exits with 1.
    Otherwise it returns, and its output is the summary of the file and then the report of
    every provider, in the order of the file: where its key comes from, a warning exactly for a
    key written out in the file, and the name of the variable to set when there is none. *)
Theorem check_reports_every_key (path : string) :
  match load_problem path with
  | Some e => run {| command := Check path |}
              = ([Stderr ("Configuration error: " +:+ ConfigError_to_string e)], Exited 1)
  | None => exists content raw,
      read_to_string path = Ok content /\ toml_raw content = Ok raw /\
      run {| command := Check path |} = (check_report path raw, Returned (Ok tt))
  end.
Proof.
  pose proof (load_cases path) as Hl. unfold main, cmd_check. cbn [command]. rewrite load_logged_runs.
  destruct (load_problem path) as [e|]; [by rewrite Hl|].
  destruct Hl as (content & raw & ps & srcs & Hr & Ht & Hps & Hlen & ->). exists content, raw. split_and!; [done..|].
  cbn [p_bind validation_events]. rewrite (p_for_ok srcs print_key_source print_key_source_ok), (key_reports _ _ _ Hps).
  unfold check_report. cbn [providers server policies]. rewrite Hlen.
  destruct ps as [|p ps], (raw_providers raw) as [|rp rps]; try discriminate;
    by destruct (check_file_permissions _ _) as [[q mode]|].
Qed.

End Commands.

(** ** Secrets

    Two keys are alike if they mask to the same text, two configurations if their keys are and
    what the commands print of them is the same: what differs is the keys, the token and the
    limits of the vault, and the bearer token. *)

Definition key_alike (a b : ApiKey) : Prop := exists m, masked_prefix a = Some m /\ masked_prefix b = Some m.

#[export] Instance key_alike_per : RelationClasses.PER key_alike.
Proof.
  split.
  - intros a b (m & Ha & Hb). by exists m.
  - intros a b c (m & Ha & Hb) (m' & Hb' & Hc). exists m. split; congruence.
Qed.

(** Short keys are alike, and so are long ones with the same six bytes in front. *)
Lemma key_alike_ascii a b :
  str_is_ascii (expose_secret a) = true -> str_is_ascii (expose_secret b) = true ->
  (str_len (expose_secret a) < 10 /\ str_len (expose_secret b) < 10 \/
   10 <= str_len (expose_secret a) /\ 10 <= str_len (expose_secret b) /\
   str_take 6 (expose_secret a) = str_take 6 (expose_secret b)) ->
  key_alike a b.
Proof.
  intros Ha Hb Hc. unfold key_alike. rewrite !masked_prefix_ascii by done. eexists. split; [reflexivity|].
  destruct Hc as [[H1 H2]|(H1 & H2 & ->)].
  - by rewrite !(proj2 (Z.ltb_lt _ _)).
  - by rewrite !(proj2 (Z.ltb_ge _ _)).
Qed.

Definition provider_alike (p q : ProviderConfig) : Prop :=
  q = {| p_name := p_name p; p_url := p_url p; p_api_key := p_api_key q; p_models := p_models p;
         p_input_rate := p_input_rate p; p_output_rate := p_output_rate p; p_base_fee := p_base_fee p;
         p_tier := p_tier p; p_auto_discover := p_auto_discover p |} /\
  option_Forall2 key_alike (p_api_key p) (p_api_key q).

Record config_alike (c d : Config) : Prop := {
  ca_listen : listen (server c) = listen (server d);
  ca_rate : rate_limit_rps (server c) = rate_limit_rps (server d);
  ca_database : database c = database d;
  ca_vault : option_map v_url (vault c) = option_map v_url (vault d);
  ca_rules : length (rules (policies c)) = length (rules (policies d));
  ca_providers : Forall2 provider_alike (providers c) (providers d);
}.

(** Two runs find the same thing about a provider's key, but for the key. *)
Definition resolution_alike (r s : result (option ApiKey * KeySource) ConfigError) : Prop :=
  match r, s with
  | Ok (k, src), Ok (l, src') => option_Forall2 key_alike k l /\ src = src'
  | Err e, Err e' => e = e'
  | _, _ => False
  end.

(** What is shown before the server runs. *)
Fixpoint before_serving `{Watch} (out : list Output) : list Output :=
  match out with
  | [] => []
  | Serves _ _ :: _ => []
  | o :: out' => o :: before_serving out'
  end.

Lemma before_serving_app `{Watch} (out out' : list Output) :
  Forall (fun o => is_event o = true) out -> before_serving (out ++ out') = out ++ before_serving out'.
Proof. induction 1 as [|[| | |] out Ho _ IH]; cbn; [done|done..|by rewrite IH|done]. Qed.

Section Secrets.
Context `{Watch} `{UnicodeCase} (file_mode : string -> option Z).
Context (slice_panic : string -> string) (slice_location : option (string * Z * Z)).
Context (fetch : string -> option ApiKey -> result ModelsReply string) (db_opens read_opens : result unit string).
Context (client_builds : result unit string) (bind : string -> result unit string).
Context (axum_serve : Server -> result Signal string).
Context (status_text : Z -> string) (debug_strings : list string -> string).
(** Two machines: their files, environments and parsers. *)
Context (read1 read2 : string -> result string string) (env1 env2 : string -> option string).
Context (toml1 toml2 : string -> result RawConfig string).

#[local] Abbreviation load1 := (load read1 env1 toml1).
#[local] Abbreviation load2 := (load read2 env2 toml2).
#[local] Abbreviation run1 := (main file_mode read1 env1 toml1 slice_panic slice_location client_builds fetch
  db_opens read_opens bind axum_serve status_text debug_strings).
#[local] Abbreviation run2 := (main file_mode read2 env2 toml2 slice_panic slice_location client_builds fetch
  db_opens read_opens bind axum_serve status_text debug_strings).
#[local] Abbreviation startup_of c := (log_startup fetch db_opens read_opens status_text debug_strings c
  (run_server fetch c (opens db_opens) (opens read_opens))).

#[export] Instance print_masked_proper : Proper (key_alike ==> eq) (print_masked slice_panic slice_location).
Proof. intros a b (m & Ha & Hb). unfold print_masked. by rewrite Ha, Hb. Qed.

#[export] Instance print_provider_proper : Proper (provider_alike ==> eq) (print_provider slice_panic slice_location).
Proof.
  intros p q [Hq Hk]. unfold print_provider. destruct q as [name url key models ir or bf tier auto]. injection Hq as -> -> -> -> -> -> -> ->.
  cbn [p_name p_url p_models p_input_rate p_output_rate p_base_fee p_api_key] in *.
  inversion Hk as [k l Hkl Hp Hq|Hp Hq]; [|reflexivity].
  by rewrite (print_masked_proper _ _ Hkl).
Qed.

(** The two raw configurations: what is printed is equal, and keys resolve alike. *)
Record raw_provider_alike (rp rq : RawProviderConfig) : Prop := {
  ra_key : resolution_alike (resolve_api_key rp env1) (resolve_api_key rq env2);
  ra_rest : forall key, provider_of_raw rp key = provider_of_raw rq key;
}.

Record raw_alike (raw1 raw2 : RawConfig) : Prop := {
  ra_listen : listen (raw_server raw1) = listen (raw_server raw2);
  ra_rate : rate_limit_rps (raw_server raw1) = rate_limit_rps (raw_server raw2);
  ra_database : raw_database raw1 = raw_database raw2;
  ra_vault : option_map v_url (raw_vault raw1) = option_map v_url (raw_vault raw2);
  ra_rules : length (rules (raw_policies raw1)) = length (rules (raw_policies raw2));
  ra_providers : Forall2 raw_provider_alike (raw_providers raw1) (raw_providers raw2);
}.

Definition load_alike (r s : result (Config * list (string * KeySource)) ConfigError) : Prop :=
  match r, s with
  | Ok (c, srcs), Ok (d, srcs') => config_alike c d /\ srcs = srcs'
  | Err e, Err e' => e = e'
  | _, _ => False
  end.

Lemma raw_name rp rq : raw_provider_alike rp rq -> rp_name rp = rp_name rq.
Proof. intros [_ Hr]. exact (f_equal p_name (Hr None)). Qed.

Lemma providers_of_raw_alike l1 l2 :
  Forall2 raw_provider_alike l1 l2 ->
  match providers_of_raw l1 env1, providers_of_raw l2 env2 with
  | Ok (ps, srcs), Ok (qs, srcs') => Forall2 provider_alike ps qs /\ srcs = srcs'
  | Err e, Err e' => e = e'
  | _, _ => False
  end.
Proof.
  induction 1 as [|rp rq l1 l2 Hr _ IH]; [by split; [constructor|]|]. cbn [providers_of_raw].
  pose proof (ra_key _ _ Hr) as Hkey. unfold resolution_alike in Hkey.
  destruct (resolve_api_key rp env1) as [[k src]|e], (resolve_api_key rq env2) as [[k' src']|e']; try done.
  destruct Hkey as [Hk <-]. cbn [result_bind].
  destruct (providers_of_raw l1 env1) as [[ps srcs]|e], (providers_of_raw l2 env2) as [[qs srcs']|e']; try done.
  destruct IH as [Hps <-]. cbn [result_bind]. rewrite (raw_name _ _ Hr). split; [|done]. constructor; [|done].
  split; [|exact Hk]. rewrite <- (ra_rest _ _ Hr). reflexivity.
Qed.

Lemma validate_alike ps qs : Forall2 provider_alike ps qs -> validate_providers ps = validate_providers qs.
Proof.
  induction 1 as [|p q ps qs [-> _] _ IH]; [done|]. cbn [validate_providers p_url p_name]. by rewrite IH.
Qed.

Lemma load_alike_raw path c1 c2 raw1 raw2 :
  read1 path = Ok c1 -> toml1 c1 = Ok raw1 -> read2 path = Ok c2 -> toml2 c2 = Ok raw2 -> raw_alike raw1 raw2 ->
  load_alike (load1 path) (load2 path).
Proof.
  intros Hr1 Ht1 Hr2 Ht2 [Hl Hra Hdb Hva Hru Hps]. unfold load, from_file_with_env, from_raw, from_raw_with_lookup.
  rewrite Hr1, Hr2. cbn [map_err result_bind]. rewrite Ht1, Ht2. cbn [map_err result_bind].
  pose proof (providers_of_raw_alike _ _ Hps) as Hp.
  destruct (providers_of_raw _ env1) as [[ps srcs]|e], (providers_of_raw _ env2) as [[qs srcs']|e']; try done.
  destruct Hp as [Hp <-]. cbn [result_bind]. unfold validate. cbn [providers].
  rewrite (validate_alike _ _ Hp). destruct (validate_providers qs); [|done]. cbn [result_bind load_alike]. done.
Qed.

Lemma validation_alike r s : load_alike r s -> validation_events r = validation_events s.
Proof.
  destruct r as [[c srcs]|e], s as [[d srcs']|e']; try done. intros [[_ _ _ _ _ Hps] _].
  destruct c, d. cbn in *. by destruct Hps.
Qed.

Lemma providers_alike ps qs :
  Forall2 provider_alike ps qs -> p_for ps (print_provider slice_panic slice_location) = p_for qs (print_provider slice_panic slice_location).
Proof. intros Hf. by apply (p_for_ext provider_alike); [|intros p q ->]. Qed.

(** Discovery asks with the key; what it answers does not depend on it. *)
Definition fetch_unsigned : Prop := forall url k k', fetch url k = fetch url k'.

Lemma startup_alike c d : fetch_unsigned -> config_alike c d -> startup_of c = startup_of d.
Proof.
  intros Hf [Hl Hra Hdb Hva _ Hps].
  assert (Hd : p_for (providers c) (log_discovery fetch status_text debug_strings)
             = p_for (providers d) (log_discovery fetch status_text debug_strings)).
  { apply (p_for_ext provider_alike); [done|]. intros p q [-> _]. unfold log_discovery. cbn [p_name p_url p_auto_discover p_models p_api_key].
    by rewrite (Hf _ (p_api_key p) (p_api_key q)). }
  assert (Hr : sv_reconciles (run_server fetch c (opens db_opens) (opens read_opens))
             = sv_reconciles (run_server fetch d (opens db_opens) (opens read_opens))).
  { cbn. f_equal. by destruct (vault c), (vault d). }
  unfold log_startup. rewrite Hd. unfold log_databases, log_services, database_config. rewrite Hdb, Hr, Hra.
  by destruct (vault c) as [v|], (vault d) as [v'|]; try done; injection Hva as ->.
Qed.

(** Up to the running server, [serve] shows log events, which these are. *)
Lemma events_of path listen_arg mock (env : string -> option string) read toml :
  before_serving (fst (main file_mode read env toml slice_panic slice_location client_builds fetch
    db_opens read_opens bind axum_serve status_text debug_strings {| command := Serve path listen_arg mock |}))
  = serve_events file_mode read env toml path listen_arg mock ++
    match loaded_config read env toml path mock with
    | Ok (config, _) => before_serving (served client_builds fetch db_opens read_opens bind axum_serve status_text
                          debug_strings (override listen_arg config))
    | Err _ => []
    end.
Proof.
  rewrite run_serve. pose proof (serve_events_are file_mode read env toml path listen_arg mock) as Hf.
  destruct (loaded_config _ _ _ _ _) as [[c srcs]|e]; cbn [fst]; [by apply before_serving_app|].
  rewrite <- (app_nil_r (serve_events _ _ _ _ _ _ _)) at 1. by rewrite before_serving_app.
Qed.

Lemma served_alike c d : fetch_unsigned -> config_alike c d ->
  before_serving (served client_builds fetch db_opens read_opens bind axum_serve status_text debug_strings c)
  = before_serving (served client_builds fetch db_opens read_opens bind axum_serve status_text debug_strings d).
Proof.
  intros Hf Hcd. pose proof (startup_alike _ _ Hf Hcd) as Hst.
  pose proof (startup_logs fetch db_opens read_opens status_text debug_strings c) as [Hc _].
  unfold served. destruct client_builds as [[]|]; [|done]. rewrite (ca_listen _ _ Hcd), <- Hst.
  destruct (bind _) as [[]|]; [|done]. by rewrite !(before_serving_app (fst (startup_of c))) by done.
Qed.

Lemma override_alike listen_arg c d : config_alike c d -> config_alike (override listen_arg c) (override listen_arg d).
Proof. intros []. destruct listen_arg; split; cbn; assumption || reflexivity. Qed.

(** C16: secrets stay masked.  Take two machines whose configuration files and environments
    agree on everything but secrets: the tokens and limits of the vault and the bearer token
    are arbitrary, and every provider's key resolves from the same source to keys that mask to
    the same text.  Then [check] and [providers] print exactly the same and end the same, and,
    if discovery is answered the same whatever key it asks with, so are the log events of
    [serve] up to the running server, discovery and startup included: nothing of a key is
    shown but its mask, and nothing of the vault's and the server's token. *)
Theorem secrets_stay_masked (path c1 c2 : string) (raw1 raw2 : RawConfig) :
  read1 path = Ok c1 -> toml1 c1 = Ok raw1 -> read2 path = Ok c2 -> toml2 c2 = Ok raw2 -> raw_alike raw1 raw2 ->
  run1 {| command := Check path |} = run2 {| command := Check path |} /\
  run1 {| command := Providers path |} = run2 {| command := Providers path |} /\
  (fetch_unsigned -> forall listen_arg mock,
    before_serving (fst (run1 {| command := Serve path listen_arg mock |}))
    = before_serving (fst (run2 {| command := Serve path listen_arg mock |}))).
Proof.
  intros Hr1 Ht1 Hr2 Ht2 Hraw. pose proof (load_alike_raw _ _ _ _ _ Hr1 Ht1 Hr2 Ht2 Hraw) as Hl.
  pose proof (validation_alike _ _ Hl) as Hv. unfold load_alike in Hl. split_and!.
  - unfold main, cmd_check. cbn [command]. rewrite !load_logged_runs, Hv.
    destruct (load1 path) as [[c srcs]|e], (load2 path) as [[d srcs']|e']; try done; [|by subst e'].
    destruct Hl as [[Hli _ _ _ Hru Hps] <-]. cbn [p_bind]. by rewrite Hli, Hru, (Forall2_length Hps).
  - unfold main, cmd_providers. cbn [command]. rewrite !load_logged_runs, Hv.
    destruct (load1 path) as [[c srcs]|e], (load2 path) as [[d srcs']|e']; try done; [|by subst e'].
    destruct Hl as [[_ _ _ _ _ Hps] _]. cbn [p_try p_ret p_bind]. inversion Hps as [|p q ps qs Hpq Hrest Hc Hd]; [done|].
    rewrite <- Hc, <- Hd in Hps. by rewrite (providers_alike _ _ Hps).
  - intros Hf listen_arg mock. rewrite !events_of. unfold serve_events, loaded_config. destruct mock; [done|].
    unfold load_events. rewrite Hv.
    destruct (load1 path) as [[c srcs]|e], (load2 path) as [[d srcs']|e']; try done.
    destruct Hl as [Hcd <-]. apply (override_alike listen_arg) in Hcd. unfold start_events.
    by rewrite (ca_listen _ _ Hcd), (Forall2_length (ca_providers _ _ Hcd)), (served_alike _ _ Hf Hcd).
Qed.

End Secrets.

(** ** Witnesses, and what a broken key shows *)

Section CliWitnesses.
#[local] Existing Instances VersionedWatch AsciiCase.

Definition raw_provider_ex (name : string) (key : option string) : RawProviderConfig := {|
  rp_name := name; rp_url := "http://" +:+ name; rp_api_key := key; rp_models := ["gpt-4o"; "o1"];
  rp_input_rate := 10; rp_output_rate := 30; rp_base_fee := 1; rp_tier := Standard; rp_auto_discover := false |}.

Definition raw_ex (token : string) (key : string) : RawConfig := {|
  raw_server := {| listen := default_listen; rate_limit_rps := None; auth_token := Some token |};
  raw_database := None;
  raw_vault := Some {| v_url := "http://vault"; v_internal_token := mkApiKey token;
                       v_default_reserve_tokens := 4096; v_pending_threshold := 100 |};
  raw_providers := [raw_provider_ex "alpha" (Some key); raw_provider_ex "beta" (Some "${BETA}");
                    raw_provider_ex "gamma" None; raw_provider_ex "my mint" None];
  raw_policies := {| default_strategy := "cheapest"; rules := [] |};
  raw_logging := LoggingConfig_default; raw_routing := RoutingConfig_default |}.

(** A file that the group may read, and an environment with two keys. *)
Definition mode_ex (path : string) : option Z := Some 33184.
Definition read_ex (path : string) : result string string := Ok "toml".
Definition env_ex (key : string) (var : string) : option string :=
  if String.eqb var "BETA" then Some key else if String.eqb var "ARBSTR_GAMMA_API_KEY" then Some key else None.
Definition slice_ex (key : string) : string := "end byte index 6 is not a char boundary of `" +:+ key +:+ "`".
Definition run_cli (raw : RawConfig) (key : string) (c : Commands) : list Output * Outcome :=
  main mode_ex read_ex (env_ex key) (fun _ => Ok raw) slice_ex (Some ("src/config.rs", 80, 33)) (Ok tt)
    (fun _ _ => Err "offline") (Ok tt) (Ok tt) (fun _ => Ok tt) (fun _ => Ok SigInt) (fun _ => "404 Not Found") (fun _ => "[]")
    {| command := c |}.

(** The report of a file with one provider of each kind, and the verdict on a file that is not
    there. *)
Example check_output :
  run_cli (raw_ex "t" "sk-alpha-0123456789") "sk-beta-0123456789" (Check "config.toml")
  = ([Stdout "Configuration is valid!"; Stdout ("  Listen: " +:+ default_listen); Stdout "  Providers: 4";
      Stdout "  Policy rules: 0"; Stdout "";
      Stdout "  WARNING: Config file 'config.toml' has permissions 0640 (more open than 0600)";
      Stdout "  Consider: chmod 600 config.toml"; Stdout ""; Stdout "Provider key status:";
      Stdout "  alpha: key from config-literal";
      Stdout ("    WARNING: Plaintext key. Consider: set ARBSTR_ALPHA_API_KEY or use api_key = "
              +:+ quote +:+ "${ARBSTR_ALPHA_API_KEY}" +:+ quote);
      Stdout "  beta: key from env-expanded";
      Stdout "  gamma: key from convention (ARBSTR_GAMMA_API_KEY)";
      Stdout "  my mint: no key (set ARBSTR_MY_MINT_API_KEY or add api_key to config)"],
     Returned (Ok tt)) /\
  main mode_ex (fun _ => Err "No such file or directory (os error 2)") (fun _ => None) (fun _ => Err "") slice_ex None
    (Ok tt) (fun _ _ => Err "offline") (Ok tt) (Ok tt) (fun _ => Ok tt) (fun _ => Ok SigInt)
    (fun _ => "404 Not Found") (fun _ => "[]") {| command := Check "config.toml" |}
  = ([Stderr ("Configuration error: Failed to read config file 'config.toml': " +:+
              "No such file or directory (os error 2)")], Exited 1).
Proof. split; vm_compute; reflexivity. Qed.

(** Other keys with the same first six bytes, other tokens: the same output. *)
Lemma secrets_stay_masked_witness :
  run_cli (raw_ex "t" "sk-alpha-0123456789") "sk-beta-0123456789" (Providers "config.toml")
  = run_cli (raw_ex "other token" "sk-alpARENTLY") "sk-betRAYED-by-no-one" (Providers "config.toml").
Proof.
  refine (proj1 (proj2 (secrets_stay_masked mode_ex slice_ex (Some ("src/config.rs", 80, 33))
    (fun _ _ => Err "offline") (Ok tt) (Ok tt) (Ok tt) (fun _ => Ok tt) (fun _ => Ok SigInt) (fun _ => "404 Not Found")
    (fun _ => "[]") read_ex read_ex (env_ex "sk-beta-0123456789") (env_ex "sk-betRAYED-by-no-one")
    (fun _ => Ok (raw_ex "t" "sk-alpha-0123456789")) (fun _ => Ok (raw_ex "other token" "sk-alpARENTLY"))
    "config.toml" "toml" "toml" _ _ eq_refl eq_refl eq_refl eq_refl _))).
  split; [reflexivity..|].
  repeat constructor; cbn; eexists; (split; [vm_compute; reflexivity|]); vm_compute; reflexivity.
Defined.

(** What [providers] prints of a provider, and the octal mode of the file's warning. *)
Example providers_output :
  run_cli (raw_ex "t" "sk-alpha-0123456789") "sk" (Providers "config.toml")
  = ([Stdout ("Configured providers:" +:+ newline)] ++
     flat_map (fun '(name, key) =>
       [Stdout ("  " +:+ name +:+ " (http://" +:+ name +:+ ")"); Stdout "    Models: gpt-4o, o1";
        Stdout "    Rates: 10 sats/1k input, 30 sats/1k output"; Stdout "    Base fee: 1 sats"] ++
       match key with Some k => [Stdout ("    Key: " +:+ k)] | None => [] end ++ [Stdout ""])
       [("alpha", Some "sk-alp...***"); ("beta", Some "[REDACTED]"); ("gamma", Some "[REDACTED]"); ("my mint", None)],
     Returned (Ok tt)) /\
  fmt_octal4 (Z.land 33184 511) = "0640".
Proof. vm_compute. split; reflexivity. Qed.

(** A key with a character across its sixth byte: [providers] panics on it, and the hook logs
    the panic's text, which quotes the key. *)
Example providers_panics_with_the_key :
  let key := bytes_str [97; 97; 97; 97; 97; 195; 169; 98; 98; 98; 98]%nat in
  let '(out, o) := run_cli (raw_ex "t" key) "sk" (Providers "config.toml") in
  o = Panicked /\
  In (Event LError [("panic.message", slice_ex key); ("panic.location", "src/config.rs:80:33")] "panic occurred") out.
Proof. vm_compute. split; [reflexivity|]. do 5 right. by left. Qed.

(** A reference that is not closed: the error quotes the whole configured value, so what was
    written out of the key is shown. *)
Example unclosed_reference_shows_the_key :
  run_cli (raw_ex "t" "sk-alpha-0123456789${BETA") "sk" (Check "config.toml")
  = ([Stderr ("Configuration error: Environment variable '<unclosed>' not set for provider 'alpha': " +:+
              "Unclosed '${' in config value: sk-alpha-0123456789${BETA")], Exited 1).
Proof. vm_compute. reflexivity. Qed.

(** The log of [serve --mock], and where in it the server runs. *)
Example mock_log :
  let '(out, o) := run_cli (raw_ex "t" "sk") "sk" (Serve "config.toml" None true) in
  o = Returned (Ok tt) /\
  map (fun e => match e with Event _ _ m => m | Serves address _ => "serves " +:+ address | _ => "" end) out
  = ["Starting arbstr proxy server"; "Using mock configuration"; "Configuration loaded"; "Database initialized";
     "Read-only database pool initialized"; "Starting arbstr proxy server"; "serves 127.0.0.1:8080";
     "Received SIGINT, starting graceful shutdown"; "Server shutdown complete"].
Proof. vm_compute. by split. Qed.

(** The mock configuration is valid, and has a server. *)
Example mock_is_valid :
  validate mock_config = Ok tt /\ Forall provider_wf (providers mock_config) /\
  map fst (map_to_list (sv_registry (run_server (fun _ _ => Err "offline") mock_config true true)))
    ≡ₚ ["mock-cheap"; "mock-expensive"].
Proof.
  split; [reflexivity|]. split.
  - repeat constructor; cbn; unfold U64_MAX; lia.
  - vm_compute. by constructor || apply Permutation_swap.
Qed.

End CliWitnesses.
