(* ===== verification/Serde.v ===== *)
(** * Deserialization as [serde] derives it

    The program's records are read from TOML and JSON by [#[derive(Deserialize)]] and written
    by [#[derive(Serialize)]], as their attributes say.  A [Tree] is what a format hands to the
    derived code (a table or object keeps its members in order, duplicates included); a
    deserializer returns [None] for an error, whose text is the format's.  [Format] is what the
    two formats do differently. *)

From S2P Require Import Prelude Machine RustStr.

(** ** The data model *)

Inductive Tree :=
| SNull
| SBool (b : bool)
| SInt (z : Z)
| SFloat (x : f64)
| SStr (s : string)
| SSeq (l : list Tree)
| SMap (ms : list (string * Tree)).

Class Format := {
  (** A sequence longer than the struct it is read as is refused. *)
  fmt_strict_seq : bool;
  (** What may follow the name of a unit variant written as a map. *)
  fmt_unit : Tree -> bool;
}.

Definition JsonFormat : Format := {|
  fmt_strict_seq := true;
  fmt_unit := fun t => match t with SNull => true | _ => false end;
|}.

Definition TomlFormat : Format := {|
  fmt_strict_seq := false;
  fmt_unit := fun t => match t with SMap [] | SSeq [] => true | _ => false end;
|}.

(** ** Primitive types *)

Definition de_bool (t : Tree) : option bool := match t with SBool b => Some b | _ => None end.
Definition de_string (t : Tree) : option string := match t with SStr s => Some s | _ => None end.

Definition de_uint (max : Z) (t : Tree) : option Z :=
  match t with SInt z => if (0 <=? z)%Z && (z <=? max)%Z then Some z else None | _ => None end.
Definition de_u64 : Tree -> option Z := de_uint U64_MAX.
Definition de_u32 : Tree -> option Z := de_uint U32_MAX.

(** Integers are accepted where a float is read. *)
Definition de_f64 (t : Tree) : option f64 :=
  match t with SFloat x => Some x | SInt z => Some (f64_of_Z z) | _ => None end.

Definition de_opt {A} (de : Tree -> option A) (t : Tree) : option (option A) :=
  match t with SNull => Some None | _ => Some <$> de t end.

Definition de_vec {A} (de : Tree -> option A) (t : Tree) : option (list A) :=
  match t with SSeq l => mapM de l | _ => None end.

Definition ser_opt {A} (ser : A -> Tree) (o : option A) : Tree :=
  match o with Some x => ser x | None => SNull end.
Definition ser_vec {A} (ser : A -> Tree) (l : list A) : Tree := SSeq (map ser l).

(** ** Structs *)

(** One declared field of a struct: its value, or none in a map, or none left in a sequence. *)
Inductive Slot := Given (t : Tree) | Absent | Short.

(** The values of one key; a second one is an error. *)
Definition map_slot (ms : list (string * Tree)) (k : string) : option Slot :=
  match List.filter (fun m => String.eqb (fst m) k) ms with
  | [] => Some Absent
  | [(_, t)] => Some (Given t)
  | _ => None
  end.

Fixpoint seq_slots (names : list string) (l : list Tree) : list Slot :=
  match names, l with
  | [], _ => []
  | _ :: names', [] => Short :: seq_slots names' []
  | _ :: names', t :: l' => Given t :: seq_slots names' l'
  end.

(** The declared fields of a struct, in order; other members of a map are ignored. *)
Definition struct_slots `{Format} (names : list string) (t : Tree) : option (list Slot) :=
  match t with
  | SMap ms => mapM (map_slot ms) names
  | SSeq l =>
      if fmt_strict_seq && (length names <? length l)%nat then None
      else Some (seq_slots names l)
  | _ => None
  end.

(** [#[serde(flatten)]]: a map only; the members that are not declared are kept. *)
Definition flatten_slots (names : list string) (t : Tree)
    : option (list Slot * list (string * Tree)) :=
  match t with
  | SMap ms =>
      slots ← mapM (map_slot ms) names;
      Some (slots, List.filter (fun m => negb (existsb (String.eqb (fst m)) names)) ms)
  | _ => None
  end.

Definition required {A} (de : Tree -> option A) (s : Slot) : option A :=
  match s with Given t => de t | _ => None end.

(** A field of type [Option] without an attribute. *)
Definition optional {A} (de : Tree -> option A) (s : Slot) : option (option A) :=
  match s with Given t => de_opt de t | Absent => Some None | Short => None end.

(** [#[serde(default)]], [#[serde(default = ..)]] *)
Definition defaulted {A} (d : A) (de : Tree -> option A) (s : Slot) : option A :=
  match s with Given t => de t | _ => Some d end.

(** A member that is written only when it is present. *)
Definition ser_some {A} (k : string) (ser : A -> Tree) (o : option A) : list (string * Tree) :=
  match o with Some x => [(k, ser x)] | None => [] end.

(** Unit variants: the name, or a map from it. *)
Definition de_variant `{Format} {A} (variants : list (string * A)) (t : Tree) : option A :=
  let find s := option_map snd (List.find (fun v => String.eqb (fst v) s) variants) in
  match t with
  | SStr s => find s
  | SMap [(s, u)] => if fmt_unit u then find s else None
  | _ => None
  end.

(** ** Reading back what was written *)

Definition inverts {A} (de : Tree -> option A) (ser : A -> Tree) (P : A -> Prop) : Prop :=
  forall x, P x -> de (ser x) = Some x.

Create HintDb serde.

Lemma inverts_bool : inverts de_bool SBool (fun _ => True).
Proof. done. Qed.

Lemma inverts_string : inverts de_string SStr (fun _ => True).
Proof. done. Qed.

Lemma inverts_uint max : inverts (de_uint max) SInt (fun z => 0 <= z <= max).
Proof.
  intros z [H0 H1]. unfold de_uint.
  by rewrite (proj2 (Z.leb_le _ _) H0), (proj2 (Z.leb_le _ _) H1).
Qed.

Lemma inverts_vec {A} (de : Tree -> option A) ser P :
  inverts de ser P -> inverts (de_vec de) (ser_vec ser) (Forall P).
Proof.
  intros Hi l HF. unfold de_vec, ser_vec. rewrite mapM_Some, Forall2_fmap_l.
  apply Forall_Forall2_diag. eapply List.Forall_impl; [exact Hi|exact HF].
Qed.

(** The values a type is written as are never [null]. *)
Definition not_null (t : Tree) : Prop := t <> SNull.

Lemma inverts_opt {A} (de : Tree -> option A) ser P :
  inverts de ser P -> (forall x, P x -> ser x <> SNull) ->
  inverts (de_opt de) (ser_opt ser) (fun o => from_option P True o).
Proof.
  intros Hi Hn [x|] Hx; [|done]. simpl in *. unfold de_opt.
  pose proof (Hn x Hx). rewrite (Hi x Hx). by destruct (ser x).
Qed.

#[export] Hint Resolve inverts_bool inverts_string inverts_uint inverts_vec inverts_opt : serde.

Lemma filter_none {A} (f : A -> bool) l : (forall x, In x l -> f x = false) -> List.filter f l = [].
Proof.
  induction l as [|x l IH]; intros Hf; [done|]. simpl. rewrite Hf by (by left).
  apply IH. intros y Hy. apply Hf. by right.
Qed.

Lemma filter_key_none {V} (k : string) (ms : list (string * V)) :
  Forall (fun m => fst m <> k) ms -> List.filter (fun m => String.eqb (fst m) k) ms = [].
Proof.
  intros HF. apply filter_none. intros m Hm. apply String.eqb_neq.
  by eapply (proj1 (List.Forall_forall _ _)) in HF.
Qed.

(** Members whose keys differ from [k] do not matter to it. *)
Lemma map_slot_app_l ms ms' k :
  Forall (fun m => fst m <> k) ms -> map_slot (ms ++ ms') k = map_slot ms' k.
Proof.
  intros HF. unfold map_slot. by rewrite List.filter_app, filter_key_none.
Qed.

Lemma map_slot_app_r ms ms' k :
  Forall (fun m => fst m <> k) ms' -> map_slot (ms ++ ms') k = map_slot ms k.
Proof.
  intros HF. unfold map_slot. by rewrite List.filter_app, (filter_key_none k ms'), app_nil_r.
Qed.

(** ** Writing structs *)

(** The members a struct is written as: a field that is skipped has none. *)
Definition members (fs : list (string * option Tree)) : list (string * Tree) :=
  flat_map (fun '(k, o) => ser_some k id o) fs.

Definition slot_of (o : option Tree) : Slot :=
  match o with Some t => Given t | None => Absent end.

Lemma members_keys fs k t : In (k, t) (members fs) -> In (k, Some t) fs.
Proof.
  unfold members. intros Hi. apply in_flat_map in Hi as ([k' [t'|]] & Hf & Hk); simpl in Hk; [|done].
  destruct Hk as [[= <- <-]|[]]. done.
Qed.

Lemma members_other fs k : ~ In k (map fst fs) -> Forall (fun m => fst m <> k) (members fs).
Proof.
  intros Hn. apply List.Forall_forall. intros [k' t] Hi <-. apply Hn.
  apply members_keys in Hi. by apply (in_map fst) in Hi.
Qed.

Lemma map_slot_members fs k o :
  List.NoDup (map fst fs) -> In (k, o) fs -> map_slot (members fs) k = Some (slot_of o).
Proof.
  induction fs as [|[k' o'] fs IH]; intros Hnd Hi; [done|]. simpl in Hnd.
  inversion Hnd as [|? ? Hn Hnd']; subst. cbn [members flat_map]. fold (members fs).
  destruct Hi as [[= -> ->]|Hi].
  - rewrite map_slot_app_r by (by apply members_other).
    destruct o as [t|]; [|done]. unfold map_slot. cbn. by rewrite String.eqb_refl.
  - rewrite map_slot_app_l; [by apply IH|].
    assert (k' <> k) by (intros ->; apply Hn; by apply (in_map fst) in Hi).
    destruct o'; simpl; [|done]. by repeat constructor.
Qed.

(** The slots of a written struct, whatever other members it is written with. *)
Lemma slots_members fs rest :
  List.NoDup (map fst fs) -> Forall (fun m => ~ In (fst m) (map fst fs)) rest ->
  mapM (map_slot (members fs ++ rest)) (map fst fs) = Some (map (fun f => slot_of (snd f)) fs).
Proof.
  intros Hnd Hr. apply mapM_Some.
  assert (Hall : forall l, (forall f, In f l -> In f fs) ->
    Forall2 (fun k s => map_slot (members fs ++ rest) k = Some s)
      (map fst l) (map (fun f => slot_of (snd f)) l)); [|by apply Hall].
  induction l as [|[k o] l IH]; intros Hsub; [constructor|]. constructor.
  - simpl. rewrite map_slot_app_r.
    + apply map_slot_members; [done|]. apply Hsub. by left.
    + eapply List.Forall_impl; [|exact Hr]. intros m Hm Hk. apply Hm. rewrite Hk.
      apply (in_map fst fs (k, o)), Hsub. by left.
  - apply IH. intros f Hf. apply Hsub. by right.
Qed.

Lemma flatten_members fs rest :
  List.NoDup (map fst fs) -> Forall (fun m => ~ In (fst m) (map fst fs)) rest ->
  flatten_slots (map fst fs) (SMap (members fs ++ rest))
  = Some (map (fun f => slot_of (snd f)) fs, rest).
Proof.
  intros Hnd Hr. unfold flatten_slots. rewrite slots_members by done. cbn [mbind option_bind].
  do 2 f_equal. rewrite List.filter_app.
  assert (Hd : forall k, existsb (String.eqb k) (map fst fs) = true <-> In k (map fst fs)).
  { intros k. rewrite existsb_exists. split; [intros (x & Hx & He); apply String.eqb_eq in He; by subst|].
    intros Hk. exists k. by rewrite String.eqb_refl. }
  replace (List.filter _ (members fs)) with (@nil (string * Tree)).
  - induction Hr as [|[k t] rest Hm Hr IH]; [done|]. simpl in *.
    destruct (existsb (String.eqb k) (map fst fs)) eqn:E; [by apply Hd in E|].
    simpl. by rewrite IH.
  - symmetry. apply filter_none. intros [k t] Hi. apply members_keys in Hi.
    apply (in_map fst) in Hi. simpl in *. by rewrite (proj2 (Hd k) Hi).
Qed.

Lemma struct_members `{Format} fs :
  List.NoDup (map fst fs) ->
  struct_slots (map fst fs) (SMap (members fs)) = Some (map (fun f => slot_of (snd f)) fs).
Proof.
  intros Hnd. unfold struct_slots. rewrite <- (app_nil_r (members fs)).
  by apply slots_members.
Qed.

Lemma required_slot {A} (de : Tree -> option A) ser P x :
  inverts de ser P -> P x -> required de (slot_of (Some (ser x))) = Some x.
Proof. intros Hi Hx. by apply Hi. Qed.

Lemma defaulted_slot {A} (de : Tree -> option A) ser P d x :
  inverts de ser P -> P x -> defaulted d de (slot_of (Some (ser x))) = Some x.
Proof. intros Hi Hx. by apply Hi. Qed.

(** A field that is skipped when it is [None]. *)
Lemma optional_slot {A} (de : Tree -> option A) ser P o :
  inverts de ser P -> (forall x, P x -> ser x <> SNull) -> from_option P True o ->
  optional de (slot_of (ser <$> o)) = Some o.
Proof.
  intros Hi Hn Ho. destruct o as [x|]; [|done]. by apply (inverts_opt de ser P Hi Hn (Some x)).
Qed.

(** ** Maps

    [serde_json::Map] is a [BTreeMap]: sorted by key, the last of equal keys wins. *)

Definition str_lt (a b : string) : Prop := String.compare a b = Lt.

#[export] Instance str_lt_strict : StrictOrder str_lt.
Proof.
  unfold str_lt. split.
  - intros a Hc. pose proof (String.compare_antisym a a) as Ha. rewrite Hc in Ha. discriminate.
  - intros a. induction a as [|x a IH]; intros [|y b] [|z c] Hab Hbc; simpl in *; try done.
    unfold Ascii.compare in *.
    destruct (N.compare_spec (N_of_ascii x) (N_of_ascii y)) as [Hxy|Hxy|Hxy]; try discriminate;
    destruct (N.compare_spec (N_of_ascii y) (N_of_ascii z)) as [Hyz|Hyz|Hyz]; try discriminate.
    + rewrite Hxy, Hyz, N.compare_refl. by eapply IH.
    + by rewrite Hxy, (proj2 (N.compare_lt_iff _ _) Hyz).
    + by rewrite <- Hyz, (proj2 (N.compare_lt_iff _ _) Hxy).
    + by rewrite (proj2 (N.compare_lt_iff _ _) (N.lt_trans _ _ _ Hxy Hyz)).
Qed.

Section Map.
Context {V : Type}.
Implicit Types (l : list (string * V)).

Fixpoint map_put (k : string) (v : V) l : list (string * V) :=
  match l with
  | [] => [(k, v)]
  | (k', v') :: l' =>
      match String.compare k k' with
      | Lt => (k, v) :: l
      | Eq => (k, v) :: l'
      | Gt => (k', v') :: map_put k v l'
      end
  end.

Definition map_of l : list (string * V) := fold_left (fun m '(k, v) => map_put k v m) l [].

(** Sorted, no key twice. *)
Definition is_map l : Prop := StronglySorted (fun a b => str_lt (fst a) (fst b)) l.

(** The values of a key in a list of members. *)
Definition values_of (k : string) l : list V :=
  map snd (List.filter (fun m => String.eqb (fst m) k) l).

Lemma values_of_app k l l' : values_of k (l ++ l') = values_of k l ++ values_of k l'.
Proof. unfold values_of. by rewrite List.filter_app, map_app. Qed.

Lemma values_of_none k l : Forall (fun m => fst m <> k) l -> values_of k l = [].
Proof. intros HF. unfold values_of. by rewrite filter_key_none. Qed.

Lemma compare_gt a b : String.compare a b = Gt -> str_lt b a.
Proof. unfold str_lt. rewrite String.compare_antisym. by destruct (String.compare b a). Qed.

Lemma map_put_keys k v l m : In m (map_put k v l) -> m = (k, v) \/ In m l.
Proof.
  induction l as [|[k' v'] l IH]; simpl; [intuition|].
  destruct (String.compare k k'); simpl; intuition.
Qed.

Lemma is_map_put k v l : is_map l -> is_map (map_put k v l).
Proof.
  unfold is_map. induction 1 as [|[k' v'] l Hs IH HF]; simpl; [repeat constructor|].
  destruct (String.compare k k') eqn:E.
  - apply String.compare_eq_iff in E as ->. by constructor.
  - constructor; [by constructor|]. constructor; [done|].
    eapply List.Forall_impl; [|exact HF]. intros m Hm. simpl in *. by etransitivity.
  - constructor; [done|]. apply List.Forall_forall. intros m Hm.
    destruct (map_put_keys _ _ _ _ Hm) as [->|Hi]; [by apply compare_gt|].
    by eapply (proj1 (List.Forall_forall _ _)) in HF.
Qed.

Lemma values_of_put k v l k' :
  is_map l -> values_of k' (map_put k v l) = if String.eqb k k' then [v] else values_of k' l.
Proof.
  unfold is_map. induction 1 as [|[k1 v1] l Hs IH HF]; simpl.
  { unfold values_of. simpl. by destruct (String.eqb k k'). }
  assert (Hno : forall x, x = k1 \/ str_lt x k1 -> values_of x l = []).
  { intros x Hx. apply values_of_none. eapply List.Forall_impl; [|exact HF].
    intros m Hm Hk. simpl in Hm. rewrite Hk in Hm.
    destruct Hx as [->|Hx]; [by destruct (irreflexivity str_lt _ Hm)|].
    apply (irreflexivity str_lt x). by etransitivity. }
  destruct (String.compare k k1) eqn:E.
  - apply String.compare_eq_iff in E as ->. unfold values_of in *. simpl.
    destruct (String.eqb_spec k1 k') as [->|]; simpl; [|done]. by rewrite Hno by auto.
  - unfold values_of in *. simpl. destruct (String.eqb_spec k k') as [->|Hne]; simpl; [|done].
    destruct (String.eqb_spec k1 k') as [->|]; simpl; [|by rewrite Hno by auto].
    by destruct (irreflexivity str_lt _ E).
  - unfold values_of in *. simpl. destruct (String.eqb_spec k1 k') as [->|Hne]; simpl; [|done].
    rewrite IH. destruct (String.eqb_spec k k') as [->|]; [|done].
    apply compare_gt in E. by destruct (irreflexivity str_lt _ E).
Qed.

Lemma map_of_snoc l k v : map_of (l ++ [(k, v)]) = map_put k v (map_of l).
Proof. unfold map_of. by rewrite fold_left_app. Qed.

Lemma is_map_of l : is_map (map_of l).
Proof.
  induction l as [|[k v] l IH] using rev_ind; [constructor|].
  rewrite map_of_snoc. by apply is_map_put.
Qed.

(** The last of equal keys wins. *)
Lemma values_of_map_of l k :
  values_of k (map_of l) = match list.last (values_of k l) with Some v => [v] | None => [] end.
Proof.
  induction l as [|[k' v] l IH] using rev_ind; [done|].
  rewrite map_of_snoc, values_of_put, values_of_app by apply is_map_of.
  unfold values_of at 3. simpl. destruct (String.eqb k' k); simpl; [by rewrite last_snoc|].
  by rewrite app_nil_r.
Qed.

Lemma map_put_last k v l : Forall (fun m => str_lt (fst m) k) l -> map_put k v l = l ++ [(k, v)].
Proof.
  induction 1 as [|[k' v'] l Hm HF IH]; [done|]. simpl in *. unfold str_lt in Hm.
  rewrite String.compare_antisym, Hm. simpl. by rewrite IH.
Qed.

Lemma is_map_snoc l m : is_map (l ++ [m]) <-> is_map l /\ Forall (fun x => str_lt (fst x) (fst m)) l.
Proof.
  unfold is_map. induction l as [|x l IH]; simpl.
  - split; [repeat constructor|]. intros _. repeat constructor.
  - split.
    + intros Hs. inversion Hs as [|? ? Hs' HF]; subst. apply IH in Hs' as [Hs' HF'].
      apply List.Forall_app in HF as [HF HF1]. inversion HF1; subst. split; by constructor.
    + intros [Hs HF]. inversion Hs; inversion HF; subst. constructor; [by apply IH|].
      apply List.Forall_app. split; [done|]. by repeat constructor.
Qed.

Lemma map_of_map l : is_map l -> map_of l = l.
Proof.
  induction l as [|[k v] l IH] using rev_ind; [done|]. intros Hm.
  apply is_map_snoc in Hm as [Hm HF]. rewrite map_of_snoc, IH by done. by apply map_put_last.
Qed.

End Map.
