(* ===== verification/JsonCodec.v ===== *)
(** * JSON text

    A reader and a printer of JSON, and the instance of [SerdeJson] they give: what the tests
    of the sources run on in place of [serde_json].  Decimals are rounded to the nearest
    double and printed exactly; surrogate escapes are not read. *)

From S2P Require Import Prelude Machine RustStr Types Serde.

Definition chr (n : nat) : ascii := ascii_of_nat n.
Definition quote : ascii := chr 34.
Definition backslash : ascii := chr 92.

(** ** Reading *)

Fixpoint skip_ws (s : string) : string :=
  match s with
  | String c s' => if in_range 9 10 c || in_range 13 13 c || in_range 32 32 c then skip_ws s' else s
  | "" => ""
  end.

Definition hex_digit (c : ascii) : option nat :=
  if in_range 48 57 c then Some (nat_of_ascii c - 48)%nat
  else if in_range 97 102 c then Some (nat_of_ascii c - 87)%nat
  else if in_range 65 70 c then Some (nat_of_ascii c - 55)%nat
  else None.

(** A code point of the basic plane, as UTF-8. *)
Definition utf8 (n : nat) : string :=
  bytes_str (if (n <? 128)%nat then [n]
             else if (n <? 2048)%nat then [192 + n / 64; 128 + n mod 64]
             else [224 + n / 4096; 128 + n / 64 mod 64; 128 + n mod 64])%nat.

Definition escape (c : ascii) : option string :=
  match nat_of_ascii c with
  | 34 | 47 | 92 => Some (String c "")
  | 98 => Some (bytes_str [8]) | 102 => Some (bytes_str [12]) | 110 => Some (bytes_str [10])
  | 114 => Some (bytes_str [13]) | 116 => Some (bytes_str [9])
  | _ => None
  end%nat.

(** The rest of a string literal, and what follows its closing quote. *)
Fixpoint read_string (s : string) : option (string * string) :=
  match s with
  | "" => None
  | String c s1 =>
      if Ascii.eqb c quote then Some ("", s1)
      else if Ascii.eqb c backslash then
        match s1 with
        | String "u" (String a (String b (String x (String y s2)))) =>
            a ← hex_digit a; b ← hex_digit b; x ← hex_digit x; y ← hex_digit y;
            let n := (((a * 16 + b) * 16 + x) * 16 + y)%nat in
            if (55296 <=? Z.of_nat n)%Z && (Z.of_nat n <=? 57343)%Z then None else
            '(t, rest) ← read_string s2; Some (utf8 n +:+ t, rest)
        | String e s2 => e ← escape e; '(t, rest) ← read_string s2; Some (e +:+ t, rest)
        | "" => None
        end
      else if in_range 0 31 c then None
      else '(t, rest) ← read_string s1; Some (String c t, rest)
  end.

(** A run of digits: its value, its length, what follows. *)
Fixpoint read_digits (acc : Z) (n : nat) (s : string) : Z * nat * string :=
  match s with
  | String c s' =>
      if in_range 48 57 c
      then read_digits (acc * 10 + Z.of_nat (nat_of_ascii c - 48)) (S n) s'
      else (acc, n, s)
  | "" => (acc, n, s)
  end.

(** The double nearest to [n / d]. *)
Definition f64_ratio (negative : bool) (n d : Z) : f64 :=
  match n, d with
  | Zpos n, Zpos d => f64_div (SpecFloat.S754_finite negative n 0) (SpecFloat.S754_finite false d 0)
  | _, _ => SpecFloat.S754_zero negative
  end.

Definition read_exponent (s : string) : option (option Z * string) :=
  match s with
  | String c s1 =>
      if Ascii.eqb c "e" || Ascii.eqb c "E" then
        let '(sign, s2) := match s1 with
                           | String "-" s2 => (-1, s2)
                           | String "+" s2 => (1, s2)
                           | _ => (1, s1)
                           end in
        let '(e, n, rest) := read_digits 0 0 s2 in
        if (n =? 0)%nat then None else Some (Some (sign * e)%Z, rest)
      else Some (None, s)
  | "" => Some (None, s)
  end.

Definition read_number (s : string) : option (Tree * string) :=
  let '(negative, s1) := match s with String "-" s1 => (true, s1) | _ => (false, s) end in
  let '(i, n, s2) := read_digits 0 0 s1 in
  if (n =? 0)%nat || ((1 <? n)%nat && str_starts_with "0" s1) then None else
  '(f, k, s3) ← match s2 with
                | String "." s2' =>
                    let '(f, k, s3) := read_digits i 0 s2' in
                    if (k =? 0)%nat then None else Some (f, k, s3)
                | _ => Some (i, 0%nat, s2)
                end;
  '(e, rest) ← read_exponent s3;
  let exact := if negative then (- i)%Z else i in
  if (k =? 0)%nat && bool_decide (e = None) && (- 2 ^ 63 <=? exact)%Z && (exact <=? U64_MAX)%Z
     && negb (negative && (i =? 0)%Z)
  then Some (SInt exact, rest)
  else
    let p := (default 0 e - Z.of_nat k)%Z in
    Some (SFloat (f64_ratio negative (f * 10 ^ Z.max 0 p) (10 ^ Z.max 0 (- p))), rest).

(** [obj] makes the members of an object of those read. *)
Fixpoint read_value (obj : list (string * Tree) -> list (string * Tree)) (fuel : nat) (s : string)
    {struct fuel} : option (Tree * string) :=
  match fuel with
  | O => None
  | S fuel' =>
      let s := skip_ws s in
      match s with
      | String "{" s1 =>
          match skip_ws s1 with
          | String "}" rest => Some (SMap [], rest)
          | s2 => '(ms, rest) ← read_members obj fuel' s2; Some (SMap (obj ms), rest)
          end
      | String "[" s1 =>
          match skip_ws s1 with
          | String "]" rest => Some (SSeq [], rest)
          | s2 => '(l, rest) ← read_items obj fuel' s2; Some (SSeq l, rest)
          end
      | String c s1 =>
          if Ascii.eqb c quote then '(t, rest) ← read_string s1; Some (SStr t, rest)
          else match str_strip_prefix "null" s with
               | Some rest => Some (SNull, rest)
               | None =>
               match str_strip_prefix "true" s with
               | Some rest => Some (SBool true, rest)
               | None =>
               match str_strip_prefix "false" s with
               | Some rest => Some (SBool false, rest)
               | None => read_number s
               end end end
      | "" => None
      end
  end
with read_members (obj : list (string * Tree) -> list (string * Tree)) (fuel : nat) (s : string)
    {struct fuel} : option (list (string * Tree) * string) :=
  match fuel with
  | O => None
  | S fuel' =>
      match skip_ws s with
      | String c s1 =>
          if negb (Ascii.eqb c quote) then None else
          '(k, s2) ← read_string s1;
          match skip_ws s2 with
          | String ":" s3 =>
              '(t, s4) ← read_value obj fuel' s3;
              match skip_ws s4 with
              | String "}" rest => Some ([(k, t)], rest)
              | String "," s5 => '(ms, rest) ← read_members obj fuel' s5; Some ((k, t) :: ms, rest)
              | _ => None
              end
          | _ => None
          end
      | "" => None
      end
  end
with read_items (obj : list (string * Tree) -> list (string * Tree)) (fuel : nat) (s : string)
    {struct fuel} : option (list Tree * string) :=
  match fuel with
  | O => None
  | S fuel' =>
      '(t, s1) ← read_value obj fuel' s;
      match skip_ws s1 with
      | String "]" rest => Some ([t], rest)
      | String "," s2 => '(l, rest) ← read_items obj fuel' s2; Some (t :: l, rest)
      | _ => None
      end
  end.

Definition read_json (obj : list (string * Tree) -> list (string * Tree)) (s : string)
    : option Tree :=
  match read_value obj (S (String.length s)) s with
  | Some (t, rest) => if str_is_empty (skip_ws rest) then Some t else None
  | None => None
  end.

(** ** Printing *)

Definition hex (n : nat) : string := String (if (n <? 10)%nat then chr (48 + n) else chr (87 + n)) "".

Definition print_char (c : ascii) : string :=
  match nat_of_ascii c with
  | 34 | 92 => String backslash (String c "")
  | 8 => String backslash "b" | 12 => String backslash "f" | 10 => String backslash "n"
  | 13 => String backslash "r" | 9 => String backslash "t"
  | n => if (n <? 32)%nat then String backslash ("u00" +:+ hex (n / 16) +:+ hex (n mod 16))
         else String c ""
  end%nat.

Fixpoint print_chars (s : string) : string :=
  match s with "" => "" | String c s' => print_char c +:+ print_chars s' end.

Definition print_string (s : string) : string :=
  String quote (print_chars s) +:+ String quote "".

Fixpoint skip_zeros (s : string) : string :=
  match s with String "0" s' => skip_zeros s' | _ => s end.

(** The digits of a fraction, at least one. *)
Definition trim_fraction (s : string) : string :=
  let s := str_rev (skip_zeros (str_rev s)) in if str_is_empty s then "0" else s.

(** The exact decimal of a float; what is not finite is [null]. *)
Definition print_float (x : f64) : string :=
  match x with
  | SpecFloat.S754_zero s => if s then "-0.0" else "0.0"
  | SpecFloat.S754_finite s m e =>
      let sign := if s then "-" else "" in
      if (0 <=? e)%Z then sign +:+ pretty_Z (Zpos m * 2 ^ e) +:+ ".0"
      else
        let d := 2 ^ (- e) in
        sign +:+ pretty_Z (Zpos m / d) +:+ "." +:+
        trim_fraction (pad_left (Z.to_nat (- e)) (pretty_Z (Zpos m mod d * 5 ^ (- e))))
  | _ => "null"
  end.

Fixpoint print_json (t : Tree) : string :=
  match t with
  | SNull => "null"
  | SBool b => if b then "true" else "false"
  | SInt z => pretty_Z z
  | SFloat x => print_float x
  | SStr s => print_string s
  | SSeq l => "[" +:+ str_join "," (map print_json l) +:+ "]"
  | SMap ms =>
      "{" +:+ str_join "," (map (fun '(k, t) => print_string k +:+ ":" +:+ print_json t) ms) +:+ "}"
  end.

(** ** The instance *)

Definition tree_u64 (t : Tree) : option Z := de_u64 t.

Lemma tree_u64_range t n : tree_u64 t = Some n -> in_u64 n.
Proof.
  destruct t; try discriminate. unfold tree_u64, de_u64, de_uint.
  destruct (_ && _)%bool eqn:E; [|discriminate]. intros [= <-]. breflect. by split.
Qed.

Definition TextJson : SerdeJson := {|
  Value := Tree;
  v_get := fun k t => match t with SMap ms => list.last (values_of k ms) | _ => None end;
  v_get_idx := fun i t => match t with SSeq l => l !! i | _ => None end;
  v_as_str := de_string;
  v_as_u64 := tree_u64;
  v_as_f64 := de_f64;
  v_is_null := fun t => match t with SNull => true | _ => false end;
  v_insert_str := fun k s t => match t with SMap ms => Some (SMap (map_put k (SStr s) ms)) | _ => None end;
  json_from_str := read_json map_of;
  json_to_string := fun t => Ok (print_json t);
  json_list_to_string := fun l => Some (print_json (SSeq l));
  v_as_u64_range := tree_u64_range;
|}.

(** JSON in the text of this library: an apostrophe stands for a double quote. *)
Definition json (s : string) : string := str_map (fun c => if Ascii.eqb c "'" then quote else c) s.

Example read_back :
  let s := json "{'a':[1,-2,true,null,'x',{}],'b':{'c':0.5}}" in
  option_map print_json (read_json map_of s) = Some s.
Proof. vm_compute. reflexivity. Qed.

Example read_rounds :
  read_json id (json " { 'cost' : 42.35 , 'n' : 1e3 } ")
  = Some (SMap [("cost", SFloat (f64_lit 4235 100)); ("n", SFloat (f64_of_Z 1000))]).
Proof. vm_compute. reflexivity. Qed.

Example read_refuses :
  Forall (fun s => read_json id (json s) = None)
    ["{this is not valid json}"; "[1,]"; "01"; "'a"; "1 2"; ""; "{'a' 1}"].
Proof. repeat constructor. Qed.
