(* ===== verification/JsonRoundTrip.v ===== *)
(** * What is printed reads back

    The printer and the reader of [JsonCodec] are inverse on trees without floats: the law
    [serde_json] documents, proved of the instance the witnesses run. *)

From S2P Require Import Prelude Machine RustStr Types Serde JsonCodec.

(** ** Trees *)

Section TreeInd.
Context (P : Tree -> Prop).
Hypothesis Hnull : P SNull.
Hypothesis Hbool : forall b, P (SBool b).
Hypothesis Hint : forall z, P (SInt z).
Hypothesis Hfloat : forall x, P (SFloat x).
Hypothesis Hstr : forall s, P (SStr s).
Hypothesis Hseq : forall l, Forall P l -> P (SSeq l).
Hypothesis Hmap : forall ms, Forall (fun m => P (snd m)) ms -> P (SMap ms).

Fixpoint Tree_nested_ind (t : Tree) : P t :=
  match t with
  | SNull => Hnull
  | SBool b => Hbool b
  | SInt z => Hint z
  | SFloat x => Hfloat x
  | SStr s => Hstr s
  | SSeq l =>
      Hseq l ((fix go l : Forall P l :=
                 match l with
                 | [] => List.Forall_nil _
                 | t :: l' => List.Forall_cons _ _ _ (Tree_nested_ind t) (go l')
                 end) l)
  | SMap ms =>
      Hmap ms ((fix go ms : Forall (fun m => P (snd m)) ms :=
                  match ms with
                  | [] => List.Forall_nil _
                  | m :: ms' => List.Forall_cons _ _ _ (Tree_nested_ind (snd m)) (go ms')
                  end) ms)
  end.

End TreeInd.

(** No floats, integers of 64 bits. *)
Fixpoint tree_ok (t : Tree) : bool :=
  match t with
  | SInt z => (- 2 ^ 63 <=? z)%Z && (z <=? U64_MAX)%Z
  | SFloat _ => false
  | SSeq l => forallb tree_ok l
  | SMap ms => forallb (fun m => tree_ok (snd m)) ms
  | _ => true
  end.

(** ** Strings *)

Lemma read_print_char c s :
  read_string (print_char c +:+ s)
  = ('(t, rest) ← read_string s; Some (String c t, rest)).
Proof. destruct c as [[] [] [] [] [] [] [] []]; reflexivity. Qed.

Lemma read_print_chars s rest : read_string (print_chars s +:+ String quote rest) = Some (s, rest).
Proof.
  induction s as [|c s IH]; [done|]. cbn [print_chars]. rewrite str_app_assoc, read_print_char, IH.
  done.
Qed.

Lemma read_print_string s rest :
  match print_string s +:+ rest with
  | String c s1 => c = quote /\ read_string s1 = Some (s, rest)
  | "" => False
  end.
Proof.
  unfold print_string. cbn [String.append]. split; [done|].
  rewrite str_app_assoc. apply read_print_chars.
Qed.

(** ** Integers *)

Definition is_digit (c : ascii) : bool := in_range 48 57 c.

Lemma pretty_digit x :
  (x < 10)%N -> is_digit (pretty_N_char x) = true /\
  Z.of_nat (nat_of_ascii (pretty_N_char x) - 48) = Z.of_N x.
Proof.
  intros Hx. assert (Hc : (x = 0 \/ x = 1 \/ x = 2 \/ x = 3 \/ x = 4 \/ x = 5 \/ x = 6 \/ x = 7
                           \/ x = 8 \/ x = 9)%N) by lia.
  by repeat (destruct Hc as [->|Hc]); subst.
Qed.

Lemma read_digits_go x n s :
  (0 < x)%N ->
  exists k, (n <= k)%nat /\ read_digits 0 n (pretty_N_go x s) = read_digits (Z.of_N x) (S k) s.
Proof.
  revert n s. induction (N.lt_wf_0 x) as [x _ IH]. intros n s Hx.
  assert (Hm : (x mod 10 < 10)%N) by (apply N.mod_lt; lia).
  destruct (pretty_digit _ Hm) as [Hd Hv]. rewrite pretty_N_go_step by done.
  destruct (decide (x < 10)%N) as [Hs|Hs].
  - rewrite N.div_small, pretty_N_go_0 by done. rewrite N.mod_small in * by done.
    exists n. split; [done|]. cbn [read_digits]. unfold is_digit in Hd. rewrite Hd, Hv. done.
  - destruct (IH (x / 10)%N) with (n := n) (s := String (pretty_N_char (x mod 10)) s) as (k & Hk & ->);
      [apply N.div_lt; lia|apply N.div_str_pos; lia|].
    exists (S k). split; [lia|]. cbn [read_digits]. unfold is_digit in Hd. rewrite Hd, Hv.
    f_equal. pose proof (N.div_mod x 10 ltac:(lia)). lia.
Qed.

Lemma pretty_go_first x s :
  (0 < x)%N -> exists c s', pretty_N_go x s = String c s' /\ in_range 49 57 c = true.
Proof.
  revert s. induction (N.lt_wf_0 x) as [x _ IH]. intros s Hx. rewrite pretty_N_go_step by done.
  destruct (decide (x < 10)%N) as [Hs|Hs].
  - rewrite N.div_small, pretty_N_go_0, N.mod_small by done. do 2 eexists. split; [reflexivity|].
    assert (Hc : (x = 1 \/ x = 2 \/ x = 3 \/ x = 4 \/ x = 5 \/ x = 6 \/ x = 7 \/ x = 8 \/ x = 9)%N)
      by lia.
    by repeat (destruct Hc as [->|Hc]); subst.
  - apply IH; [apply N.div_lt; lia|apply N.div_str_pos; lia].
Qed.

Lemma pretty_go_app x s rest : pretty_N_go x s +:+ rest = pretty_N_go x (s +:+ rest).
Proof.
  revert s. induction (N.lt_wf_0 x) as [x _ IH]. intros s.
  destruct (decide (0 < x)%N) as [Hx|Hx].
  - rewrite !(pretty_N_go_step x) by done. rewrite IH by (apply N.div_lt; lia). done.
  - assert (x = 0%N) as -> by lia. by rewrite !pretty_N_go_0.
Qed.

(** What may follow a value: the end, or the punctuation of an array or object. *)
Definition ends (rest : string) : bool :=
  match rest with
  | "" => true
  | String c _ => Ascii.eqb c "," || Ascii.eqb c "]" || Ascii.eqb c "}"
  end.

Ltac solve_ends rest H :=
  destruct rest as [|[[] [] [] [] [] [] [] []] rest]; try discriminate H.

Lemma read_digits_end v n rest : ends rest = true -> read_digits v n rest = (v, n, rest).
Proof. intros He. by solve_ends rest He. Qed.

Lemma pretty_pos p : pretty_Z (Zpos p) = pretty_N_go (Npos p) "".
Proof.
  change (pretty_Z (Zpos p)) with (pretty_N (Npos p)). unfold pretty_N. by rewrite decide_False.
Qed.

(** The digits of a positive number, after a sign or not. *)
Lemma read_pos p rest :
  ends rest = true ->
  exists k, read_digits 0 0 (pretty_Z (Zpos p) +:+ rest) = (Zpos p, S k, rest) /\
    str_starts_with "0" (pretty_Z (Zpos p) +:+ rest) = false /\
    exists c s, pretty_Z (Zpos p) +:+ rest = String c s /\ in_range 49 57 c = true.
Proof.
  intros He. rewrite pretty_pos, pretty_go_app. cbn [String.append].
  destruct (read_digits_go (Npos p) 0 rest) as (k & _ & ->); [lia|].
  destruct (pretty_go_first (Npos p) rest) as (c & s & Hc & Hr); [lia|].
  exists k. rewrite read_digits_end by done. split_and!; [done| |eauto]. rewrite Hc.
  clear -Hr. by destruct c as [[] [] [] [] [] [] [] []].
Qed.

Lemma read_print_int z rest :
  tree_ok (SInt z) = true -> ends rest = true ->
  read_number (pretty_Z z +:+ rest) = Some (SInt z, rest).
Proof.
  intros Ho He. cbn [tree_ok] in Ho. breflect.
  assert (Hfin : forall (negative : bool) i k, i <> 0 -> z = (if negative then - i else i) ->
    ('(f, k, s3) ← match rest with
                   | String "." s2' =>
                       let '(f, k, s3) := read_digits i 0 s2' in
                       if (k =? 0)%nat then None else Some (f, k, s3)
                   | _ => Some (i, 0%nat, rest)
                   end;
     '(e, rest0) ← read_exponent s3;
     let exact := if negative then (- i)%Z else i in
     if (k =? 0)%nat && bool_decide (e = None) && (- 2 ^ 63 <=? exact)%Z && (exact <=? U64_MAX)%Z
        && negb (negative && (i =? 0)%Z)
     then Some (SInt exact, rest0)
     else
       let p := (default 0 e - Z.of_nat k)%Z in
       Some (SFloat (f64_ratio negative (f * 10 ^ Z.max 0 p) (10 ^ Z.max 0 (- p))), rest0))
    = Some (SInt z, rest) /\ (0 < S k)%nat).
  { intros negative i k Hi Hz. split; [|lia].
    assert (Hr : match rest with
                 | String "." s2' =>
                     let '(f, k, s3) := read_digits i 0 s2' in
                     if (k =? 0)%nat then None else Some (f, k, s3)
                 | _ => Some (i, 0%nat, rest)
                 end = Some (i, 0%nat, rest)) by (by solve_ends rest He).
    assert (Hx : read_exponent rest = Some (None, rest)) by (by solve_ends rest He).
    rewrite Hr. cbn [mbind option_bind]. rewrite Hx. cbn [mbind option_bind]. cbv zeta.
    rewrite <- Hz. rewrite (proj2 (Z.leb_le _ _)) by lia. rewrite (proj2 (Z.leb_le _ _)) by lia.
    rewrite (proj2 (Z.eqb_neq i 0) Hi), andb_false_r. done. }
  destruct z as [|p|p].
  - by solve_ends rest He.
  - destruct (read_pos p rest He) as (k & Hd & Hs & c & s & Hc & Hr).
    destruct (Hfin false (Zpos p) k) as [Hf _]; [done..|]. unfold read_number.
    assert (Hm : match pretty_Z (Zpos p) +:+ rest with
                 | String "-" s1 => (true, s1)
                 | _ => (false, pretty_Z (Zpos p) +:+ rest)
                 end = (false, pretty_Z (Zpos p) +:+ rest)).
    { rewrite Hc. clear -Hr. by destruct c as [[] [] [] [] [] [] [] []]. }
    rewrite Hm, Hd, Hs, andb_false_r. exact Hf.
  - destruct (read_pos p rest He) as (k & Hd & Hs & _).
    destruct (Hfin true (Zpos p) k) as [Hf _]; [done..|].
    change (pretty_Z (Zneg p) +:+ rest) with (String "-" (pretty_Z (Zpos p) +:+ rest)).
    unfold read_number. rewrite Hd, Hs, andb_false_r. exact Hf.
Qed.

(** ** Values *)

(** The first character of a value. *)
Definition starts (c : ascii) : bool :=
  Ascii.eqb c quote || Ascii.eqb c "{" || Ascii.eqb c "[" || Ascii.eqb c "n" || Ascii.eqb c "t"
  || Ascii.eqb c "f" || Ascii.eqb c "-" || is_digit c.

Ltac solve_first c H := clear -H; destruct c as [[] [] [] [] [] [] [] []]; try discriminate H.

Lemma starts_skip c s : starts c = true -> skip_ws (String c s) = String c s.
Proof. intros Hs. by solve_first c Hs. Qed.

Lemma ends_skip c s : ends (String c s) = true -> skip_ws (String c s) = String c s.
Proof. intros He. cbn [ends] in He. by solve_first c He. Qed.

Lemma quote_skip s : skip_ws (String quote s) = String quote s.
Proof. reflexivity. Qed.

Lemma colon_skip s : skip_ws (String ":" s) = String ":" s.
Proof. reflexivity. Qed.

Lemma pretty_first z : exists c s, pretty_Z z = String c s /\ (Ascii.eqb c "-" || is_digit c)%bool = true.
Proof.
  destruct z as [|p|p]; [by do 2 eexists| |by do 2 eexists].
  rewrite pretty_pos. destruct (pretty_go_first (Npos p) "") as (c & s & -> & Hc); [lia|].
  do 2 eexists. split; [reflexivity|]. by solve_first c Hc.
Qed.

Lemma print_first t : tree_ok t = true -> exists c s, print_json t = String c s /\ starts c = true.
Proof.
  destruct t as [|[]|z|x|s|l|ms]; intros Ho; try discriminate Ho; try (by do 2 eexists).
  destruct (pretty_first z) as (c & s & Hp & Hc). cbn [print_json]. rewrite Hp.
  do 2 eexists. split; [reflexivity|]. unfold starts. apply orb_true_iff in Hc as [Hc | Hc]; rewrite Hc;
    by rewrite ?orb_true_r.
Qed.

Lemma read_value_number obj fuel c s :
  (Ascii.eqb c "-" || is_digit c)%bool = true ->
  read_value obj (S fuel) (String c s) = read_number (String c s).
Proof. intros Hc. by solve_first c Hc. Qed.

Lemma read_value_seq obj fuel c s :
  starts c = true ->
  read_value obj (S fuel) (String "[" (String c s))
  = ('(l, rest) ← read_items obj fuel (String c s); Some (SSeq l, rest)).
Proof. intros Hc. by solve_first c Hc. Qed.

Lemma read_value_map obj fuel s :
  read_value obj (S fuel) (String "{" (String quote s))
  = ('(ms, rest) ← read_members obj fuel (String quote s); Some (SMap (obj ms), rest)).
Proof. done. Qed.

(** What [t] prints reads back from any text that starts with it. *)
Definition reads (t : Tree) : Prop :=
  tree_ok t = true -> forall fuel rest, ends rest = true ->
  (String.length (print_json t) < fuel)%nat -> read_value id fuel (print_json t +:+ rest) = Some (t, rest).

Definition print_member (m : string * Tree) : string :=
  let '(k, t) := m in print_string k +:+ ":" +:+ print_json t.

Lemma join_cons a b l : str_join "," (a :: b :: l) = a +:+ String "," (str_join "," (b :: l)).
Proof. done. Qed.

Lemma str_app_cons a c b : (String c a) +:+ b = String c (a +:+ b).
Proof. done. Qed.

Lemma join_length a b l :
  String.length (str_join "," (a :: b :: l))
  = (String.length a + S (String.length (str_join "," (b :: l))))%nat.
Proof. rewrite join_cons, str_length_app. done. Qed.

Lemma read_print_items l fuel rest :
  l <> [] -> forallb tree_ok l = true -> Forall reads l ->
  (S (String.length (str_join "," (map print_json l))) < fuel)%nat ->
  read_items id fuel (str_join "," (map print_json l) +:+ String "]" rest) = Some (l, rest).
Proof.
  intros Hn Ho HF. revert fuel. induction HF as [|t l Ht HF IH]; intros fuel Hf; [done|].
  cbn [forallb] in Ho. breflect. destruct fuel as [|fuel]; [lia|]. cbn [read_items].
  destruct l as [|t' l].
  - unfold str_join in *. cbn [map String.concat] in *. by rewrite Ht by (done || lia).
  - change (map print_json (t :: t' :: l)) with (print_json t :: print_json t' :: map print_json l) in *.
    rewrite join_length in Hf. rewrite join_cons, str_app_assoc, str_app_cons, Ht by (done || lia).
    cbn [mbind option_bind]. rewrite ends_skip by done. cbn iota.
    change (print_json t' :: map print_json l) with (map print_json (t' :: l)) in *.
    by rewrite IH by (done || lia).
Qed.

(** One member, before what follows it. *)
Lemma read_print_member k t fuel rest :
  tree_ok t = true -> reads t -> ends rest = true ->
  (String.length (print_member (k, t)) < fuel)%nat ->
  exists s1, print_member (k, t) +:+ rest = String quote s1 /\
    exists s2, read_string s1 = Some (k, String ":" s2) /\ read_value id fuel s2 = Some (t, rest).
Proof.
  intros Ho Ht He Hf. cbn [print_member] in *. rewrite !str_length_app in Hf.
  rewrite !str_app_assoc, str_app_cons.
  change ("" +:+ print_json t +:+ rest) with (print_json t +:+ rest).
  pose proof (read_print_string k (String ":" (print_json t +:+ rest))) as Hk.
  destruct (print_string k +:+ _) as [|c s1] eqn:E; [done|]. destruct Hk as [-> Hk].
  exists s1. split; [done|]. eexists. split; [exact Hk|]. by rewrite Ht by (done || lia).
Qed.

Lemma read_print_members ms fuel rest :
  ms <> [] -> forallb (fun m => tree_ok (snd m)) ms = true -> Forall (fun m => reads (snd m)) ms ->
  (S (String.length (str_join "," (map print_member ms))) < fuel)%nat ->
  read_members id fuel (str_join "," (map print_member ms) +:+ String "}" rest) = Some (ms, rest).
Proof.
  intros Hn Ho HF. revert fuel. induction HF as [|[k t] ms Ht HF IH]; intros fuel Hf; [done|].
  cbn [forallb snd] in Ho, Ht. breflect. destruct fuel as [|fuel]; [lia|]. cbn [read_members].
  destruct ms as [|m' ms].
  - unfold str_join in *. cbn [map String.concat] in *.
    destruct (read_print_member k t fuel (String "}" rest)) as (s1 & -> & s2 & Hk & Hv);
      [done..|lia|].
    rewrite quote_skip. cbn iota. rewrite Ascii.eqb_refl. cbn [negb]. rewrite Hk.
    cbn [mbind option_bind]. rewrite colon_skip. cbn iota. by rewrite Hv.
  - change (map print_member ((k, t) :: m' :: ms))
      with (print_member (k, t) :: print_member m' :: map print_member ms) in *.
    rewrite join_length in Hf. rewrite join_cons, str_app_assoc, str_app_cons.
    set (tail := str_join "," (print_member m' :: map print_member ms) +:+ String "}" rest).
    destruct (read_print_member k t fuel (String "," tail)) as (s1 & -> & s2 & Hk & Hv);
      [done..|lia|].
    rewrite quote_skip. cbn iota. rewrite Ascii.eqb_refl. cbn [negb]. rewrite Hk.
    cbn [mbind option_bind]. rewrite colon_skip. cbn iota. rewrite Hv.
    cbn [mbind option_bind]. rewrite ends_skip by done. cbn iota. subst tail.
    change (print_member m' :: map print_member ms) with (map print_member (m' :: ms)) in *.
    by rewrite IH by (done || lia).
Qed.

Lemma print_map ms : print_json (SMap ms) = "{" +:+ str_join "," (map print_member ms) +:+ "}".
Proof. reflexivity. Qed.

Lemma read_print_value t : reads t.
Proof.
  induction t as [|b|z|x|s|l IH|ms IH] using Tree_nested_ind; intros Ho fuel rest He Hf;
    (destruct fuel as [|fuel]; [lia|]).
  - by cbn.
  - by destruct b.
  - pose proof (read_print_int z rest Ho He) as Hr. cbn [print_json].
    destruct (pretty_first z) as (c & s & Hp & Hc). rewrite Hp in *. cbn [String.append] in *.
    by rewrite read_value_number.
  - discriminate.
  - cbn [print_json] in *. pose proof (read_print_string s rest) as Hs.
    destruct (print_string s +:+ rest) as [|c s1] eqn:E; [done|]. destruct Hs as [-> Hs].
    change (read_value id (S fuel) (String quote s1))
      with ('(t, rest) ← read_string s1; Some (SStr t, rest)).
    by rewrite Hs.
  - cbn [print_json tree_ok] in *. destruct l as [|t l]; [done|].
    rewrite !str_length_app in Hf. cbn [String.length] in Hf.
    rewrite !str_app_assoc. rewrite str_app_cons. change ("" +:+ ?s) with s.
    change ("]" +:+ rest) with (String "]" rest).
    set (text := str_join "," (map print_json (t :: l)) +:+ String "]" rest).
    assert (Hr : read_items id fuel text = Some (t :: l, rest))
      by (apply read_print_items; done || lia).
    destruct (print_first t) as (c & s & Hp & Hc); [cbn [forallb] in Ho; by breflect|].
    assert (Hc' : exists s', text = String c s').
    { subst text. destruct l; cbn [map]; unfold str_join; cbn [String.concat]; rewrite Hp; by eexists. }
    destruct Hc' as [s' Hs']. rewrite Hs' in *. clear text Hs'.
    rewrite read_value_seq by done. by rewrite Hr.
  - rewrite print_map in *. cbn [tree_ok] in Ho. destruct ms as [|[k t] ms]; [done|].
    rewrite !str_length_app in Hf. cbn [String.length] in Hf.
    rewrite !str_app_assoc. rewrite str_app_cons. change ("" +:+ ?s) with s.
    change ("}" +:+ rest) with (String "}" rest).
    set (text := str_join "," (map print_member ((k, t) :: ms)) +:+ String "}" rest).
    assert (Hr : read_members id fuel text = Some ((k, t) :: ms, rest))
      by (apply read_print_members; done || lia).
    assert (Hc' : exists s', text = String quote s').
    { subst text. destruct ms; cbn [map]; unfold str_join; cbn [String.concat]; by eexists. }
    destruct Hc' as [s' Hs']. rewrite Hs' in *. clear text Hs'.
    rewrite read_value_map. by rewrite Hr.
Qed.

Lemma json_round_trip t : tree_ok t = true -> read_json id (print_json t) = Some t.
Proof.
  intros Ho. unfold read_json. rewrite <- (str_app_nil_r (print_json t)) at 2.
  rewrite read_print_value by (done || lia). done.
Qed.
