(* ===== verification/Wire.v ===== *)
(** * Requests on the wire ([src/src/proxy/types.rs], the derived impls)

    How a request is read from the client's JSON and written to the provider's: the fields the
    proxy knows, and the others, which it keeps in [extra].  [serde_json]'s own conversions
    between JSON and [Value] are the class [JsonValue]. *)

From S2P Require Import Prelude Machine RustStr Types Serde JsonCodec.

(** ** Numbers *)

(** [x as f32]: rounded to the nearest. *)
Definition f64_as_f32 (x : f64) : f32 :=
  match x with
  | SpecFloat.S754_finite s m e =>
      SpecFloat.binary_normalize 24 128 (if s then Zneg m else Zpos m) e s
  | _ => x
  end.

(** A finite float of 32 bits. *)
Definition f32_ok (x : f32) : Prop := f64_as_f32 x = x /\ f64_is_finite x = true.

(** [JsonValue]: the tree [serde_json] reads for what it writes of an [f32] (the shortest
    decimal that reads back), and its conversions of [Value]. *)
Class JsonValue `{SerdeJson} := {
  f32_text : f32 -> f64;
  to_value : Tree -> Value;
  of_value : Value -> Tree;
  f32_reads_back : forall x, f32_ok x -> f64_as_f32 (f32_text x) = x;
  value_reads_back : forall v, to_value (of_value v) = v;
}.

Section Wire.
Context `{JsonValue}.
#[local] Existing Instance JsonFormat.

Definition de_f32 (t : Tree) : option f32 :=
  match t with
  | SFloat x => Some (f64_as_f32 x)
  | SInt z => Some (SpecFloat.binary_normalize 24 128 z 0 false)
  | _ => None
  end.

(** A float that is not finite is written as [null]. *)
Definition ser_f32 (x : f32) : Tree := if f64_is_finite x then SFloat (f32_text x) else SNull.

(** ** Untagged enums: the first variant that reads the tree *)

Definition de_content (t : Tree) : option MessageContent :=
  match de_string t with
  | Some s => Some (Text s)
  | None => Parts <$> de_vec (Some ∘ to_value) t
  end.
Definition ser_content (c : MessageContent) : Tree :=
  match c with Text s => SStr s | Parts parts => ser_vec of_value parts end.

Definition de_stop (t : Tree) : option StopSequence :=
  match de_string t with
  | Some s => Some (Single s)
  | None => Multiple <$> de_vec de_string t
  end.
Definition ser_stop (s : StopSequence) : Tree :=
  match s with Single s => SStr s | Multiple l => ser_vec SStr l end.

(** ** Structs *)

Definition de_stream_options (t : Tree) : option StreamOptions :=
  slots ← struct_slots ["include_usage"] t;
  match slots with
  | [u] => u ← optional de_bool u; Some {| include_usage := u |}
  | _ => None
  end.
Definition ser_stream_options (o : StreamOptions) : Tree :=
  SMap (members [("include_usage", SBool <$> include_usage o)]).

(** The members that are not declared, as a [Map]. *)
Definition de_extra (ms : list (string * Tree)) : list (string * Value) :=
  map_of (map (fun '(k, t) => (k, to_value t)) ms).
Definition ser_extra (l : list (string * Value)) : list (string * Tree) :=
  map (fun '(k, v) => (k, of_value v)) l.

Definition message_fields : list string := ["role"; "content"; "name"].

Definition de_message (t : Tree) : option Message :=
  '(slots, rest) ← flatten_slots message_fields t;
  match slots with
  | [role; content; name] =>
      role ← required de_string role;
      content ← defaulted MessageContent_default de_content content;
      name ← optional de_string name;
      Some {| m_role := role; m_content := content; m_name := name; m_extra := de_extra rest |}
  | _ => None
  end.

Definition message_members (m : Message) : list (string * option Tree) :=
  [("role", Some (SStr (m_role m))); ("content", Some (ser_content (m_content m)));
   ("name", SStr <$> m_name m)].

Definition ser_message (m : Message) : Tree :=
  SMap (members (message_members m) ++ ser_extra (m_extra m)).

Definition request_fields : list string :=
  ["model"; "messages"; "temperature"; "max_tokens"; "stream"; "stream_options"; "top_p";
   "frequency_penalty"; "presence_penalty"; "stop"; "user"].

Definition de_request (t : Tree) : option ChatCompletionRequest :=
  '(slots, rest) ← flatten_slots request_fields t;
  match slots with
  | [model; messages; temperature; max_tokens; stream; stream_options; top_p;
     frequency_penalty; presence_penalty; stop; user] =>
      model ← required de_string model;
      messages ← required (de_vec de_message) messages;
      temperature ← optional de_f32 temperature;
      max_tokens ← optional de_u32 max_tokens;
      stream ← optional de_bool stream;
      stream_options ← optional de_stream_options stream_options;
      top_p ← optional de_f32 top_p;
      frequency_penalty ← optional de_f32 frequency_penalty;
      presence_penalty ← optional de_f32 presence_penalty;
      stop ← optional de_stop stop;
      user ← optional de_string user;
      Some {| model := model; messages := messages; temperature := temperature;
              max_tokens := max_tokens; stream := stream; stream_options := stream_options;
              top_p := top_p; frequency_penalty := frequency_penalty;
              presence_penalty := presence_penalty; stop := stop; user := user;
              extra := de_extra rest |}
  | _ => None
  end.

Definition request_members (r : ChatCompletionRequest) : list (string * option Tree) :=
  [("model", Some (SStr (model r))); ("messages", Some (ser_vec ser_message (messages r)));
   ("temperature", ser_f32 <$> temperature r); ("max_tokens", SInt <$> max_tokens r);
   ("stream", SBool <$> stream r); ("stream_options", ser_stream_options <$> stream_options r);
   ("top_p", ser_f32 <$> top_p r); ("frequency_penalty", ser_f32 <$> frequency_penalty r);
   ("presence_penalty", ser_f32 <$> presence_penalty r); ("stop", ser_stop <$> stop r);
   ("user", SStr <$> user r)].

Definition ser_request (r : ChatCompletionRequest) : Tree :=
  SMap (members (request_members r) ++ ser_extra (extra r)).

(** [request_body] of [send_to_provider]. *)
Definition forwarded (is_streaming : bool) (r : ChatCompletionRequest) : ChatCompletionRequest :=
  if is_streaming then ensure_stream_options r else r.

(** ** What is read back *)

(** [extra] holds members that are not declared, as a map. *)
Definition extra_wf (fields : list string) (l : list (string * Value)) : Prop :=
  is_map l /\ Forall (fun m => ~ In (fst m) fields) l.

Definition message_wf (m : Message) : Prop := extra_wf message_fields (m_extra m).

Definition f32s_ok (o : option f32) : Prop := from_option f32_ok True o.

Record request_wf (r : ChatCompletionRequest) : Prop := {
  wf_messages : Forall message_wf (messages r);
  wf_max_tokens : from_option in_u32 True (max_tokens r);
  wf_temperature : f32s_ok (temperature r);
  wf_top_p : f32s_ok (top_p r);
  wf_frequency_penalty : f32s_ok (frequency_penalty r);
  wf_presence_penalty : f32s_ok (presence_penalty r);
  wf_extra : extra_wf request_fields (extra r);
}.

Lemma inverts_f32 : inverts de_f32 ser_f32 f32_ok.
Proof. intros x Hx. unfold ser_f32. rewrite (proj2 Hx). simpl. by rewrite f32_reads_back. Qed.

Lemma ser_f32_some x : f32_ok x -> ser_f32 x <> SNull.
Proof. intros [_ Hf]. unfold ser_f32. by rewrite Hf. Qed.

Lemma inverts_values : inverts (de_vec (Some ∘ to_value)) (ser_vec of_value) (fun _ => True).
Proof.
  intros l _. apply (inverts_vec _ of_value (fun _ => True)); [|by apply List.Forall_forall].
  intros v _. simpl. by rewrite value_reads_back.
Qed.

Lemma inverts_content : inverts de_content ser_content (fun _ => True).
Proof.
  intros [s|l] _; [done|].
  change (Parts <$> de_vec (Some ∘ to_value) (ser_vec of_value l) = Some (Parts l)).
  by rewrite (inverts_values l I).
Qed.

Lemma inverts_stop : inverts de_stop ser_stop (fun _ => True).
Proof.
  intros [s|l] _; [done|].
  change (Multiple <$> de_vec de_string (ser_vec SStr l) = Some (Multiple l)).
  rewrite (inverts_vec _ _ _ inverts_string l) by (by apply List.Forall_forall). done.
Qed.

Lemma ser_stop_some s : ser_stop s <> SNull.
Proof. by destruct s. Qed.

Lemma inverts_stream_options : inverts de_stream_options ser_stream_options (fun _ => True).
Proof. by intros [[u|]] _. Qed.

Lemma ser_extra_keys fields l :
  Forall (fun m => ~ In (fst m) fields) l -> Forall (fun m => ~ In (fst m) fields) (ser_extra l).
Proof. intros HF. unfold ser_extra. apply List.Forall_map. eapply List.Forall_impl; [|exact HF]. by intros []. Qed.

Lemma de_ser_extra l : is_map l -> de_extra (ser_extra l) = l.
Proof.
  intros Hm. unfold de_extra, ser_extra. rewrite map_map.
  rewrite (map_ext _ id); [by rewrite map_id, map_of_map|].
  intros [k v]. simpl. by rewrite value_reads_back.
Qed.

#[local] Hint Resolve inverts_f32 ser_f32_some inverts_content inverts_stop ser_stop_some
  inverts_stream_options : serde.

(** The key of every written field is its declared name, and they differ. *)
Ltac no_dup_names := repeat (constructor; [simpl; intuition discriminate|]); constructor.

Lemma request_fields_NoDup : List.NoDup request_fields.
Proof. unfold request_fields. no_dup_names. Qed.

Lemma inverts_message : inverts de_message ser_message message_wf.
Proof.
  intros m [Hm Hk]. unfold de_message, ser_message.
  change message_fields with (map fst (message_members m)).
  rewrite flatten_members; [|no_dup_names|by apply ser_extra_keys].
  cbn [mbind option_bind map message_members snd slot_of required defaulted de_string].
  rewrite (inverts_content _ I). cbn [mbind option_bind].
  rewrite (optional_slot de_string SStr (fun _ => True)) by (done || by destruct (m_name m)).
  cbn [mbind option_bind]. rewrite de_ser_extra by done. by destruct m.
Qed.

Lemma optional_written {A} (de : Tree -> option A) ser o :
  inverts de ser (fun _ => True) -> (forall x, ser x <> SNull) ->
  optional de (slot_of (ser <$> o)) = Some o.
Proof. intros Hi Hn. apply (optional_slot de ser (fun _ => True)); auto. by destruct o. Qed.

(** C33: the provider reads the request the proxy holds: what is written of a request, with its
    absent fields left out and [extra] flattened among the declared fields, reads back as that
    request. *)
Theorem request_round_trip (r : ChatCompletionRequest) :
  request_wf r -> de_request (ser_request r) = Some r.
Proof.
  intros Hw. unfold de_request, ser_request.
  change request_fields with (map fst (request_members r)).
  rewrite flatten_members; [|no_dup_names|apply ser_extra_keys, (wf_extra r Hw)].
  cbn [mbind option_bind map request_members snd].
  cbn [required slot_of de_string mbind option_bind].
  rewrite (inverts_vec _ _ _ inverts_message _ (wf_messages r Hw)). cbn [mbind option_bind].
  fold (slot_of (ser_f32 <$> temperature r)).
  rewrite !(optional_slot de_f32 ser_f32 f32_ok) by (apply Hw || auto with serde).
  rewrite (optional_slot de_u32 SInt in_u32) by (apply Hw || done || apply inverts_uint).
  rewrite !optional_written by (done || auto with serde). cbn [mbind option_bind].
  rewrite de_ser_extra by apply (wf_extra r Hw). by destruct r.
Qed.

(** ** What the provider gets *)

(** The values of a member of an object. *)
Definition tree_values (k : string) (t : Tree) : list Tree :=
  match t with SMap ms => values_of k ms | _ => [] end.

Definition not_nullb (t : Tree) : bool := match t with SNull => false | _ => true end.

(** A declared member is sent when the client gave it a value other than [null], as [f] of
    that value. *)
Definition sent_as (f : Tree -> Tree) (k : string) (t t' : Tree) : Prop :=
  tree_values k t' = map f (List.filter not_nullb (tree_values k t)).

(** A number is sent as the [f32] it rounds to. *)
Definition f32_sent (t : Tree) : Tree := from_option ser_f32 t (de_f32 t).

(** The parts of a content go through [Value]. *)
Definition content_sent (t : Tree) : Tree :=
  match t with SSeq l => SSeq (map (fun t => of_value (to_value t)) l) | _ => t end.

(** What the client's [stream_options] say of [include_usage]. *)
Definition asks_usage (t : Tree) : option bool := o ← de_stream_options t; include_usage o.

(** The [stream_options] of the body: without a word of the client's a streamed request asks
    for the usage. *)
Definition options_sent (is_streaming : bool) (client : list Tree) : list Tree :=
  let given := List.filter not_nullb client in
  if is_streaming then
    [SMap [("include_usage", SBool (default true (t ← hd_error given; asks_usage t)))]]
  else map (fun t => SMap (ser_some "include_usage" SBool (asks_usage t))) given.

(** The members of [t] that are not declared are those of [t']: each once, the last of equal
    ones, as [serde_json]'s [Value] gives it back. *)
Definition carried (fields : list string) (t t' : Tree) : Prop :=
  forall k, ~ In k fields ->
    tree_values k t' = match list.last (tree_values k t) with
                       | Some x => [of_value (to_value x)]
                       | None => []
                       end.

(** The message [t'] of the body is the client's message [t]. *)
Record message_sent (t t' : Tree) : Prop := {
  ms_same : forall k, In k ["role"; "name"] -> sent_as id k t t';
  ms_content : tree_values "content" t' = match tree_values "content" t with
                                          | [] => [SStr ""]
                                          | ts => map content_sent ts
                                          end;
  ms_others : carried message_fields t t';
}.

(** The body [t'] is the client's request [t], member by member. *)
Record request_sent (is_streaming : bool) (t t' : Tree) : Prop := {
  sent_same : forall k, In k ["model"; "max_tokens"; "stream"; "stop"; "user"] -> sent_as id k t t';
  sent_floats : forall k, In k ["temperature"; "top_p"; "frequency_penalty"; "presence_penalty"] ->
    sent_as f32_sent k t t';
  sent_messages : exists ts ts', tree_values "messages" t = [SSeq ts] /\
    tree_values "messages" t' = [SSeq ts'] /\ Forall2 message_sent ts ts';
  sent_options : tree_values "stream_options" t'
    = options_sent is_streaming (tree_values "stream_options" t);
  sent_others : carried request_fields t t';
}.

Lemma values_of_map {V W} (f : V -> W) k (l : list (string * V)) :
  values_of k (map (fun '(k, v) => (k, f v)) l) = map f (values_of k l).
Proof.
  unfold values_of. induction l as [|[k' v] l IH]; [done|]. simpl.
  destruct (String.eqb k' k); simpl; by rewrite IH.
Qed.

Lemma values_of_undeclared fields k (ms : list (string * Tree)) :
  ~ In k fields ->
  values_of k (List.filter (fun m => negb (existsb (String.eqb (fst m)) fields)) ms)
  = values_of k ms.
Proof.
  intros Hn. unfold values_of. f_equal. induction ms as [|[k' t] ms IH]; [done|].
  cbn [List.filter fst]. destruct (existsb (String.eqb k') fields) eqn:E; cbn [negb List.filter fst].
  - rewrite IH. destruct (String.eqb_spec k' k) as [->|]; [|done].
    apply existsb_exists in E as (x & Hx & He). apply String.eqb_eq in He. by subst.
  - by rewrite IH.
Qed.

Definition slot_values (s : Slot) : list Tree := match s with Given t => [t] | _ => [] end.

Lemma map_slot_values ms k s : map_slot ms k = Some s -> values_of k ms = slot_values s.
Proof.
  unfold map_slot, values_of. destruct (List.filter _ ms) as [|[k' t'] [|]]; try discriminate;
    by intros [= <-].
Qed.

Lemma flatten_slot fields t slots rest i k s :
  flatten_slots fields t = Some (slots, rest) -> fields !! i = Some k -> slots !! i = Some s ->
  exists ms, t = SMap ms /\ map_slot ms k = Some s.
Proof.
  intros Hs Hk Hi. destruct t as [| | | | | |ms]; try discriminate. unfold flatten_slots in Hs.
  destruct (mapM (map_slot ms) fields) as [slots'|] eqn:E; [|discriminate].
  injection Hs as -> _. exists ms. split; [done|]. apply mapM_Some in E.
  by apply (Forall2_lookup_lr _ _ _ _ _ _ E Hk Hi).
Qed.

(** What [flatten] read of a declared field, and what a struct writes of it. *)
Section Flattened.
Context (fs : list (string * option Tree)) (t : Tree) (rest : list (string * Tree)) (slots : list Slot).
Context (Hread : flatten_slots (map fst fs) t = Some (slots, rest)).
Let body : Tree := SMap (members fs ++ ser_extra (de_extra rest)).

Lemma carried_members : carried (map fst fs) t body.
Proof.
  intros k Hn. destruct t as [| | | | | |ms]; try discriminate. unfold flatten_slots in Hread.
  destruct (mapM (map_slot ms) _); [|discriminate]. injection Hread as _ <-.
  unfold body. cbn [tree_values]. rewrite values_of_app, values_of_none by (by apply members_other).
  unfold ser_extra, de_extra. rewrite app_nil_l, values_of_map, values_of_map_of, values_of_map.
  rewrite values_of_undeclared by done.
  change (map to_value (values_of k ms)) with (to_value <$> values_of k ms). rewrite fmap_last.
  by destruct (list.last (values_of k ms)).
Qed.

Context (Hnd : List.NoDup (map fst fs)).

(** A declared field is written once, or not at all. *)
Lemma declared_member k o : In (k, o) fs -> tree_values k body = slot_values (slot_of o).
Proof.
  intros Hi. assert (Hk : In k (map fst fs)) by (by apply (in_map fst) in Hi).
  unfold body. cbn [tree_values].
  rewrite values_of_app, (map_slot_values _ _ _ (map_slot_members fs k o Hnd Hi)).
  destruct t as [| | | | | |ms]; try discriminate. unfold flatten_slots in Hread.
  destruct (mapM (map_slot ms) _); [|discriminate]. injection Hread as _ <-.
  unfold ser_extra, de_extra. rewrite values_of_map, values_of_map_of, values_of_map.
  rewrite (values_of_none k (List.filter _ ms)); [by rewrite app_nil_r|].
  apply List.Forall_forall. intros m Hm Hmk. apply filter_In in Hm as [_ Hm].
  rewrite (proj2 (existsb_exists _ _)) in Hm; [done|]. exists k. by rewrite Hmk, String.eqb_refl.
Qed.

Lemma slot_read i k s :
  map fst fs !! i = Some k -> slots !! i = Some s -> tree_values k t = slot_values s.
Proof.
  intros Hk Hi. destruct (flatten_slot _ _ _ _ _ _ _ Hread Hk Hi) as (ms & -> & Hm).
  by apply map_slot_values.
Qed.

Lemma optional_sent {A} (de : Tree -> option A) (ser : A -> Tree) (f : Tree -> Tree) i k s o :
  map fst fs !! i = Some k -> slots !! i = Some s -> optional de s = Some o ->
  In (k, ser <$> o) fs -> (forall x a, de x = Some a -> f x = ser a) ->
  sent_as f k t body.
Proof.
  intros Hk Hi Ho Hm Hf. unfold sent_as. rewrite (declared_member k _ Hm), (slot_read i k s Hk Hi).
  destruct s as [x| |]; cbn in Ho; [|by injection Ho as <-|discriminate].
  unfold de_opt in Ho. destruct x; [by injection Ho as <-|..];
    (destruct (de _) as [a|] eqn:E; [|discriminate]; injection Ho as <-; cbn; by rewrite (Hf _ _ E)).
Qed.

Lemma required_sent {A} (de : Tree -> option A) (ser : A -> Tree) (f : Tree -> Tree) i k s a :
  map fst fs !! i = Some k -> slots !! i = Some s -> required de s = Some a ->
  In (k, Some (ser a)) fs -> de SNull = None -> (forall x a, de x = Some a -> f x = ser a) ->
  sent_as f k t body.
Proof.
  intros Hk Hi Ha Hm Hn Hf. destruct s as [x| |]; try discriminate.
  apply (optional_sent de ser f i k (Given x) (Some a)); try done.
  cbn in *. unfold de_opt. destruct x; [congruence|by rewrite Ha..].
Qed.

End Flattened.

(** *** What is read of a value is written as it was *)

Lemma string_as_read x s : de_string x = Some s -> id x = SStr s.
Proof. destruct x; try discriminate. by intros [= ->]. Qed.
Lemma bool_as_read x b : de_bool x = Some b -> id x = SBool b.
Proof. destruct x; try discriminate. by intros [= ->]. Qed.
Lemma u32_as_read x z : de_u32 x = Some z -> id x = SInt z.
Proof.
  destruct x as [| |z'| | | |]; try discriminate. unfold de_u32, de_uint.
  destruct (_ && _); [|discriminate]. by intros [= ->].
Qed.
Lemma f32_as_read x v : de_f32 x = Some v -> f32_sent x = ser_f32 v.
Proof. unfold f32_sent. by intros ->. Qed.

Lemma strings_as_read l ss : mapM de_string l = Some ss -> map SStr ss = l.
Proof.
  intros Hm. apply mapM_Some in Hm. induction Hm as [|x s l ss Hx _ IH]; [done|]. cbn.
  by rewrite IH, <- (string_as_read _ _ Hx).
Qed.

Lemma stop_as_read x s : de_stop x = Some s -> id x = ser_stop s.
Proof.
  unfold de_stop. destruct x as [| | | |u|l|]; try discriminate; [by intros [= <-]|]. cbn [de_string de_vec].
  destruct (mapM de_string l) as [ss|] eqn:E; [|discriminate]. intros [= <-].
  cbn. unfold ser_vec. by rewrite (strings_as_read _ _ E).
Qed.

Lemma content_as_read x c : de_content x = Some c -> content_sent x = ser_content c.
Proof.
  unfold de_content. destruct x as [| | | |u|l|]; try discriminate; [by intros [= <-]|]. cbn [de_string de_vec].
  destruct (mapM _ l) as [vs|] eqn:E; [|discriminate]. intros [= <-]. cbn. unfold ser_vec. f_equal.
  apply mapM_Some in E. induction E as [|x v l vs Hx _ IH]; [done|]. cbn. by injection Hx as <-; rewrite IH.
Qed.

#[local] Hint Resolve string_as_read bool_as_read u32_as_read f32_as_read stop_as_read content_as_read : serde.

(** [inv_bind H] splits a hypothesis that a sequence of reads succeeded. *)
Ltac inv_bind H :=
  repeat (let x := fresh "x" in let E := fresh "E" in
          apply bind_Some in H; destruct H as (x & E & H)).

(** [in_list] proves that an explicit list has a member. *)
Ltac in_list := repeat first [left; reflexivity | right].

(** [sent i] proves that the declared field of index [i] is sent as it was read. *)
Ltac sent Hs n :=
  let side := first [solve [no_dup_names] | reflexivity | eassumption | solve [in_list] | solve [auto with serde]] in
  first [solve [eapply (optional_sent _ _ _ _ Hs) with (i := n); side]
        |solve [eapply (required_sent _ _ _ _ Hs) with (i := n); side]].

Lemma de_message_sent t m : de_message t = Some m -> message_sent t (ser_message m).
Proof.
  unfold de_message. intros Hd. apply bind_Some in Hd as ([slots rest] & Hs & Hd).
  destruct slots as [|role [|content [|name [|]]]]; try discriminate. inv_bind Hd.
  injection Hd as Hm. change message_fields with (map fst (message_members m)) in Hs.
  replace (ser_message m) with (SMap (members (message_members m) ++ ser_extra (de_extra rest)))
    by (by subst m).
  split; [| |exact (carried_members _ _ _ _ Hs)]; subst m.
  - intros k Hk. repeat (destruct Hk as [<-|Hk]); [..|done].
    + sent Hs 0%nat.
    + sent Hs 2%nat.
  - rewrite (declared_member _ _ _ _ Hs) with (o := Some (ser_content x0));
      [|no_dup_names|in_list].
    rewrite (slot_read _ _ _ _ Hs 1 "content" content) by done.
    destruct content as [c| |]; cbn in *; [|by injection E0 as <-..].
    by rewrite (content_as_read _ _ E0).
Qed.

Lemma forwarded_options is_streaming r :
  forwarded is_streaming r
  = with_stream_options r (if is_streaming
      then Some {| include_usage := Some (default true (o ← stream_options r; include_usage o)) |}
      else stream_options r).
Proof.
  destruct is_streaming; cbn; [|by destruct r]. unfold ensure_stream_options.
  destruct (stream_options r) as [[[u|]]|] eqn:E; cbn; [|done..].
  unfold with_stream_options. rewrite <- E. by destruct r.
Qed.

Lemma options_as_read (is_streaming : bool) s (o : option StreamOptions) : optional de_stream_options s = Some o ->
  slot_values (slot_of (ser_stream_options <$> (if is_streaming
    then Some {| include_usage := Some (default true (o ← o; include_usage o)) |} else o)))
  = options_sent is_streaming (slot_values s).
Proof.
  assert (Hd : forall t x, de_stream_options t = Some x -> asks_usage t = include_usage x)
    by (by intros t x Hx; unfold asks_usage; rewrite Hx).
  intros Ho. destruct s as [t| |]; cbn in Ho; [|injection Ho as <-; by destruct is_streaming|discriminate].
  unfold options_sent. cbn [slot_values List.filter].
  assert (Hc : t = SNull /\ o = None \/ not_nullb t = true /\ o = de_stream_options t /\ is_Some o).
  { destruct t; [left; by injection Ho as <-|right..]; unfold de_opt in Ho;
      (destruct (de_stream_options _); [|discriminate]; injection Ho as <-; eauto). }
  destruct Hc as [[-> ->]|(-> & -> & [so E])]; [by destruct is_streaming|]. rewrite E.
  destruct is_streaming; cbn [hd_error map mbind option_bind]; rewrite (Hd _ _ E); [done|].
  by destruct so as [[]].
Qed.


(** ** What is refused *)

(** A message whose content is [null], as assistant messages that call tools have it. *)
Lemma de_message_null ms : values_of "content" ms = [SNull] -> de_message (SMap ms) = None.
Proof.
  intros Hv. unfold de_message. destruct (flatten_slots _ _) as [[slots rest]|] eqn:Hs; [|done].
  cbn [mbind option_bind]. destruct slots as [|role [|content [|name [|]]]]; try done.
  destruct (flatten_slot _ _ _ _ 1 "content" content Hs eq_refl eq_refl) as (ms' & [= <-] & Hsl).
  assert (content = Given SNull) as ->.
  { unfold map_slot, values_of in *. destruct (List.filter _ ms) as [|[k' t'] [|]]; try discriminate.
    injection Hv as ->. by injection Hsl as <-. }
  by destruct (required de_string role).
Qed.

(** C34: A request with such a message is refused, whatever else it holds. *)
Theorem null_content_is_refused (ms : list (string * Tree)) (before after : list Tree)
    (message : list (string * Tree)) :
  values_of "messages" ms = [SSeq (before ++ SMap message :: after)] ->
  values_of "content" message = [SNull] ->
  de_request (SMap ms) = None.
Proof.
  intros Hm Hc. unfold de_request. destruct (flatten_slots _ _) as [[slots rest]|] eqn:Hs; [|done].
  cbn [mbind option_bind]. destruct slots as [|s0 [|s1 slots]]; try done.
  destruct (flatten_slot _ _ _ _ 1 "messages" s1 Hs eq_refl eq_refl) as (ms' & [= <-] & Hsl).
  assert (s1 = Given (SSeq (before ++ SMap message :: after))) as ->.
  { unfold map_slot, values_of in *. destruct (List.filter _ ms) as [|[k' t'] [|]]; try discriminate.
    injection Hm as ->. by injection Hsl as <-. }
  assert (Hn : mapM de_message (before ++ SMap message :: after) = None).
  { apply mapM_None, Exists_app. right. left. by apply de_message_null. }
  destruct slots as [|? [|? [|? [|? [|? [|? [|? [|? [|? [|]]]]]]]]]]; try done.
  destruct (required de_string s0); [|done]. cbn [mbind option_bind required de_vec]. by rewrite Hn.
Qed.

(** A message without content is written with an empty one. *)
Lemma absent_content_is_written ms m :
  de_message (SMap ms) = Some m -> values_of "content" ms = [] ->
  tree_values "content" (ser_message m) = [SStr ""].
Proof.
  intros Hd Hv. rewrite (ms_content _ _ (de_message_sent _ _ Hd)). cbn [tree_values]. by rewrite Hv.
Qed.

(** ** Responses

    Declared for the API; the proxy passes bodies through. *)

Record Usage := { ug_prompt_tokens : Z; ug_completion_tokens : Z; ug_total_tokens : Z }.

Definition usage_fields : list string := ["prompt_tokens"; "completion_tokens"; "total_tokens"].

Definition de_usage (t : Tree) : option Usage :=
  slots ← struct_slots usage_fields t;
  match slots with
  | [p; c; n] =>
      p ← required de_u32 p; c ← required de_u32 c; n ← required de_u32 n;
      Some {| ug_prompt_tokens := p; ug_completion_tokens := c; ug_total_tokens := n |}
  | _ => None
  end.
Definition usage_members (u : Usage) : list (string * option Tree) :=
  [("prompt_tokens", Some (SInt (ug_prompt_tokens u)));
   ("completion_tokens", Some (SInt (ug_completion_tokens u)));
   ("total_tokens", Some (SInt (ug_total_tokens u)))].
Definition ser_usage (u : Usage) : Tree := SMap (members (usage_members u)).

Record Choice := { ch_index : Z; ch_message : Message; ch_finish_reason : option string }.

Definition choice_fields : list string := ["index"; "message"; "finish_reason"].

Definition de_choice (t : Tree) : option Choice :=
  slots ← struct_slots choice_fields t;
  match slots with
  | [i; m; f] =>
      i ← required de_u32 i; m ← required de_message m; f ← optional de_string f;
      Some {| ch_index := i; ch_message := m; ch_finish_reason := f |}
  | _ => None
  end.
(** [finish_reason] is not skipped: [None] is [null]. *)
Definition choice_members (c : Choice) : list (string * option Tree) :=
  [("index", Some (SInt (ch_index c))); ("message", Some (ser_message (ch_message c)));
   ("finish_reason", Some (ser_opt SStr (ch_finish_reason c)))].
Definition ser_choice (c : Choice) : Tree := SMap (members (choice_members c)).

Record ChatCompletionResponse := {
  rp_id : string;
  rp_object : string;
  rp_created : Z;
  rp_model : string;
  rp_choices : list Choice;
  rp_usage : option Usage;
  rp_arbstr_provider : option string;
}.

Definition response_fields : list string :=
  ["id"; "object"; "created"; "model"; "choices"; "usage"; "arbstr_provider"].

Definition de_response (t : Tree) : option ChatCompletionResponse :=
  slots ← struct_slots response_fields t;
  match slots with
  | [id; object; created; model; choices; usage; provider] =>
      id ← required de_string id;
      object ← required de_string object;
      created ← required de_u64 created;
      model ← required de_string model;
      choices ← required (de_vec de_choice) choices;
      usage ← optional de_usage usage;
      provider ← optional de_string provider;
      Some {| rp_id := id; rp_object := object; rp_created := created; rp_model := model;
              rp_choices := choices; rp_usage := usage; rp_arbstr_provider := provider |}
  | _ => None
  end.
Definition response_members (r : ChatCompletionResponse) : list (string * option Tree) :=
  [("id", Some (SStr (rp_id r))); ("object", Some (SStr (rp_object r)));
   ("created", Some (SInt (rp_created r))); ("model", Some (SStr (rp_model r)));
   ("choices", Some (ser_vec ser_choice (rp_choices r))); ("usage", ser_usage <$> rp_usage r);
   ("arbstr_provider", SStr <$> rp_arbstr_provider r)].
Definition ser_response (r : ChatCompletionResponse) : Tree := SMap (members (response_members r)).

Record Delta := { dl_role : option string; dl_content : option string }.

Definition de_delta (t : Tree) : option Delta :=
  slots ← struct_slots ["role"; "content"] t;
  match slots with
  | [r; c] =>
      r ← optional de_string r; c ← optional de_string c;
      Some {| dl_role := r; dl_content := c |}
  | _ => None
  end.
Definition ser_delta (d : Delta) : Tree :=
  SMap (members [("role", SStr <$> dl_role d); ("content", SStr <$> dl_content d)]).

Record ChunkChoice := { cc_index : Z; cc_delta : Delta; cc_finish_reason : option string }.

Definition de_chunk_choice (t : Tree) : option ChunkChoice :=
  slots ← struct_slots ["index"; "delta"; "finish_reason"] t;
  match slots with
  | [i; d; f] =>
      i ← required de_u32 i; d ← required de_delta d; f ← optional de_string f;
      Some {| cc_index := i; cc_delta := d; cc_finish_reason := f |}
  | _ => None
  end.
Definition ser_chunk_choice (c : ChunkChoice) : Tree :=
  SMap (members [("index", Some (SInt (cc_index c))); ("delta", Some (ser_delta (cc_delta c)));
                 ("finish_reason", Some (ser_opt SStr (cc_finish_reason c)))]).

Record ChatCompletionChunk := {
  ck_id : string;
  ck_object : string;
  ck_created : Z;
  ck_model : string;
  ck_choices : list ChunkChoice;
}.

Definition de_chunk (t : Tree) : option ChatCompletionChunk :=
  slots ← struct_slots ["id"; "object"; "created"; "model"; "choices"] t;
  match slots with
  | [id; object; created; model; choices] =>
      id ← required de_string id;
      object ← required de_string object;
      created ← required de_u64 created;
      model ← required de_string model;
      choices ← required (de_vec de_chunk_choice) choices;
      Some {| ck_id := id; ck_object := object; ck_created := created; ck_model := model;
              ck_choices := choices |}
  | _ => None
  end.
Definition ser_chunk (c : ChatCompletionChunk) : Tree :=
  SMap (members [("id", Some (SStr (ck_id c))); ("object", Some (SStr (ck_object c)));
                 ("created", Some (SInt (ck_created c))); ("model", Some (SStr (ck_model c)));
                 ("choices", Some (ser_vec ser_chunk_choice (ck_choices c)))]).

End Wire.

(** The instance for [TextJson], whose values are trees. *)
Definition PlainValue : @JsonValue TextJson.
Proof.
  refine (@Build_JsonValue TextJson id id id _ _); [|done].
  intros x [Hx _]. exact Hx.
Defined.

(** ** Witnesses *)

Section WireWitnesses.
#[local] Existing Instances TextJson JsonFormat PlainValue.

(** A client's request with tools, and the message of a tool. *)
Definition tool_request : string := json
  "{'model':'gpt-4o','seed':7,'messages':[{'role':'user','content':'2+2?','weight':1},
    {'role':'tool','content':'4','tool_call_id':'c1'}],'tools':[{'type':'function'}],
    'max_tokens':50,'stop':['a','b'],'stream':true,'temperature':0.5,'seed':8}".

Definition forwarded_text (is_streaming : bool) (client : string) : option string :=
  t ← read_json id client; r ← de_request t;
  Some (print_json (ser_request (forwarded is_streaming r))).

Example tool_request_forwarded :
  forwarded_text true tool_request = Some (json (
    "{'model':'gpt-4o','messages':[{'role':'user','content':'2+2?','weight':1}," +:+
    "{'role':'tool','content':'4','tool_call_id':'c1'}],'temperature':0.5,'max_tokens':50," +:+
    "'stream':true,'stream_options':{'include_usage':true},'stop':['a','b']," +:+
    "'seed':8,'tools':[{'type':'function'}]}")).
Proof. vm_compute. reflexivity. Qed.

(** Unknown members are kept of a request and of a message, not of [stream_options]. *)
Example stream_options_forget_unknown_members :
  ser_stream_options <$> de_stream_options (SMap [("include_usage", SBool true);
                                                  ("include_obfuscation", SBool false)])
  = Some (SMap [("include_usage", SBool true)]).
Proof. reflexivity. Qed.

(** An assistant message that calls a tool, as the API has it. *)
Definition tool_call : list (string * Tree) :=
  [("role", SStr "assistant"); ("content", SNull);
   ("tool_calls", SSeq [SMap [("id", SStr "c1")]])].

Lemma null_content_is_refused_witness :
  de_request (SMap [("model", SStr "gpt-4o"); ("messages", SSeq [SMap tool_call])]) = None.
Proof. by apply (null_content_is_refused _ [] [] tool_call). Defined.

Definition client_request : Tree :=
  SMap [("model", SStr "gpt-4o"); ("seed", SInt 7); ("max_tokens", SInt 50); ("user", SNull);
        ("temperature", SFloat (f64_lit 1 2));
        ("messages", SSeq [SMap [("role", SStr "tool"); ("content", SStr "4");
                                 ("tool_call_id", SStr "c1")]])].


Definition request_ex : ChatCompletionRequest := {|
  model := "gpt-4o";
  messages := [{| m_role := "user"; m_content := Text "hi"; m_name := None;
                  m_extra := [("weight", SInt 1)] |}];
  temperature := Some (f64_as_f32 (f64_lit 1 2)); max_tokens := Some 50; stream := None;
  stream_options := None; top_p := None; frequency_penalty := None; presence_penalty := None;
  stop := Some (Multiple ["a"; "b"]); user := None;
  extra := [("seed", SInt 7); ("tools", SSeq [])];
|}.

Lemma request_round_trip_witness : de_request (ser_request request_ex) = Some request_ex.
Proof.
  apply request_round_trip. split; cbn.
  - constructor; [|done]. split; cbn; [repeat constructor|].
    repeat constructor. simpl. intuition discriminate.
  - unfold in_u32, U32_MAX. lia.
  - split; vm_compute; reflexivity.
  - done.
  - done.
  - done.
  - split; repeat constructor; simpl; intuition discriminate.
Defined.

End WireWitnesses.
