(* ===== verification/Testing.v ===== *)
(** * Running the unit tests of the sources

    A test is a [Timed] program, as an asynchronous Rust test is: its assertions panic, the
    paused clock of [tokio] moves when the test advances it, and a future that is never ready
    hangs the test.  A test passes when it runs to its end. *)

From S2P Require Import Prelude Machine Timed.

Declare Scope test_scope.
Delimit Scope test_scope with test.

(** [m; k] *)
Notation "m >>; k" := (t_bind m (fun _ => k))
  (at level 60, right associativity, format "'[v' m  '>>;' '/' k ']'") : test_scope.

Section Testing.
Context {S : Type}.

(** [assert!] *)
Definition assert (b : bool) : Timed S unit := if b then t_ret tt else t_panic.

(** [assert_eq!] and [assert_ne!] *)
Definition assert_eq {A} `{EqDecision A} (x y : A) : Timed S unit := assert (bool_decide (x = y)).
Definition assert_ne {A} `{EqDecision A} (x y : A) : Timed S unit := assert (bool_decide (x <> y)).

(** [Option::unwrap], [Result::unwrap], [Result::unwrap_err] *)
Definition opt_unwrap {A} (o : option A) : Timed S A :=
  match o with Some a => t_ret a | None => t_panic end.
Definition unwrap {A E} (r : result A E) : Timed S A :=
  match r with Ok a => t_ret a | Err _ => t_panic end.
Definition unwrap_err {A E} (r : result A E) : Timed S E :=
  match r with Ok _ => t_panic | Err e => t_ret e end.

Fixpoint t_for {A} (l : list A) (body : A -> Timed S unit) : Timed S unit :=
  match l with
  | [] => t_ret tt
  | x :: l' => let! _ := body x in t_for l' body
  end.

(** The test, started in [s], runs to its end. *)
Definition passes_from (s : S) (test : Timed S unit) : bool :=
  match fst (test None (0, s)) with Done _ => true | _ => false end.

End Testing.

Definition is_some {A} (o : option A) : bool := match o with Some _ => true | None => false end.
Definition is_none {A} (o : option A) : bool := negb (is_some o).
Definition is_ok {A E} (r : result A E) : bool := match r with Ok _ => true | Err _ => false end.
Definition is_err {A E} (r : result A E) : bool := negb (is_ok r).

(** [f64::EPSILON], and [(x - y).abs() < f64::EPSILON] *)
Definition f64_epsilon : f64 := f64_div f64_one (f64_of_Z (2 ^ 52)).
Definition f64_near (x y : f64) : bool := f64_ltb (SpecFloat.SFabs (f64_sub x y)) f64_epsilon.

(** A test that keeps its state in its own variables. *)
Abbreviation Test := (Timed unit unit).
Definition passes (test : Test) : bool := passes_from tt test.

Lemma passes_from_spec {S} (s : S) test :
  passes_from s test = true <-> exists st, test None (0, s) = (Done tt, st).
Proof.
  unfold passes_from. destruct (test None (0, s)) as [[[]| | |] st]; simpl;
    (split; [try discriminate; eauto|intros [? [=]]; done]).
Qed.

(** A test with a failing assertion does not pass. *)
Lemma failing_assert {S} (s : S) (k : unit -> Timed S unit) :
  passes_from s (t_bind (assert false) k) = false.
Proof. reflexivity. Qed.
