(* ===== verification/VaultJson.v ===== *)
(** * The vault's JSON ([src/src/proxy/vault.rs], the derived impls and [json!] bodies)

    The interface [VaultSerde] that [Vault] is proved against, discharged by the impls the
    program derives: how settle metadata is stored and read back, how a settle reply is read;
    and the bodies of the three calls.  [serde_json]'s text functions are the class
    [SerdeText], whose instance is the codec of [JsonCodec]. *)

From S2P Require Import Prelude Machine RustStr Timed Types Vault Serde JsonCodec JsonRoundTrip Wire.

(** [serde_json::to_string] and [from_str] between trees and text. *)
Class SerdeText := {
  text_of : Tree -> string;
  tree_of : string -> option Tree;
  text_reads_back : forall t, tree_ok t = true -> tree_of (text_of t) = Some t;
  empty_is_no_json : tree_of "" = None;
}.

#[export] Instance CodecText : SerdeText.
Proof.
  refine {| text_of := print_json; tree_of := read_json id |}; [exact json_round_trip|reflexivity].
Defined.

Section VaultJson.
#[local] Existing Instance JsonFormat.

Definition de_i64 (t : Tree) : option Z :=
  match t with
  | SInt z => if (- 2 ^ 63 <=? z)%Z && (z <? 2 ^ 63)%Z then Some z else None
  | _ => None
  end.

(** ** [SettleMetadata] *)

(** No field is skipped: [None] is [null]. *)
Definition metadata_members (m : SettleMetadata) : list (string * option Tree) :=
  [("tokens_in", Some (ser_opt SInt (tokens_in m)));
   ("tokens_out", Some (ser_opt SInt (tokens_out m)));
   ("provider", Some (SStr (sm_provider m))); ("latency_ms", Some (SInt (sm_latency_ms m)))].
Definition ser_metadata (m : SettleMetadata) : Tree := SMap (members (metadata_members m)).

Definition de_metadata (t : Tree) : option SettleMetadata :=
  slots ← struct_slots ["tokens_in"; "tokens_out"; "provider"; "latency_ms"] t;
  match slots with
  | [ti; to; p; l] =>
      ti ← optional de_u32 ti;
      to ← optional de_u32 to;
      p ← required de_string p;
      l ← required de_i64 l;
      Some {| tokens_in := ti; tokens_out := to; sm_provider := p; sm_latency_ms := l |}
  | _ => None
  end.

(** The integers are of the field's types. *)
Definition metadata_ok (m : SettleMetadata) : bool :=
  let ok_u32 o := match o with Some n => (0 <=? n)%Z && (n <=? U32_MAX)%Z | None => true end in
  ok_u32 (tokens_in m) && ok_u32 (tokens_out m)
  && (- 2 ^ 63 <=? sm_latency_ms m)%Z && (sm_latency_ms m <? 2 ^ 63)%Z.

Lemma inverts_metadata : inverts de_metadata ser_metadata (fun m => metadata_ok m = true).
Proof.
  intros [ti to p l]. unfold metadata_ok, ser_metadata, de_metadata. cbn [tokens_in tokens_out sm_provider sm_latency_ms].
  intros Ho. apply andb_true_iff in Ho as [Ho Hl2]. apply andb_true_iff in Ho as [Ho Hl1].
  apply andb_true_iff in Ho as [Hi Ho].
  destruct ti as [ti|], to as [to|]; cbn -[U32_MAX Z.pow];
    unfold de_u32, de_uint; rewrite ?Hi, ?Ho; cbn -[U32_MAX Z.pow];
    unfold de_i64; rewrite Hl1, Hl2; reflexivity.
Qed.

Lemma metadata_tree_ok m : metadata_ok m = true -> tree_ok (ser_metadata m) = true.
Proof.
  destruct m as [ti to p l]. unfold metadata_ok, ser_metadata, metadata_members.
  cbn [tokens_in tokens_out sm_provider sm_latency_ms]. unfold U32_MAX. intros Ho. breflect.
  assert (Hr : forall z, - 2 ^ 63 <= z < 2 ^ 63 -> tree_ok (SInt z) = true).
  { intros z Hz. cbn [tree_ok]. unfold U64_MAX.
    by rewrite (proj2 (Z.leb_le _ _)), (proj2 (Z.leb_le _ _)) by lia. }
  assert (Ho' : forall o, (match o with Some n => (0 <=? n)%Z && (n <=? 2 ^ 32 - 1)%Z | None => true end)
                = true -> tree_ok (ser_opt SInt o) = true).
  { intros [n|] Hn; [|done]. breflect. apply Hr. lia. }
  cbn [members flat_map ser_some app id]. cbn [tree_ok forallb snd].
  rewrite !Ho' by done. cbn [andb].
  change ((- 2 ^ 63 <=? l) && (l <=? U64_MAX))%bool with (tree_ok (SInt l)).
  by rewrite Hr by lia.
Qed.

(** ** [SettleResponse] *)

Definition de_settle_response (t : Tree) : option SettleResponse :=
  slots ← struct_slots ["settled"; "refunded_msats"] t;
  match slots with
  | [s; r] =>
      s ← required de_bool s; r ← optional de_u64 r;
      Some {| settled := s; refunded_msats := r |}
  | _ => None
  end.

(** ** The interface, discharged *)

Section Instance_.
Context `{JsonValue} `{SerdeText}.

(** [serde_json::to_string(&metadata)]: a value of the type has a text. *)
Definition metadata_text (m : SettleMetadata) : option string :=
  if metadata_ok m then Some (text_of (ser_metadata m)) else None.

(** [serde_json::from_str::<SettleMetadata>] *)
Definition metadata_of_text (s : string) : result SettleMetadata string :=
  match tree_of s with
  | Some t => ok_or (de_metadata t) "invalid metadata"
  | None => Err "invalid JSON"
  end.

Definition DerivedVaultSerde : VaultSerde.
Proof.
  refine {| settle_response_from_value := fun v =>
              ok_or (de_settle_response (of_value v)) "invalid settle response";
            metadata_to_string := metadata_text;
            metadata_from_str := metadata_of_text |}.
  - intros m s. unfold metadata_text, metadata_of_text. destruct (metadata_ok m) eqn:Ho; [|discriminate].
    intros [= <-]. rewrite text_reads_back by (by apply metadata_tree_ok).
    by rewrite (inverts_metadata m Ho).
  - intros m. unfold metadata_of_text. by rewrite empty_is_no_json.
Defined.

End Instance_.

(** ** The bodies *)

(** [json!]: an object is a map. *)
Definition json_object (ms : list (string * Tree)) : Tree := SMap (map_of ms).

(** The metadata inside a [json!]. *)
Definition metadata_value (m : SettleMetadata) : Tree := json_object (members (metadata_members m)).

Definition reserve_body (agent_token : string) (amount_msats : Z) (correlation_id model : string) : Tree :=
  json_object [("agent_token", SStr agent_token); ("amount_msats", SInt amount_msats);
               ("correlation_id", SStr correlation_id); ("model", SStr model)].

Definition settle_body (reservation_id : string) (actual_msats : Z) (metadata : SettleMetadata) : Tree :=
  json_object [("reservation_id", SStr reservation_id); ("actual_msats", SInt actual_msats);
               ("metadata", metadata_value metadata)].

Definition release_body (reservation_id reason : string) : Tree :=
  json_object [("reservation_id", SStr reservation_id); ("reason", SStr reason)].

(** What each call posts. *)
Definition vault_body (call : VaultCall) : Tree :=
  match call with
  | CallReserve agent_token amount_msats correlation_id model =>
      reserve_body agent_token amount_msats correlation_id model
  | CallSettle reservation_id actual_msats metadata =>
      settle_body reservation_id actual_msats metadata
  | CallRelease reservation_id reason => release_body reservation_id reason
  end.

(** Two calls with the same body are the same call. *)
Lemma vault_body_inj c1 c2 : vault_body c1 = vault_body c2 -> c1 = c2.
Proof.
  destruct c1 as [? ? ? ?|? ? [i1 o1 p1 l1]|? ?], c2 as [? ? ? ?|? ? [i2 o2 p2 l2]|? ?];
    cbn; intros Heq; try discriminate; injection Heq; intros; subst; try reflexivity.
  destruct i1, i2, o1, o2; simpl in *; congruence.
Qed.

Lemma inverts_metadata_value :
  inverts de_metadata metadata_value (fun m => metadata_ok m = true).
Proof.
  intros m Ho. rewrite <- (inverts_metadata m Ho). destruct m as [[ti|] [to|] p l]; reflexivity.
Qed.

(** ** What is stored is what is replayed *)

(** The settlement of a call, as the tasks of the handlers store it. *)
Definition settlement_of `{JsonValue} `{SerdeText} (call : VaultCall) : option PendingSettlement :=
  let serde := DerivedVaultSerde in
  match call with
  | CallSettle rid msats md => Some (settle_row rid msats md)
  | CallRelease rid reason => Some (release_row rid reason)
  | CallReserve _ _ _ _ => None
  end.

(** The values of the call are those of its types. *)
Definition call_ok (call : VaultCall) : Prop :=
  match call with
  | CallSettle _ msats md => in_u64 msats /\ metadata_ok md = true
  | _ => True
  end.

Lemma insert_row_new now s t :
  settlement_type s = "settle" \/ settlement_type s = "release" ->
  ~ In (ps_reservation_id s) (map row_reservation_id (rows t)) ->
  rows (insert_row now s t)
  = rows t ++ [mkRow (next_id t) (settlement_type s) (ps_reservation_id s)
                 (option_map as_i64 (amount_msats s)) (ps_metadata s) (now / secs 1) 0].
Proof.
  intros Hty Hin. unfold insert_row.
  assert (Ht : (String.eqb (settlement_type s) "settle" || String.eqb (settlement_type s) "release")%bool = true)
    by (destruct Hty as [-> | ->]; reflexivity).
  rewrite Ht. cbn [negb orb]. destruct (existsb _ _) eqn:E; [|done].
  apply existsb_exists in E as (r & Hr & Heq). apply String.eqb_eq in Heq.
  destruct Hin. rewrite <- Heq. by apply in_map.
Qed.

(** C19: a call the vault did not take survives storage.  The row inserted for a settle or a
    release resolves, when reconciliation reads it back, to that very call: the reservation,
    the amount (through the signed column) and the metadata (through its JSON text) are those
    of the first attempt, and so is the body that is posted. *)
Theorem stored_call_is_replayed `{JsonValue} `{SerdeText} (now : Instant) (call : VaultCall)
    (s : PendingSettlement) (t : PendingTable) :
  settlement_of call = Some s -> call_ok call ->
  ~ In (ps_reservation_id s) (map row_reservation_id (rows t)) ->
  let serde := DerivedVaultSerde in
  exists row, rows (insert_row now s t) = rows t ++ [row] /\ call_of row = Some call /\
    option_map vault_body (call_of row) = Some (vault_body call).
Proof.
  intros Hs Hok Hin serde. destruct call as [|rid msats md|rid reason]; [discriminate|..];
    injection Hs as <-.
  - destruct Hok as [Hm Hmd]. rewrite insert_row_new by (auto; by left).
    eexists. split; [reflexivity|].
    assert (Ht : metadata_text md = Some (text_of (ser_metadata md)))
      by (unfold metadata_text; by rewrite Hmd).
    assert (Hc : metadata_of_text (default "" (metadata_text md)) = Ok md).
    { rewrite Ht. by apply (@metadata_roundtrip _ DerivedVaultSerde). }
    assert (Hcall : call_of (mkRow (next_id t) "settle" rid (Some (as_i64 msats))
                               (default "" (metadata_text md)) (now / secs 1) 0)
                    = Some (CallSettle rid msats md)).
    { unfold call_of. cbn [row_type row_metadata row_reservation_id row_amount option_map default].
      change (String.eqb "settle" "settle") with true. cbn iota.
      change (metadata_from_str (default "" (metadata_text md)))
        with (metadata_of_text (default "" (metadata_text md))).
      rewrite Hc. by rewrite as_i64_u64 by done. }
    by setoid_rewrite Hcall.
  - rewrite insert_row_new by (auto; by right). by eexists.
Qed.

End VaultJson.

(** ** Examples *)

Section VaultJsonExamples.

#[local] Existing Instances TextJson CodecText PlainValue.

Lemma stored_call_is_replayed_witness :
  let md := {| tokens_in := Some 10; tokens_out := None; sm_provider := "alpha"; sm_latency_ms := 5 |} in
  let call := CallSettle "r1" U64_MAX md in
  let serde := DerivedVaultSerde in
  exists row, rows (insert_row (secs 9) (settle_row "r1" U64_MAX md) {| rows := []; next_id := 1 |}) = [row]
    /\ call_of row = Some call.
Proof.
  intros md call serde.
  destruct (stored_call_is_replayed (secs 9) call (settle_row "r1" U64_MAX md)
              {| rows := []; next_id := 1 |}) as (row & Hr & Hc & _).
  - reflexivity.
  - split; [unfold in_u64, U64_MAX; lia|reflexivity].
  - simpl. tauto.
  - exists row. split; [exact Hr|exact Hc].
Defined.

Example settle_body_text :
  print_json (vault_body (CallSettle "r1" 8000
    {| tokens_in := Some 10; tokens_out := None; sm_provider := "alpha"; sm_latency_ms := 5 |}))
  = json ("{'actual_msats':8000,'metadata':{'latency_ms':5,'provider':'alpha','tokens_in':10," +:+
          "'tokens_out':null},'reservation_id':'r1'}").
Proof. vm_compute. reflexivity. Qed.

(** Metadata as it is stored, read back. *)
Example stored_metadata :
  let m := {| tokens_in := Some 10; tokens_out := Some 20; sm_provider := "alpha"; sm_latency_ms := 5 |} in
  metadata_text m
  = Some (json "{'tokens_in':10,'tokens_out':20,'provider':'alpha','latency_ms':5}") /\
  match metadata_text m with Some s => metadata_of_text s = Ok m | None => False end.
Proof. split; vm_compute; reflexivity. Qed.

End VaultJsonExamples.
