(* ===== verification/Replies.v ===== *)
(** * Bodies of replies, and query strings
    ([src/src/proxy/{handlers,stats,logs,server}.rs], [src/src/error.rs])

    The JSON of every endpoint as the tree that is printed, whether it comes from a [json!]
    (an object is a sorted map) or from a derived [Serialize] (members in declared order);
    the parameters of the two listing endpoints as the derived readers take them from a query
    string.  Splitting and decoding a query string is the library's: here it is a list of
    pairs. *)

From S2P Require Import Prelude Machine RustStr Timed Config Errors Types Router Complexity.
From S2P Require Import CircuitBreaker Storage Vault Http Handlers Query Server Serde JsonCodec Wire VaultJson.

(** What is sent: a tree that is printed, a text as it is, or the channel of a stream. *)
Inductive Payload :=
| Json (t : Tree)
| RawText (s : string)
| Channel.

Record Reply := mkReply {
  rp_status : Z;
  rp_headers : gmap string string;
  rp_payload : Payload;
}.

(** [(status, Json(body)).into_response()] *)
Definition json_reply (status : Z) (t : Tree) : Reply :=
  mkReply status {[ "content-type" := "application/json" ]} (Json t).

(** ** Errors *)

Definition error_object (message type : string) (code : Tree) : Tree :=
  json_object [("error", json_object [("message", SStr message); ("type", SStr type); ("code", code)])].

Definition ser_error_body (e : ErrorBody) : Tree :=
  error_object (eb_message e) (eb_type e)
    (match eb_code e with inl status => SInt status | inr code => SStr code end).

(** The responses of the handlers, as they are sent. *)
Definition payload (b : Body) : Payload :=
  match b with
  | JsonBody text => RawText text
  | ErrorObject message type code => Json (error_object message type (SStr code))
  | ArbstrError e => Json (ser_error_body e)
  | StreamBody => Channel
  end.

Definition reply_of (r : Response) : Reply :=
  mkReply (resp_status r) (resp_headers r) (payload (resp_body r)).

Definition error_reply (e : Error) : Reply := reply_of (error_response e).

(** A float that is not finite is written as [null]. *)
Definition ser_f64 (x : f64) : Tree := if f64_is_finite x then SFloat x else SNull.

(** ** Models, cost, providers *)

Definition ser_model (m : ModelInfo) : Tree :=
  json_object [("id", SStr (mi_id m)); ("object", SStr (mi_object m)); ("owned_by", SStr (mi_owned_by m))].

Definition models_body (models : list ModelInfo) : Tree :=
  json_object [("object", SStr "list"); ("data", SSeq (map ser_model models))].

Definition cost_body (c : CostReply) : Tree :=
  json_object [("model", SStr (cr_model c)); ("provider", SStr (cr_provider c));
               ("estimated_input_tokens", SInt (cr_input_tokens c));
               ("estimated_output_tokens", SInt (cr_output_tokens c));
               ("estimated_cost_sats", ser_f64 (cr_cost_sats c));
               ("rates", json_object [("input_rate_sats_per_1k", SInt (cr_input_rate c));
                                      ("output_rate_sats_per_1k", SInt (cr_output_rate c));
                                      ("base_fee_sats", SInt (cr_base_fee c))])].

Definition ser_provider_info (p : ProviderInfo) : Tree :=
  json_object [("name", SStr (pi_name p)); ("models", SSeq (map SStr (pi_models p)));
               ("input_rate_sats_per_1k", SInt (pi_input_rate p));
               ("output_rate_sats_per_1k", SInt (pi_output_rate p));
               ("base_fee_sats", SInt (pi_base_fee p)); ("tier", SStr (pi_tier p));
               ("api_key", ser_opt SStr (pi_api_key p))].

Definition providers_body (ps : list ProviderInfo) : Tree :=
  json_object [("providers", SSeq (map ser_provider_info ps))].

(** ** Health *)

Definition ser_provider_health (p : ProviderHealth) : Tree :=
  SMap [("state", SStr (ph_state p)); ("failure_count", SInt (ph_failure_count p)); ("tier", SStr (ph_tier p))].

(** The map of a [json!] or [serde_json::Map]. *)
Definition sorted_map {A} (ser : A -> Tree) (m : gmap string A) : Tree :=
  json_object (map (fun '(k, v) => (k, ser v)) (map_to_list m)).

(** A [HashMap], in the order it is iterated. *)
Definition hash_map `{HashOrder} {A} (ser : A -> Tree) (m : gmap string A) : Tree :=
  SMap (map (fun '(k, v) => (k, ser v)) (iter_order _ (map_to_list m))).

Definition health_body `{HashOrder} (h : HealthResponse) : Tree :=
  SMap [("status", SStr (hr_status h)); ("providers", hash_map ser_provider_health (hr_providers h))].

(** ** The log listing *)

Definition ser_error_section (e : ErrorSection) : Tree :=
  SMap [("status", ser_opt SInt (er_status e)); ("message", ser_opt SStr (er_message e))].

Definition ser_log_entry (e : LogEntry) : Tree :=
  SMap (members
    [("id", Some (SInt (le_id e))); ("timestamp", Some (SStr (le_timestamp e)));
     ("model", Some (SStr (le_model e))); ("provider", SStr <$> le_provider e);
     ("streaming", Some (SBool (le_streaming e))); ("success", Some (SBool (le_success e)));
     ("tokens", Some (SMap [("input", ser_opt SInt (le_input e)); ("output", ser_opt SInt (le_output e))]));
     ("cost", Some (SMap [("sats", ser_opt ser_f64 (le_sats e))]));
     ("timing", Some (SMap (members
        [("latency_ms", Some (SInt (le_latency_ms e)));
         ("stream_duration_ms", SInt <$> le_stream_duration_ms e)])));
     ("error", ser_error_section <$> le_error e)]).

Definition logs_body (r : LogsResponse) : Tree :=
  SMap [("data", SSeq (map ser_log_entry (lr_data r))); ("page", SInt (lr_page r));
        ("per_page", SInt (lr_per_page r)); ("total", SInt (lr_total r));
        ("total_pages", SInt (lr_total_pages r)); ("since", SStr (lr_since r)); ("until", SStr (lr_until r))].

(** ** Statistics *)

(** [model_row_to_json], [tier_row_to_json], [zeroed_model_json]. *)
Definition entry_json (e : StatsEntry) : Tree :=
  json_object
    [("counts", json_object [("total", SInt (se_total e)); ("success", SInt (se_success e));
                             ("error", SInt (se_error e)); ("streaming", SInt (se_streaming e))]);
     ("costs", json_object [("total_cost_sats", ser_f64 (se_cost_sats e));
                            ("total_input_tokens", SInt (se_input_tokens e));
                            ("total_output_tokens", SInt (se_output_tokens e))]);
     ("performance", json_object [("avg_latency_ms", ser_f64 (se_avg_latency_ms e))])].

(** [CountsSection], [CostsSection], [PerformanceSection]. *)
Definition counts_section (e : StatsEntry) : Tree :=
  SMap [("total", SInt (se_total e)); ("success", SInt (se_success e));
        ("error", SInt (se_error e)); ("streaming", SInt (se_streaming e))].
Definition costs_section (e : StatsEntry) : Tree :=
  SMap [("total_cost_sats", ser_f64 (se_cost_sats e)); ("total_input_tokens", SInt (se_input_tokens e));
        ("total_output_tokens", SInt (se_output_tokens e))].
Definition performance_section (e : StatsEntry) : Tree :=
  SMap [("avg_latency_ms", ser_f64 (se_avg_latency_ms e))].

Definition stats_body (r : StatsResponse) : Tree :=
  SMap (members
    [("since", Some (SStr (sr_since r))); ("until", Some (SStr (sr_until r)));
     ("empty", SBool <$> sr_empty r); ("message", SStr <$> sr_message r);
     ("counts", Some (counts_section (sr_totals r))); ("costs", Some (costs_section (sr_totals r)));
     ("performance", Some (performance_section (sr_totals r)));
     ("models", sorted_map entry_json <$> sr_models r); ("tiers", sorted_map entry_json <$> sr_tiers r)]).

(** ** Query strings

    Each value is text: [bool] and [u32] are read with their [FromStr]. *)

(** [u32::from_str]: digits after an optional plus sign, within 32 bits. *)
Definition u32_from_str (s : string) : option Z :=
  let s := match s with String "+" s' => s' | _ => s end in
  let '(n, digits, rest) := read_digits 0 0 s in
  if bool_decide (rest = "") && (0 <? digits)%nat && (n <=? U32_MAX)%Z then Some n else None.

Definition bool_from_str (s : string) : option bool :=
  if String.eqb s "true" then Some true else if String.eqb s "false" then Some false else None.

Definition de_text {A} (from_str : string -> option A) (t : Tree) : option A :=
  s ← de_string t; from_str s.

Section QueryStrings.
#[local] Existing Instance JsonFormat.

Definition query_tree (pairs : list (string * string)) : Tree :=
  SMap (map (fun '(k, v) => (k, SStr v)) pairs).

Definition de_logs_query (pairs : list (string * string)) : option LogsQuery :=
  slots ← struct_slots ["range"; "since"; "until"; "model"; "provider"; "success"; "streaming"; "page";
                        "per_page"; "sort"; "order"] (query_tree pairs);
  match slots with
  | [range; since; until; model; provider; success; streaming; page; per_page; sort; order] =>
      range ← optional de_string range;
      since ← optional de_string since;
      until ← optional de_string until;
      model ← optional de_string model;
      provider ← optional de_string provider;
      success ← optional (de_text bool_from_str) success;
      streaming ← optional (de_text bool_from_str) streaming;
      page ← optional (de_text u32_from_str) page;
      per_page ← optional (de_text u32_from_str) per_page;
      sort ← optional de_string sort;
      order ← optional de_string order;
      Some {| lq_range := range; lq_since := since; lq_until := until; lq_model := model;
              lq_provider := provider; lq_success := success; lq_streaming := streaming;
              lq_page := page; lq_per_page := per_page; lq_sort := sort; lq_order := order |}
  | _ => None
  end.

Definition de_stats_query (pairs : list (string * string)) : option StatsQuery :=
  slots ← struct_slots ["range"; "since"; "until"; "model"; "provider"; "group_by"] (query_tree pairs);
  match slots with
  | [range; since; until; model; provider; group_by] =>
      range ← optional de_string range;
      since ← optional de_string since;
      until ← optional de_string until;
      model ← optional de_string model;
      provider ← optional de_string provider;
      group_by ← optional de_string group_by;
      Some {| sq_range := range; sq_since := since; sq_until := until; sq_model := model;
              sq_provider := provider; sq_group_by := group_by |}
  | _ => None
  end.

End QueryStrings.
