(* ===== verification/App.v ===== *)
(** * The application ([src/src/proxy/server.rs], [create_router])

    An HTTP request from the socket to its reply: the correlation id, the rate limit, the
    routing table, the bearer check, the extraction of headers, JSON bodies and query strings,
    the handler, and the reply it makes.  What [axum] decides (which route a request takes,
    what its extractors make of a request and how they reject it) is the class [AxumDeps]. *)

From S2P Require Import Prelude Machine RustStr Timed Config Errors Types Router Complexity.
From S2P Require Import CircuitBreaker Retry Storage Vault Http Handlers Frames Billing Liveness Logging.
From S2P Require Import Query Server Serde JsonCodec Wire VaultJson Replies.

(** Where the library sends a request: to a handler, or to a fallback of its own, which is
    behind the layers of [proxy_routes] or not. *)
Inductive Routed :=
| ToHandler (e : Endpoint)
| Fallback (layered : bool) (r : Reply).

Definition is_rejection (r : Reply) : Prop := 400 <= rp_status r < 500.

Class AxumDeps := {
  HttpRequest : Type;
  has_method : Method -> HttpRequest -> bool;
  uri_path : HttpRequest -> string;
  (** [headers().get(name).and_then(|v| v.to_str().ok())] *)
  header_str : string -> HttpRequest -> option string;
  dispatch : (Endpoint -> Method * string) -> HttpRequest -> Routed;
  (** [Json<T>]: the tree of the body, and the rejection of one that is not a [T] *)
  json_body : HttpRequest -> result Tree Reply;
  json_rejection : HttpRequest -> Reply;
  (** [Query<T>] *)
  query_pairs : HttpRequest -> list (string * string);
  query_rejection : HttpRequest -> Reply;
  (** A route answers for its own path, and for all requests with its method and path. *)
  dispatch_path : forall routes req e, dispatch routes req = ToHandler e -> uri_path req = snd (routes e);
  dispatch_hit : forall routes req e, (forall e', snd (routes e') = snd (routes e) -> e' = e) ->
    has_method (fst (routes e)) req = true -> uri_path req = snd (routes e) -> dispatch routes req = ToHandler e;
  (** Rejections are client errors. *)
  fallback_rejects : forall routes req layered r, dispatch routes req = Fallback layered r -> is_rejection r;
  json_body_rejects : forall req r, json_body req = Err r -> is_rejection r;
  json_rejects : forall req, is_rejection (json_rejection req);
  query_rejects : forall req, is_rejection (query_rejection req);
}.

Section App.
Context `{Watch} `{HttpDeps} `{ScorerDeps} `{UnicodeCase} `{JsonValue} `{!VaultSerde} `{SqlOrder}.
Context `{Chrono} `{SqlEngine} `{HashOrder} `{AxumDeps}.
Context (others : nat -> Interference) (rfc3339 : Instant -> string).
Context (upstream : nat -> UpstreamRequest -> Duration * result UpstreamReply string).
Context (post : nat -> VaultCall -> Duration * result VaultReply SendError).
Context (vault_others : nat -> list PendingSettlement).
(** How long the rate limit holds a request back, and whether it lets it pass; how long the
    body takes to arrive; the UTC clock; how many of the writes of others during its handler a
    query finds applied (or its error), and how long the queries of a handler take. *)
Context (throttle : Z -> nat -> Duration * bool) (upload : HttpRequest -> Duration).
Context (utc : Instant -> Z).
Context (query_runs : nat -> Query -> result nat string) (query_time : nat -> Duration).

(** ** Extractors *)

Definition request_headers (req : HttpRequest) : RequestHeaders := {|
  h_policy := header_str ARBSTR_POLICY_HEADER req;
  h_complexity := header_str ARBSTR_COMPLEXITY_HEADER req;
  h_authorization := header_str "authorization" req |}.

(** [Json(request): Json<ChatCompletionRequest>] *)
Definition with_json (req : HttpRequest) (k : ChatCompletionRequest -> Timed AppWorld Reply)
    : Timed AppWorld Reply :=
  let! _ := t_await (upload req) in
  let! _ := yield_now others in
  match json_body req with
  | Err r => t_ret r
  | Ok t => match de_request t with Some request => k request | None => t_ret (json_rejection req) end
  end.

(** [Query(params): Query<T>] *)
Definition with_query {A} (de : list (string * string) -> option A) (req : HttpRequest)
    (k : A -> Timed AppWorld Reply) : Timed AppWorld Reply :=
  match de (query_pairs req) with Some params => k params | None => t_ret (query_rejection req) end.

(** ** Handlers *)

(** [impl IntoResponse] for [Result<Json<T>, Error>]. *)
Definition json_result {A} (body : A -> Tree) (r : result A Error) : Reply :=
  match r with Ok a => json_reply 200 (body a) | Err e => error_reply e end.

(** The tables the queries of one handler find. *)
Definition run_reads : Timed AppWorld Reads :=
  let! w := t_get in
  let! _ := t_await (query_time (aw_awaits w)) in
  let! _ := yield_now others in
  t_ret (fun q =>
    let? n := query_runs (aw_awaits w) q in
    Ok (wr_table (writer_run (take n (if_writer (others (aw_awaits w)))) (aw_writer w)))).

Definition read_handler {A} (sv : Server) (body : A -> Tree)
    (handler : Config -> option Reads -> Z -> result A Error) : Timed AppWorld Reply :=
  let! now := t_now in
  if sv_read_db sv then
    let! reads := run_reads in
    t_ret (json_result body (handler (st_config (sv_state sv)) (Some reads) (utc now)))
  else t_ret (json_result body (handler (st_config (sv_state sv)) None (utc now))).

Definition handle (sv : Server) (e : Endpoint) (request_id : string) (req : HttpRequest)
    : Timed AppWorld Reply :=
  let state := sv_state sv in
  match e with
  | ChatCompletions => with_json req (fun request =>
      let! r := chat_completions others rfc3339 upstream post vault_others state request_id
                  (request_headers req) request in
      t_ret (reply_of r))
  | ListModels => t_ret (json_reply 200 (models_body (list_models state)))
  | CostEstimate => with_json req (fun request =>
      match cost_estimate state (h_policy (request_headers req)) request with
      | Some r => t_ret (json_result cost_body r)
      | None => t_panic
      end)
  | Stats => with_query de_stats_query req (fun params =>
      read_handler sv stats_body (fun config reads now => stats_handler config reads now params))
  | Requests => with_query de_logs_query req (fun params =>
      read_handler sv logs_body (fun config reads now => logs_handler config reads now params))
  | Health =>
      let! w := t_get in
      let '(status, h) := health state (aw_registry w) in
      t_ret (json_reply status (health_body h))
  | Providers =>
      match list_providers state with
      | Some ps => t_ret (json_reply 200 (providers_body ps))
      | None => t_panic
      end
  end.

(** ** Layers *)

(** [RateLimitLayer] behind a [BufferLayer]; [HandleErrorLayer] turns their error into 429. *)
Definition too_many_requests : Reply := mkReply 429 ∅ (RawText "").

Definition rate_limited (sv : Server) (m : Timed AppWorld Reply) : Timed AppWorld Reply :=
  match rate_limit_rps (server (st_config (sv_state sv))) with
  | Some rps =>
      if (0 <? rps)%Z then
        let! w := t_get in
        let '(d, passes) := throttle rps (aw_awaits w) in
        let! _ := t_await d in
        let! _ := yield_now others in
        if passes then m else t_ret too_many_requests
      else m
  | None => m
  end.

(** [middleware::from_fn(auth_middleware)] *)
Definition guarded (refusal : option Response) (m : Timed AppWorld Reply) : Timed AppWorld Reply :=
  match refusal with Some resp => t_ret (reply_of resp) | None => m end.

(** [create_router(state)] on a request, [request_id] being the id it is given. *)
Definition app (sv : Server) (request_id : string) (req : HttpRequest) : Timed AppWorld Reply :=
  rate_limited sv
    match dispatch endpoint_route req with
    | ToHandler e =>
        guarded (guard_endpoint (sv_state sv) e (h_authorization (request_headers req)))
          (handle sv e request_id req)
    | Fallback layered r =>
        guarded (if layered then guard_proxy (sv_state sv) (h_authorization (request_headers req)) else None)
          (t_ret r)
    end.

(** ** Who changes the shared state *)

(** Nothing happened but what other tasks do. *)
Definition by_others (w w' : AppWorld) : Prop :=
  exists ns : list nat, w' = fold_left (fun w n => interfere (others n) w) ns w.

#[export] Instance by_others_preorder : PreOrder by_others.
Proof.
  split; [by exists []|]. intros w1 w2 w3 (ns & ->) (ms & ->). exists (ns ++ ms). by rewrite fold_left_app.
Qed.

Lemma idle_yield : evolves by_others (yield_now others).
Proof. apply evolves_modify. intros w. by exists [aw_awaits w]. Qed.
Hint Resolve by_others_preorder idle_yield : arb.

Lemma idle_reads : evolves by_others run_reads.
Proof. unfold run_reads. evolves_tac. Qed.
Hint Resolve idle_reads : arb.

Lemma idle_read_handler {A} sv (body : A -> Tree) handler : evolves by_others (read_handler sv body handler).
Proof. unfold read_handler. evolves_tac. Qed.

Lemma idle_rate_limited sv m : evolves by_others m -> evolves by_others (rate_limited sv m).
Proof. intros Hm. unfold rate_limited. evolves_tac. Qed.

(** What the JSON extractor hands to the handler. *)
Definition posted (req : HttpRequest) (request : ChatCompletionRequest) : Prop :=
  exists t, json_body req = Ok t /\ de_request t = Some request.

Lemma idle_with_json req k :
  (forall request, posted req request -> evolves by_others (k request)) -> evolves by_others (with_json req k).
Proof.
  intros Hk. unfold with_json. evolves_tac. apply Hk. by eexists.
Qed.

Lemma idle_with_query {A} de req (k : A -> Timed AppWorld Reply) :
  (forall params, evolves by_others (k params)) -> evolves by_others (with_query de req k).
Proof. intros Hk. unfold with_query. evolves_tac. Qed.

(** Only chat completions do more than read. *)
Lemma idle_handle sv e request_id req :
  e <> ChatCompletions \/ (forall request, ~ posted req request) -> evolves by_others (handle sv e request_id req).
Proof.
  intros He. destruct e; cbn [handle].
  - apply idle_with_json. intros request Hp. by destruct He as [|He]; [|destruct (He request)].
  - auto with arb.
  - apply idle_with_json. intros request _. evolves_tac.
  - apply idle_with_query. intros params. apply idle_read_handler.
  - apply idle_with_query. intros params. apply idle_read_handler.
  - evolves_tac.
  - evolves_tac.
Qed.

(** The bearer check lets a request pass. *)
Definition admitted (sv : Server) (req : HttpRequest) : Prop :=
  st_vault (sv_state sv) <> None \/ auth_token (server (st_config (sv_state sv))) = None \/
  exists token, auth_token (server (st_config (sv_state sv))) = Some token /\
    header_str "authorization" req = Some ("Bearer " +:+ token).

(** C9: only an admitted completion request changes anything.  Whatever a client sends and
    whenever it goes away, the breakers, the request log, the vault and the tasks are as the
    other tasks made them, and no provider was called, unless the path was that of chat
    completions, the bearer check let it pass, and its body read as a request. *)
Theorem only_admitted_completions_act sv request_id req dl st r st' :
  app sv request_id req dl st = (r, st') ->
  by_others (snd st) (snd st') \/
  uri_path req = "/v1/chat/completions" /\ admitted sv req /\ exists request, posted req request.
Proof.
  intros Hr. unfold app in Hr.
  assert (Hdone : forall m, rate_limited sv m dl st = (r, st') -> evolves by_others m -> by_others (snd st) (snd st')).
  { intros m Hm He. by eapply evolves_run; [apply idle_rate_limited|]. }
  destruct (dispatch endpoint_route req) as [e|layered fr] eqn:Ed.
  2: { left. eapply Hdone; [exact Hr|]. unfold guarded. evolves_tac. }
  destruct (guard_endpoint _ _ _) as [resp|] eqn:Eg.
  { left. eapply Hdone; [exact Hr|]. cbn [guarded]. auto with arb. }
  cbn [guarded] in Hr. destruct (decide (e = ChatCompletions)) as [->|He].
  2: { left. eapply Hdone; [exact Hr|]. apply idle_handle. by left. }
  apply dispatch_path in Ed. destruct (json_body req) as [t|] eqn:Ej; [destruct (de_request t) as [request|] eqn:Et|].
  - right. split; [exact Ed|]. split; [|by exists request, t]. 
    apply guard_endpoint_spec in Eg as [Hx|Hx]; [done|exact Hx].
  - left. eapply Hdone; [exact Hr|]. apply idle_handle. right. intros request (t' & Ht' & Hd). congruence.
  - left. eapply Hdone; [exact Hr|]. apply idle_handle. right. intros request (t' & Ht' & Hd). congruence.
Qed.

(** ** What clients are answered *)

(** The error object of the OpenAI API, with the status of an error. *)
Definition error_shaped (r : Reply) : Prop :=
  400 <= rp_status r < 600 /\ rp_headers r !! "content-type" = Some "application/json" /\
  exists message type code, rp_payload r = Json (error_object message type code).

(** [r'] is [r] with more headers. *)
Definition same_answer (r r' : Response) : Prop :=
  resp_status r' = resp_status r /\ resp_body r' = resp_body r /\
  resp_headers r' !! "content-type" = resp_headers r !! "content-type".

#[export] Instance same_answer_preorder : PreOrder same_answer.
Proof. split; [done|]. intros r1 r2 r3 (? & ? & ?) (? & ? & ?). unfold same_answer. by split_and!; etransitivity. Qed.

Lemma insert_same name value r : name <> "content-type" -> same_answer r (insert_if_valid name value r).
Proof. intros Hn. split_and!; [..|by apply insert_if_valid_other]; unfold insert_if_valid; by case_match. Qed.

Lemma attach_same rid l p c s r : same_answer r (attach_arbstr_headers rid l p c s r).
Proof.
  unfold attach_arbstr_headers. set (r1 := insert_if_valid ARBSTR_REQUEST_ID_HEADER rid r).
  assert (H1' : same_answer r r1) by (by apply insert_same).
  assert (Hins : forall name value r, name <> "content-type" -> same_answer r (insert_header name value r))
    by (intros name value r0 Hn; split_and!; [done..|by apply insert_header_other]).
  etransitivity; [exact H1'|].
  assert (H2' : same_answer r1 (if s then insert_header ARBSTR_STREAMING_HEADER "true" r1 else
    match c with
    | Some cost => insert_if_valid ARBSTR_COST_SATS_HEADER (fmt_fixed 2 cost)
                     (insert_header ARBSTR_LATENCY_MS_HEADER (pretty_Z (as_u64 l)) r1)
    | None => insert_header ARBSTR_LATENCY_MS_HEADER (pretty_Z (as_u64 l)) r1
    end)).
  { destruct s; [by apply Hins|]. destruct c; [etransitivity; [|by apply insert_same]|]; by apply Hins. }
  etransitivity; [exact H2'|]. destruct p; [by apply insert_same|done].
Qed.

Lemma retries_same h r : same_answer r (attach_retries_header h r).
Proof. unfold attach_retries_header. destruct h; [by apply insert_same|done]. Qed.

Definition response_shaped (resp : Response) : Prop := error_shaped (reply_of resp).

Lemma shaped_same r r' : same_answer r r' -> response_shaped r -> response_shaped r'.
Proof.
  intros (Hs & Hb & Hh). unfold response_shaped, error_shaped, reply_of. cbn [rp_status rp_headers rp_payload].
  by rewrite Hs, Hb, Hh.
Qed.

Lemma shaped_error e : response_shaped (error_response e).
Proof. split_and!; [apply Error_status_range..|done|]. by eexists _, _, _. Qed.

Lemma shaped_billing status m ty code : 400 <= status < 600 -> response_shaped (billing_response status m ty code).
Proof. intros Hs. split_and!; [apply Hs..|done|]. by eexists _, _, _. Qed.

#[local] Abbreviation ok_or_error := (fun resp => resp_status resp = 200 \/ response_shaped resp).
#[local] Abbreviation refusal_shaped r := (match r with Ok _ => True | Err resp => response_shaped resp end).

Lemma refuse_shaped state ctx c m s tr e : returns response_shaped (refuse rfc3339 state ctx c m s tr e).
Proof.
  unfold refuse. do 2 (apply returns_after; intros ?). apply returns_ret.
  eapply shaped_same; [apply attach_same|apply shaped_error].
Qed.

Lemma resolve_shaped fuel state ctx prompt score tier :
  returns (fun r => refusal_shaped r) (resolve_loop others rfc3339 fuel state ctx prompt score tier).
Proof.
  revert tier. induction fuel as [|fuel IH]; intros tier; cbn [resolve_loop]; [by intros [dl|] st a st'|].
  assert (Hr : forall c m s tr e, returns (fun r => refusal_shaped r)
    (let! r := refuse rfc3339 state ctx c m s tr e in t_ret (@Err ResolvedCandidates _ r)))
    by (intros; eapply returns_bind; [apply refuse_shaped|intros r Hr; by apply returns_ret]).
  destruct (select_candidates _ _ _ _ _) as [cs|e].
  - apply returns_after. intros [[|c rest] probe]; [|by apply returns_ret]. destruct (escalate tier); [apply IH|apply Hr].
  - destruct e; try apply Hr. destruct (escalate tier); [apply IH|apply Hr].
Qed.

Lemma reserve_shaped state ctx headers request resolved vc :
  returns (fun r => refusal_shaped r)
    (reserve_funds others rfc3339 post vault_others state ctx headers request resolved vc).
Proof.
  assert (Hb : forall c m status m' ty code, 400 <= status < 600 -> returns (fun r => refusal_shaped r)
    (let! _ := log_refusal rfc3339 state ctx resolved c m in
     t_ret (@Err (RequestContext * ChatCompletionRequest) _ (billing_response status m' ty code))))
    by (intros; apply returns_after; intros _; apply returns_ret; by apply shaped_billing).
  unfold reserve_funds. apply returns_after. intros w. destruct (w_backpressure _); [apply Hb; lia|].
  destruct (match h_authorization headers with Some v => _ | None => _ end); [|apply Hb; lia]. cbv zeta.
  do 3 (apply returns_after; intros ?). case_match; [by apply returns_ret|].
  apply Hb. match goal with e : VaultError |- _ => destruct e; simpl; lia end.
Qed.

Lemma route_shaped state ctx request resolved :
  returns ok_or_error (route others rfc3339 upstream state ctx request resolved).
Proof.
  unfold route. destruct (cx_is_streaming ctx).
  - unfold handle_streaming_path. apply returns_after. intros provider.
    eapply returns_bind; [apply guarded_returns, send_status|intros r Hr]. unfold finish_streaming.
    do 2 (apply returns_after; intros ?). cbv zeta. destruct r as [o|e]; apply returns_after; intros _.
    + apply returns_ret. left. rewrite attach_complexity_status, attach_status. by apply Hr.
    + apply returns_after; intros _. apply returns_ret. right.
      eapply shaped_same; [apply attach_same|apply shaped_error].
  - unfold handle_non_streaming_path. eapply returns_bind; [apply guarded_returns, retry_status|].
    intros [tr atts] Hst. cbn [fst] in Hst. unfold finish_non_streaming. do 4 (apply returns_after; intros ?).
    destruct tr as [[o|e]|]; [unfold respond_success|unfold respond_error|unfold respond_timeout]; cbv zeta;
      do 2 (apply returns_after; intros _); apply returns_ret.
    + left. rewrite attach_retries_status, attach_complexity_status, attach_status. by apply Hst.
    + right. eapply shaped_same; [apply retries_same|]. eapply shaped_same; [apply attach_same|apply shaped_error].
    + right. eapply shaped_same; [apply retries_same|]. eapply shaped_same; [apply attach_same|].
      split_and!; [simpl; lia..|done|]. by eexists _, _, _.
Qed.

Lemma chat_shaped state request_id headers request :
  returns ok_or_error
    (chat_completions others rfc3339 upstream post vault_others state request_id headers request).
Proof.
  unfold chat_completions. apply returns_after. intros start. cbv zeta.
  eapply (returns_bind (fun r => refusal_shaped r)); [unfold resolve_candidates; case_match; apply resolve_shaped|].
  intros [rc|resp] Hr; [|by apply returns_ret; right]. destruct (st_vault state); [|apply route_shaped].
  eapply returns_bind; [apply reserve_shaped|]. intros [[ctx' req']|resp] Hb; [apply route_shaped|by apply returns_ret; right].
Qed.

Lemma returns_read_handler {A} sv (body : A -> Tree) handler :
  returns (fun r => rp_status r = 200 \/ error_shaped r) (read_handler sv body handler).
Proof.
  assert (Hr : forall x : result A Error, rp_status (json_result body x) = 200 \/ error_shaped (json_result body x))
    by (intros [a|e]; [by left|right; apply shaped_error]).
  unfold read_handler. apply returns_after. intros now.
  destruct (sv_read_db sv); [apply returns_after; intros reads|]; apply returns_ret, Hr.
Qed.

(** A reply the library or its layers make. *)
Inductive library_reply (req : HttpRequest) : Reply -> Prop :=
| lib_fallback layered r : dispatch endpoint_route req = Fallback layered r -> library_reply req r
| lib_body r : json_body req = Err r -> library_reply req r
| lib_json : library_reply req (json_rejection req)
| lib_query : library_reply req (query_rejection req)
| lib_rate : library_reply req too_many_requests.

Lemma library_rejects req r : library_reply req r -> is_rejection r.
Proof.
  destruct 1; [by eapply fallback_rejects|by eapply json_body_rejects|apply json_rejects|apply query_rejects|].
  unfold is_rejection. simpl. lia.
Qed.

(** What a client can be told. *)
Definition answer (req : HttpRequest) (r : Reply) : Prop :=
  rp_status r = 200 \/ error_shaped r \/ library_reply req r \/ uri_path req = "/health" /\ rp_status r = 503.

Lemma answer_json req k :
  (forall request, returns (fun r => rp_status r = 200 \/ error_shaped r) (k request)) ->
  returns (answer req) (with_json req k).
Proof.
  intros Hk. unfold with_json. do 2 (apply returns_after; intros _). destruct (json_body req) eqn:Ej.
  - destruct (de_request _).
    + eapply returns_mono; [apply Hk|]. intros r. unfold answer. tauto.
    + apply returns_ret. right; right; left. apply lib_json.
  - apply returns_ret. right; right; left. by apply lib_body.
Qed.

Lemma answer_query {A} de req (k : A -> Timed AppWorld Reply) :
  (forall params, returns (fun r => rp_status r = 200 \/ error_shaped r) (k params)) ->
  returns (answer req) (with_query de req k).
Proof.
  intros Hk. unfold with_query. destruct (de _).
  - eapply returns_mono; [apply Hk|]. intros r. unfold answer. tauto.
  - apply returns_ret. right; right; left. apply lib_query.
Qed.

Lemma answer_handle sv e request_id req :
  dispatch endpoint_route req = ToHandler e -> returns (answer req) (handle sv e request_id req).
Proof.
  intros Hd. apply dispatch_path in Hd. destruct e; cbn [handle].
  - apply answer_json. intros request. eapply returns_bind; [apply chat_shaped|]. intros resp Hr. by apply returns_ret.
  - apply returns_ret. by left.
  - apply answer_json. intros request. destruct (cost_estimate _ _ _) as [[c|e]|]; [| |by intros dl st a st'];
      apply returns_ret; [by left|right; apply shaped_error].
  - apply answer_query. intros params. apply returns_read_handler.
  - apply answer_query. intros params. apply returns_read_handler.
  - apply returns_after. intros w. unfold health.
    destruct (health_status_cases (all_states (aw_registry w))) as [(-> & _)|[(-> & _)|(-> & _)]];
      apply returns_ret; [by left|by do 3 right|by left].
  - destruct (list_providers _); [|by intros dl st a st']. apply returns_ret. by left.
Qed.

Lemma refusal_answer req state e authorization resp :
  guard_endpoint state e authorization = Some resp -> answer req (reply_of resp).
Proof.
  assert (Hu : response_shaped unauthorized) by (split_and!; [simpl; lia..|done|by eexists _, _, _]).
  unfold guard_endpoint, guard_proxy, auth_middleware. repeat case_match; try done; intros [= <-]; right; by left.
Qed.

Lemma app_answer sv request_id req : returns (answer req) (app sv request_id req).
Proof.
  unfold app. assert (Hm : forall m, returns (answer req) m -> returns (answer req) (rate_limited sv m)).
  { intros m Hm. unfold rate_limited. destruct (rate_limit_rps _); [|done]. destruct (_ <? _)%Z; [|done].
    apply returns_after. intros w. destruct (throttle _ _) as [d passes]. do 2 (apply returns_after; intros _).
    destruct passes; [done|]. apply returns_ret. right; right; left. apply lib_rate. }
  apply Hm. destruct (dispatch _ req) as [e|layered fr] eqn:Ed.
  - destruct (guard_endpoint _ _ _) eqn:Eg; [|by apply answer_handle]. apply returns_ret. by eapply refusal_answer.
  - destruct layered; cbn [guarded]; [destruct (guard_proxy _ _) eqn:Eg|]; apply returns_ret;
      [exact (refusal_answer req (sv_state sv) ListModels _ _ Eg)|right; right; left; by eapply lib_fallback..].
Qed.

(** ** Every request is answered *)

Context (hold reading : Duration).

(** Everybody else is timely: the vault, the providers, the rate limit, the client that sends its
    body, the queries. *)
Record timely_world (req : HttpRequest) : Prop := {
  tm_post : forall n c, fst (post n c) <= VAULT_TIMEOUT;
  tm_upstream : forall n r, fst (upstream n r) <= CLIENT_TIMEOUT;
  tm_throttle : forall rps n, 0 <= fst (throttle rps n) <= hold;
  tm_upload : 0 <= upload req;
  tm_queries : forall n, 0 <= query_time n <= reading;
  tm_hold : 0 <= hold;
  tm_reading : 0 <= reading;
}.

(** No key makes the mask panic. *)
Definition maskable (sv : Server) : Prop :=
  forall p key, In p (rt_providers (st_router (sv_state sv))) -> p_api_key p = Some key -> masked_prefix key <> None.

(** [waits] is the time the request spends waiting for probes. *)
Definition handler_time (waits : Duration) (req : HttpRequest) : Duration :=
  Z.max reading (upload req + waits + VAULT_TIMEOUT + CLIENT_TIMEOUT).

Section Answered.
Context (D : Duration) (HD : 0 <= D) (req : HttpRequest) (Htm : timely_world req).
#[local] Notation calm := (unblocked others D).

Lemma wp_calm_yield t w (Q : unit -> Instant * AppWorld -> Prop) :
  calm (aw_registry w) -> (forall w', calm (aw_registry w') -> Q tt (t, w')) -> wp (yield_now others) (t, w) Q.
Proof.
  intros Hc HQ. apply wp_modify. apply HQ. cbn [snd]. unfold interfere. cbn [aw_registry]. by apply unblocked_others.
Qed.

Lemma wp_rate_limited sv m t w (Q : Reply -> Instant * AppWorld -> Prop) :
  calm (aw_registry w) ->
  (forall t' w', t <= t' <= t + hold -> calm (aw_registry w') -> wp m (t', w') Q) ->
  (forall t' w', t' <= t + hold -> Q too_many_requests (t', w')) -> wp (rate_limited sv m) (t, w) Q.
Proof.
  intros Hc Hm Hq. pose proof (tm_hold _ Htm). unfold rate_limited.
  destruct (rate_limit_rps _) as [rps|]; [|by apply Hm; [lia|]]. destruct (0 <? rps)%Z; [|by apply Hm; [lia|]].
  apply wp_bind, wp_get. cbn [fst snd]. pose proof (tm_throttle _ Htm rps (aw_awaits w)) as Ht.
  destruct (throttle _ _) as [d passes]. cbn [fst] in Ht. apply wp_bind, wp_await. cbn [fst snd].
  apply wp_bind, wp_calm_yield; [done|]. intros w' Hc'. destruct passes; [apply Hm; [lia|done]|].
  apply wp_ret, Hq. lia.
Qed.

Lemma wp_with_json k t w (Q : Reply -> Instant * AppWorld -> Prop) :
  calm (aw_registry w) ->
  (forall request w', posted req request -> calm (aw_registry w') -> wp (k request) (t + upload req, w') Q) ->
  (forall r w', Q r (t + upload req, w')) -> wp (with_json req k) (t, w) Q.
Proof.
  intros Hc Hk Hq. unfold with_json. apply wp_bind, wp_await. cbn [fst snd]. apply wp_bind, wp_calm_yield; [done|].
  intros w' Hc'. destruct (json_body req) as [tr|r] eqn:Ej; [|by apply wp_ret].
  destruct (de_request tr) as [request|] eqn:Er; [|by apply wp_ret]. apply Hk; [by exists tr|done].
Qed.

Lemma wp_read_handler {A} sv (body : A -> Tree) handler t w (Q : Reply -> Instant * AppWorld -> Prop) :
  calm (aw_registry w) -> (forall r t' w', t' <= t + reading -> Q r (t', w')) -> wp (read_handler sv body handler) (t, w) Q.
Proof.
  intros Hc Hq. pose proof (tm_reading _ Htm). unfold read_handler. apply wp_bind, wp_now. cbn [fst].
  destruct (sv_read_db sv); [|by apply wp_ret, Hq; lia]. unfold run_reads. apply wp_bind, wp_bind, wp_get. cbn [snd].
  pose proof (tm_queries _ Htm (aw_awaits w)). apply wp_bind, wp_await. cbn [fst snd].
  apply wp_bind, wp_calm_yield; [done|]. intros w' _. do 2 apply wp_ret. apply Hq. lia.
Qed.

Lemma wp_with_query {A} de (k : A -> Timed AppWorld Reply) t w (Q : Reply -> Instant * AppWorld -> Prop) :
  (forall params, wp (k params) (t, w) Q) -> (forall r, Q r (t, w)) -> wp (with_query de req k) (t, w) Q.
Proof. intros Hk Hq. unfold with_query. destruct (de _); [apply Hk|by apply wp_ret]. Qed.

Lemma collect_maskable ps :
  (forall p key, In p ps -> p_api_key p = Some key -> masked_prefix key <> None) -> exists l, collect_infos ps = Some l.
Proof.
  induction ps as [|p ps IH]; intros Hm; [by exists []|]. cbn [collect_infos]. unfold provider_info.
  destruct IH as [l ->]; [intros q key Hq; apply Hm; by right|]. destruct (p_api_key p) as [key|] eqn:Ek; [|by eexists].
  specialize (Hm p key). destruct (masked_prefix key); [by eexists|]. by destruct Hm; [left|..].
Qed.

Lemma cost_estimate_total state policy request : exists r, cost_estimate state policy request = Some r.
Proof.
  pose proof (cost_estimate_spec state policy request) as Hs. destruct (select_candidates _ _ _ _ _); [|by eexists].
  destruct Hs as (? & ? & reply & _ & Hr & _). by eexists.
Qed.

Lemma wp_handle sv e request_id t w :
  maskable sv -> calm (aw_registry w) ->
  wp (handle sv e request_id req) (t, w) (fun _ st' => fst st' <= t + handler_time (waiting_time (sv_state sv) D) req).
Proof.
  intros Hmask Hc. pose proof (tm_upload _ Htm). pose proof (tm_reading _ Htm). unfold handler_time.
  assert (Hwt : 0 <= waiting_time (sv_state sv) D) by (unfold waiting_time, provider_count; nia).
  assert (Htv : 0 <= VAULT_TIMEOUT /\ RETRY_TIMEOUT <= CLIENT_TIMEOUT /\ 0 <= CLIENT_TIMEOUT)
    by (unfold VAULT_TIMEOUT, RETRY_TIMEOUT, CLIENT_TIMEOUT, secs; lia).
  destruct e; cbn [handle].
  - apply wp_with_json; [done| |intros; cbn [fst]; lia]. intros request w' _ Hc'. apply wp_bind.
    eapply wp_mono; [apply (chat_unblocked others rfc3339 upstream post vault_others D);
      [apply (tm_post _ Htm)|apply (tm_upstream _ Htm)|done..]|].
    intros resp st' Ht. apply wp_ret. cbv beta in Ht. cbn [fst] in *. destruct (st_vault _), (default false _); lia.
  - apply wp_ret. cbn [fst]. lia.
  - apply wp_with_json; [done| |intros; cbn [fst]; lia]. intros request w' _ _.
    destruct (cost_estimate_total (sv_state sv) (h_policy (request_headers req)) request) as [r ->].
    apply wp_ret. cbn [fst]. lia.
  - apply wp_with_query; [|intros; cbn [fst]; lia]. intros params. apply wp_read_handler; [done|intros; cbn [fst]; lia].
  - apply wp_with_query; [|intros; cbn [fst]; lia]. intros params. apply wp_read_handler; [done|intros; cbn [fst]; lia].
  - apply wp_bind, wp_get. destruct (health _ _). apply wp_ret. cbn [fst]. lia.
  - destruct (collect_maskable _ Hmask) as [l Hl]. unfold list_providers. rewrite Hl. apply wp_ret. cbn [fst]. lia.
Qed.

End Answered.

Lemma wp_returns {S A} {dl} (V : A -> Prop) (m : Timed S A) st Q :
  returns V m -> wpd dl m st Q -> wpd dl m st (fun a st' => V a /\ Q a st').
Proof. intros HV (a & st' & Hr & HQ). exists a, st'. split; [done|]. split; [by eapply HV|done]. Qed.

(** C6: every HTTP request is answered in time, when nobody waits for a probe for longer than
    [D] (as in [every_request_is_answered]) and every configured key has a mask: whatever is
    sent to the server gets a reply, a 200, an error of the documented shape with its 4xx or
    5xx status, the 503 of the health endpoint, or a rejection of the library; within the time
    the rate limit and the client take, the waits, and the timeouts of the vault and one
    provider call or the queries. *)
Theorem every_http_request_is_answered D sv request_id req t w :
  0 <= D -> unblocked others D (aw_registry w) -> timely_world req -> maskable sv ->
  wp (app sv request_id req) (t, w) (fun r st' =>
    answer req r /\ fst st' <= t + hold + handler_time (waiting_time (sv_state sv) D) req).
Proof.
  intros HD Hc Htm Hmask. apply wp_returns; [apply app_answer|].
  pose proof (tm_upload _ Htm). pose proof (tm_reading _ Htm). set (time := handler_time _ req).
  assert (Hh : 0 <= time) by (unfold time, handler_time; lia).
  apply (wp_rate_limited D req Htm); [done| |intros; cbn [fst]; lia]. intros t' w' Ht Hc'.
  assert (Hret : forall r : Reply, wp (t_ret r : Timed AppWorld Reply) (t', w') (fun _ st' => fst st' <= t + hold + time))
    by (intros r; apply wp_ret; cbn [fst]; lia).
  destruct (dispatch _ req) as [e|layered fr]; unfold guarded.
  - destruct (guard_endpoint _ _ _); [apply Hret|]. eapply wp_mono; [by apply (wp_handle D HD)|].
    intros r st' Hle. unfold time. cbv beta in *. lia.
  - destruct (if layered then _ else _); apply Hret.
Qed.

End App.

(** ** An instance

    Requests as records: what [axum] does with the ones its documentation describes. *)

Record PlainRequest := {
  pr_method : Method;
  pr_path : string;
  pr_query : list (string * string);
  pr_headers : list (string * string);
  pr_body : string;
}.

Definition plain_header (name : string) (req : PlainRequest) : option string :=
  option_map snd (List.find (fun h => String.eqb (fst h) name) (pr_headers req)).

Definition method_eqb (m n : Method) : bool :=
  match m, n with GET, GET | POST, POST => true | _, _ => false end.

Definition endpoints : list Endpoint :=
  [ChatCompletions; ListModels; CostEstimate; Stats; Requests; Health; Providers].

Definition plain_reply (status : Z) (text : string) : Reply := mkReply status ∅ (RawText text).

Definition plain_dispatch (routes : Endpoint -> Method * string) (req : PlainRequest) : Routed :=
  match List.find (fun e => String.eqb (snd (routes e)) (pr_path req)) endpoints with
  | Some e =>
      if method_eqb (fst (routes e)) (pr_method req) then ToHandler e
      else Fallback (is_proxy_route e) (plain_reply 405 "")
  | None => Fallback true (plain_reply 404 "")
  end.

Definition plain_json (req : PlainRequest) : result Tree Reply :=
  if bool_decide (plain_header "content-type" req = Some "application/json") then
    ok_or (read_json id (pr_body req)) (plain_reply 400 "Failed to parse the request body as JSON")
  else Err (plain_reply 415 "Expected request with `Content-Type: application/json`").

Definition PlainHttp : AxumDeps.
Proof.
  refine {| HttpRequest := PlainRequest;
            has_method := fun m req => method_eqb m (pr_method req);
            uri_path := pr_path; header_str := plain_header; dispatch := plain_dispatch;
            json_body := plain_json;
            json_rejection := fun _ => plain_reply 422 "Failed to deserialize the JSON body into the target type";
            query_pairs := pr_query;
            query_rejection := fun _ => plain_reply 400 "Failed to deserialize query string" |}.
  - intros routes req e. unfold plain_dispatch. destruct (List.find _ _) as [e'|] eqn:E; [|done].
    apply List.find_some in E as [_ E]. apply String.eqb_eq in E. destruct (method_eqb _ _); [|done]. by intros [= <-].
  - intros routes req e Hu Hm Hp. unfold plain_dispatch.
    destruct (List.find _ _) as [e'|] eqn:E.
    + apply List.find_some in E as [_ E]. apply String.eqb_eq in E. rewrite (Hu e') by congruence. by rewrite Hm.
    + apply (List.find_none _ _) with (x := e) in E; [|destruct e; simpl; tauto].
      by rewrite Hp, String.eqb_refl in E.
  - intros routes req layered r. unfold plain_dispatch. destruct (List.find _ _) as [e'|]; [destruct (method_eqb _ _); [done|]|];
      intros [= _ <-]; unfold is_rejection; simpl; lia.
  - intros req r. unfold plain_json. case_bool_decide; [destruct (read_json _ _); [done|]|]; intros [= <-];
      unfold is_rejection; simpl; lia.
  - intros req. unfold is_rejection. simpl. lia.
  - intros req. unfold is_rejection. simpl. lia.
Defined.

(** ** Witnesses *)

Section AppWitnesses.
#[local] Existing Instances AsciiCase VersionedWatch InsertionOrder TextJson PlainValue CodecText PlainHttp ListEngine.

#[local] Instance deps_app : ScorerDeps := {| find_iter := fun _ _ => []; f64_exp := fun _ => f64_one |}.
#[local] Instance http_app : HttpDeps := {| header_valid := fun _ => true |}.
#[local] Instance serde_app : VaultSerde := DerivedVaultSerde.
#[local] Instance chrono_app : Chrono := {|
  parse_from_rfc3339 := fun s => Err "premature end of input"; to_rfc3339 := fun z => "2026-01-01T00:00:00+00:00" |}.
#[local] Instance order_app : HashOrder :=
  {| iter_order := fun _ l => l; iter_order_perm := fun _ l => Permutation_refl l |}.

(** One provider, a bearer token, a rate limit. *)
Definition guarded_config : Config := {|
  server := {| listen := default_listen; rate_limit_rps := Some 10; auth_token := Some "secret" |};
  database := None; vault := None; providers := [provider_ex "alpha" ["gpt-4o"] 20 0 Frontier];
  policies := {| default_strategy := "cheapest"; rules := [] |};
  logging := LoggingConfig_default; routing := RoutingConfig_default |}.

Definition server_ex : Server := run_server (fun _ _ => Err "offline") guarded_config true true.

Definition completion_ex (token : string) : @HttpRequest PlainHttp := {|
  pr_method := POST; pr_path := "/v1/chat/completions"; pr_query := [];
  pr_headers := [("content-type", "application/json"); ("authorization", "Bearer " +:+ token)];
  pr_body := print_json (SMap [("model", SStr "gpt-4o"); ("messages", SSeq [SMap [("role", SStr "user"); ("content", SStr "hi")]])]) |}.

Definition upstream_app (n : nat) (r : UpstreamRequest) : Duration * result UpstreamReply string :=
  (millis 200, Ok {| up_status := 200; up_status_text := "200 OK";
    up_json := Ok (SMap [("usage", SMap [("prompt_tokens", SInt 100); ("completion_tokens", SInt 50)])]);
    up_text := None; up_stream := [] |}).

Definition post_app (n : nat) (c : VaultCall) : Duration * result VaultReply SendError :=
  (millis 5, Err {| se_timeout_or_connect := true; se_text := "no vault" |}).

Definition world_app : AppWorld :=
  mkApp (sv_registry server_ex) (DbWriter_new RequestsTable_new) World_new [] [] [] 0.

Definition idle_app (n : nat) : Interference := {| if_registry := []; if_writer := []; if_wait := fun _ => (0, []) |}.
Definition clock_app (t : Instant) : string := "2026-01-01T00:00:00Z".
Definition run_app (req : HttpRequest) : Timed AppWorld Reply :=
  app idle_app clock_app upstream_app post_app (fun _ => []) (fun _ _ => (0, true)) (fun _ => millis 1) (fun t => t)
    (fun _ _ => Ok 0%nat) (fun _ => millis 2) server_ex "req-1" req.

Lemma timely_app req :
  timely_world upstream_app post_app (fun _ _ => (0, true)) (fun _ => millis 1) (fun _ => millis 2) 0 (millis 2) req.
Proof. split; intros; cbn; unfold VAULT_TIMEOUT, CLIENT_TIMEOUT, millis, secs; lia. Qed.

(** With the token the provider answers; the reply is a 200 within the bound. *)
Lemma every_http_request_is_answered_witness :
  wp (run_app (completion_ex "secret")) (0, world_app) (fun r st' =>
    answer (completion_ex "secret") r /\
    fst st' <= 0 + 0 + handler_time (fun _ => millis 1) (millis 2) 0 (completion_ex "secret")).
Proof.
  apply (every_http_request_is_answered idle_app clock_app upstream_app post_app (fun _ => []) (fun _ _ => (0, true))
    (fun _ => millis 1) (fun t => t) (fun _ _ => Ok 0%nat) (fun _ => millis 2) 0 (millis 2) 0 server_ex "req-1"
    (completion_ex "secret") 0 world_app).
  - lia.
  - left. split; [apply calm_new|intros n; constructor].
  - apply timely_app.
  - intros p key [<-|[]]. discriminate.
Defined.

Example token_is_asked_for :
  let status r := match fst r with Done reply => Some (rp_status reply) | _ => None end in
  status (run_app (completion_ex "secret") None (0, world_app)) = Some 200 /\
  status (run_app (completion_ex "guess") None (0, world_app)) = Some 401.
Proof. vm_compute. by split. Qed.

(** Without the token nothing happens. *)
Lemma only_admitted_completions_act_witness :
  by_others idle_app world_app (snd (snd (run_app (completion_ex "guess") None (0, world_app)))).
Proof.
  destruct (only_admitted_completions_act idle_app clock_app upstream_app post_app (fun _ => []) (fun _ _ => (0, true))
    (fun _ => millis 1) (fun t => t) (fun _ _ => Ok 0%nat) (fun _ => millis 2) server_ex "req-1" (completion_ex "guess")
    None (0, world_app) (fst (run_app (completion_ex "guess") None (0, world_app)))
    (snd (run_app (completion_ex "guess") None (0, world_app)))) as [Hb|(_ & [Hv|[Ht|(token & Ht & Ha)]] & _)].
  - apply surjective_pairing.
  - exact Hb.
  - by destruct Hv.
  - discriminate Ht.
  - revert Ha. injection Ht as <-. discriminate.
Defined.

End AppWitnesses.
