(* ===== verification/Masks.v ===== *)
(** * What clients see of secrets

    The application of two servers that differ in secrets: the providers' keys, the vault's
    token, the bearer token.  Clients are told the same, up to the masks of [/providers]. *)

From S2P Require Import Prelude Machine RustStr Timed Relational Config Errors Types Router Complexity.
From S2P Require Import CircuitBreaker Retry Storage Vault Http Handlers Frames Agreement.
From S2P Require Import Query Server Cli Serde JsonCodec Wire VaultJson Replies App.

(** ** The application *)

Section Application.
Context `{Watch} `{HttpDeps} `{ScorerDeps} `{UnicodeCase} `{JsonValue} `{!VaultSerde} `{SqlOrder}.
Context `{Chrono} `{SqlEngine} `{HashOrder} `{AxumDeps}.
Context (others : nat -> Interference) (rfc3339 : Instant -> string).
Context (upstream : nat -> UpstreamRequest -> Duration * result UpstreamReply string).
Context (post : nat -> VaultCall -> Duration * result VaultReply SendError).
Context (vault_others : nat -> list PendingSettlement).
Context (throttle : Z -> nat -> Duration * bool) (upload : HttpRequest -> Duration) (utc : Instant -> Z).
Context (query_runs : nat -> Query -> result nat string) (query_time : nat -> Duration).

(** Two servers that differ in secrets: keys that mask to the same text, any vault token, any
    bearer token. *)
Record server_alike (v1 v2 : Server) : Prop := {
  sl_router : Forall2 provider_alike (rt_providers (st_router (sv_state v1))) (rt_providers (st_router (sv_state v2)));
  sl_rules : rt_policy_rules (st_router (sv_state v1)) = rt_policy_rules (st_router (sv_state v2));
  sl_providers : Forall2 provider_alike (providers (st_config (sv_state v1))) (providers (st_config (sv_state v2)));
  sl_routing : routing (st_config (sv_state v1)) = routing (st_config (sv_state v2));
  sl_rate : rate_limit_rps (server (st_config (sv_state v1))) = rate_limit_rps (server (st_config (sv_state v2)));
  sl_writer : st_db_writer (sv_state v1) = st_db_writer (sv_state v2);
  sl_read : sv_read_db v1 = sv_read_db v2;
  sl_vault : option_Forall2 vault_alike (st_vault (sv_state v1)) (st_vault (sv_state v2));
}.

Lemma unkeyed_alike p q : provider_alike p q -> unkeyed p = unkeyed q.
Proof. by intros [-> _]. Qed.

(** Functions of a provider that do not look at its key. *)
Lemma alike_map {B} (f : ProviderConfig -> B) l k :
  (forall p, f p = f (unkeyed p)) -> Forall2 provider_alike l k -> map f l = map f k.
Proof.
  intros Hf. induction 1 as [|p q l k Hpq _ IH]; [done|]. cbn [map].
  by rewrite IH, (Hf p), (Hf q), (unkeyed_alike _ _ Hpq).
Qed.

Lemma alike_fold {B} (f : B -> ProviderConfig -> B) l k :
  (forall b p, f b p = f b (unkeyed p)) -> Forall2 provider_alike l k -> forall b, fold_left f l b = fold_left f k b.
Proof.
  intros Hf. induction 1 as [|p q l k Hpq _ IH]; intros b; [done|]. cbn [fold_left].
  by rewrite IH, (Hf b p), (Hf b q), (unkeyed_alike _ _ Hpq).
Qed.

Lemma alike_exists f l k :
  (forall p, f p = f (unkeyed p)) -> Forall2 provider_alike l k -> existsb f l = existsb f k.
Proof.
  intros Hf. induction 1 as [|p q l k Hpq _ IH]; [done|]. cbn [existsb].
  by rewrite IH, (Hf p), (Hf q), (unkeyed_alike _ _ Hpq).
Qed.

Section Alike_servers.
Context (v1 v2 : Server) (Hv : server_alike v1 v2).

Lemma server_state_alike : state_alike (sv_state v1) (sv_state v2).
Proof.
  split; [split|..]; [|apply (sl_rules _ _ Hv)|apply (sl_routing _ _ Hv)|apply (sl_writer _ _ Hv)|apply (sl_vault _ _ Hv)].
  apply alike_map; [done|apply (sl_router _ _ Hv)].
Qed.

Lemma cost_alike policy request :
  cost_estimate (sv_state v1) policy request = cost_estimate (sv_state v2) policy request.
Proof.
  unfold cost_estimate, select.
  pose proof (select_alike _ _ (model request) policy (user_prompt request) None (sa_router _ _ server_state_alike)) as Hs.
  unfold selection_alike in Hs.
  destruct (select_candidates (st_router (sv_state v1)) _ _ _ _), (select_candidates (st_router (sv_state v2)) _ _ _ _);
    try done; [|by subst].
  destruct Hs as [|c d cs ds Hcd _]; [done|]. cbn [result_bind]. destruct (estimate_tokens _ _).
  injection Hcd as -> _ -> -> -> _. done.
Qed.

Lemma infos_alike : list_providers (sv_state v1) = list_providers (sv_state v2).
Proof.
  unfold list_providers. induction (sl_router _ _ Hv) as [|p q l k [Hq Hk] _ IH]; [done|]. cbn [collect_infos]. rewrite IH.
  unfold provider_info. destruct q as [name url key models ir or bf tier auto]. injection Hq as -> -> -> -> -> -> -> ->.
  cbn [p_api_key p_name p_models p_input_rate p_output_rate p_base_fee p_tier] in *.
  inversion Hk as [a b (m & Ha & Hb) Hp Hq'|Hp Hq']; [|done]. by rewrite Ha, Hb.
Qed.

Lemma model_filter_alike read m :
  validate_model_filter (st_config (sv_state v1)) read m = validate_model_filter (st_config (sv_state v2)) read m.
Proof.
  unfold validate_model_filter. by erewrite (alike_exists _ _ (providers (st_config (sv_state v2)))); [|..|apply (sl_providers _ _ Hv)].
Qed.

Lemma provider_filter_alike read m :
  validate_provider_filter (st_config (sv_state v1)) read m = validate_provider_filter (st_config (sv_state v2)) read m.
Proof.
  unfold validate_provider_filter. by erewrite (alike_exists _ _ (providers (st_config (sv_state v2)))); [|..|apply (sl_providers _ _ Hv)].
Qed.

Lemma opt_filter_alike (f g : string -> result unit Error) o : (forall m, f m = g m) -> validate_opt f o = validate_opt g o.
Proof. intros Hf. destruct o; [apply Hf|done]. Qed.

Lemma stats_alike reads now params :
  stats_handler (st_config (sv_state v1)) reads now params = stats_handler (st_config (sv_state v2)) reads now params.
Proof.
  assert (Hg : forall rows, model_groups (st_config (sv_state v1)) rows = model_groups (st_config (sv_state v2)) rows).
  { intros rows. unfold model_groups, configured_models. rewrite !flat_map_concat_map.
    by rewrite (alike_map p_models _ _ (fun _ => eq_refl) (sl_providers _ _ Hv)). }
  unfold stats_handler. destruct reads as [read|]; [|done]. cbn [ok_or result_bind].
  destruct (resolve_time_range _ _ _ _) as [[since until]|]; [|done]. cbn [result_bind].
  rewrite (opt_filter_alike _ _ _ (model_filter_alike read)), (opt_filter_alike _ _ _ (provider_filter_alike read)).
  destruct (validate_opt _ _); [|done]. cbn [result_bind]. destruct (validate_opt _ _); [|done]. cbn [result_bind].
  destruct (match sq_group_by params with Some gb => _ | None => _ end); [|done]. cbn [result_bind].
  destruct (run_query _ _ _); [|done]. cbn [result_bind].
  destruct (match sq_group_by params with Some gb => String.eqb gb "model" | None => false end); [|done].
  destruct (run_query _ _ _); [|done]. cbn [result_bind]. by rewrite Hg.
Qed.

Lemma logs_alike reads now params :
  logs_handler (st_config (sv_state v1)) reads now params = logs_handler (st_config (sv_state v2)) reads now params.
Proof.
  unfold logs_handler. destruct reads as [read|]; [|done]. cbn [ok_or result_bind].
  destruct (resolve_time_range _ _ _ _) as [[since until]|]; [|done]. cbn [result_bind].
  by rewrite (opt_filter_alike _ _ _ (model_filter_alike read)), (opt_filter_alike _ _ _ (provider_filter_alike read)).
Qed.

Lemma agree_with_json req k1 k2 :
  (forall request, agree same_world eq (k1 request) (k2 request)) ->
  agree same_world eq (with_json others upload req k1) (with_json others upload req k2).
Proof.
  intros Hk. unfold with_json. agree_tac.
Qed.

Lemma agree_read_handler {A} (body : A -> Tree) h :
  (forall reads now, h (st_config (sv_state v1)) reads now = h (st_config (sv_state v2)) reads now) ->
  agree same_world eq (read_handler others utc query_runs query_time v1 body h)
    (read_handler others utc query_runs query_time v2 body h).
Proof.
  intros Hh. unfold read_handler. rewrite (sl_read _ _ Hv). apply agree_bind_eq; [apply agree_now|intros now].
  destruct (sv_read_db v2); [|by rewrite Hh; apply agree_ret]. apply agree_bind_eq; [|intros reads; by rewrite Hh; apply agree_ret].
  unfold run_reads. eapply agree_bind; [apply agree_get|]. intros w1 w2 Hw.
  destruct (same_world_parts _ _ Hw) as (_ & -> & _ & ->). agree_tac.
Qed.

Lemma agree_handle e request_id req :
  (forall n r, upstream n r = upstream n (unsigned r)) ->
  agree same_world eq
    (handle others rfc3339 upstream post vault_others upload utc query_runs query_time v1 e request_id req)
    (handle others rfc3339 upstream post vault_others upload utc query_runs query_time v2 e request_id req).
Proof.
  intros Hup. destruct e; cbn [handle].
  - apply agree_with_json. intros request.
    apply agree_bind_eq; [by apply agree_chat; [|apply server_state_alike]|intros r; by apply agree_ret].
  - unfold list_models. rewrite (alike_fold (fun st p => push_models st (p_models p)) _ _ (fun _ _ => eq_refl) (sl_router _ _ Hv)). by apply agree_ret.
  - apply agree_with_json. intros request. rewrite cost_alike. destruct (cost_estimate _ _ _); [by apply agree_ret|apply agree_panic].
  - unfold with_query. destruct (de_stats_query _); [|by apply agree_ret]. apply agree_read_handler. intros; apply stats_alike.
  - unfold with_query. destruct (de_logs_query _); [|by apply agree_ret]. apply agree_read_handler. intros; apply logs_alike.
  - eapply agree_bind; [apply agree_get|]. intros w1 w2 Hw. destruct (same_world_parts _ _ Hw) as (-> & _).
    unfold health, tier_map.
    rewrite (alike_fold (fun m p => <[p_name p := Tier_to_string (p_tier p)]> m) _ _ (fun _ _ => eq_refl) (sl_router _ _ Hv)).
    destruct (health_status _). by apply agree_ret.
  - rewrite infos_alike. destruct (list_providers _); [by apply agree_ret|apply agree_panic].
Qed.

End Alike_servers.

(** C17: clients learn masks.  Take two servers that differ in secrets only: the provider keys, each
    with one of the same mask, the token of the vault, the bearer token.  If the providers answer
    the same whichever key they are called with, and the bearer check decides the same about a
    request, then whatever the request is and wherever it is cut, its reply is the same at the
    same time, and the breakers, the request log, the vault's books (but for the token its
    calls carry, which [post] does not look at) and the tasks (but for the keys they hold) are
    left the same.  So nothing a client or the log is told depends on
    a secret, but for the mask in the list of providers. *)
Theorem clients_learn_masks (v1 v2 : Server) request_id req :
  server_alike v1 v2 -> (forall n r, upstream n r = upstream n (unsigned r)) ->
  guard_proxy (sv_state v1) (header_str "authorization" req) = guard_proxy (sv_state v2) (header_str "authorization" req) ->
  agree same_world eq
    (app others rfc3339 upstream post vault_others throttle upload utc query_runs query_time v1 request_id req)
    (app others rfc3339 upstream post vault_others throttle upload utc query_runs query_time v2 request_id req).
Proof.
  intros Hv Hup Hg. unfold app, rate_limited. rewrite (sl_rate _ _ Hv).
  assert (Hm : agree same_world eq
    match dispatch endpoint_route req with
    | ToHandler e => guarded (guard_endpoint (sv_state v1) e (h_authorization (request_headers req)))
        (handle others rfc3339 upstream post vault_others upload utc query_runs query_time v1 e request_id req)
    | Fallback layered r => guarded (if layered then guard_proxy (sv_state v1) (h_authorization (request_headers req)) else None) (t_ret r)
    end
    match dispatch endpoint_route req with
    | ToHandler e => guarded (guard_endpoint (sv_state v2) e (h_authorization (request_headers req)))
        (handle others rfc3339 upstream post vault_others upload utc query_runs query_time v2 e request_id req)
    | Fallback layered r => guarded (if layered then guard_proxy (sv_state v2) (h_authorization (request_headers req)) else None) (t_ret r)
    end).
  { unfold guard_endpoint, guarded. cbn [request_headers h_authorization]. rewrite Hg.
    destruct (dispatch _ req) as [e|layered fr]; repeat case_match; try (by apply agree_ret); by apply agree_handle. }
  destruct (rate_limit_rps _) as [rps|]; [|exact Hm]. destruct (0 <? rps)%Z; [|exact Hm].
  eapply agree_bind; [apply agree_get|]. intros w1 w2 Hw. destruct (same_world_parts _ _ Hw) as (_ & _ & _ & ->).
  destruct (throttle _ _) as [d passes]. apply agree_bind_eq; [apply agree_await|intros _].
  apply agree_bind_eq; [apply agree_yield|intros _]. destruct passes; [exact Hm|by apply agree_ret].
Qed.

End Application.

(** ** Witness: two keys with the same mask *)

Section MasksWitness.
#[local] Existing Instances AsciiCase VersionedWatch InsertionOrder TextJson PlainValue CodecText PlainHttp ListEngine
  deps_app http_app serde_app chrono_app order_app.

(** [server_ex] with a key for its provider and no rate limit. *)
Definition keyed_server (key token : string) : Server :=
  let config := {|
    server := {| listen := default_listen; rate_limit_rps := None; auth_token := Some token |};
    database := None; vault := None;
    providers := [{| p_name := "alpha"; p_url := "http://alpha"; p_api_key := Some (mkApiKey key); p_models := ["gpt-4o"];
                     p_input_rate := 1; p_output_rate := 20; p_base_fee := 0; p_tier := Frontier; p_auto_discover := false |}];
    policies := {| default_strategy := "cheapest"; rules := [] |};
    logging := LoggingConfig_default; routing := RoutingConfig_default |} in
  run_server (fun _ _ => Err "offline") config true true.

Definition ask (path : string) : @HttpRequest PlainHttp := {|
  pr_method := GET; pr_path := path; pr_query := []; pr_headers := []; pr_body := "" |}.

Lemma clients_learn_masks_witness :
  let run v := app idle_app clock_app upstream_app post_app (fun _ => []) (fun _ _ => (0, true)) (fun _ => millis 1)
    (fun t => t) (fun _ _ => Ok 0%nat) (fun _ => millis 2) v "req-1" (ask "/providers") in
  agree same_world eq (run (keyed_server "sk-abc-first-key" "one")) (run (keyed_server "sk-abc-other-key" "two")).
Proof.
  apply clients_learn_masks.
  - assert (Hp : Forall2 provider_alike (rt_providers (st_router (sv_state (keyed_server "sk-abc-first-key" "one"))))
                   (rt_providers (st_router (sv_state (keyed_server "sk-abc-other-key" "two"))))).
    { constructor; [|constructor]. split; [reflexivity|]. constructor. eexists. split; vm_compute; reflexivity. }
    split; try reflexivity; [exact Hp|exact Hp|constructor].
  - reflexivity.
  - reflexivity.
Defined.

End MasksWitness.
