(* ===== verification/ConfigFile.v ===== *)
(** * Reading the configuration file ([src/src/config.rs], the derived impls)

    What the TOML parser makes of a file ([parse], third-party) is read into the records of
    [Config] as their attributes say: required members, optional ones, defaults.  Both loaders
    are the same reader, up to the key of a provider. *)

From S2P Require Import Prelude Machine RustStr Config Serde.

Section ConfigFile.
Context `{Format}.

(** ** Sections *)

Definition de_server (t : Tree) : option ServerConfig :=
  slots ← struct_slots ["listen"; "rate_limit_rps"; "auth_token"] t;
  match slots with
  | [l; r; a] =>
      l ← defaulted default_listen de_string l;
      r ← defaulted None (de_opt de_u64) r;
      a ← optional de_string a;
      Some {| listen := l; rate_limit_rps := r; auth_token := a |}
  | _ => None
  end.

Definition de_database (t : Tree) : option DatabaseConfig :=
  slots ← struct_slots ["path"] t;
  match slots with
  | [p] => p ← defaulted default_db_path de_string p; Some {| db_path := p |}
  | _ => None
  end.

Definition tier_variants : list (string * Tier) :=
  [("local", Local); ("standard", Standard); ("frontier", Frontier)].

Definition de_tier : Tree -> option Tier := de_variant tier_variants.
Definition ser_tier (t : Tier) : Tree :=
  SStr (match t with Local => "local" | Standard => "standard" | Frontier => "frontier" end).

Definition de_weights (t : Tree) : option ComplexityWeightsConfig :=
  slots ← struct_slots ["context_length"; "code_blocks"; "multi_file"; "reasoning_keywords";
                        "conversation_depth"; "extra_keywords"] t;
  match slots with
  | [cl; cb; mf; rk; cd; ek] =>
      cl ← defaulted default_weight de_f64 cl;
      cb ← defaulted default_weight de_f64 cb;
      mf ← defaulted default_weight de_f64 mf;
      rk ← defaulted default_weight de_f64 rk;
      cd ← defaulted default_weight de_f64 cd;
      ek ← defaulted [] (de_vec de_string) ek;
      Some {| context_length := cl; code_blocks := cb; multi_file := mf;
              reasoning_keywords := rk; conversation_depth := cd; extra_keywords := ek |}
  | _ => None
  end.

Definition de_routing (t : Tree) : option RoutingConfig :=
  slots ← struct_slots ["complexity_threshold_low"; "complexity_threshold_high";
                        "complexity_weights"] t;
  match slots with
  | [lo; hi; w] =>
      lo ← defaulted default_threshold_low de_f64 lo;
      hi ← defaulted default_threshold_high de_f64 hi;
      w ← defaulted ComplexityWeightsConfig_default de_weights w;
      Some {| complexity_threshold_low := lo; complexity_threshold_high := hi;
              complexity_weights := w |}
  | _ => None
  end.

Definition de_rule (t : Tree) : option PolicyRule :=
  slots ← struct_slots ["name"; "allowed_models"; "strategy"; "max_sats_per_1k_output";
                        "keywords"] t;
  match slots with
  | [n; am; s; m; k] =>
      n ← required de_string n;
      am ← defaulted [] (de_vec de_string) am;
      s ← defaulted default_strategy_name de_string s;
      m ← optional de_u64 m;
      k ← defaulted [] (de_vec de_string) k;
      Some {| r_name := n; r_allowed_models := am; r_strategy := s;
              r_max_sats_per_1k_output := m; r_keywords := k |}
  | _ => None
  end.

(** [#[derive(Default)]]: the empty string, not [default_strategy]. *)
Definition PoliciesConfig_default : PoliciesConfig := {| default_strategy := ""; rules := [] |}.

Definition de_policies (t : Tree) : option PoliciesConfig :=
  slots ← struct_slots ["default_strategy"; "rules"] t;
  match slots with
  | [s; r] =>
      s ← defaulted default_strategy_name de_string s;
      r ← defaulted [] (de_vec de_rule) r;
      Some {| default_strategy := s; rules := r |}
  | _ => None
  end.

Definition de_api_key (t : Tree) : option ApiKey := ApiKey_from <$> de_string t.

Definition de_vault (t : Tree) : option VaultConfig :=
  slots ← struct_slots ["url"; "internal_token"; "default_reserve_tokens";
                        "pending_threshold"] t;
  match slots with
  | [u; i; d; p] =>
      u ← required de_string u;
      i ← required de_api_key i;
      d ← defaulted default_reserve_tokens_value de_u32 d;
      p ← defaulted default_pending_threshold de_u32 p;
      Some {| v_url := u; v_internal_token := i; v_default_reserve_tokens := d;
              v_pending_threshold := p |}
  | _ => None
  end.

Definition default_log_level : string := "info".
Definition default_true : bool := true.

Definition de_logging (t : Tree) : option LoggingConfig :=
  slots ← struct_slots ["level"; "log_requests"] t;
  match slots with
  | [l; r] =>
      l ← defaulted default_log_level de_string l;
      r ← defaulted default_true de_bool r;
      Some {| level := l; log_requests := r |}
  | _ => None
  end.

(** ** Providers *)

Definition provider_fields : list string :=
  ["name"; "url"; "api_key"; "models"; "input_rate"; "output_rate"; "base_fee"; "tier";
   "auto_discover"].

Definition de_provider (t : Tree) : option ProviderConfig :=
  slots ← struct_slots provider_fields t;
  match slots with
  | [n; u; k; m; i; o; b; ti; a] =>
      n ← required de_string n;
      u ← required de_string u;
      k ← optional de_api_key k;
      m ← defaulted [] (de_vec de_string) m;
      i ← defaulted 0 de_u64 i;
      o ← defaulted 0 de_u64 o;
      b ← defaulted 0 de_u64 b;
      ti ← defaulted Tier_default de_tier ti;
      a ← defaulted false de_bool a;
      Some {| p_name := n; p_url := u; p_api_key := k; p_models := m; p_input_rate := i;
              p_output_rate := o; p_base_fee := b; p_tier := ti; p_auto_discover := a |}
  | _ => None
  end.

Definition de_raw_provider (t : Tree) : option RawProviderConfig :=
  slots ← struct_slots provider_fields t;
  match slots with
  | [n; u; k; m; i; o; b; ti; a] =>
      n ← required de_string n;
      u ← required de_string u;
      k ← optional de_string k;
      m ← defaulted [] (de_vec de_string) m;
      i ← defaulted 0 de_u64 i;
      o ← defaulted 0 de_u64 o;
      b ← defaulted 0 de_u64 b;
      ti ← defaulted Tier_default de_tier ti;
      a ← defaulted false de_bool a;
      Some {| rp_name := n; rp_url := u; rp_api_key := k; rp_models := m; rp_input_rate := i;
              rp_output_rate := o; rp_base_fee := b; rp_tier := ti; rp_auto_discover := a |}
  | _ => None
  end.

(** ** The whole file *)

Definition config_fields : list string :=
  ["server"; "database"; "vault"; "providers"; "policies"; "logging"; "routing"].

Definition de_config (t : Tree) : option Config :=
  slots ← struct_slots config_fields t;
  match slots with
  | [s; d; v; ps; po; l; r] =>
      s ← required de_server s;
      d ← optional de_database d;
      v ← optional de_vault v;
      ps ← defaulted [] (de_vec de_provider) ps;
      po ← defaulted PoliciesConfig_default de_policies po;
      l ← defaulted LoggingConfig_default de_logging l;
      r ← defaulted RoutingConfig_default de_routing r;
      Some {| server := s; database := d; vault := v; providers := ps; policies := po;
              logging := l; routing := r |}
  | _ => None
  end.

Definition de_raw_config (t : Tree) : option RawConfig :=
  slots ← struct_slots config_fields t;
  match slots with
  | [s; d; v; ps; po; l; r] =>
      s ← required de_server s;
      d ← optional de_database d;
      v ← optional de_vault v;
      ps ← defaulted [] (de_vec de_raw_provider) ps;
      po ← defaulted PoliciesConfig_default de_policies po;
      l ← defaulted LoggingConfig_default de_logging l;
      r ← defaulted RoutingConfig_default de_routing r;
      Some {| raw_server := s; raw_database := d; raw_vault := v; raw_providers := ps;
              raw_policies := po; raw_logging := l; raw_routing := r |}
  | _ => None
  end.

(** [toml::from_str]: a text that does not parse, or whose tree is not the record.  The text of
    the latter error is [de_error]'s, one for each record: [serde] names the struct it wanted. *)
Definition toml_from {A} (parse : string -> result Tree string) (de_error : string -> string)
    (de : Tree -> option A) (content : string) : result A string :=
  let? t := parse content in ok_or (de t) (de_error content).

(** ** The two loaders read the same file *)

(** A raw provider with its key taken as it is. *)
Definition literal_provider (rp : RawProviderConfig) : ProviderConfig :=
  provider_of_raw rp (ApiKey_from <$> rp_api_key rp).

Definition literal_config (raw : RawConfig) : Config := {|
  server := raw_server raw; database := raw_database raw; vault := raw_vault raw;
  providers := map literal_provider (raw_providers raw); policies := raw_policies raw;
  logging := raw_logging raw; routing := raw_routing raw |}.

Lemma optional_fmap {A B} (f : A -> B) (de : Tree -> option A) (s : Slot) :
  optional (fun t => option_map f (de t)) s = option_map (option_map f) (optional de s).
Proof. destruct s as [t| |]; [|done..]. simpl. unfold de_opt. destruct t; try done; by destruct (de _). Qed.

(** [bind_cases] destructs the reads of a goal in order. *)
Ltac bind_cases :=
  repeat match goal with
  | |- context [mbind _ ?x] => destruct x; cbn [mbind option_bind fmap option_fmap option_map]; [|done]
  end.

Lemma de_provider_raw t : de_provider t = literal_provider <$> de_raw_provider t.
Proof.
  unfold de_provider, de_raw_provider. destruct (struct_slots provider_fields t) as [slots|]; [|done].
  cbn [mbind option_bind].
  destruct slots as [|n [|u [|k [|m [|i [|o [|b [|ti [|a [|]]]]]]]]]]; try done.
  change (optional de_api_key) with (optional (fun t => option_map ApiKey_from (de_string t))).
  rewrite optional_fmap. bind_cases. done.
Qed.

Lemma mapM_fmap_out {A B C} (f : B -> C) (g : A -> option B) l :
  mapM (fun x => option_map f (g x)) l = option_map (map f) (mapM g l).
Proof.
  induction l as [|x l IH]; [done|]. simpl. destruct (g x); [|done]. simpl. rewrite IH.
  by destruct (mapM g l).
Qed.

Lemma de_config_raw t : de_config t = literal_config <$> de_raw_config t.
Proof.
  unfold de_config, de_raw_config. destruct (struct_slots config_fields t) as [slots|]; [|done].
  cbn [mbind option_bind].
  destruct slots as [|s [|d [|v [|ps [|po [|l [|r [|]]]]]]]]; try done.
  assert (Hp : defaulted [] (de_vec de_provider) ps
               = map literal_provider <$> defaulted [] (de_vec de_raw_provider) ps).
  { destruct ps as [t0| |]; [|done..]. cbn [defaulted]. destruct t0; try done. cbn [de_vec].
    rewrite <- mapM_fmap_out. apply mapM_ext. apply de_provider_raw. }
  rewrite Hp. bind_cases. done.
Qed.

(** The environment has no say: a key is literal, or there is none and none is set. *)
Definition env_free `{UnicodeCase} (env_var : string -> option string) (rp : RawProviderConfig) : Prop :=
  match rp_api_key rp with
  | Some k => str_contains k "${" = false
  | None => env_var (convention_env_var_name (rp_name rp)) = None
  end.

Definition source_of (rp : RawProviderConfig) : KeySource :=
  match rp_api_key rp with Some _ => Literal | None => NoKey end.

Lemma providers_of_raw_free `{UnicodeCase} env_var rps :
  Forall (env_free env_var) rps ->
  providers_of_raw rps env_var
  = Ok (map literal_provider rps, map (fun rp => (rp_name rp, source_of rp)) rps).
Proof.
  induction 1 as [|rp rps Hf HF IH]; [done|]. cbn [providers_of_raw map]. rewrite IH.
  unfold env_free, literal_provider, source_of, resolve_api_key in *.
  destruct (rp_api_key rp); by rewrite Hf.
Qed.

(** The two loaders fail the same way: with the same error, or, when the file is TOML but not a
    configuration, each with the text for its own record. *)
Definition same_failure (read_to_string : string -> result string string)
    (parse : string -> result Tree string) (raw_error config_error : string -> string)
    (path : string) (e e' : ConfigError) : Prop :=
  e = e' \/
  exists content t, read_to_string path = Ok content /\ parse content = Ok t /\
    e = ConfigParse (raw_error content) /\ e' = ConfigParse (config_error content).

(** C20: when the environment has no say, the loader that looks at it and the one that does not
    agree.  Either both load, the same configuration, and the first says of each provider
    whether its key was in the file; or both fail, for the same reason: a file that is not read,
    that is not TOML, that is not a configuration (here the texts may differ, since [serde]
    names the struct it wanted), or that is not valid. *)
Theorem loaders_agree `{UnicodeCase} (read_to_string : string -> result string string)
    (parse : string -> result Tree string) (raw_error config_error : string -> string)
    (env_var : string -> option string) (path : string) :
  (forall content raw, read_to_string path = Ok content ->
     toml_from parse raw_error de_raw_config content = Ok raw ->
     Forall (env_free env_var) (raw_providers raw)) ->
  match from_file_with_env read_to_string env_var (toml_from parse raw_error de_raw_config) path,
        from_file read_to_string (toml_from parse config_error de_config) path with
  | Ok (c, sources), Ok c' =>
      c = c' /\ sources = map (fun p => (p_name p, if p_api_key p then Literal else NoKey)) (providers c)
  | Err e, Err e' => same_failure read_to_string parse raw_error config_error path e e'
  | _, _ => False
  end.
Proof.
  intros Hfree. unfold from_file_with_env, from_file, same_failure.
  destruct (read_to_string path) as [content|e]; [|by left]. cbn [map_err result_bind].
  specialize (Hfree content). unfold parse_str, toml_from in *.
  destruct (parse content) as [t|e] eqn:Ep; [|by left]. cbn [result_bind] in *. rewrite de_config_raw.
  destruct (de_raw_config t) as [raw|]; [|right; by exists content, t].
  cbn [ok_or fmap option_fmap option_map map_err result_bind]. specialize (Hfree raw eq_refl eq_refl).
  unfold from_raw, from_raw_with_lookup. rewrite providers_of_raw_free by done.
  cbn [result_bind]. fold (literal_config raw).
  destruct (validate (literal_config raw)); [|by left]. cbn [result_bind]. split; [done|].
  unfold literal_config. cbn [providers]. rewrite map_map. apply map_ext. intros rp.
  unfold source_of, literal_provider. cbn. by destruct (rp_api_key rp).
Qed.

(** ** Defaults *)

(** A section that is left out is an empty one, and so is [complexity_weights]... *)
Lemma absent_section_is_empty :
  de_logging (SMap []) = Some LoggingConfig_default /\
  de_routing (SMap []) = Some RoutingConfig_default /\
  de_weights (SMap []) = Some ComplexityWeightsConfig_default /\
  de_database (SMap []) = Some DatabaseConfig_default.
Proof. done. Qed.

(** ... but not [policies], whose default strategy is then empty. *)
Example absent_policies_have_no_strategy :
  (default_strategy <$> de_policies (SMap [])) = Some "cheapest" /\
  default_strategy PoliciesConfig_default = "".
Proof. done. Qed.

(** Tiers are written in lower case and read back. *)
Lemma inverts_tier : inverts de_tier ser_tier (fun _ => True).
Proof. by intros [] _. Qed.

End ConfigFile.

(** ** Witnesses *)

Section ConfigFileWitnesses.
#[local] Existing Instances AsciiCase TomlFormat.

Definition file_ex : Tree :=
  SMap [("server", SMap [("listen", SStr "127.0.0.1:9000")]);
        ("providers", SSeq [SMap [("name", SStr "alpha"); ("url", SStr "https://a/v1");
                                  ("api_key", SStr "sk-1"); ("tier", SStr "local")];
                            SMap [("name", SStr "beta"); ("url", SStr "https://b/v1")]])].

Definition read_ex (path : string) : result string string := Ok "...".
Definition parse_ex (content : string) : result Tree string := Ok file_ex.

Definition raw_error_ex (content : string) : string := "expected struct RawConfig".
Definition config_error_ex (content : string) : string := "expected struct Config".

Lemma loaders_agree_witness :
  exists c,
    from_file_with_env read_ex (fun _ => None) (toml_from parse_ex raw_error_ex de_raw_config) "config.toml"
    = Ok (c, [("alpha", Literal); ("beta", NoKey)]) /\
    from_file read_ex (toml_from parse_ex config_error_ex de_config) "config.toml" = Ok c.
Proof.
  assert (Ha : match from_file_with_env read_ex (fun _ => None) (toml_from parse_ex raw_error_ex de_raw_config)
                       "config.toml",
                     from_file read_ex (toml_from parse_ex config_error_ex de_config) "config.toml" with
               | Ok (c, sources), Ok c' =>
                   c = c' /\ sources = map (fun p => (p_name p, if p_api_key p then Literal else NoKey)) (providers c)
               | Err e, Err e' => same_failure read_ex parse_ex raw_error_ex config_error_ex "config.toml" e e'
               | _, _ => False
               end).
  { apply loaders_agree. intros content raw Hr. injection Hr as <-. intros Hraw. injection Hraw as <-.
    repeat constructor. }
  destruct (from_file_with_env _ _ _ _) as [[c sources]|e] eqn:E; [|discriminate E].
  destruct (from_file _ _ _) as [c'|e'] eqn:E'; [|discriminate E'].
  destruct Ha as [<- ->]. exists c. split; [|done].
  injection E as <-. reflexivity.
Defined.

End ConfigFileWitnesses.
