(* ===== verification/BreakerTests.v ===== *)
(** * The tests of [proxy/circuit_breaker.rs], on the model

    The tests of one breaker mutate it in place; those of the registry share it with the
    tasks they spawn, which run until they wait when the test yields, and are polled again
    when the test joins them. *)

From S2P Require Import Prelude Machine RustStr Timed CircuitBreaker Testing.

Open Scope test_scope.

#[local] Existing Instance VersionedWatch.

#[export] Instance LastError_eq_dec : EqDecision LastError.
Proof. solve_decision. Defined.

#[export] Instance CircuitOpenError_eq_dec : EqDecision CircuitOpenError.
Proof. solve_decision. Defined.

(** ** One breaker *)

Module Breaker.

Abbreviation BreakerTest := (Timed CircuitBreakerInner).

Definition do_failure (etype message : string) : BreakerTest unit :=
  let! now := t_now in t_modify (record_failure_inner now etype message).
Definition do_success : BreakerTest unit :=
  let! now := t_now in t_modify (record_success_inner now).
Definition do_probe_success : BreakerTest unit :=
  let! now := t_now in t_modify (record_probe_success_inner now).
Definition do_probe_failure (etype message : string) : BreakerTest unit :=
  let! now := t_now in t_modify (record_probe_failure_inner now etype message).
Definition do_check : BreakerTest CheckResult :=
  let! now := t_now in
  let! cb := t_get in
  let! _ := t_modify (fun cb => snd (check_state now cb)) in
  t_ret (fst (check_state now cb)).

(** [CircuitBreakerInner::new()] *)
Definition new_breaker : BreakerTest unit := t_modify (fun _ => CircuitBreakerInner_new).

(** An assertion on the breaker. *)
Definition assert_cb {A} `{EqDecision A} (field : CircuitBreakerInner -> A) (x : A)
    : BreakerTest unit :=
  let! cb := t_get in assert_eq (field cb) x.

Definition trip_circuit : BreakerTest unit :=
  t_for (seq 0 (Z.to_nat FAILURE_THRESHOLD)) (fun _ =>
    do_failure "5xx" "Internal Server Error").

Definition test_initial_state : BreakerTest unit :=
  new_breaker >>;
  assert_cb state Closed >>;
  assert_cb failure_count 0 >>;
  assert_cb trip_count 0 >>;
  assert_cb (fun cb => is_none (opened_at cb)) true >>;
  assert_cb (fun cb => is_none (last_failure_time cb)) true >>;
  assert_cb (fun cb => is_none (last_success_time cb)) true >>;
  assert_cb (fun cb => is_none (last_error cb)) true >>;
  assert_cb probe_in_flight false.

Definition test_single_failure_stays_closed : BreakerTest unit :=
  new_breaker >>;
  do_failure "5xx" "Internal Server Error" >>;
  assert_cb state Closed >>;
  assert_cb failure_count 1 >>;
  assert_cb trip_count 0.

Definition test_two_failures_stays_closed : BreakerTest unit :=
  new_breaker >>;
  do_failure "5xx" "Bad Gateway" >>;
  do_failure "timeout" "Request timed out" >>;
  assert_cb state Closed >>;
  assert_cb failure_count 2 >>;
  assert_cb trip_count 0.

Definition test_three_failures_opens_circuit : BreakerTest unit :=
  new_breaker >>;
  trip_circuit >>;
  assert_cb state Open >>;
  assert_cb failure_count FAILURE_THRESHOLD >>;
  assert_cb trip_count 1 >>;
  assert_cb (fun cb => is_some (opened_at cb)) true.

Definition test_success_resets_failure_count : BreakerTest unit :=
  new_breaker >>;
  do_failure "5xx" "Error 1" >>;
  do_failure "5xx" "Error 2" >>;
  assert_cb failure_count 2 >>;
  do_success >>;
  assert_cb failure_count 0 >>;
  assert_cb state Closed >>;
  do_failure "5xx" "Error 3" >>;
  do_failure "5xx" "Error 4" >>;
  assert_cb state Closed >>;
  assert_cb failure_count 2 >>;
  assert_cb trip_count 0.

Definition test_open_rejects_requests : BreakerTest unit :=
  new_breaker >>;
  trip_circuit >>;
  assert_cb state Open >>;
  let! result := do_check in
  assert_eq result Rejected >>;
  assert_cb state Open.

Definition test_open_transitions_to_half_open_after_timeout : BreakerTest unit :=
  new_breaker >>;
  trip_circuit >>;
  assert_cb state Open >>;
  t_await (secs 31) >>;
  let! result := do_check in
  assert_eq result ProbePermit >>;
  assert_cb state HalfOpen.

Definition test_open_stays_open_before_timeout : BreakerTest unit :=
  new_breaker >>;
  trip_circuit >>;
  assert_cb state Open >>;
  t_await (secs 29) >>;
  let! result := do_check in
  assert_eq result Rejected >>;
  assert_cb state Open.

Definition test_half_open_single_probe_permit : BreakerTest unit :=
  new_breaker >>;
  trip_circuit >>;
  t_await (secs 31) >>;
  let! first := do_check in
  assert_eq first ProbePermit >>;
  assert_cb state HalfOpen >>;
  let! second := do_check in
  assert_eq second WaitForProbe.

Definition test_probe_success_closes_circuit : BreakerTest unit :=
  new_breaker >>;
  trip_circuit >>;
  t_await (secs 31) >>;
  let! result := do_check in
  assert_eq result ProbePermit >>;
  do_probe_success >>;
  assert_cb state Closed >>;
  assert_cb failure_count 0 >>;
  assert_cb probe_in_flight false >>;
  assert_cb (fun cb => is_some (last_success_time cb)) true.

Definition test_probe_failure_reopens_circuit : BreakerTest unit :=
  new_breaker >>;
  trip_circuit >>;
  t_await (secs 31) >>;
  let! _ := do_check in
  let! before := t_get in
  do_probe_failure "5xx" "Still broken" >>;
  assert_cb state Open >>;
  assert_cb probe_in_flight false >>;
  assert_cb (fun cb => is_some (opened_at cb)) true >>;
  let! after := t_get in
  assert_ne (opened_at after) (opened_at before).

Definition test_probe_failure_resets_timer : BreakerTest unit :=
  new_breaker >>;
  trip_circuit >>;
  t_await (secs 31) >>;
  let! _ := do_check in
  assert_cb state HalfOpen >>;
  do_probe_failure "5xx" "Still down" >>;
  assert_cb state Open >>;
  t_await (secs 31) >>;
  let! result := do_check in
  assert_eq result ProbePermit >>;
  assert_cb state HalfOpen.

Definition test_trip_count_increments : BreakerTest unit :=
  new_breaker >>;
  trip_circuit >>;
  assert_cb trip_count 1 >>;
  t_await (secs 31) >>;
  let! _ := do_check in
  do_probe_success >>;
  assert_cb state Closed >>;
  assert_cb trip_count 1 >>;
  trip_circuit >>;
  assert_cb state Open >>;
  assert_cb trip_count 2.

Definition test_last_error_tracked : BreakerTest unit :=
  new_breaker >>;
  do_failure "5xx" "First error" >>;
  assert_cb last_error (Some {| error_type := "5xx"; le_message := "First error" |}) >>;
  do_failure "timeout" "Second error" >>;
  assert_cb last_error (Some {| error_type := "timeout"; le_message := "Second error" |}).

Definition test_timestamps_tracked : BreakerTest unit :=
  new_breaker >>;
  do_failure "5xx" "Error" >>;
  assert_cb (fun cb => is_some (last_failure_time cb)) true >>;
  do_success >>;
  assert_cb (fun cb => is_some (last_success_time cb)) true >>;
  trip_circuit >>;
  assert_cb (fun cb => is_some (opened_at cb)) true >>;
  let! cb := t_get in
  let! opened_at := opt_unwrap (opened_at cb) in
  let! now := t_now in
  assert (duration_since now opened_at <? secs 1).

Definition test_check_result_values : BreakerTest unit :=
  assert_ne Allowed ProbePermit >>;
  assert_ne Allowed WaitForProbe >>;
  assert_ne Allowed Rejected >>;
  assert_ne ProbePermit WaitForProbe >>;
  assert_ne ProbePermit Rejected >>;
  assert_ne WaitForProbe Rejected >>;
  new_breaker >>;
  let! result := do_check in
  assert_eq result Allowed.

Definition suite : list (BreakerTest unit) :=
  [test_initial_state; test_single_failure_stays_closed; test_two_failures_stays_closed;
   test_three_failures_opens_circuit; test_success_resets_failure_count;
   test_open_rejects_requests; test_open_transitions_to_half_open_after_timeout;
   test_open_stays_open_before_timeout; test_half_open_single_probe_permit;
   test_probe_success_closes_circuit; test_probe_failure_reopens_circuit;
   test_probe_failure_resets_timer; test_trip_count_increments; test_last_error_tracked;
   test_timestamps_tracked; test_check_result_values].

Example suite_passes : forallb (passes_from CircuitBreakerInner_new) suite = true.
Proof. vm_compute. reflexivity. Qed.

End Breaker.

(** ** The registry *)

Module Shared.

(** A spawned [acquire_permit]: not run yet, or run until its first await. *)
Inductive Task :=
| Queued (provider : string)
| Started (provider : string) (a : Acquire).

Record World := { w_registry : Registry; w_tasks : list Task }.

Definition World_new (names : list string) : World :=
  {| w_registry := Registry_new names; w_tasks := [] |}.

Abbreviation RegistryTest := (Timed World).

(** [CircuitBreakerRegistry::new(&names)] *)
Definition new_registry (names : list string) : RegistryTest unit :=
  t_modify (fun _ => World_new names).

Definition on_registry (f : Instant -> Registry -> Registry) : RegistryTest unit :=
  let! now := t_now in
  t_modify (fun w => {| w_registry := f now (w_registry w); w_tasks := w_tasks w |}).

Definition start (provider : string) : RegistryTest Acquire :=
  let! now := t_now in
  let! w := t_get in
  let '(a, registry') := acquire_start now provider (w_registry w) in
  on_registry (fun _ _ => registry') >>; t_ret a.

(** The rest of an [acquire_permit] whose first part gave [a]; nobody else runs. *)
Definition finish (provider : string) (a : Acquire) : RegistryTest (result PermitType CircuitOpenError) :=
  match a with
  | Resolved r => t_ret r
  | Waiting rx reason trips =>
      let! w := t_get in
      match acquire_poll provider rx reason trips (w_registry w) with
      | Some r => t_ret r
      | None => t_hang
      end
  end.

Definition acquire_permit (provider : string) : RegistryTest (result PermitType CircuitOpenError) :=
  let! a := start provider in finish provider a.

(** [tokio::spawn]: the handle is the task's position. *)
Definition spawn (provider : string) : RegistryTest nat :=
  let! w := t_get in
  t_modify (fun w => {| w_registry := w_registry w; w_tasks := w_tasks w ++ [Queued provider] |}) >>;
  t_ret (length (w_tasks w)).

Definition run_task (i : nat) : RegistryTest unit :=
  let! w := t_get in
  match w_tasks w !! i with
  | Some (Queued provider) =>
      let! a := start provider in
      t_modify (fun w => {| w_registry := w_registry w;
                            w_tasks := <[i := Started provider a]> (w_tasks w) |})
  | _ => t_ret tt
  end.

(** [yield_now]: the tasks in the queue of the runtime run until they wait. *)
Definition yield_now : RegistryTest unit :=
  let! w := t_get in t_for (seq 0 (length (w_tasks w))) run_task.

Definition join (i : nat) : RegistryTest (result PermitType CircuitOpenError) :=
  run_task i >>;
  let! w := t_get in
  match w_tasks w !! i with
  | Some (Started provider a) => finish provider a
  | _ => t_panic
  end.

Definition assert_state (provider : string) (s : CircuitState) : RegistryTest unit :=
  let! w := t_get in assert_eq (reg_state (w_registry w) provider) (Some s).

Definition assert_failures (provider : string) (n : Z) : RegistryTest unit :=
  let! w := t_get in assert_eq (reg_failure_count (w_registry w) provider) (Some n).

Definition fail (message : string) : RegistryTest unit :=
  on_registry (fun now => record_failure now "alpha" "5xx" message).

Definition trip_registry (provider : string) : RegistryTest unit :=
  t_for (seq 0 (Z.to_nat FAILURE_THRESHOLD)) (fun _ =>
    on_registry (fun now => record_failure now provider "5xx" "Internal Server Error")).

(** How the tests of probes begin: the provider trips, the window passes, and the test gets
    the probe permit. *)
Definition take_probe : RegistryTest unit :=
  trip_registry "alpha" >>;
  t_await (secs 31) >>;
  let! result := acquire_permit "alpha" in
  let! permit := unwrap result in
  assert_eq permit Probe.

Definition expect_normal (r : result PermitType CircuitOpenError) : RegistryTest unit :=
  assert (is_ok r) >>;
  let! permit := unwrap r in
  assert_eq permit Normal.

Definition test_registry_new_creates_breakers : RegistryTest unit :=
  new_registry ["alpha"; "beta"; "gamma"] >>;
  assert_state "alpha" Closed >>;
  assert_state "beta" Closed >>;
  assert_state "gamma" Closed.

Definition test_registry_unknown_provider_allowed : RegistryTest unit :=
  new_registry ["alpha"] >>;
  let! result := acquire_permit "unknown-provider" in
  expect_normal result.

Definition test_registry_acquire_permit_closed : RegistryTest unit :=
  new_registry ["alpha"] >>;
  let! result := acquire_permit "alpha" in
  expect_normal result.

Definition test_registry_acquire_permit_open_rejected : RegistryTest unit :=
  new_registry ["alpha"] >>;
  trip_registry "alpha" >>;
  let! result := acquire_permit "alpha" in
  assert (is_err result) >>;
  let! err := unwrap_err result in
  assert_eq (coe_provider err) "alpha" >>;
  assert_eq (coe_trip_count err) 1.

Definition test_registry_record_success_resets : RegistryTest unit :=
  new_registry ["alpha"] >>;
  fail "Error 1" >>;
  fail "Error 2" >>;
  assert_failures "alpha" 2 >>;
  on_registry (fun now => record_success now "alpha") >>;
  assert_failures "alpha" 0 >>;
  fail "Error 3" >>;
  fail "Error 4" >>;
  assert_state "alpha" Closed >>;
  assert_failures "alpha" 2.

Definition test_registry_probe_permit_after_timeout : RegistryTest unit :=
  new_registry ["alpha"] >>;
  trip_registry "alpha" >>;
  t_await (secs 31) >>;
  let! result := acquire_permit "alpha" in
  assert (is_ok result) >>;
  let! permit := unwrap result in
  assert_eq permit Probe >>;
  assert_state "alpha" HalfOpen.

Definition test_registry_queue_and_wait_success : RegistryTest unit :=
  new_registry ["alpha"] >>;
  take_probe >>;
  let! waiter := spawn "alpha" in
  yield_now >>;
  on_registry (fun now => record_probe_success now "alpha") >>;
  let! waiter_result := join waiter in
  expect_normal waiter_result.

Definition test_registry_queue_and_wait_failure : RegistryTest unit :=
  new_registry ["alpha"] >>;
  take_probe >>;
  let! waiter := spawn "alpha" in
  yield_now >>;
  on_registry (fun now => record_probe_failure now "alpha" "5xx" "Still broken") >>;
  let! waiter_result := join waiter in
  assert (is_err waiter_result) >>;
  let! err := unwrap_err waiter_result in
  assert_eq (coe_provider err) "alpha".

Definition test_registry_multiple_waiters : RegistryTest unit :=
  new_registry ["alpha"] >>;
  take_probe >>;
  t_for (seq 0 5) (fun _ => let! _ := spawn "alpha" in t_ret tt) >>;
  yield_now >>;
  on_registry (fun now => record_probe_success now "alpha") >>;
  t_for (seq 0 5) (fun waiter => let! result := join waiter in expect_normal result).

Definition test_probe_guard_success : RegistryTest unit :=
  new_registry ["alpha"] >>;
  take_probe >>;
  on_registry (fun now => guard_success now (ProbeGuard_new "alpha")) >>;
  assert_state "alpha" Closed.

Definition test_probe_guard_failure : RegistryTest unit :=
  new_registry ["alpha"] >>;
  take_probe >>;
  on_registry (fun now => guard_failure now (ProbeGuard_new "alpha") "5xx" "Still broken") >>;
  assert_state "alpha" Open.

Definition test_probe_guard_drop_without_resolution : RegistryTest unit :=
  new_registry ["alpha"] >>;
  take_probe >>;
  on_registry (fun now => guard_drop now (ProbeGuard_new "alpha")) >>;
  assert_state "alpha" Open.

Definition test_probe_result_reset_prevents_stale : RegistryTest unit :=
  new_registry ["alpha"] >>;
  take_probe >>;
  on_registry (fun now => record_probe_success now "alpha") >>;
  assert_state "alpha" Closed >>;
  trip_registry "alpha" >>;
  assert_state "alpha" Open >>;
  t_await (secs 31) >>;
  let! result := acquire_permit "alpha" in
  let! permit := unwrap result in
  assert_eq permit Probe >>;
  let! waiter := spawn "alpha" in
  yield_now >>;
  on_registry (fun now => record_probe_failure now "alpha" "5xx" "Down again") >>;
  let! waiter_result := join waiter in
  assert (is_err waiter_result).

Definition suite : list (RegistryTest unit) :=
  [test_registry_new_creates_breakers;
   test_registry_unknown_provider_allowed; test_registry_acquire_permit_closed;
   test_registry_acquire_permit_open_rejected; test_registry_record_success_resets;
   test_registry_probe_permit_after_timeout; test_registry_queue_and_wait_success;
   test_registry_queue_and_wait_failure; test_registry_multiple_waiters;
   test_probe_guard_success; test_probe_guard_failure;
   test_probe_guard_drop_without_resolution; test_probe_result_reset_prevents_stale].

Example registry_suite_passes : forallb (passes_from (World_new [])) suite = true.
Proof. vm_compute. reflexivity. Qed.

(** Without the probe's resolution the waiter of these tests hangs. *)
Example unresolved_waiter_hangs :
  fst ((take_probe >>; let! waiter := spawn "alpha" in yield_now >>; join waiter)
         None (0, World_new ["alpha"])) = Hung.
Proof. vm_compute. reflexivity. Qed.

End Shared.
