(* ===== verification/RouterTests.v ===== *)
(** * The tests of [router/selector.rs], on the model *)

From S2P Require Import Prelude Machine RustStr Timed Config Errors Router Testing.

Open Scope test_scope.

#[local] Existing Instance AsciiCase.

(** A provider of the tests: no key, nothing discovered. *)
Definition provider (name url : string) (models : list string) (input_rate output_rate base_fee : Z)
    (tier : Tier) : ProviderConfig := {|
  p_name := name; p_url := url; p_api_key := None; p_models := models;
  p_input_rate := input_rate; p_output_rate := output_rate; p_base_fee := base_fee;
  p_tier := tier; p_auto_discover := false |}.

Definition test_providers : list ProviderConfig :=
  [provider "cheap" "https://cheap.example.com/v1" ["gpt-4o"; "gpt-4o-mini"] 5 15 0 Tier_default;
   provider "expensive" "https://expensive.example.com/v1" ["gpt-4o"; "claude-3.5-sonnet"] 10 30 1
     Tier_default].

Definition tiered_providers : list ProviderConfig :=
  [provider "local-cheap" "https://local.example.com/v1" ["gpt-4o"] 1 5 0 Local;
   provider "standard-mid" "https://standard.example.com/v1" ["gpt-4o"] 5 15 1 Standard;
   provider "frontier-expensive" "https://frontier.example.com/v1" ["gpt-4o"] 10 30 2 Frontier].

Definition router_of (ps : list ProviderConfig) : Router := Router_new ps [] "cheapest".

(** [router.select(..).unwrap()]; a panic of [select] is one of the test. *)
Definition do_select (rt : Router) (model : string) (prompt : option string)
    : Timed unit SelectedProvider :=
  let! r := opt_unwrap (select rt model None prompt None) in unwrap r.

Definition do_candidates (rt : Router) (max_tier : option Tier) : Timed unit (list SelectedProvider) :=
  unwrap (select_candidates rt "gpt-4o" None None max_tier).

Definition names (cs : list SelectedProvider) : list string := map sp_name cs.

Definition test_select_cheapest : Test :=
  let! selected := do_select (router_of test_providers) "gpt-4o" None in
  assert_eq (sp_name selected) "cheap".

Definition test_no_providers_for_model : Test :=
  assert match select (router_of test_providers) "nonexistent-model" None None None with
         | Some (Err (NoProviders _)) => true
         | _ => false
         end.

Definition test_base_fee_affects_cheapest_selection : Test :=
  let rt := router_of
    [provider "low-rate-high-fee" "https://a.example.com/v1" ["gpt-4o"] 5 10 8 Tier_default;
     provider "high-rate-no-fee" "https://b.example.com/v1" ["gpt-4o"] 8 15 0 Tier_default] in
  let! selected := do_select rt "gpt-4o" None in
  assert_eq (sp_name selected) "high-rate-no-fee".

Definition test_actual_cost_calculation : Test :=
  assert (f64_near (actual_cost_sats 100 200 10 30 1) (f64_of_Z 8)) >>;
  assert (f64_near (actual_cost_sats 10 5 5 15 0) (f64_lit 125 1000)) >>;
  assert (f64_near (actual_cost_sats 0 0 10 30 5) (f64_of_Z 5)) >>;
  assert (f64_near (actual_cost_sats 1000 1000 10 30 0) (f64_of_Z 40)).

Definition test_actual_cost_fractional_sats : Test :=
  let cost := actual_cost_sats 10 5 5 15 0 in
  assert (f64_gtb cost f64_zero) >>;
  assert (f64_near cost (f64_lit 125 1000)).

Definition test_policy_keyword_matching : Test :=
  let policies :=
    [{| r_name := "code"; r_allowed_models := ["gpt-4o"]; r_strategy := "lowest_cost";
        r_max_sats_per_1k_output := Some 20; r_keywords := ["function"; "code"] |}] in
  let rt := Router_new test_providers policies "cheapest" in
  let! selected := do_select rt "gpt-4o" (Some "Write a function to sort") in
  assert_eq (sp_name selected) "cheap".

Definition test_select_candidates_returns_ordered_list : Test :=
  let rt := router_of
    [provider "medium" "https://medium.example.com/v1" ["gpt-4o"] 8 20 5 Tier_default;
     provider "cheapest" "https://cheapest.example.com/v1" ["gpt-4o"] 3 10 0 Tier_default;
     provider "pricey" "https://pricey.example.com/v1" ["gpt-4o"] 15 40 10 Tier_default] in
  let! candidates := do_candidates rt None in
  assert_eq (length candidates) 3%nat >>;
  assert_eq (names candidates) ["cheapest"; "medium"; "pricey"].

Definition test_select_candidates_deduplicates_by_name : Test :=
  let rt := router_of
    [provider "alpha" "https://alpha-expensive.example.com/v1" ["gpt-4o"] 10 30 5 Tier_default;
     provider "alpha" "https://alpha-cheap.example.com/v1" ["gpt-4o"] 3 10 0 Tier_default;
     provider "beta" "https://beta.example.com/v1" ["gpt-4o"] 5 15 2 Tier_default] in
  let! candidates := do_candidates rt None in
  assert_eq (length candidates) 2%nat >>;
  let! first := t_index candidates 0 in
  assert_eq (sp_name first) "alpha" >>;
  assert_eq (sp_output_rate first) 10 >>;
  let! second := t_index candidates 1 in
  assert_eq (sp_name second) "beta".

Definition test_select_delegates_to_candidates : Test :=
  let rt := router_of test_providers in
  let! selected := do_select rt "gpt-4o" None in
  let! candidates := do_candidates rt None in
  let! first := t_index candidates 0 in
  assert_eq (sp_name selected) (sp_name first) >>;
  assert_eq (sp_url selected) (sp_url first) >>;
  assert_eq (sp_output_rate selected) (sp_output_rate first) >>;
  assert_eq (sp_base_fee selected) (sp_base_fee first).

Definition test_select_candidates_filters_by_model : Test :=
  let rt := router_of
    [provider "has-model" "https://a.example.com/v1" ["gpt-4o"] 5 15 0 Tier_default;
     provider "no-model" "https://b.example.com/v1" ["claude-3.5-sonnet"] 3 10 0 Tier_default] in
  let! candidates := do_candidates rt None in
  assert_eq (names candidates) ["has-model"].

Definition test_tier_filter_local_only : Test :=
  let! candidates := do_candidates (router_of tiered_providers) (Some Local) in
  assert_eq (names candidates) ["local-cheap"].

Definition test_tier_filter_standard_includes_local : Test :=
  let! candidates := do_candidates (router_of tiered_providers) (Some Standard) in
  assert_eq (names candidates) ["local-cheap"; "standard-mid"].

Definition test_tier_filter_frontier_includes_all : Test :=
  let! candidates := do_candidates (router_of tiered_providers) (Some Frontier) in
  assert_eq (length candidates) 3%nat.

Definition test_tier_filter_none_includes_all : Test :=
  let! candidates := do_candidates (router_of tiered_providers) None in
  assert_eq (length candidates) 3%nat.

Definition test_tier_filter_no_match_returns_error : Test :=
  let rt := router_of
    [provider "frontier-only" "https://frontier.example.com/v1" ["gpt-4o"] 10 30 2 Frontier] in
  assert match select_candidates rt "gpt-4o" None None (Some Local) with
         | Err (NoTierMatch _ _) => true
         | _ => false
         end.

Definition test_select_candidates_empty_returns_error : Test :=
  assert match select_candidates (router_of test_providers) "nonexistent-model" None None None with
         | Err (NoProviders _) => true
         | _ => false
         end.

Definition test_frontier_rates_returns_max_across_tiers : Test :=
  assert_eq (frontier_rates (router_of tiered_providers) "gpt-4o") (Some (10, 30, 2)).

Definition test_frontier_rates_single_tier_returns_that_tier : Test :=
  let rt := router_of [provider "local-only" "https://local.example.com/v1" ["gpt-4o"] 1 5 0 Local] in
  assert_eq (frontier_rates rt "gpt-4o") (Some (1, 5, 0)).

Definition test_frontier_rates_nonexistent_model_returns_none : Test :=
  assert_eq (frontier_rates (router_of tiered_providers) "nonexistent-model") None.

Definition suite : list Test :=
  [test_select_cheapest; test_no_providers_for_model; test_base_fee_affects_cheapest_selection;
   test_actual_cost_calculation; test_actual_cost_fractional_sats; test_policy_keyword_matching;
   test_select_candidates_returns_ordered_list; test_select_candidates_deduplicates_by_name;
   test_select_delegates_to_candidates; test_select_candidates_filters_by_model;
   test_tier_filter_local_only; test_tier_filter_standard_includes_local;
   test_tier_filter_frontier_includes_all; test_tier_filter_none_includes_all;
   test_tier_filter_no_match_returns_error; test_select_candidates_empty_returns_error;
   test_frontier_rates_returns_max_across_tiers;
   test_frontier_rates_single_tier_returns_that_tier;
   test_frontier_rates_nonexistent_model_returns_none].

Example router_suite_passes : forallb passes suite = true.
Proof. vm_compute. reflexivity. Qed.
