(* ===== verification/RetryTests.v ===== *)
(** * The tests of [proxy/retry.rs], on the model

    The closures of the tests count their calls and answer by the number of the call or the
    name of the candidate, without taking time: [send].  The sends recorded by the run are
    the calls, and its attempts the shared vector. *)

From S2P Require Import Prelude Machine RustStr Timed Retry Testing.

Open Scope test_scope.

Record MockError := { code : Z }.

#[local] Instance MockError_status : HasStatusCode MockError := code.

#[local] Instance AttemptRecord_eq_dec : EqDecision AttemptRecord.
Proof. solve_decision. Defined.

Definition attempt (name : string) (status : Z) : AttemptRecord :=
  {| ar_provider_name := name; ar_status_code := status |}.

Definition RetryTest : Type := Timed RetryState unit.
Definition retry_passes (test : RetryTest) : bool := passes_from RetryState_new test.

(** [retry_with_fallback] with a closure that answers at once. *)
Definition run (names : list string) (answer : nat -> string -> result string MockError)
    : Timed RetryState (result string MockError) :=
  retry_with_fallback (fun n c => (0, answer n (ci_name c)))
    (map (fun name => {| ci_name := name |}) names).

Definition assert_calls (n : nat) : RetryTest :=
  let! s := t_get in assert_eq (length (rs_sends s)) n.

Definition assert_attempts (l : list AttemptRecord) : RetryTest :=
  let! s := t_get in assert_eq (rs_attempts s) l.

Definition assert_providers (l : list string) : RetryTest :=
  let! s := t_get in assert_eq (map ar_provider_name (rs_attempts s)) l.

Definition test_is_retryable : RetryTest :=
  t_for [500; 502; 503; 504] (fun c => assert (is_retryable c)) >>;
  t_for [400; 401; 403; 404; 429] (fun c => assert (negb (is_retryable c))) >>;
  t_for [200; 301; 501] (fun c => assert (negb (is_retryable c))).

Definition test_format_retries_header_empty : RetryTest :=
  assert_eq (format_retries_header []) None.

Definition test_format_retries_header_single_provider : RetryTest :=
  assert_eq (format_retries_header [attempt "alpha" 503; attempt "alpha" 502]) (Some "2/alpha").

Definition test_format_retries_header_multiple_providers : RetryTest :=
  assert_eq (format_retries_header [attempt "alpha" 503; attempt "alpha" 503; attempt "beta" 500])
    (Some "2/alpha, 1/beta").

Definition test_success_on_first_attempt : RetryTest :=
  let! outcome := run ["alpha"] (fun _ _ => Ok "success") in
  assert (is_ok outcome) >>;
  let! value := unwrap outcome in
  assert_eq value "success" >>;
  assert_calls 1 >>;
  assert_attempts [].

Definition test_retry_then_success : RetryTest :=
  let! outcome := run ["alpha"] (fun n _ =>
    if (n =? 0)%nat then Err {| code := 503 |} else Ok "recovered") in
  assert (is_ok outcome) >>;
  let! value := unwrap outcome in
  assert_eq value "recovered" >>;
  assert_calls 2 >>;
  assert_attempts [attempt "alpha" 503].

Definition test_max_retries_exhausted_no_fallback : RetryTest :=
  let! outcome := run ["alpha"] (fun _ _ => Err {| code := 503 |}) in
  assert (is_err outcome) >>;
  let! err := unwrap_err outcome in
  assert_eq (code err) 503 >>;
  assert_calls 3 >>;
  assert_attempts [attempt "alpha" 503; attempt "alpha" 503; attempt "alpha" 503].

Definition test_max_retries_then_fallback_success : RetryTest :=
  let! outcome := run ["alpha"; "beta"] (fun _ name =>
    if String.eqb name "alpha" then Err {| code := 503 |} else Ok "fallback-success") in
  assert (is_ok outcome) >>;
  let! value := unwrap outcome in
  assert_eq value "fallback-success" >>;
  assert_calls 4 >>;
  assert_providers ["alpha"; "alpha"; "alpha"].

Definition test_max_retries_then_fallback_failure : RetryTest :=
  let! outcome := run ["alpha"; "beta"] (fun _ _ => Err {| code := 500 |}) in
  assert (is_err outcome) >>;
  assert_calls 4 >>;
  assert_providers ["alpha"; "alpha"; "alpha"; "beta"].

Definition test_non_retryable_fails_immediately : RetryTest :=
  let! outcome := run ["alpha"; "beta"] (fun _ _ => Err {| code := 400 |}) in
  assert (is_err outcome) >>;
  let! err := unwrap_err outcome in
  assert_eq (code err) 400 >>;
  assert_calls 1 >>;
  assert_attempts [attempt "alpha" 400].

Definition test_backoff_delays : RetryTest :=
  let! start := t_now in
  let! outcome := run ["alpha"] (fun _ _ => Err {| code := 503 |}) in
  assert (is_err outcome) >>;
  assert_calls 3 >>;
  let! now := t_now in
  assert_eq (now - start) (secs 3).

Definition suite : list RetryTest :=
  [test_is_retryable; test_format_retries_header_empty;
   test_format_retries_header_single_provider; test_format_retries_header_multiple_providers;
   test_success_on_first_attempt; test_retry_then_success;
   test_max_retries_exhausted_no_fallback; test_max_retries_then_fallback_success;
   test_max_retries_then_fallback_failure; test_non_retryable_fails_immediately;
   test_backoff_delays].

Example retry_suite_passes : forallb retry_passes suite = true.
Proof. vm_compute. reflexivity. Qed.
