(* ===== verification/ConfigTests.v ===== *)
(** * The tests of [config.rs], on the model

    A file is the tree the TOML parser makes of the text of the test.  The environment of a
    test is its lookup function; a lookup that must not be called is arbitrary. *)

From S2P Require Import Prelude Machine RustStr Timed Config Serde JsonCodec ConfigFile Testing.

Open Scope test_scope.

#[local] Existing Instance AsciiCase.

(** ** Parsing *)

Section Parsing.
#[local] Existing Instance TomlFormat.

(** [Config::parse_str(toml).unwrap()], for the text of a tree. *)
Definition parse (t : Tree) : Timed unit Config :=
  unwrap (parse_str (toml_from (fun _ => Ok t) id de_config) "").

Definition provider0 (c : Config) : Timed unit ProviderConfig := t_index (providers c) 0.

Definition test_parse_minimal_config : Test :=
  let! config := parse (SMap [("server", SMap [("listen", SStr "127.0.0.1:9000")])]) in
  assert_eq (listen (server config)) "127.0.0.1:9000" >>;
  assert_eq (providers config) [].

Definition test_parse_full_config : Test :=
  let! config := parse (SMap
    [("server", SMap [("listen", SStr "0.0.0.0:8080")]);
     ("database", SMap [("path", SStr "./test.db")]);
     ("providers", SSeq [SMap
        [("name", SStr "test-provider"); ("url", SStr "https://example.com/v1");
         ("models", SSeq [SStr "gpt-4o"; SStr "claude-3.5-sonnet"]); ("input_rate", SInt 10);
         ("output_rate", SInt 30); ("base_fee", SInt 1)]]);
     ("policies", SMap
        [("default_strategy", SStr "cheapest");
         ("rules", SSeq [SMap
            [("name", SStr "code"); ("allowed_models", SSeq [SStr "gpt-4o"]);
             ("strategy", SStr "lowest_cost"); ("max_sats_per_1k_output", SInt 50);
             ("keywords", SSeq [SStr "code"; SStr "function"])]])]);
     ("logging", SMap [("level", SStr "debug"); ("log_requests", SBool true)])]) in
  assert_eq (length (providers config)) 1%nat >>;
  let! p := provider0 config in
  assert_eq (p_name p) "test-provider" >>;
  assert_eq (p_input_rate p) 10 >>;
  assert_eq (length (rules (policies config))) 1%nat >>;
  let! rule := t_index (rules (policies config)) 0 in
  assert_eq (r_name rule) "code".

Definition test_api_key_toml_deserialization : Test :=
  let! config := parse (SMap
    [("server", SMap [("listen", SStr "127.0.0.1:9000")]);
     ("providers", SSeq [SMap
        [("name", SStr "test-provider"); ("url", SStr "https://example.com/v1");
         ("api_key", SStr "cashuABCD1234secret"); ("models", SSeq [SStr "gpt-4o"]);
         ("input_rate", SInt 10); ("output_rate", SInt 30); ("base_fee", SInt 1)]])]) in
  let! p := provider0 config in
  let! key := opt_unwrap (p_api_key p) in
  assert_eq (expose_secret key) "cashuABCD1234secret" >>;
  assert (negb (str_contains (ApiKey_debug key) "cashuABCD1234secret")) >>;
  assert (str_contains (ApiKey_debug key) "[REDACTED]").

Definition test_provider_config_without_api_key : Test :=
  let! config := parse (SMap
    [("server", SMap [("listen", SStr "127.0.0.1:9000")]);
     ("providers", SSeq [SMap
        [("name", SStr "no-key-provider"); ("url", SStr "https://example.com/v1");
         ("models", SSeq [SStr "gpt-4o"])]])]) in
  let! p := provider0 config in
  assert (is_none (p_api_key p)).

Definition test_parse_config_without_tier_field : Test :=
  let! config := parse (SMap
    [("server", SMap [("listen", SStr "127.0.0.1:8080")]);
     ("providers", SSeq [SMap
        [("name", SStr "test"); ("url", SStr "http://localhost/v1"); ("input_rate", SInt 5);
         ("output_rate", SInt 15)]])]) in
  let! p := provider0 config in
  assert_eq (p_tier p) Standard.

Definition test_parse_config_with_tier_field : Test :=
  let! config := parse (SMap
    [("server", SMap [("listen", SStr "127.0.0.1:8080")]);
     ("providers", SSeq [SMap
        [("name", SStr "local-llm"); ("url", SStr "http://localhost:1234/v1");
         ("tier", SStr "local")]])]) in
  let! p := provider0 config in
  assert_eq (p_tier p) Local.

Definition test_parse_config_with_routing_section : Test :=
  let! config := parse (SMap
    [("server", SMap [("listen", SStr "127.0.0.1:8080")]);
     ("routing", SMap
        [("complexity_threshold_low", SFloat (f64_lit 3 10));
         ("complexity_threshold_high", SFloat (f64_lit 8 10));
         ("complexity_weights", SMap
            [("context_length", SFloat (f64_of_Z 2)); ("code_blocks", SFloat (f64_lit 5 10))])])]) in
  let w := complexity_weights (routing config) in
  assert (f64_near (complexity_threshold_low (routing config)) (f64_lit 3 10)) >>;
  assert (f64_near (complexity_threshold_high (routing config)) (f64_lit 8 10)) >>;
  assert (f64_near (context_length w) (f64_of_Z 2)) >>;
  assert (f64_near (code_blocks w) (f64_lit 5 10)) >>;
  assert (f64_near (multi_file w) f64_one).

Definition test_parse_config_without_routing_section : Test :=
  let! config := parse (SMap [("server", SMap [("listen", SStr "127.0.0.1:8080")])]) in
  assert (f64_near (complexity_threshold_low (routing config)) (f64_lit 4 10)) >>;
  assert (f64_near (complexity_threshold_high (routing config)) (f64_lit 7 10)).

Definition parsing_suite : list Test :=
  [test_parse_minimal_config; test_parse_full_config; test_api_key_toml_deserialization;
   test_provider_config_without_api_key; test_parse_config_without_tier_field;
   test_parse_config_with_tier_field; test_parse_config_with_routing_section;
   test_parse_config_without_routing_section].

End Parsing.

(** ** Keys *)

Definition test_api_key_debug_redaction : Test :=
  let debug_output := ApiKey_debug (ApiKey_from "super-secret-cashu-token") in
  assert_eq debug_output "[REDACTED]" >>;
  assert (negb (str_contains debug_output "super-secret")).

Definition test_api_key_display_redaction : Test :=
  let display_output := ApiKey_display (ApiKey_from "super-secret-cashu-token") in
  assert_eq display_output "[REDACTED]" >>;
  assert (negb (str_contains display_output "super-secret")).

Definition test_api_key_serialize_redaction : Test :=
  let text := print_json (SStr (ApiKey_serialize (ApiKey_from "real-secret-value"))) in
  assert_eq text (json "'[REDACTED]'") >>;
  assert (negb (str_contains text "real-secret")).

Definition test_api_key_deserialize_from_string : Test :=
  let! t := opt_unwrap (read_json id (json "'my-secret-key'")) in
  let! key := opt_unwrap (de_api_key t) in
  assert_eq (expose_secret key) "my-secret-key".

Definition test_api_key_expose_secret : Test :=
  assert_eq (expose_secret (ApiKey_from "the-actual-value")) "the-actual-value".

(** [masked_prefix] that does not panic. *)
Definition mask (key : string) : Timed unit string := opt_unwrap (masked_prefix (ApiKey_from key)).

Definition test_masked_prefix_normal_key : Test :=
  let! masked := mask "cashuAbcdefghijklmnop" in assert_eq masked "cashuA...***".

Definition test_masked_prefix_short_key_redacted : Test :=
  let! masked := mask "short" in assert_eq masked "[REDACTED]".

Definition test_masked_prefix_boundary_key : Test :=
  let! masked := mask "1234567890" in assert_eq masked "123456...***".

Definition str_ends_with (suffix s : string) : bool := str_starts_with (str_rev suffix) (str_rev s).

Definition test_masked_prefix_does_not_expose_full_key : Test :=
  let! masked := mask "cashuABCD1234secrettoken" in
  assert (str_contains masked "cashuA") >>;
  assert (negb (str_contains masked "secrettoken")) >>;
  assert (str_ends_with "...***" masked).

Definition key_suite : list Test :=
  [test_api_key_debug_redaction; test_api_key_display_redaction;
   test_api_key_serialize_redaction; test_api_key_deserialize_from_string;
   test_api_key_expose_secret; test_masked_prefix_normal_key;
   test_masked_prefix_short_key_redacted; test_masked_prefix_boundary_key;
   test_masked_prefix_does_not_expose_full_key].

(** ** Expansion *)

(** An environment. *)
Definition env (vars : list (string * string)) (name : string) : option string :=
  option_map snd (List.find (fun v => String.eqb (fst v) name) vars).

Definition test_expand_single_var : Test :=
  let! result := unwrap (expand_env_vars_with "${MY_KEY}" "test" (env [("MY_KEY", "cashuABCD")])) in
  assert_eq result "cashuABCD".

Definition test_expand_multiple_vars : Test :=
  let lookup := env [("SCHEME", "https"); ("HOST", "example.com")] in
  let! result := unwrap (expand_env_vars_with "${SCHEME}://${HOST}/v1" "test" lookup) in
  assert_eq result "https://example.com/v1".

Definition test_expand_no_vars_passthrough (lookup : string -> option string) : Test :=
  let! result := unwrap (expand_env_vars_with "literal-value" "test" lookup) in
  assert_eq result "literal-value".

Definition test_expand_mixed_literal_and_var : Test :=
  let lookup := env [("KEY", "resolved")] in
  let! result := unwrap (expand_env_vars_with "prefix-${KEY}-suffix" "test" lookup) in
  assert_eq result "prefix-resolved-suffix".

Definition test_expand_missing_var_fails : Test :=
  let result := expand_env_vars_with "${MISSING}" "provider-alpha" (fun _ => None) in
  assert (is_err result) >>;
  let! err := unwrap_err result in
  assert (str_contains (ConfigError_to_string err) "MISSING") >>;
  assert (str_contains (ConfigError_to_string err) "provider-alpha").

Definition test_expand_unclosed_brace_fails (lookup : string -> option string) : Test :=
  let result := expand_env_vars_with "${UNCLOSED" "test" lookup in
  assert (is_err result) >>;
  let! err := unwrap_err result in
  assert (str_contains (to_lowercase (ConfigError_to_string err)) "unclosed").

Definition test_expand_empty_var_name_fails (lookup : string -> option string) : Test :=
  let result := expand_env_vars_with "${}" "test" lookup in
  assert (is_err result) >>;
  let! err := unwrap_err result in
  assert (str_contains (to_lowercase (ConfigError_to_string err)) "empty").

Definition test_expand_dollar_without_brace_passthrough (lookup : string -> option string) : Test :=
  let! result := unwrap (expand_env_vars_with "$NOT_A_VAR" "test" lookup) in
  assert_eq result "$NOT_A_VAR".

Definition test_convention_env_var_name_simple : Test :=
  assert_eq (convention_env_var_name "alpha") "ARBSTR_ALPHA_API_KEY".

Definition test_convention_env_var_name_hyphen : Test :=
  assert_eq (convention_env_var_name "provider-beta") "ARBSTR_PROVIDER_BETA_API_KEY".

Definition test_convention_env_var_name_underscore : Test :=
  assert_eq (convention_env_var_name "my_service") "ARBSTR_MY_SERVICE_API_KEY".

Definition expansion_suite : list Test :=
  [test_expand_single_var; test_expand_multiple_vars; test_expand_mixed_literal_and_var;
   test_expand_missing_var_fails; test_convention_env_var_name_simple;
   test_convention_env_var_name_hyphen; test_convention_env_var_name_underscore].

(** The tests whose lookup panics, with any other in its place. *)
Definition uncalled_suite (lookup : string -> option string) : list Test :=
  [test_expand_no_vars_passthrough lookup; test_expand_unclosed_brace_fails lookup;
   test_expand_empty_var_name_fails lookup; test_expand_dollar_without_brace_passthrough lookup].

(** ** [from_raw] *)

Definition make_raw_config (provider_name : string) (api_key : option string) : RawConfig := {|
  raw_server := {| listen := "127.0.0.1:9000"; rate_limit_rps := None; auth_token := None |};
  raw_database := None;
  raw_vault := None;
  raw_providers :=
    [{| rp_name := provider_name; rp_url := "https://example.com/v1"; rp_api_key := api_key;
        rp_models := []; rp_input_rate := 0; rp_output_rate := 0; rp_base_fee := 0;
        rp_tier := Tier_default; rp_auto_discover := false |}];
  raw_policies := PoliciesConfig_default;
  raw_logging := LoggingConfig_default;
  raw_routing := RoutingConfig_default |}.

(** The source of the first provider's key, and its secret. *)
Definition assert_key (config : Config) (key_sources : list (string * KeySource))
    (source : KeySource) (secret : option string) : Test :=
  let! first := t_index key_sources 0 in
  assert_eq (snd first) source >>;
  let! p := t_index (providers config) 0 in
  assert_eq (option_map expose_secret (p_api_key p)) secret.

(** The process environment does not matter to a literal key. *)
Definition test_from_raw_literal_key (env_var : string -> option string) : Test :=
  let raw := make_raw_config "test-literal" (Some "literal-key-value") in
  let! (config, key_sources) := unwrap (from_raw env_var raw) in
  assert_eq (length key_sources) 1%nat >>;
  let! first := t_index key_sources 0 in
  assert_eq (fst first) "test-literal" >>;
  assert_key config key_sources Literal (Some "literal-key-value").

Definition test_from_raw_env_expanded_key : Test :=
  let lookup := env [("MY_EXPAND_KEY", "cashu-expanded-token-abc123")] in
  let raw := make_raw_config "test-env-expand" (Some "${MY_EXPAND_KEY}") in
  let! (config, key_sources) := unwrap (from_raw_with_lookup raw lookup) in
  assert_key config key_sources EnvExpanded (Some "cashu-expanded-token-abc123").

Definition test_from_raw_convention_key : Test :=
  let var_name := convention_env_var_name "test-conv-0601" in
  let var_value := "cashu-convention-token-xyz789" in
  let raw := make_raw_config "test-conv-0601" None in
  let! (config, key_sources) := unwrap (from_raw_with_lookup raw (env [(var_name, var_value)])) in
  assert_key config key_sources (Convention var_name) (Some var_value).

Definition test_from_raw_no_key : Test :=
  let raw := make_raw_config "test-nokey-0601-unique" None in
  let! (config, key_sources) := unwrap (from_raw_with_lookup raw (fun _ => None)) in
  assert_key config key_sources NoKey None.

Definition test_from_raw_missing_env_var_fails : Test :=
  let raw := make_raw_config "test-missing-env" (Some "${DEFINITELY_MISSING}") in
  let result := from_raw_with_lookup raw (fun _ => None) in
  assert (is_err result) >>;
  let! err := unwrap_err result in
  assert (str_contains (ConfigError_to_string err) "DEFINITELY_MISSING") >>;
  assert (str_contains (ConfigError_to_string err) "test-missing-env").

Definition raw_suite : list Test :=
  [test_from_raw_env_expanded_key; test_from_raw_convention_key; test_from_raw_no_key;
   test_from_raw_missing_env_var_fails].

(** ** Permissions, tiers, defaults *)

(** The mode bits of a regular file, as [metadata] gives them. *)
Definition file_mode (bits : Z) : Z := Z.lor 32768 bits.

Definition test_check_permissions_too_open : Test :=
  let result := check_file_permissions "test-config.toml" (Some (file_mode 420)) in
  assert (is_some result) >>;
  let! warning := opt_unwrap result in
  assert_eq (snd warning) 420.

Definition test_check_permissions_correct : Test :=
  assert (is_none (check_file_permissions "test-config.toml" (Some (file_mode 384)))).

Definition test_check_permissions_read_only_ok : Test :=
  assert (is_none (check_file_permissions "test-config.toml" (Some (file_mode 256)))).

Definition Tier_ltb (a b : Tier) : bool := Tier_leb a b && negb (Tier_leb b a).

Definition test_tier_default_is_standard : Test := assert_eq Tier_default Standard.

Definition test_tier_ordering : Test :=
  assert (Tier_ltb Local Standard) >>;
  assert (Tier_ltb Standard Frontier) >>;
  assert (Tier_ltb Local Frontier).

Definition test_tier_serialize_lowercase : Test :=
  assert_eq (print_json (ser_tier Local)) (json "'local'") >>;
  assert_eq (print_json (ser_tier Standard)) (json "'standard'") >>;
  assert_eq (print_json (ser_tier Frontier)) (json "'frontier'").

Section TierText.
#[local] Existing Instance JsonFormat.

(** [serde_json::from_str::<Tier>] *)
Definition tier_from_str (text : string) : option Tier :=
  match read_json id (json text) with Some t => de_tier t | None => None end.

Definition test_tier_deserialize_lowercase : Test :=
  assert_eq (tier_from_str "'local'") (Some Local) >>;
  assert_eq (tier_from_str "'standard'") (Some Standard) >>;
  assert_eq (tier_from_str "'frontier'") (Some Frontier).

Definition test_tier_deserialize_invalid_fails : Test := assert (is_none (tier_from_str "'invalid'")).

End TierText.

Definition test_routing_config_defaults : Test :=
  let rc := RoutingConfig_default in
  assert (f64_near (complexity_threshold_low rc) (f64_lit 4 10)) >>;
  assert (f64_near (complexity_threshold_high rc) (f64_lit 7 10)).

Definition test_complexity_weights_defaults : Test :=
  let cw := ComplexityWeightsConfig_default in
  assert (f64_near (context_length cw) f64_one) >>;
  assert (f64_near (code_blocks cw) f64_one) >>;
  assert (f64_near (multi_file cw) f64_one) >>;
  assert (f64_near (reasoning_keywords cw) f64_one) >>;
  assert (f64_near (conversation_depth cw) f64_one).

Definition test_tier_escalate_local : Test := assert_eq (escalate Local) (Some Standard).
Definition test_tier_escalate_standard : Test := assert_eq (escalate Standard) (Some Frontier).
Definition test_tier_escalate_frontier : Test := assert_eq (escalate Frontier) None.

Definition value_suite : list Test :=
  [test_check_permissions_too_open; test_check_permissions_correct;
   test_check_permissions_read_only_ok; test_tier_default_is_standard; test_tier_ordering;
   test_tier_serialize_lowercase; test_tier_deserialize_lowercase;
   test_tier_deserialize_invalid_fails; test_routing_config_defaults;
   test_complexity_weights_defaults; test_tier_escalate_local; test_tier_escalate_standard;
   test_tier_escalate_frontier].

Example config_suite_passes :
  forallb passes (parsing_suite ++ key_suite ++ expansion_suite ++ raw_suite ++ value_suite) = true.
Proof. vm_compute. reflexivity. Qed.

(** What must not look at the environment does not. *)
Example config_lookups_not_called (lookup : string -> option string) :
  forallb passes (test_from_raw_literal_key lookup :: uncalled_suite lookup) = true.
Proof. vm_compute. reflexivity. Qed.
