(* ===== verification/StreamTests.v ===== *)
(** * The tests of [proxy/stream.rs], on the model

    The events are JSON text, read by [JsonCodec]; an apostrophe stands for a double quote. *)

From S2P Require Import Prelude Machine RustStr Timed Types Serde JsonCodec Sse Testing.

Open Scope test_scope.

#[local] Existing Instance TextJson.

#[local] Instance StreamUsage_eq_dec : EqDecision StreamUsage.
Proof. solve_decision. Defined.

Definition bytes (s : string) : list ascii := String.list_ascii_of_string s.
Definition newline : string := String nl "".

(** [b"..."] with [\n] for the lines and an apostrophe for a quote. *)
Definition raw (lines : list string) : list ascii :=
  bytes (str_join newline (map json lines)).

(** The chunks of the events cut at the given positions. *)
Fixpoint cut (prev : nat) (positions : list nat) (full : list ascii) : list (list ascii) :=
  match positions with
  | [] => [drop prev full]
  | pos :: positions' =>
      if (prev <? pos)%nat && (pos <? length full)%nat
      then take (pos - prev) (drop prev full) :: cut pos positions' full
      else cut prev positions' full
  end.

Definition split_sse_at_positions (events : list string) (split_positions : list nat)
    : list (list ascii) :=
  cut 0 split_positions (concat (map (fun e => bytes (json e +:+ newline +:+ newline)) events)).

(** An observer that has seen the chunks. *)
Definition observe (chunks : list (list ascii)) : StreamResult :=
  into_result (fold_left (fun o c => process_chunk c o) chunks SseObserver_new).

Definition usage (prompt completion : Z) : option StreamUsage :=
  Some {| prompt_tokens := prompt; completion_tokens := completion |}.

(** The assertions on a result. *)
Definition assert_result (r : StreamResult) (done_received : bool) (u : option StreamUsage)
    (finish_reason : option string) : Test :=
  assert_eq (sr_done_received r) done_received >>;
  assert_eq (sr_usage r) u >>;
  assert_eq (sr_finish_reason r) finish_reason.

(** Data of the events. *)
Definition content (text : string) (reason : string) : string :=
  "{'id':'abc','choices':[{'index':0,'delta':{'content':'" +:+ text +:+ "'},'finish_reason':"
    +:+ reason +:+ "}],'usage':null}".
Definition used (prompt completion total : string) : string :=
  "{'id':'abc','choices':[],'usage':{'prompt_tokens':" +:+ prompt +:+ ",'completion_tokens':"
    +:+ completion +:+ ",'total_tokens':" +:+ total +:+ "}}".
Definition data (d : string) : string := "data: " +:+ d.

Definition test_single_chunk_full_stream : Test :=
  let events :=
    [data "{'id':'abc','choices':[{'index':0,'delta':{'role':'assistant'},'finish_reason':null}],'usage':null}";
     data (content "Hello" "null"); data (content " world" "'stop'"); data (used "6" "10" "16");
     "data: [DONE]"] in
  let chunks := split_sse_at_positions events [] in
  assert_eq (length chunks) 1%nat >>;
  let result := observe chunks in
  assert_result result true (usage 6 10) (Some "stop").

Definition test_usage_split_across_chunks : Test :=
  let events := [data (content "Hi" "'stop'"); data (used "10" "5" "15"); "data: [DONE]"] in
  let chunks := split_sse_at_positions events [50; 120; 180]%nat in
  assert (1 <? length chunks)%nat >>;
  assert_result (observe chunks) true (usage 10 5) (Some "stop").

Definition test_no_usage_with_done : Test :=
  let chunks := split_sse_at_positions [data (content "Hi" "'stop'"); "data: [DONE]"] [] in
  assert_result (observe chunks) true None (Some "stop").

Definition test_no_done_returns_empty : Test :=
  let chunks := split_sse_at_positions [data (content "Hi" "'stop'")] [] in
  assert_result (observe chunks) false None None.

Definition test_malformed_json_skipped : Test :=
  let events := ["data: {this is not valid json}"; data (used "8" "3" "11"); "data: [DONE]"] in
  let result := observe (split_sse_at_positions events []) in
  assert (sr_done_received result) >>;
  assert_eq (sr_usage result) (usage 8 3).

Definition test_non_data_sse_fields_skipped : Test :=
  let text := raw ["event: message"; "id: 123"; "retry: 5000"; ": this is a comment";
                   data (content "Hi" "'stop'"); ""; "data: [DONE]"; ""; ""] in
  let result := observe [text] in
  assert (sr_done_received result) >>;
  assert_eq (sr_finish_reason result) (Some "stop").

Definition crlf_ : string := String cr "".

Definition test_crlf_line_endings : Test :=
  let text := raw [data (content "Hi" "'stop'") +:+ crlf_; crlf_; data (used "4" "2" "6") +:+ crlf_;
                   crlf_; "data: [DONE]" +:+ crlf_; crlf_; ""] in
  assert_result (observe [text]) true (usage 4 2) (Some "stop").

Definition test_data_without_space : Test :=
  let text := raw ["data:" +:+ content "Hi" "'stop'"; ""; "data:[DONE]"; ""; ""] in
  let result := observe [text] in
  assert (sr_done_received result) >>;
  assert_eq (sr_finish_reason result) (Some "stop").

Definition test_done_without_trailing_newline : Test :=
  let text := raw [data (content "Hi" "'stop'"); ""; "data: [DONE]"] in
  let result := observe [text] in
  assert (sr_done_received result) >>;
  assert_eq (sr_finish_reason result) (Some "stop").

Definition test_empty_stream : Test := assert_result (into_result SseObserver_new) false None None.

Definition test_finish_reason_extracted : Test :=
  let result := observe (split_sse_at_positions [data (content "done" "'stop'"); "data: [DONE]"] []) in
  assert (sr_done_received result) >>;
  assert_eq (sr_finish_reason result) (Some "stop").

Definition test_buffer_cap : Test :=
  let huge_chunk := repeat "x"%char (65 * 1024)%nat in
  let normal := raw [data (content "ok" "'stop'"); ""; "data: [DONE]"; ""; ""] in
  let result := observe [huge_chunk; normal] in
  assert (sr_done_received result) >>;
  assert_eq (sr_finish_reason result) (Some "stop").

Definition observer_suite : list Test :=
  [test_single_chunk_full_stream; test_usage_split_across_chunks; test_no_usage_with_done;
   test_no_done_returns_empty; test_malformed_json_skipped; test_non_data_sse_fields_skipped;
   test_crlf_line_endings; test_data_without_space; test_done_without_trailing_newline;
   test_empty_stream; test_finish_reason_extracted; test_buffer_cap].

(** ** The wrapped stream *)

(** A stream of chunks that arrive. *)
Definition mock_sse_stream (chunks : list (list ascii)) : list (result (list ascii) string) := map Ok chunks.

(** Consume the wrapped stream and drop it: its bytes, and the handle. *)
Definition collect (items : list (result (list ascii) string))
    : Timed unit (list ascii * option StreamResult) :=
  let '(outs, ws) := ws_run items wrap_sse_stream in
  let! chunks := opt_unwrap (mapM (fun r => match r with Ok b => Some b | Err _ => None end) outs) in
  t_ret (concat chunks, ws_drop ws).

Definition test_wrap_sse_stream_basic : Test :=
  let text := raw [data (content "Hi" "'stop'"); ""; data (used "6" "10" "16"); ""; "data: [DONE]"; ""; ""] in
  let! (collected, handle) := collect (mock_sse_stream [text]) in
  assert_eq collected text >>;
  let! result := opt_unwrap handle in
  assert_result result true (usage 6 10) (Some "stop").

Definition test_wrap_sse_stream_no_done : Test :=
  let text := raw [data (content "Hi" "'stop'"); ""; ""] in
  let! (_, handle) := collect (mock_sse_stream [text]) in
  let! result := opt_unwrap handle in
  assert_result result false None None.

Definition test_wrap_panic_isolation : Test :=
  let chunk1 := raw [data (content "Hi" "'stop'"); ""; ""] in
  let chunk2 := raw ["data: [DONE]"; ""; ""] in
  let! (all_bytes, handle) := collect (mock_sse_stream [chunk1; chunk2]) in
  assert_eq all_bytes (chunk1 ++ chunk2) >>;
  let! result := opt_unwrap handle in
  assert (sr_done_received result).

Definition test_drop_writes_result : Test :=
  let chunk1 := raw [data (content "Hi" "'stop'"); ""; ""] in
  let chunk2 := raw [data (used "3" "1" "4"); ""; ""] in
  let chunk3 := raw ["data: [DONE]"; ""; ""] in
  let! first := t_index (mock_sse_stream [chunk1; chunk2; chunk3]) 0 in
  let '(_, ws) := ws_next first wrap_sse_stream in
  let! result := opt_unwrap (ws_drop ws) in
  assert (negb (sr_done_received result)).

Definition test_wrap_sse_stream_multi_chunk : Test :=
  let chunk1 := bytes (json "data: {'id':'abc','choices':[{'index':0,'delta':{'content':'He") in
  let chunk2 := raw ["llo'},'finish_reason':'stop'}],'usage':null}"; "";
                     "data: {'id':'abc','choices':[]"] in
  let chunk3 := raw [",'usage':{'prompt_tokens':5,'completion_tokens':7,'total_tokens':12}}"; "";
                     "data: [DONE]"; ""; ""] in
  let! (all_bytes, handle) := collect (mock_sse_stream [chunk1; chunk2; chunk3]) in
  assert_eq all_bytes (chunk1 ++ chunk2 ++ chunk3) >>;
  let! result := opt_unwrap handle in
  assert_result result true (usage 5 7) (Some "stop").

Definition wrapped_suite : list Test :=
  [test_wrap_sse_stream_basic; test_wrap_sse_stream_no_done; test_wrap_panic_isolation;
   test_drop_writes_result; test_wrap_sse_stream_multi_chunk].

Example stream_suite_passes : forallb passes (observer_suite ++ wrapped_suite) = true.
Proof. vm_compute. reflexivity. Qed.
