(* ===== verification/ApiTests.v ===== *)
(** * The tests of [proxy/types.rs], [proxy/handlers.rs] and [proxy/vault.rs], on the model *)

From S2P Require Import Prelude Machine RustStr Timed Types Serde JsonCodec Wire Errors Sse.
From S2P Require Import Http Handlers Streaming Vault Testing.

Open Scope test_scope.

#[local] Existing Instance TextJson.

(** ** [types.rs] *)

Module Requests.

#[local] Existing Instance PlainValue.

Definition minimal_request : ChatCompletionRequest := {|
  model := "gpt-4o";
  messages := [{| m_role := "user"; m_content := Text "hello"; m_name := None; m_extra := [] |}];
  temperature := None; max_tokens := None; stream := Some true; stream_options := None;
  top_p := None; frequency_penalty := None; presence_penalty := None; stop := None;
  user := None; extra := [] |}.

(** [req.stream_options.as_ref().unwrap().include_usage] *)
Definition include_usage_of (req : ChatCompletionRequest) : Timed unit (option bool) :=
  let! opts := opt_unwrap (stream_options req) in t_ret (include_usage opts).

Definition with_include_usage (u : option bool) : ChatCompletionRequest :=
  with_stream_options minimal_request (Some {| include_usage := u |}).

(** [serde_json::to_string(&req).unwrap()] *)
Definition request_text (req : ChatCompletionRequest) : string := print_json (ser_request req).

Definition ensure_stream_options_sets_when_none : Test :=
  let req := minimal_request in
  assert (is_none (stream_options req)) >>;
  let! u := include_usage_of (ensure_stream_options req) in
  assert_eq u (Some true).

Definition ensure_stream_options_sets_when_include_usage_is_none : Test :=
  let! u := include_usage_of (ensure_stream_options (with_include_usage None)) in
  assert_eq u (Some true).

Definition ensure_stream_options_preserves_existing_false : Test :=
  let! u := include_usage_of (ensure_stream_options (with_include_usage (Some false))) in
  assert_eq u (Some false).

Definition ensure_stream_options_preserves_existing_true : Test :=
  let! u := include_usage_of (ensure_stream_options (with_include_usage (Some true))) in
  assert_eq u (Some true).

Definition stream_options_not_serialized_when_none : Test :=
  assert (is_none (stream_options minimal_request)) >>;
  assert (negb (str_contains (request_text minimal_request) "stream_options")).

Definition stream_options_serialized_after_ensure : Test :=
  assert (str_contains (request_text (ensure_stream_options minimal_request))
            (json "'stream_options':{'include_usage':true}")).

Definition suite : list Test :=
  [ensure_stream_options_sets_when_none; ensure_stream_options_sets_when_include_usage_is_none;
   ensure_stream_options_preserves_existing_false; ensure_stream_options_preserves_existing_true;
   stream_options_not_serialized_when_none; stream_options_serialized_after_ensure].

Example requests_suite_passes : forallb passes suite = true.
Proof. vm_compute. reflexivity. Qed.

End Requests.

(** ** [handlers.rs] *)

Module Responses.

(** [json!], of its text. *)
Definition value (s : string) : Timed unit Value := opt_unwrap (json_from_str (json s)).

Definition test_extract_usage_present : Test :=
  let! response := value ("{'id':'chatcmpl-123','choices':[],'usage':{'prompt_tokens':100," +:+
                          "'completion_tokens':200,'total_tokens':300}}") in
  assert_eq (extract_usage response) (Some (100, 200)).

Definition test_extract_usage_missing : Test :=
  let! response := value "{'id':'chatcmpl-123','choices':[]}" in
  assert_eq (extract_usage response) None.

Definition test_extract_usage_partial : Test :=
  let! response := value "{'id':'chatcmpl-123','choices':[],'usage':{'prompt_tokens':100}}" in
  assert_eq (extract_usage response) None.

Definition test_extract_usage_null : Test :=
  let! response := value "{'id':'chatcmpl-123','choices':[],'usage':null}" in
  assert_eq (extract_usage response) None.

(** Header values are the visible ASCII texts. *)
#[local] Instance visible_headers : HttpDeps :=
  {| header_valid := fun s => forallb (in_range 32 126) (String.list_ascii_of_string s) |}.

(** The headers of a response that had none. *)
Definition headers (status : Z) (request_id : string) (latency_ms : Z) (provider : option string)
    (cost_sats : option f64) (is_streaming : bool) : gmap string string :=
  resp_headers (attach_arbstr_headers request_id latency_ms provider cost_sats is_streaming
                  (mkResponse status ∅ (JsonBody ""))).

Definition assert_header (h : gmap string string) (name : string) (v : option string) : Test :=
  assert_eq (h !! name) v.

Definition test_attach_headers_non_streaming : Test :=
  let id := "550e8400-e29b-41d4-a716-446655440000" in
  let h := headers 200 id 1523 (Some "provider-alpha") (Some (f64_lit 4235 100)) false in
  assert_header h "x-arbstr-request-id" (Some id) >>;
  assert_header h "x-arbstr-latency-ms" (Some "1523") >>;
  assert_header h "x-arbstr-cost-sats" (Some "42.35") >>;
  assert_header h "x-arbstr-provider" (Some "provider-alpha") >>;
  assert_header h "x-arbstr-streaming" None.

Definition test_attach_headers_streaming : Test :=
  let id := "550e8400-e29b-41d4-a716-446655440000" in
  let h := headers 200 id 500 (Some "provider-beta") (Some (f64_of_Z 10)) true in
  assert_header h "x-arbstr-request-id" (Some id) >>;
  assert_header h "x-arbstr-streaming" (Some "true") >>;
  assert_header h "x-arbstr-provider" (Some "provider-beta") >>;
  assert_header h "x-arbstr-cost-sats" None >>;
  assert_header h "x-arbstr-latency-ms" None.

Definition test_attach_headers_error_no_provider : Test :=
  let id := "abcd1234-0000-0000-0000-000000000000" in
  let h := headers 400 id 50 None None false in
  assert_header h "x-arbstr-request-id" (Some id) >>;
  assert_header h "x-arbstr-latency-ms" (Some "50") >>;
  assert_header h "x-arbstr-provider" None >>;
  assert_header h "x-arbstr-cost-sats" None >>;
  assert_header h "x-arbstr-streaming" None.

Definition test_attach_headers_no_cost : Test :=
  let id := "11111111-2222-3333-4444-555555555555" in
  let h := headers 200 id 200 (Some "provider-gamma") None false in
  assert_header h "x-arbstr-request-id" (Some id) >>;
  assert_header h "x-arbstr-latency-ms" (Some "200") >>;
  assert_header h "x-arbstr-provider" (Some "provider-gamma") >>;
  assert_header h "x-arbstr-cost-sats" None.

Definition test_attach_headers_cost_formatting : Test :=
  let h := headers 200 "00000000-0000-0000-0000-000000000000" 100 (Some "provider")
             (Some (f64_lit 10 100)) false in
  assert_header h "x-arbstr-cost-sats" (Some "0.10").

(** [serde_json] on the values the event is made of. *)
Fixpoint tree_of_json (j : Json) : Tree :=
  match j with
  | JNull => SNull
  | JFloat x => SFloat x
  | JInt n => SInt n
  | JString s => SStr s
  | JObject fields => SMap (map (fun '(k, v) => (k, tree_of_json v)) fields)
  end.

#[local] Instance codec_text : JsonText := fun j => Some (print_json (tree_of_json j)).

(** The text before the first newline. *)
Definition first_line (s : string) : Timed unit string :=
  let! i := opt_unwrap (str_find newline s) in t_ret (str_take i s).

(** [parsed["arbstr"][key]] of an event. *)
Definition event_field (text key : string) : Timed unit Value :=
  let! data_line := first_line text in
  let! json_str := opt_unwrap (str_strip_prefix "data: " data_line) in
  let! parsed := opt_unwrap (json_from_str json_str) in
  let! arbstr := opt_unwrap (v_get "arbstr" parsed) in
  opt_unwrap (v_get key arbstr).

Definition event_text (cost_sats : option f64) (latency_ms : Z) : string :=
  String.string_of_list_ascii (build_trailing_sse_event cost_sats latency_ms None None).

Definition test_build_trailing_sse_event_with_cost : Test :=
  let text := event_text (Some (f64_lit 4235 100)) 1200 in
  assert (str_contains text "data: ") >>;
  assert (str_starts_with (str_rev ("data: [DONE]" +:+ newline +:+ newline)) (str_rev text)) >>;
  let! cost := event_field text "cost_sats" in
  let! cost := opt_unwrap (v_as_f64 cost) in
  assert (f64_near cost (f64_lit 4235 100)) >>;
  let! latency := event_field text "latency_ms" in
  assert_eq (v_as_u64 latency) (Some 1200).

Definition test_build_trailing_sse_event_null_cost : Test :=
  let text := event_text None 500 in
  let! cost := event_field text "cost_sats" in
  assert (v_is_null cost) >>;
  let! latency := event_field text "latency_ms" in
  assert_eq (v_as_u64 latency) (Some 500).

Definition suite : list Test :=
  [test_extract_usage_present; test_extract_usage_missing; test_extract_usage_partial;
   test_extract_usage_null; test_attach_headers_non_streaming; test_attach_headers_streaming;
   test_attach_headers_error_no_provider; test_attach_headers_no_cost;
   test_attach_headers_cost_formatting; test_build_trailing_sse_event_with_cost;
   test_build_trailing_sse_event_null_cost].

Example responses_suite_passes : forallb passes suite = true.
Proof. vm_compute. reflexivity. Qed.

End Responses.

(** ** [vault.rs] *)

Module Estimates.

Definition test_estimate_reserve_msats : Test :=
  assert_eq (estimate_reserve_msats 100 200 10 30 1) 8000.

Definition test_estimate_reserve_zero_tokens : Test :=
  assert_eq (estimate_reserve_msats 0 0 10 30 5) 5000.

Definition test_estimate_reserve_large_request : Test :=
  assert_eq (estimate_reserve_msats 1000 4096 10 30 0) (10000 + 122880).

Definition test_estimate_reserve_frontier_rates : Test :=
  assert_eq (estimate_reserve_msats 100 4096 10 30 2) 125880.

Definition test_vault_error_status_codes : Test :=
  assert_eq (VaultError_status_code InsufficientBalance) 402 >>;
  assert_eq (VaultError_status_code (PolicyDenied "x")) 403 >>;
  assert_eq (VaultError_status_code RateLimited) 429 >>;
  assert_eq (VaultError_status_code (Unavailable "x")) 503 >>;
  assert_eq (VaultError_status_code (Other "x")) 500.

Definition suite : list Test :=
  [test_estimate_reserve_msats; test_estimate_reserve_zero_tokens;
   test_estimate_reserve_large_request; test_estimate_reserve_frontier_rates;
   test_vault_error_status_codes].

Example estimates_suite_passes : forallb passes suite = true.
Proof. vm_compute. reflexivity. Qed.

End Estimates.
