(* ===== verification/StorageTests.v ===== *)
(** * The tests of [storage/logging.rs] and [storage/writer.rs], on the model

    The state is the writer with its table; a pause of a test lets the writer task empty its
    channel, no statement of an in-memory database fails. *)

From S2P Require Import Prelude Machine RustStr Timed Storage Testing.

Open Scope test_scope.

Definition StorageTest : Type := Timed DbWriter unit.

(** An empty database with the migrations applied, and its writer. *)
Definition test_pool : StorageTest := t_modify (fun _ => DbWriter_new RequestsTable_new).

Definition on_table {A} (f : RequestsTable -> A * RequestsTable) : Timed DbWriter A :=
  let! w := t_get in
  let '(a, t) := f (wr_table w) in
  t_modify (fun w => mkWriter (wr_capacity w) (wr_queue w) t) >>; t_ret a.

(** [tokio::time::sleep]: meanwhile the writer task runs. *)
Definition sleep (d : Duration) : StorageTest :=
  t_await d >>;
  t_modify (fun w => Nat.iter (length (wr_queue w)) (writer_turn true) w).

(** [SELECT ... WHERE correlation_id = ?], [fetch_one]. *)
Definition fetch_one (cid : string) : Timed DbWriter RequestRow :=
  let! w := t_get in opt_unwrap (List.find (matches_id cid) (rq_rows (wr_table w))).

(** The log lines of the tests: what differs is the id, the mode, the usage and the latency. *)
Definition log_of (cid : string) (streaming : bool) (input output : option Z) (cost : option f64)
    (latency_ms : Z) : RequestLog := {|
  correlation_id := cid; timestamp := "2026-01-01T00:00:00Z"; rl_model := "gpt-4o";
  rl_provider := Some "test-provider"; rl_policy := None; rl_streaming := streaming;
  rl_input_tokens := input; rl_output_tokens := output; rl_cost_sats := cost;
  rl_provider_cost_sats := None; rl_latency_ms := latency_ms; rl_success := true;
  rl_error_status := None; rl_error_message := None; rl_complexity_score := None; rl_tier := None |}.

Definition insert_test_row (cid : string) : StorageTest :=
  on_table (fun t => (tt, insert_log (log_of cid true None None None 100) t)).

Definition usage (input output : option Z) (cost : option f64) : UsageUpdate :=
  {| uu_input_tokens := input; uu_output_tokens := output; uu_cost_sats := cost |}.

Definition completion (u : UsageUpdate) (duration_ms : Z) (error_message : option string)
    : StreamCompletion := {|
  sc_usage := u; sc_stream_duration_ms := duration_ms; sc_success := true;
  sc_error_message := error_message; sc_complexity_score := None; sc_tier := None |}.

Definition f42_5 : f64 := f64_lit 425 10.

(** The tokens and the cost of a row. *)
Definition assert_usage (row : RequestRow) (input output : option Z) (cost : option f64) : StorageTest :=
  assert_eq (rl_input_tokens (rq_log row)) input >>;
  assert_eq (rl_output_tokens (rq_log row)) output >>;
  match cost with
  | Some c =>
      let! stored := opt_unwrap (rl_cost_sats (rq_log row)) in assert (f64_near stored c)
  | None => assert (is_none (rl_cost_sats (rq_log row)))
  end.

Definition update_usage_writes_tokens : StorageTest :=
  let! _ := test_pool in
  let cid := "test-update-001" in
  insert_test_row cid >>;
  let! rows := on_table (update_usage cid (usage (Some 150) (Some 300) (Some f42_5))) in
  assert_eq rows 1 >>;
  let! row := fetch_one cid in
  assert_usage row (Some 150) (Some 300) (Some f42_5).

Definition update_usage_with_nulls : StorageTest :=
  let! _ := test_pool in
  let cid := "test-update-002" in
  insert_test_row cid >>;
  let! rows := on_table (update_usage cid (usage None None None)) in
  assert_eq rows 1 >>;
  let! row := fetch_one cid in
  assert_usage row None None None.

Definition update_usage_no_matching_row : StorageTest :=
  test_pool >>;
  let! rows := on_table (update_usage "nonexistent-id"
                           (usage (Some 100) (Some 200) (Some (f64_of_Z 10)))) in
  assert_eq rows 0.

Definition test_update_stream_completion_writes_all_fields : StorageTest :=
  let! _ := test_pool in
  let cid := "test-stream-complete-001" in
  insert_test_row cid >>;
  let! rows := on_table (update_stream_completion cid
                 (completion (usage (Some 150) (Some 300) (Some f42_5)) 2500 None)) in
  assert_eq rows 1 >>;
  let! row := fetch_one cid in
  assert_usage row (Some 150) (Some 300) (Some f42_5) >>;
  assert_eq (rq_stream_duration_ms row) (Some 2500) >>;
  assert (rl_success (rq_log row)) >>;
  assert (is_none (rl_error_message (rq_log row))).

Definition test_update_stream_completion_null_tokens : StorageTest :=
  let! _ := test_pool in
  let cid := "test-stream-complete-002" in
  insert_test_row cid >>;
  let! rows := on_table (update_stream_completion cid
                 (completion (usage None None None) 1800 (Some "client_disconnected"))) in
  assert_eq rows 1 >>;
  let! row := fetch_one cid in
  assert_usage row None None None >>;
  assert_eq (rq_stream_duration_ms row) (Some 1800) >>;
  assert (rl_success (rq_log row)) >>;
  assert_eq (rl_error_message (rq_log row)) (Some "client_disconnected").

Definition writer_processes_insert : StorageTest :=
  test_pool >>;
  t_modify (log_write (log_of "writer-test-001" false (Some 100) (Some 200)
                         (Some (f64_of_Z 10)) 50)) >>;
  sleep (millis 50) >>;
  let! w := t_get in
  assert_eq (length (List.filter (matches_id "writer-test-001") (rq_rows (wr_table w)))) 1%nat.

Definition writer_processes_stream_completion_update : StorageTest :=
  test_pool >>;
  t_modify (log_write (log_of "writer-test-002" true None None None 50)) >>;
  sleep (millis 50) >>;
  t_modify (stream_completion_update "writer-test-002"
              (completion (usage (Some 150) (Some 300) (Some f42_5)) 2500 None)) >>;
  sleep (millis 50) >>;
  let! row := fetch_one "writer-test-002" in
  assert_usage row (Some 150) (Some 300) (Some f42_5) >>;
  assert_eq (rq_stream_duration_ms row) (Some 2500).

Definition suite : list StorageTest :=
  [update_usage_writes_tokens; update_usage_with_nulls; update_usage_no_matching_row;
   test_update_stream_completion_writes_all_fields; test_update_stream_completion_null_tokens;
   writer_processes_insert; writer_processes_stream_completion_update].

Example storage_suite_passes : forallb (passes_from (DbWriter_new RequestsTable_new)) suite = true.
Proof. vm_compute. reflexivity. Qed.
