(* ===== verification/ScorerTests.v ===== *)
(** * The tests of [router/complexity.rs], on the model

    The [regex] crate and [exp] are third-party: here a small backtracking matcher of the
    constructs the three patterns use, on ASCII text, and a rational approximation. *)

From S2P Require Import Prelude Machine RustStr Timed Config Types Serde JsonCodec Complexity.
From S2P Require Import Testing.

Open Scope test_scope.

#[local] Existing Instances AsciiCase TextJson.

(** ** Regular expressions *)

Inductive Re :=
| Chr (c : ascii)
| Class_ (f : ascii -> bool)
| Cat (r s : Re)
| Alt (l : list string)         (** [(?:a|b|..)] *)
| Many (lo : nat) (hi : option nat) (r : Re)   (** greedy *)
| Lazy (r : Re)                 (** [r*?] *)
| Bound.                        (** [\b] *)

Definition is_word (c : ascii) : bool :=
  is_ascii_lower c || is_ascii_upper c || in_range 48 57 c || Ascii.eqb c "_".

Definition word_first (s : string) : bool := match s with String c _ => is_word c | "" => false end.

(** The rest of the text and the character before it; [k] is what must match after. *)
Fixpoint re_match (fuel : nat) (r : Re) (prev : bool) (s : string)
    (k : bool -> string -> option string) {struct fuel} : option string :=
  match fuel with
  | O => None
  | S fuel' =>
      match r with
      | Chr c => match s with
                 | String a s' => if Ascii.eqb a c then k (is_word a) s' else None
                 | "" => None
                 end
      | Class_ f => match s with
                    | String a s' => if f a then k (is_word a) s' else None
                    | "" => None
                    end
      | Cat r1 r2 => re_match fuel' r1 prev s (fun p s' => re_match fuel' r2 p s' k)
      | Alt l =>
          find_map (fun w => match str_strip_prefix w s with
                             | Some s' => k true s'
                             | None => None
                             end) l
      | Many lo hi r1 =>
          let more := match hi with
                      | Some O => None
                      | _ => re_match fuel' r1 prev s (fun p s' =>
                               re_match fuel' (Many (lo - 1) (option_map pred hi) r1) p s' k)
                      end in
          match more with
          | Some rest => Some rest
          | None => if (lo =? 0)%nat then k prev s else None
          end
      | Lazy r1 =>
          match k prev s with
          | Some rest => Some rest
          | None => re_match fuel' r1 prev s (fun p s' => re_match fuel' (Lazy r1) p s' k)
          end
      | Bound => if xorb prev (word_first s) then k prev s else None
      end
  end.

(** The texts of the leftmost matches, none overlapping; no pattern here matches "". *)
Fixpoint re_find_iter (fuel : nat) (r : Re) (prev : bool) (s : string) : list string :=
  match fuel with
  | O => []
  | S fuel' =>
      match re_match (4 * S (String.length s)) r prev s (fun _ rest => Some rest) with
      | Some rest =>
          let matched := str_take (String.length s - String.length rest) s in
          matched :: re_find_iter fuel' r (word_first (str_rev matched)) rest
      | None => match s with
                | String c s' => re_find_iter fuel' r (is_word c) s'
                | "" => []
                end
      end
  end.

Definition word : Re := Many 1 None (Class_ is_word).
Definition fence : Re := Cat (Chr "`") (Cat (Chr "`") (Chr "`")).

Definition code_block : Re := Cat fence (Cat (Lazy (Class_ (fun _ => true))) fence).
Definition file_path : Re :=
  Cat Bound (Cat word (Cat (Many 1 None (Cat (Chr "/") word))
    (Cat (Chr ".") (Cat (Many 1 (Some 5%nat) (Class_ is_word)) Bound)))).
Definition file_ext : Re :=
  Cat (Chr ".") (Cat Bound (Cat
    (Alt ["rs"; "py"; "ts"; "js"; "go"; "java"; "cpp"; "c"; "h"; "toml"; "yaml"; "yml"; "json";
          "md"; "sql"; "sh"]) Bound)).

Definition regex (pattern : string) : option Re :=
  if String.eqb pattern CODE_BLOCK_RE then Some code_block
  else if String.eqb pattern FILE_PATH_RE then Some file_path
  else if String.eqb pattern FILE_EXT_RE then Some file_ext
  else None.

(** ** The exponential: the Taylor sum of [x / 64], to the 64th power *)

(** [x] in units of [2^-80]. *)
Definition fixed (x : f64) : Z :=
  match x with
  | SpecFloat.S754_finite s m e => (if s then -1 else 1) * Z.shiftl (Zpos m) (e + 80)
  | _ => 0
  end.

Definition fx_mul (a b : Z) : Z := Z.shiftr (a * b) 80.
Definition fx_one : Z := 2 ^ 80.

Fixpoint taylor (n : nat) (x acc : Z) : Z :=
  match n with O => acc | S n' => taylor n' x (fx_one + fx_mul x acc / Z.of_nat n) end.

Definition exp_approx (x : f64) : f64 :=
  let y := Nat.iter 6 (fun v => fx_mul v v) (taylor 16 (fixed x / 64) fx_one) in
  f64_ratio false y fx_one.

#[local] Instance test_deps : ScorerDeps := {|
  find_iter := fun pattern text =>
    match regex pattern with
    | Some r => re_find_iter (S (String.length text)) r false text
    | None => []
    end;
  f64_exp := exp_approx;
|}.

Example matches_paths :
  find_iter FILE_PATH_RE "fix src/main.rs and tests/foo.rs" = ["src/main.rs"; "tests/foo.rs"] /\
  find_iter FILE_EXT_RE "fix src/main.rs, a.b and x.python" = [".rs"].
Proof. split; vm_compute; reflexivity. Qed.

(** ** The tests *)

Definition msg (text : string) : Message :=
  {| m_role := "user"; m_content := Text text; m_name := None; m_extra := [] |}.

Definition default_weights : ComplexityWeightsConfig := ComplexityWeightsConfig_default.

(** [score_complexity] of the messages, with the default weights. *)
Definition score (texts : list string) : f64 := score_complexity (map msg texts) default_weights.

Definition nl1 : string := String (ascii_of_nat 10) "".
Definition lines (l : list string) : string := str_join nl1 l.

Definition test_empty_messages_returns_frontier : Test := assert (f64_eqb (score []) f64_one).

Definition test_short_content_returns_frontier : Test := assert (f64_eqb (score ["hi"]) f64_one).

Definition test_simple_greeting_scores_low : Test :=
  assert (f64_ltb (score ["Hello, how are you today?"]) (f64_lit 4 10)).

Definition test_complex_multipart_scores_high : Test :=
  let text i :=
    "Message " +:+ pretty_Z i +:+ ": Please analyze and evaluate the tradeoff between " +:+
    lines ["src/main.rs and tests/foo.rs. Here is code:";
           "```rust"; "fn example_" +:+ pretty_Z i +:+ "() {}"; "```";
           "```python"; "def example_" +:+ pretty_Z i +:+ "(): pass"; "```";
           "```go"; "func example" +:+ pretty_Z i +:+ "() {}"; "```";
           "Step by step, architect a solution across the codebase."] in
  assert (f64_gtb (score (map text [0; 1; 2; 3; 4; 5; 6; 7])) (f64_lit 7 10)).

Definition test_code_blocks_increase_score : Test :=
  let without := "Please help me with this function that processes data" in
  let with_ := lines [without; "```rust"; "fn process() {}"; "```"; "```rust"; "fn transform() {}";
                      "```"; "```rust"; "fn validate() {}"; "```"] in
  assert (f64_gtb (score [with_]) (score [without])).

Definition test_file_paths_increase_score : Test :=
  assert (f64_gtb (score ["Please help me fix src/main.rs and tests/foo.rs and lib/utils.py"])
            (score ["Please help me fix the main module and the test module"])).

Definition test_reasoning_keywords_increase_score : Test :=
  assert (f64_gtb (score ["Please architect a solution with tradeoff analysis step by step"])
            (score ["Please help me write some code for my project today"])).

Definition test_conversation_depth_increases_score : Test :=
  let short_msg := "Tell me about Rust programming language features" in
  assert (f64_gtb (score (repeat short_msg 10)) (score (repeat short_msg 2))).

(** The default weights with one changed. *)
Definition weights (cl cb mf rk cd : f64) (extra : list string) : ComplexityWeightsConfig := {|
  context_length := cl; code_blocks := cb; multi_file := mf; reasoning_keywords := rk;
  conversation_depth := cd; extra_keywords := extra |}.

Definition test_zero_weight_eliminates_signal : Test :=
  let with_code := [msg (lines ["Hello there friend!"; "```rust"; "fn a() {}"; "```"; "```rust";
                                "fn b() {}"; "```"; "```rust"; "fn c() {}"; "```"])] in
  let score_normal := score_complexity with_code default_weights in
  let score_zero := score_complexity with_code
                      (weights f64_one f64_zero f64_one f64_one f64_one []) in
  assert (f64_gtb (SpecFloat.SFabs (f64_sub score_normal score_zero)) (f64_lit 1 100)
          || f64_ltb score_normal (f64_lit 3 10)).

Definition test_high_weight_amplifies_signal : Test :=
  let with_keywords :=
    [msg "Please architect a solution and evaluate the tradeoff step by step carefully"] in
  let score_high := score_complexity with_keywords
                      (weights f64_one f64_one f64_one (f64_of_Z 10) f64_one []) in
  assert (f64_gtb score_high (score_complexity with_keywords default_weights)).

Definition test_extra_keywords_matched : Test :=
  let text := [msg "Please frobulate the entire system with care and precision"] in
  let score_with := score_complexity text
                      (weights f64_one f64_one f64_one f64_one f64_one ["frobulate"]) in
  assert (f64_gtb score_with (score_complexity text default_weights)).

Definition test_score_always_clamped : Test :=
  let messages := [msg "Hello, how are you today friend?"] in
  let s := score_complexity messages
             (weights (f64_of_Z 1000) f64_one f64_one f64_one f64_one []) in
  assert (f64_leb f64_zero s && f64_leb s f64_one) >>;
  let s := score_complexity messages
             (weights f64_zero f64_zero f64_zero f64_zero f64_zero []) in
  assert (f64_eqb s f64_one).

(** [score_to_max_tier(score, 0.4, 0.7)] *)
Definition tier_of (score : f64) : Tier := score_to_max_tier score (f64_lit 4 10) (f64_lit 7 10).

Definition test_score_to_max_tier_below_low : Test :=
  assert_eq (tier_of (f64_lit 2 10)) Local >>;
  assert_eq (tier_of f64_zero) Local >>;
  assert_eq (tier_of (f64_lit 39 100)) Local.

Definition test_score_to_max_tier_at_and_between_thresholds : Test :=
  assert_eq (tier_of (f64_lit 4 10)) Standard >>;
  assert_eq (tier_of (f64_lit 5 10)) Standard >>;
  assert_eq (tier_of (f64_lit 7 10)) Standard.

Definition test_score_to_max_tier_above_high : Test :=
  assert_eq (tier_of (f64_lit 71 100)) Frontier >>;
  assert_eq (tier_of f64_one) Frontier.

Definition test_multimodal_content_handled : Test :=
  let! part := opt_unwrap (json_from_str (json (
    "{'type':'text','text':'Please architect a solution and analyze the tradeoff step by step " +:+
    "for this complex problem'}"))) in
  let multimodal :=
    {| m_role := "user"; m_content := Parts [part]; m_name := None; m_extra := [] |} in
  assert (f64_gtb (score_complexity [multimodal] default_weights) f64_zero).

Definition suite : list Test :=
  [test_empty_messages_returns_frontier; test_short_content_returns_frontier;
   test_simple_greeting_scores_low; test_complex_multipart_scores_high;
   test_code_blocks_increase_score; test_file_paths_increase_score;
   test_reasoning_keywords_increase_score; test_conversation_depth_increases_score;
   test_zero_weight_eliminates_signal; test_high_weight_amplifies_signal;
   test_extra_keywords_matched; test_score_always_clamped; test_score_to_max_tier_below_low;
   test_score_to_max_tier_at_and_between_thresholds; test_score_to_max_tier_above_high;
   test_multimodal_content_handled].

Example scorer_suite_passes : forallb passes suite = true.
Proof. vm_compute. reflexivity. Qed.
