(* ===== verification/TestApp.v ===== *)
(** * The set-up of the integration tests ([src/tests/common/mod.rs])

    A test runs requests through [App.app], in the state of a server: its registry, its
    tables, the calls it made.  Mock servers are functions of the request; nobody else is
    active, and bodies and queries take no time.  [chrono] is a test double that reads and
    writes the dates of the Gregorian calendar. *)

From S2P Require Import Prelude Machine RustStr Timed Config Errors Types Router Complexity.
From S2P Require Import CircuitBreaker Retry Storage Vault Http Handlers Frames Billing Liveness Logging.
From S2P Require Import Query Server Serde JsonCodec Wire VaultJson Replies App Testing ScorerTests.

Open Scope test_scope.

#[export] Existing Instances AsciiCase VersionedWatch InsertionOrder TextJson PlainValue CodecText PlainHttp
  ListEngine.
#[export] Existing Instances test_deps http_app serde_app order_app.

(** ** Dates *)

(** Day [z] after 1970-01-01, and back: years begin in March. *)
Definition civil (z : Z) : Z * Z * Z :=
  let z := z + 719468 in
  let era := z / 146097 in
  let doe := z mod 146097 in
  let yoe := (doe - doe / 1460 + doe / 36524 - doe / 146096) / 365 in
  let doy := doe - (365 * yoe + yoe / 4 - yoe / 100) in
  let mp := (5 * doy + 2) / 153 in
  let m := if mp <? 10 then mp + 3 else mp - 9 in
  (yoe + era * 400 + (if m <=? 2 then 1 else 0), m, doy - (153 * mp + 2) / 5 + 1).

Definition days (y m d : Z) : Z :=
  let y := if m <=? 2 then y - 1 else y in
  let era := y / 400 in
  let yoe := y mod 400 in
  let doy := (153 * (if m <=? 2 then m + 9 else m - 3) + 2) / 5 + d - 1 in
  era * 146097 + (yoe * 365 + yoe / 4 - yoe / 100 + doy) - 719468.

Definition field (n : nat) (z : Z) : string := pad_left n (pretty_Z z).

Definition date_time (ns : Z) : string :=
  let s := ns / secs 1 in
  let '(y, m, d) := civil (s / 86400) in
  let t := s mod 86400 in
  field 4 y +:+ "-" +:+ field 2 m +:+ "-" +:+ field 2 d +:+ "T" +:+
  field 2 (t / 3600) +:+ ":" +:+ field 2 (t / 60 mod 60) +:+ ":" +:+ field 2 (t mod 60).

(** [YYYY-MM-DDTHH:MM:SS], then an offset of zero. *)
Definition read_date_time (s : string) : option Z :=
  let part n len := u32_from_str (String.substring n len s) in
  y ← part 0%nat 4%nat; m ← part 5%nat 2%nat; d ← part 8%nat 2%nat;
  hour ← part 11%nat 2%nat; minute ← part 14%nat 2%nat; second ← part 17%nat 2%nat;
  let offset := String.substring 19 (String.length s - 19) s in
  if String.eqb offset "Z" || String.eqb offset "+00:00"
  then Some (secs (days y m d * 86400 + hour * 3600 + minute * 60 + second)) else None.

#[export] Instance calendar : Chrono := {|
  parse_from_rfc3339 := fun s => ok_or (read_date_time s) "input contains invalid characters";
  to_rfc3339 := fun ns => date_time ns +:+ "+00:00" |}.

(** [to_rfc3339_opts(SecondsFormat::Secs, true)] *)
Definition rfc3339z (ns : Z) : string := date_time ns +:+ "Z".

Example calendar_rounds :
  to_rfc3339 (secs 1772323199) = "2026-02-28T23:59:59+00:00" /\
  parse_from_rfc3339 "2024-02-29T12:30:01Z" = Ok (secs 1709209801) /\
  forallb (fun n => let '(y, m, d) := civil n in days y m d =? n) (map (fun k => Z.of_nat k * 97) (seq 0 500)) = true.
Proof. vm_compute. repeat split. Qed.

(** ** Applications *)

Definition test_server : ServerConfig :=
  {| listen := "127.0.0.1:0"; rate_limit_rps := None; auth_token := None |}.

(** [PoliciesConfig::default()] *)
Definition no_policies : PoliciesConfig := {| default_strategy := ""; rules := [] |}.

Definition test_config (ps : list ProviderConfig) : Config := {|
  server := test_server; database := None; vault := None; providers := ps; policies := no_policies;
  logging := LoggingConfig_default; routing := RoutingConfig_default |}.

Definition with_auth (auth_token : option string) (c : Config) : Config := {|
  server := {| listen := listen (server c); rate_limit_rps := rate_limit_rps (server c); auth_token := auth_token |};
  database := database c; vault := vault c; providers := providers c; policies := policies c;
  logging := logging c; routing := routing c |}.

Definition with_policies (p : PoliciesConfig) (c : Config) : Config := {|
  server := server c; database := database c; vault := vault c; providers := providers c; policies := p;
  logging := logging c; routing := routing c |}.

Definition with_vault_config (v : VaultConfig) (c : Config) : Config := {|
  server := server c; database := database c; vault := Some v; providers := providers c; policies := policies c;
  logging := logging c; routing := routing c |}.

Definition priced (name url : string) (input_rate output_rate base_fee : Z) (tier : Tier) : ProviderConfig := {|
  p_name := name; p_url := url; p_api_key := None; p_models := ["gpt-4o"]; p_input_rate := input_rate;
  p_output_rate := output_rate; p_base_fee := base_fee; p_tier := tier; p_auto_discover := false |}.

Definition test_provider (name : string) : ProviderConfig :=
  priced name "https://fake.test/v1" 5 15 0 Standard.

(** The state the set-ups build: no writer; with [db], a pool and a read pool. *)
Definition test_app (config : Config) (db : bool) (names : list string) : Server := {|
  sv_state := {| st_router := Router_new (providers config) (rules (policies config))
                                (default_strategy (policies config));
                 st_config := config; st_db_writer := false;
                 st_vault := option_map VaultClient_new (vault config) |};
  sv_db := db; sv_read_db := db; sv_registry := Registry_new names; sv_reconciles := false |}.

Definition setup_app (config : Config) : Server := test_app config false (map p_name (providers config)).
Definition setup_circuit_test_app (ps : list ProviderConfig) : Server := setup_app (test_config ps).

Definition db_test_config : Config :=
  let beta := priced "beta" "https://beta.test/v1" 5 15 0 Standard in
  test_config [with_models (priced "alpha" "https://alpha.test/v1" 10 30 1 Standard) ["gpt-4o"; "claude-3.5-sonnet"];
               with_models beta ["gpt-4o"; "gpt-4o-mini"]].

Definition setup_db_test_app : Server := test_app db_test_config true [].

Definition test_vault (url : string) : VaultConfig := {|
  v_url := url; v_internal_token := ApiKey_from "test-internal-token"; v_default_reserve_tokens := 4096;
  v_pending_threshold := 100 |}.

Definition setup_vault_test_app_with_auth (vault_url provider_url : string) (auth_token : option string) : Server :=
  setup_app (with_vault_config (test_vault vault_url) (with_auth auth_token (test_config
    [priced "cheap-local" (provider_url +:+ "/v1") 1 5 0 Local;
     priced "expensive-frontier" (provider_url +:+ "/v1") 10 30 2 Frontier]))).

Definition setup_vault_test_app (vault_url provider_url : string) : Server :=
  setup_vault_test_app_with_auth vault_url provider_url None.

Definition setup_free_proxy_test_app (provider_url : string) : Server :=
  setup_app (test_config [priced "local-provider" (provider_url +:+ "/v1") 1 5 0 Local]).

(** ** The mock servers *)

(** The mock providers, by base URL: the status and the body of their reply. *)
Abbreviation Network := (list (string * (Z * Tree))).

Definition mock_upstream (net : Network) (n : nat) (r : UpstreamRequest) : Duration * result UpstreamReply string :=
  match List.find (fun m => String.eqb (fst m +:+ "/chat/completions") (ur_url r)) net with
  | Some (_, (status, body)) =>
      (millis 1, Ok {| up_status := status; up_status_text := pretty_Z status; up_json := Ok body;
                       up_text := Some (print_json body); up_stream := [Ok (String.list_ascii_of_string (print_json body))] |})
  | None => (millis 1, Err "error sending request")
  end.

(** The statuses of the mock vault's three endpoints. *)
Record VaultMock := { on_reserve : Z; on_settle : Z; on_release : Z }.

Definition vault_up : VaultMock := {| on_reserve := 200; on_settle := 200; on_release := 200 |}.

Definition mock_post (v : VaultMock) (n : nat) (c : VaultCall) : Duration * result VaultReply SendError :=
  let reply status body :=
    let body := if is_success status then body else json_object [("error", SStr "mock vault error")] in
    (millis 1, Ok {| vr_status := status; vr_json := Ok body; vr_text := Some (print_json body) |}) in
  match c with
  | CallReserve _ _ _ _ => reply (on_reserve v) (json_object [("reservation_id", SStr "res-test-123")])
  | CallSettle _ _ _ => reply (on_settle v) (json_object [("settled", SBool true); ("refunded_msats", SInt 0)])
  | CallRelease _ _ => reply (on_release v) (json_object [("released", SBool true)])
  end.

(** ** Tests *)

#[export] Instance f64_eq_dec : EqDecision f64.
Proof. solve_decision. Defined.

Definition AppTest : Type := Timed AppWorld unit.

Definition app_world (sv : Server) : AppWorld :=
  mkApp (sv_registry sv) (DbWriter_new RequestsTable_new) World_new [] [] [] 0.

Definition start (sv : Server) : AppTest := t_modify (fun _ => app_world sv).

Definition app_passes (test : AppTest) : bool := passes_from (app_world setup_db_test_app) test.

(** [Utc::now()] when a test starts. *)
Definition utc_start : Z := secs 1772323200.
Definition utc_now (t : Instant) : Z := utc_start + t.

(** [app.oneshot(request)] *)
Definition oneshot (net : Network) (v : VaultMock) (sv : Server) (req : HttpRequest) : Timed AppWorld Reply :=
  app idle_app (fun t => rfc3339z (utc_now t)) (mock_upstream net) (mock_post v) (fun _ => []) (fun _ _ => (0, true))
    (fun _ => 0) utc_now (fun _ _ => Ok 0%nat) (fun _ => 0) sv "550e8400-e29b-41d4-a716-446655440000" req.

Definition get_request (path : string) (query : list (string * string)) : PlainRequest :=
  {| pr_method := GET; pr_path := path; pr_query := query; pr_headers := []; pr_body := "" |}.

Definition post_request (path : string) (headers : list (string * string)) (body : Tree) : PlainRequest :=
  {| pr_method := POST; pr_path := path; pr_query := []; pr_body := print_json body;
     pr_headers := ("content-type", "application/json") :: headers |}.

(** [parse_body]: the status and the JSON of the bytes. *)
Definition parse_body (r : Reply) : Z * Tree :=
  let bytes := match rp_payload r with Json t => print_json t | RawText s => s | Channel => "" end in
  (rp_status r, default SNull (read_json map_of bytes)).

Definition get (sv : Server) (path : string) (query : list (string * string)) : Timed AppWorld (Z * Tree) :=
  let! r := oneshot [] vault_up sv (get_request path query) in t_ret (parse_body r).

Definition chat (net : Network) (v : VaultMock) (sv : Server) (headers : list (string * string)) (body : Tree)
    : Timed AppWorld Reply :=
  oneshot net v sv (post_request "/v1/chat/completions" headers body).

Definition user_message (content : string) : Tree :=
  json_object [("role", SStr "user"); ("content", SStr content)].

(** [value[k]] and [value[i]]: [null] when it is not there. *)
Definition at_key (t : Tree) (k : string) : Tree := default SNull (v_get k t).
Definition at_index (t : Tree) (i : nat) : Tree := default SNull (v_get_idx i t).
Definition at_path (t : Tree) (ks : list string) : Tree := fold_left at_key ks t.

Definition int (t : Tree) : option Z := match t with SInt z => Some z | _ => None end.
Definition text (t : Tree) : option string := match t with SStr s => Some s | _ => None end.
Definition flag (t : Tree) : option bool := match t with SBool b => Some b | _ => None end.
Definition real (t : Tree) : option f64 := match t with SFloat x => Some x | SInt z => Some (f64_of_Z z) | _ => None end.
Definition is_number (t : Tree) : bool := is_some (real t).
Definition is_object (t : Tree) : bool := match t with SMap _ => true | _ => false end.
Definition members_of (t : Tree) : option (list (string * Tree)) := match t with SMap ms => Some ms | _ => None end.
Definition items (t : Tree) : option (list Tree) := match t with SSeq l => Some l | _ => None end.

Definition assert_int (t : Tree) (ks : list string) (z : Z) : AppTest := assert_eq (int (at_path t ks)) (Some z).
Definition assert_text (t : Tree) (ks : list string) (s : string) : AppTest := assert_eq (text (at_path t ks)) (Some s).
Definition assert_real (t : Tree) (ks : list string) (x : f64) : AppTest := assert_eq (real (at_path t ks)) (Some x).
Definition assert_flag (t : Tree) (ks : list string) (b : bool) : AppTest := assert_eq (flag (at_path t ks)) (Some b).
Definition assert_mentions (t : Tree) (ks : list string) (word : string) : AppTest :=
  assert (str_contains (default "" (text (at_path t ks))) word).

(** [registry.record_failure(..)], three times for [trip_circuit]. *)
Definition record_error (name message : string) : AppTest :=
  on_registry idle_app (fun now => record_failure now name "5xx" message).

Definition trip_circuit (name : string) : AppTest :=
  t_for (seq 0 (Z.to_nat FAILURE_THRESHOLD)) (fun _ => record_error name "Internal Server Error").

Definition assert_state (name : string) (s : CircuitState) : AppTest :=
  let! w := t_get in assert_eq (reg_state (aw_registry w) name) (Some s).

Definition assert_failures (name : string) (n : Z) : AppTest :=
  let! w := t_get in assert_eq (reg_failure_count (aw_registry w) name) (Some n).

Definition assert_served_by (r : Reply) (names : list string) : AppTest :=
  let! name := opt_unwrap (rp_headers r !! "x-arbstr-provider") in
  assert (existsb (String.eqb name) names).
