(* ===== verification/ServerTests.v ===== *)
(** * The integration tests of health, cost, routing around open circuits and escalation
    ([src/tests/{health,cost,circuit_integration,escalation}.rs]), on the model *)

From S2P Require Import Prelude Machine RustStr Timed Config Types CircuitBreaker Http Handlers Server Serde.
From S2P Require Import JsonCodec Wire VaultJson Replies App Testing TestApp.

Open Scope test_scope.

(** ** [health.rs] *)

Module Health.

Definition providers_ab : Server := setup_circuit_test_app [test_provider "provider-a"; test_provider "provider-b"].
Definition provider_a : Server := setup_circuit_test_app [test_provider "provider-a"].

(** The request, and the status of the reply with the one in its body. *)
Definition health_is (sv : Server) (status : Z) (word : string) : Timed AppWorld Tree :=
  let! (code, body) := get sv "/health" [] in
  assert_eq code status >>;
  assert_text body ["status"] word >>;
  t_ret body.

Definition assert_provider (body : Tree) (name state : string) : AppTest :=
  assert_text body ["providers"; name; "state"] state.
Definition assert_count (body : Tree) (name : string) (n : Z) : AppTest :=
  assert_int body ["providers"; name; "failure_count"] n.

(** [registry.acquire_permit(name).await], when no probe is in flight. *)
Definition permit_is_ok (name : string) : AppTest :=
  let! permit := acquire_permit idle_app name in assert (is_ok permit).

Definition test_health_ok_all_closed : AppTest :=
  start providers_ab >>;
  let! body := health_is providers_ab 200 "ok" in
  assert_provider body "provider-a" "closed" >>;
  assert_count body "provider-a" 0 >>;
  assert_provider body "provider-b" "closed" >>;
  assert_count body "provider-b" 0.

Definition test_health_ok_zero_providers : AppTest :=
  let sv := setup_circuit_test_app [] in
  start sv >>;
  let! body := health_is sv 200 "ok" in
  assert_eq (length <$> members_of (at_key body "providers")) (Some 0%nat).

Definition test_health_degraded_one_open : AppTest :=
  start providers_ab >>;
  trip_circuit "provider-a" >>;
  let! body := health_is providers_ab 200 "degraded" in
  assert_provider body "provider-a" "open" >>;
  assert_count body "provider-a" 3 >>;
  assert_provider body "provider-b" "closed" >>;
  assert_count body "provider-b" 0.

Definition test_health_unhealthy_all_open : AppTest :=
  start providers_ab >>;
  trip_circuit "provider-a" >>;
  trip_circuit "provider-b" >>;
  let! body := health_is providers_ab 503 "unhealthy" in
  assert_provider body "provider-a" "open" >>;
  assert_provider body "provider-b" "open".

Definition test_health_degraded_half_open : AppTest :=
  start provider_a >>;
  trip_circuit "provider-a" >>;
  assert_state "provider-a" Open >>;
  t_await (secs 31) >>;
  permit_is_ok "provider-a" >>;
  assert_state "provider-a" HalfOpen >>;
  let! body := health_is provider_a 200 "degraded" in
  assert_provider body "provider-a" "half_open".

Definition test_health_degraded_mix_open_half_open : AppTest :=
  start providers_ab >>;
  trip_circuit "provider-a" >>;
  trip_circuit "provider-b" >>;
  t_await (secs 31) >>;
  permit_is_ok "provider-a" >>;
  assert_state "provider-a" HalfOpen >>;
  assert_state "provider-b" Open >>;
  let! body := health_is providers_ab 200 "degraded" in
  assert_provider body "provider-a" "half_open" >>;
  assert_provider body "provider-b" "open".

Definition test_health_single_provider_open : AppTest :=
  start provider_a >>;
  trip_circuit "provider-a" >>;
  let! body := health_is provider_a 503 "unhealthy" in
  assert_provider body "provider-a" "open".

Definition test_health_failure_count_increments : AppTest :=
  start provider_a >>;
  record_error "provider-a" "Error 1" >>;
  record_error "provider-a" "Error 2" >>;
  let! body := health_is provider_a 200 "ok" in
  assert_provider body "provider-a" "closed" >>;
  assert_count body "provider-a" 2.

Definition suite : list AppTest :=
  [test_health_ok_all_closed; test_health_ok_zero_providers; test_health_degraded_one_open;
   test_health_unhealthy_all_open; test_health_degraded_half_open; test_health_degraded_mix_open_half_open;
   test_health_single_provider_open; test_health_failure_count_increments].

Example health_suite_passes : forallb app_passes suite = true.
Proof. vm_compute. reflexivity. Qed.

End Health.

(** ** [cost.rs] *)

Module Cost.

Definition setup_cost_test_app (ps : list ProviderConfig) (policy_rules : list PolicyRule) : Server :=
  setup_app (with_policies {| default_strategy := "cheapest"; rules := policy_rules |} (test_config ps)).
Definition setup_cost_test_app_with_auth (ps : list ProviderConfig) (token : string) : Server :=
  setup_app (with_auth (Some token) (test_config ps)).

Definition provider_with_rates (name : string) (input_rate output_rate base_fee : Z) : ProviderConfig :=
  priced name "https://fake.test/v1" input_rate output_rate base_fee Standard.

Definition cost_request_body (model message : string) (max_tokens : option Z) : Tree :=
  json_object ([("model", SStr model); ("messages", SSeq [user_message message])] ++
    match max_tokens with Some mt => [("max_tokens", SInt mt)] | None => [] end).

Definition cost (sv : Server) (headers : list (string * string)) (body : Tree) : Timed AppWorld (Z * Tree) :=
  start sv >>;
  let! r := oneshot [] vault_up sv (post_request "/v1/cost" headers body) in t_ret (parse_body r).

Definition assert_rates (body : Tree) (input output base : Z) : AppTest :=
  assert_int body ["rates"; "input_rate_sats_per_1k"] input >>;
  assert_int body ["rates"; "output_rate_sats_per_1k"] output >>;
  assert_int body ["rates"; "base_fee_sats"] base.

Definition test_cost_basic : AppTest :=
  let! (status, body) := cost (setup_cost_test_app [provider_with_rates "alpha" 10 30 1] []) []
                           (cost_request_body "gpt-4o" "Hello, world!" None) in
  assert_eq status 200 >>;
  assert_text body ["model"] "gpt-4o" >>;
  assert_text body ["provider"] "alpha" >>;
  t_for ["estimated_input_tokens"; "estimated_output_tokens"; "estimated_cost_sats"]
    (fun k => assert (is_number (at_key body k))) >>;
  assert (is_object (at_key body "rates")) >>;
  assert_rates body 10 30 1.

Definition test_cost_unknown_model : AppTest :=
  let! (status, _) := cost (setup_cost_test_app [provider_with_rates "alpha" 10 30 1] []) []
                        (cost_request_body "nonexistent-model" "hello" None) in
  assert_eq status 400.

Definition test_cost_picks_cheapest : AppTest :=
  let! (status, body) := cost (setup_cost_test_app
      [provider_with_rates "expensive" 15 40 5; provider_with_rates "cheap" 3 10 0] []) []
      (cost_request_body "gpt-4o" "hello" None) in
  assert_eq status 200 >>;
  assert_text body ["provider"] "cheap".

(** One provider, "alpha", and a number of the reply. *)
Definition alpha_estimates (message : string) (max_tokens : option Z) (key : string) (n : Z) : AppTest :=
  let! (status, body) := cost (setup_cost_test_app [provider_with_rates "alpha" 10 30 0] []) []
                           (cost_request_body "gpt-4o" message max_tokens) in
  assert_eq status 200 >>;
  assert_int body [key] n.

Definition test_cost_max_tokens_used : AppTest := alpha_estimates "hello" (Some 100) "estimated_output_tokens" 100.
Definition test_cost_default_output_tokens : AppTest := alpha_estimates "hello" None "estimated_output_tokens" 256.
Definition test_cost_input_estimation : AppTest :=
  alpha_estimates (str_join "" (repeat "a" 400)) None "estimated_input_tokens" 100.

Definition test_cost_with_policy_header : AppTest :=
  let policy := {| r_name := "strict_budget"; r_allowed_models := ["gpt-4o"]; r_strategy := "lowest_cost";
                   r_max_sats_per_1k_output := Some 20; r_keywords := [] |} in
  let! (status, body) := cost (setup_cost_test_app
      [provider_with_rates "expensive" 15 40 0; provider_with_rates "budget" 3 10 0] [policy])
      [("x-arbstr-policy", "strict_budget")] (cost_request_body "gpt-4o" "hello" None) in
  assert_eq status 200 >>;
  assert_text body ["provider"] "budget".

Definition test_cost_rates_in_response : AppTest :=
  let! (status, body) := cost (setup_cost_test_app [provider_with_rates "alpha" 7 22 3] []) []
                           (cost_request_body "gpt-4o" "hello" None) in
  assert_eq status 200 >>;
  assert_rates body 7 22 3.

Definition test_cost_requires_auth : AppTest :=
  let! (status, _) := cost (setup_cost_test_app_with_auth [provider_with_rates "alpha" 10 30 0] "secret-token-123") []
                        (cost_request_body "gpt-4o" "hello" None) in
  assert_eq status 401.

Definition suite : list AppTest :=
  [test_cost_basic; test_cost_unknown_model; test_cost_picks_cheapest; test_cost_max_tokens_used;
   test_cost_default_output_tokens; test_cost_with_policy_header; test_cost_input_estimation;
   test_cost_rates_in_response; test_cost_requires_auth].

Example cost_suite_passes : forallb app_passes suite = true.
Proof. vm_compute. reflexivity. Qed.

End Cost.

(** ** [circuit_integration.rs] *)

Module Circuit.

Definition mock_completion : Tree := json_object
  [("id", SStr "chatcmpl-mock"); ("object", SStr "chat.completion");
   ("choices", SSeq [json_object
      [("message", json_object [("role", SStr "assistant"); ("content", SStr "mock response")]);
       ("index", SInt 0); ("finish_reason", SStr "stop")]]);
   ("usage", json_object [("prompt_tokens", SInt 10); ("completion_tokens", SInt 5); ("total_tokens", SInt 15)])].

Definition mock_url : string := "http://127.0.0.1:12345/v1".

(** [start_mock_provider_ok], [start_mock_provider_500], [start_mock_provider_400] *)
Definition mock_ok : Network := [(mock_url, (200, mock_completion))].
Definition mock_500 : Network := [(mock_url, (500, SNull))].
Definition mock_400 : Network :=
  [(mock_url, (400, json_object [("error", json_object
     [("message", SStr "bad request"); ("type", SStr "invalid_request_error")])]))].

Definition chat_request_body (stream : bool) : Tree := json_object
  [("model", SStr "gpt-4o"); ("messages", SSeq [user_message "hello"]); ("stream", SBool stream)].

Definition send (net : Network) (sv : Server) (stream : bool) : Timed AppWorld Reply :=
  chat net vault_up sv [] (chat_request_body stream).

(** Two unreachable providers. *)
Definition two_fakes : Server := setup_circuit_test_app
  [priced "provider-a" "https://fake-a.test/v1" 5 15 0 Standard; priced "provider-b" "https://fake-b.test/v1" 10 30 1 Standard].

(** The first, cheaper one is unreachable. *)
Definition fake_and_mock : Server := setup_circuit_test_app
  [priced "provider-a" "https://fake-a.test/v1" 3 10 0 Standard; priced "provider-b" mock_url 10 30 1 Standard].

Definition one_mock : Server := setup_circuit_test_app [priced "provider-a" mock_url 5 15 0 Standard].

Definition all_circuits_open (stream : bool) : AppTest :=
  start two_fakes >>;
  trip_circuit "provider-a" >>;
  trip_circuit "provider-b" >>;
  let! response := send [] two_fakes stream in
  let '(status, body) := parse_body response in
  assert_eq status 503 >>;
  assert_mentions body ["error"; "message"] "open circuits".

Definition test_non_streaming_503_all_circuits_open : AppTest := all_circuits_open false.
Definition test_streaming_503_all_circuits_open : AppTest := all_circuits_open true.

Definition skips_open_circuit (stream : bool) : AppTest :=
  start fake_and_mock >>;
  trip_circuit "provider-a" >>;
  let! response := send mock_ok fake_and_mock stream in
  assert_eq (rp_status response) 200 >>;
  assert_served_by response ["provider-b"].

Definition test_non_streaming_skips_open_circuit : AppTest := skips_open_circuit false.
Definition test_streaming_skips_open_circuit : AppTest := skips_open_circuit true.

Definition assert_some_failure (name : string) : AppTest :=
  let! w := t_get in
  let! n := opt_unwrap (reg_failure_count (aw_registry w) name) in
  assert (1 <=? n).

Definition test_circuit_records_failure_on_5xx : AppTest :=
  start one_mock >>;
  assert_failures "provider-a" 0 >>;
  let! response := send mock_500 one_mock false in
  assert_ne (rp_status response) 200 >>;
  assert_some_failure "provider-a".

Definition test_circuit_stays_closed_on_4xx : AppTest :=
  start one_mock >>;
  assert_failures "provider-a" 0 >>;
  let! _ := send mock_400 one_mock false in
  assert_failures "provider-a" 0 >>;
  assert_state "provider-a" Closed.

Definition test_non_streaming_records_success : AppTest :=
  start one_mock >>;
  record_error "provider-a" "Error 1" >>;
  record_error "provider-a" "Error 2" >>;
  assert_failures "provider-a" 2 >>;
  let! response := send mock_ok one_mock false in
  assert_eq (rp_status response) 200 >>;
  assert_failures "provider-a" 0 >>;
  assert_state "provider-a" Closed.

Definition test_streaming_records_failure_on_5xx : AppTest :=
  start one_mock >>;
  assert_failures "provider-a" 0 >>;
  let! _ := send mock_500 one_mock true in
  assert_some_failure "provider-a".

Definition test_503_has_request_id_header : AppTest :=
  let sv := setup_circuit_test_app [test_provider "provider-a"] in
  start sv >>;
  trip_circuit "provider-a" >>;
  let! response := send [] sv false in
  assert_eq (rp_status response) 503 >>;
  assert (is_some (rp_headers response !! "x-arbstr-request-id")).

Definition suite : list AppTest :=
  [test_non_streaming_503_all_circuits_open; test_non_streaming_skips_open_circuit;
   test_streaming_503_all_circuits_open; test_streaming_skips_open_circuit;
   test_circuit_records_failure_on_5xx; test_circuit_stays_closed_on_4xx;
   test_non_streaming_records_success; test_streaming_records_failure_on_5xx;
   test_503_has_request_id_header].

Example circuit_suite_passes : forallb app_passes suite = true.
Proof. vm_compute. reflexivity. Qed.

End Circuit.

(** ** [escalation.rs] *)

Module Escalation.

Definition local_url : string := "http://127.0.0.1:10001/v1".
Definition standard_url : string := "http://127.0.0.1:10002/v1".
Definition frontier_url : string := "http://127.0.0.1:10003/v1".

Definition tiered : Server := setup_circuit_test_app
  [priced "local-provider" local_url 1 5 0 Local; priced "standard-provider" standard_url 5 15 1 Standard;
   priced "frontier-provider" frontier_url 10 30 2 Frontier].

Definition mocks : Network := map (fun url => (url, (200, Circuit.mock_completion))) [local_url; standard_url; frontier_url].

Definition newline : string := String (ascii_of_nat 10) "".

Definition complex_chat_request_body : Tree := json_object
  [("model", SStr "gpt-4o");
   ("messages", SSeq
     [user_message ("Please analyze the following code and refactor it:" +:+ newline +:+ "```rust" +:+ newline +:+
        "fn main() {" +:+ newline +:+ "    let x = vec![1, 2, 3];" +:+ newline +:+
        "    let y: Vec<_> = x.iter().map(|i| i * 2).collect();" +:+ newline +:+
        json "    println!('{:?}', y);" +:+ newline +:+ "}" +:+ newline +:+ "```" +:+ newline +:+
        "Also check `src/main.rs` and `src/lib.rs` and `tests/integration.rs` for any issues with the architecture. " +:+
        "Consider the trade-offs between performance and readability, and explain your reasoning step by step.");
      json_object [("role", SStr "assistant"); ("content", SStr "I'll analyze each file systematically.")];
      user_message ("Also compare `src/router/mod.rs` and `src/proxy/server.rs` -- " +:+
                    "think carefully about the dependency graph.")]);
   ("stream", SBool false)].

(** With these circuits tripped and this complexity header, one of these providers answers. *)
Definition routes_to (tripped : list string) (header : option string) (body : Tree) (names : list string) : AppTest :=
  start tiered >>;
  t_for tripped trip_circuit >>;
  let! response := chat mocks vault_up tiered
                     match header with Some h => [("x-arbstr-complexity", h)] | None => [] end body in
  assert_eq (rp_status response) 200 >>;
  assert_served_by response names.

Definition everyone : list string := ["local-provider"; "standard-provider"; "frontier-provider"].

Definition test_complexity_header_high_routes_to_frontier : AppTest :=
  routes_to [] (Some "high") (Circuit.chat_request_body false) everyone.
Definition test_complexity_header_low_routes_to_local : AppTest :=
  routes_to [] (Some "low") complex_chat_request_body ["local-provider"].
Definition test_complexity_header_medium_routes_to_standard : AppTest :=
  routes_to [] (Some "medium") (Circuit.chat_request_body false) ["local-provider"; "standard-provider"].
Definition test_complexity_header_invalid_uses_scorer : AppTest :=
  start tiered >>;
  let! response := chat mocks vault_up tiered [("x-arbstr-complexity", "invalid-value")]
                     (Circuit.chat_request_body false) in
  assert_eq (rp_status response) 200.
Definition test_no_complexity_header_uses_scorer : AppTest :=
  routes_to [] None (Circuit.chat_request_body false) everyone.
Definition test_escalation_when_local_circuit_broken : AppTest :=
  routes_to ["local-provider"] (Some "low") (Circuit.chat_request_body false) ["standard-provider"].
Definition test_escalation_one_way_never_deescalates : AppTest :=
  routes_to ["local-provider"; "standard-provider"] (Some "low") (Circuit.chat_request_body false) ["frontier-provider"].

Definition suite : list AppTest :=
  [test_complexity_header_high_routes_to_frontier; test_complexity_header_low_routes_to_local;
   test_complexity_header_medium_routes_to_standard; test_complexity_header_invalid_uses_scorer;
   test_no_complexity_header_uses_scorer; test_escalation_when_local_circuit_broken;
   test_escalation_one_way_never_deescalates].

Example escalation_suite_passes : forallb app_passes suite = true.
Proof. vm_compute. reflexivity. Qed.

End Escalation.
