(* ===== verification/QueryTests.v ===== *)
(** * The integration tests of the log listing and the statistics
    ([src/tests/{logs,stats}.rs]), on the model

    The seeds are rows of the table; the correlation ids, which no test reads, are empty. *)

From S2P Require Import Prelude Machine RustStr Timed Config Types Storage Http Handlers Query Server Serde JsonCodec.
From S2P Require Import Replies App Testing TestApp.

Open Scope test_scope.

Definition sats (z : Z) : option f64 := Some (f64_of_Z z).

(** A row as the [INSERT]s of the tests write it. *)
Definition seed (ago : Z) (model provider : string) (success streaming : bool) (cost_sats : option f64)
    (input_tokens output_tokens : option Z) (latency_ms : Z) (error : option (Z * string)) (tier : option string)
    : RequestLog := {|
  correlation_id := ""; timestamp := to_rfc3339 (utc_start - ago); rl_model := model; rl_provider := Some provider;
  rl_policy := None; rl_streaming := streaming; rl_input_tokens := input_tokens; rl_output_tokens := output_tokens;
  rl_cost_sats := cost_sats; rl_provider_cost_sats := None; rl_latency_ms := latency_ms; rl_success := success;
  rl_error_status := option_map fst error; rl_error_message := option_map snd error;
  rl_complexity_score := None; rl_tier := tier |}.

Definition insert_rows (l : list RequestLog) : AppTest :=
  t_modify (fun w => with_writer w (let d := aw_writer w in
    mkWriter (wr_capacity d) (wr_queue d) (fold_left (fun t log => insert_log log t) l (wr_table d)))).

Definition minutes (n : Z) : Z := secs (60 * n).
Definition days_ago (n : Z) : Z := secs (86400 * n).

Definition sv : Server := setup_db_test_app.

(** Every member of the list satisfies the test. *)
Definition all_items (t : Tree) (f : Tree -> AppTest) : AppTest :=
  let! l := opt_unwrap (items t) in t_for l f.

(** ** [logs.rs] *)

Module Logs.

(** Column [stream_duration_ms] of the row with this id. *)
Definition set_stream_duration (id ms : Z) : AppTest :=
  t_modify (fun w => with_writer w (let d := aw_writer w in
    mkWriter (wr_capacity d) (wr_queue d)
      {| rq_rows := map (fun r => if rq_id r =? id then mkRequestRow id (rq_log r) (Some ms) else r)
                        (rq_rows (wr_table d));
         rq_next_id := rq_next_id (wr_table d) |})).

Definition seed_logs_data : AppTest :=
  start sv >>;
  insert_rows
    [seed (minutes 10) "gpt-4o" "alpha" true false (sats 10) (Some 100) (Some 200) 100 None None;
     seed (minutes 20) "gpt-4o" "alpha" true true (sats 20) (Some 150) (Some 300) 200 None None;
     seed (minutes 30) "claude-3.5-sonnet" "alpha" true false (sats 30) (Some 200) (Some 400) 300 None None;
     seed (minutes 40) "gpt-4o" "beta" false false None None None 500 (Some (502, "Provider returned 502")) None;
     seed (minutes 50) "gpt-4o-mini" "beta" true false (sats 5) (Some 50) (Some 100) 50 None None;
     seed (days_ago 8) "gpt-4o" "alpha" true false (sats 8) (Some 80) (Some 160) 120 None None] >>;
  set_stream_duration 2 500.

Definition logs (query : list (string * string)) (status : Z) (k : Tree -> AppTest) : AppTest :=
  seed_logs_data >>;
  let! (code, body) := get sv "/v1/requests" query in
  assert_eq code status >>;
  k body.

Definition assert_items (body : Tree) (n : nat) : AppTest :=
  assert_eq (length <$> items (at_key body "data")) (Some n).

Definition test_logs_default_page : AppTest := logs [] 200 (fun body =>
  assert (is_some (items (at_key body "data"))) >>;
  assert_int body ["page"] 1 >>;
  assert_int body ["per_page"] 20 >>;
  assert_int body ["total"] 5 >>;
  assert_int body ["total_pages"] 1 >>;
  assert (is_some (text (at_key body "since"))) >>;
  assert (is_some (text (at_key body "until")))).

Definition test_logs_custom_page_size : AppTest := logs [("per_page", "2")] 200 (fun body =>
  assert_items body 2 >>;
  assert_int body ["per_page"] 2 >>;
  assert_int body ["total"] 5 >>;
  assert_int body ["total_pages"] 3).

Definition test_logs_page_2 : AppTest := logs [("per_page", "2"); ("page", "2")] 200 (fun body =>
  assert_items body 2 >>;
  assert_int body ["page"] 2).

Definition test_logs_out_of_range_page : AppTest := logs [("page", "999")] 200 (fun body =>
  assert_items body 0 >>;
  assert_int body ["page"] 999 >>;
  assert_int body ["total"] 5).

Definition test_logs_per_page_clamped_to_100 : AppTest := logs [("per_page", "500")] 200 (fun body =>
  assert_int body ["per_page"] 100).

Definition test_logs_filter_by_model : AppTest :=
  logs [("model", "gpt-4o"); ("range", "last_30d")] 200 (fun body =>
    assert_int body ["total"] 4 >>;
    all_items (at_key body "data") (fun entry => assert_text entry ["model"] "gpt-4o")).

Definition test_logs_filter_by_provider : AppTest := logs [("provider", "beta")] 200 (fun body =>
  assert_int body ["total"] 2 >>;
  all_items (at_key body "data") (fun entry => assert_text entry ["provider"] "beta")).

Definition test_logs_filter_by_success : AppTest := logs [("success", "false")] 200 (fun body =>
  assert_int body ["total"] 1 >>;
  assert_flag (at_index (at_key body "data") 0) ["success"] false).

Definition test_logs_filter_by_streaming : AppTest := logs [("streaming", "true")] 200 (fun body =>
  assert_int body ["total"] 1 >>;
  assert_flag (at_index (at_key body "data") 0) ["streaming"] true).

Definition test_logs_combined_filters : AppTest :=
  logs [("model", "gpt-4o"); ("provider", "alpha")] 200 (fun body =>
    assert_int body ["total"] 2 >>;
    all_items (at_key body "data") (fun entry =>
      assert_text entry ["model"] "gpt-4o" >>;
      assert_text entry ["provider"] "alpha")).

Definition ignored (_ : Tree) : AppTest := t_ret tt.

Definition test_logs_filter_nonexistent_model_404 : AppTest := logs [("model", "nonexistent")] 404 ignored.
Definition test_logs_filter_nonexistent_provider_404 : AppTest := logs [("provider", "nonexistent")] 404 ignored.

Definition test_logs_time_range_last_30d : AppTest := logs [("range", "last_30d")] 200 (fun body =>
  assert_int body ["total"] 6).

(** [windows(2)]: each item and the next one. *)
Fixpoint all_windows {A} (f : A -> A -> bool) (l : list A) : bool :=
  match l with
  | x :: (y :: _) as l' => f x y && all_windows f l'
  | _ => true
  end.

Definition test_logs_sort_by_cost_asc : AppTest := logs [("sort", "cost_sats"); ("order", "asc")] 200 (fun body =>
  let! data := opt_unwrap (items (at_key body "data")) in
  assert (negb (length data =? 0)%nat) >>;
  let non_null := omap (fun entry => real (at_path entry ["cost"; "sats"])) data in
  assert (all_windows f64_leb non_null)).

Definition test_logs_sort_by_latency_desc : AppTest := logs [("sort", "latency_ms"); ("order", "desc")] 200 (fun body =>
  let! data := opt_unwrap (items (at_key body "data")) in
  assert (negb (length data =? 0)%nat) >>;
  assert_int (at_index (at_key body "data") 0) ["timing"; "latency_ms"] 500 >>;
  let! latencies := opt_unwrap (mapM (fun entry => int (at_path entry ["timing"; "latency_ms"])) data) in
  assert (all_windows (fun a b => b <=? a) latencies)).

Definition mentions_options (body : Tree) : AppTest :=
  assert (str_contains (to_lowercase (default "" (text (at_path body ["error"; "message"])))) "valid options").

Definition test_logs_invalid_sort_field_400 : AppTest := logs [("sort", "invalid")] 400 mentions_options.
Definition test_logs_invalid_sort_order_400 : AppTest :=
  logs [("sort", "timestamp"); ("order", "sideways")] 400 mentions_options.

Definition has_key (t : Tree) (k : string) : bool := is_some (v_get k t).

Definition test_logs_response_structure : AppTest := logs [("per_page", "1")] 200 (fun body =>
  assert_items body 1 >>;
  let entry := at_index (at_key body "data") 0 in
  assert (is_some (int (at_key entry "id"))) >>;
  assert (is_some (text (at_key entry "timestamp"))) >>;
  assert (is_some (text (at_key entry "model"))) >>;
  assert (is_some (flag (at_key entry "success"))) >>;
  assert (is_some (flag (at_key entry "streaming"))) >>;
  assert (is_object (at_key entry "tokens")) >>;
  assert (has_key (at_key entry "tokens") "input") >>;
  assert (has_key (at_key entry "tokens") "output") >>;
  assert (is_object (at_key entry "cost")) >>;
  assert (has_key (at_key entry "cost") "sats") >>;
  assert (is_object (at_key entry "timing")) >>;
  assert (has_key (at_key entry "timing") "latency_ms")).

Definition test_logs_error_section_present_on_failure : AppTest := logs [("success", "false")] 200 (fun body =>
  assert_items body 1 >>;
  let entry := at_index (at_key body "data") 0 in
  assert_flag entry ["success"] false >>;
  assert (is_object (at_key entry "error")) >>;
  assert_int entry ["error"; "status"] 502 >>;
  assert_text entry ["error"; "message"] "Provider returned 502").

Definition test_logs_error_section_absent_on_success : AppTest :=
  logs [("success", "true"); ("per_page", "1")] 200 (fun body =>
    assert_items body 1 >>;
    let entry := at_index (at_key body "data") 0 in
    assert_flag entry ["success"] true >>;
    assert (negb (has_key entry "error") || v_is_null (at_key entry "error"))).

Definition suite : list AppTest :=
  [test_logs_default_page; test_logs_custom_page_size; test_logs_page_2; test_logs_out_of_range_page;
   test_logs_per_page_clamped_to_100; test_logs_filter_by_model; test_logs_filter_by_provider;
   test_logs_filter_by_success; test_logs_filter_by_streaming; test_logs_combined_filters;
   test_logs_filter_nonexistent_model_404; test_logs_filter_nonexistent_provider_404;
   test_logs_time_range_last_30d; test_logs_sort_by_cost_asc; test_logs_sort_by_latency_desc;
   test_logs_invalid_sort_field_400; test_logs_invalid_sort_order_400; test_logs_response_structure;
   test_logs_error_section_present_on_failure; test_logs_error_section_absent_on_success].

Example logs_suite_passes : forallb app_passes suite = true.
Proof. vm_compute. reflexivity. Qed.

End Logs.

(** ** [stats.rs] *)

Module Stats.

Definition recent : Z := hours 1.

Definition seed_standard_data : AppTest :=
  insert_rows
    [seed recent "gpt-4o" "alpha" true false (sats 10) (Some 100) (Some 200) 150 None None;
     seed recent "claude-3.5-sonnet" "alpha" true true (sats 20) (Some 150) (Some 300) 200 None None;
     seed recent "gpt-4o" "beta" false false None None None 500 None None;
     seed (days_ago 8) "gpt-4o" "alpha" true false (sats 5) (Some 50) (Some 100) 100 None None].

(** A request to a database with these seeds. *)
Definition stats (seeds : AppTest) (query : list (string * string)) (status : Z) (k : Tree -> AppTest) : AppTest :=
  start sv >>;
  seeds >>;
  let! (code, body) := get sv "/v1/stats" query in
  assert_eq code status >>;
  k body.

Definition standard_stats := stats seed_standard_data.
Definition empty_stats := stats (t_ret tt).
Definition ignored (_ : Tree) : AppTest := t_ret tt.
Definition total_is (n : Z) (body : Tree) : AppTest := assert_int body ["counts"; "total"] n.

Definition test_stats_aggregate_default : AppTest := standard_stats [] 200 (fun body =>
  total_is 3 body >>;
  assert_int body ["counts"; "success"] 2 >>;
  assert_int body ["counts"; "error"] 1 >>;
  assert_int body ["counts"; "streaming"] 1 >>;
  assert_real body ["costs"; "total_cost_sats"] (f64_of_Z 30) >>;
  assert_int body ["costs"; "total_input_tokens"] 250 >>;
  assert_int body ["costs"; "total_output_tokens"] 500 >>;
  let! avg_latency := opt_unwrap (real (at_path body ["performance"; "avg_latency_ms"])) in
  assert (f64_ltb (SpecFloat.SFabs (f64_sub avg_latency (f64_lit 283333 1000))) f64_one) >>;
  assert (is_some (text (at_key body "since"))) >>;
  assert (is_some (text (at_key body "until")))).

Definition test_stats_aggregate_with_range_last_24h : AppTest :=
  standard_stats [("range", "last_24h")] 200 (total_is 3).

Definition test_stats_aggregate_with_range_last_30d : AppTest :=
  standard_stats [("range", "last_30d")] 200 (fun body =>
    total_is 4 body >>;
    assert_real body ["costs"; "total_cost_sats"] (f64_of_Z 35)).

Definition test_stats_explicit_time_range : AppTest :=
  standard_stats [("since", rfc3339z (utc_start - days_ago 10)); ("until", rfc3339z (utc_start - days_ago 2))] 200
    (fun body =>
       total_is 1 body >>;
       assert_real body ["costs"; "total_cost_sats"] (f64_of_Z 5)).

Definition test_stats_explicit_overrides_preset : AppTest :=
  standard_stats [("range", "last_1h"); ("since", rfc3339z (utc_start - days_ago 30));
                  ("until", rfc3339z (utc_start + hours 1))] 200 (total_is 4).

Definition test_stats_filter_by_model : AppTest :=
  standard_stats [("model", "gpt-4o"); ("range", "last_30d")] 200 (total_is 3).
Definition test_stats_filter_by_provider : AppTest :=
  standard_stats [("provider", "alpha"); ("range", "last_30d")] 200 (total_is 3).
Definition test_stats_filter_case_insensitive : AppTest :=
  standard_stats [("model", "GPT-4O"); ("range", "last_30d")] 200 (total_is 3).

Definition lower_message (body : Tree) : string := to_lowercase (default "" (text (at_path body ["error"; "message"]))).

Definition test_stats_filter_nonexistent_model_404 : AppTest :=
  standard_stats [("model", "nonexistent")] 404 (fun body => assert (str_contains (lower_message body) "not found")).
Definition test_stats_filter_nonexistent_provider_404 : AppTest :=
  standard_stats [("provider", "nonexistent")] 404 ignored.

Definition test_stats_group_by_model : AppTest :=
  standard_stats [("group_by", "model"); ("range", "last_30d")] 200 (fun body =>
    total_is 4 body >>;
    assert (is_object (at_key body "models")) >>;
    total_is 3 (at_path body ["models"; "gpt-4o"]) >>;
    total_is 1 (at_path body ["models"; "claude-3.5-sonnet"]) >>;
    total_is 0 (at_path body ["models"; "gpt-4o-mini"])).

Definition test_stats_empty_time_range : AppTest :=
  standard_stats [("since", "2020-01-01T00:00:00Z"); ("until", "2020-01-02T00:00:00Z")] 200 (fun body =>
    total_is 0 body >>;
    assert_real body ["costs"; "total_cost_sats"] f64_zero >>;
    assert_int body ["costs"; "total_input_tokens"] 0 >>;
    assert_int body ["costs"; "total_output_tokens"] 0 >>;
    assert_flag body ["empty"] true >>;
    let! message := opt_unwrap (text (at_key body "message")) in
    assert (negb (str_is_empty message))).

Definition test_stats_invalid_timestamp_400 : AppTest := empty_stats [("since", "not-a-date")] 400 ignored.
Definition test_stats_invalid_range_preset_400 : AppTest := empty_stats [("range", "last_999d")] 400 ignored.

Definition test_stats_group_by_tier_empty : AppTest := empty_stats [("group_by", "tier")] 200 (fun body =>
  assert (is_object (at_key body "tiers")) >>;
  total_is 0 body).

Definition tier_is (body : Tree) (tier : string) (total : Z) (cost : f64) : AppTest :=
  total_is total (at_path body ["tiers"; tier]) >>;
  assert_real body ["tiers"; tier; "costs"; "total_cost_sats"] cost.

Definition test_stats_group_by_tier_with_data : AppTest :=
  stats (insert_rows
      [seed recent "gpt-4o" "alpha" true false (sats 10) (Some 100) (Some 200) 150 None (Some "local");
       seed recent "gpt-4o" "alpha" true false (sats 20) (Some 150) (Some 300) 200 None (Some "standard");
       seed recent "claude-3.5-sonnet" "alpha" true true (sats 30) (Some 200) (Some 400) 300 None (Some "frontier")])
    [("group_by", "tier")] 200 (fun body =>
      assert (is_object (at_key body "tiers")) >>;
      tier_is body "local" 1 (f64_of_Z 10) >>;
      tier_is body "standard" 1 (f64_of_Z 20) >>;
      tier_is body "frontier" 1 (f64_of_Z 30)).

Definition test_stats_group_by_tier_null_tier : AppTest :=
  stats (insert_rows [seed recent "gpt-4o" "alpha" true false (sats 10) (Some 100) (Some 200) 150 None None])
    [("group_by", "tier")] 200 (fun body =>
      assert (is_object (at_key body "tiers")) >>;
      tier_is body "unknown" 1 (f64_of_Z 10)).

Definition test_stats_group_by_invalid_400 : AppTest := empty_stats [("group_by", "invalid")] 400 (fun body =>
  assert (str_contains (lower_message body) "model" && str_contains (lower_message body) "tier")).

Definition suite : list AppTest :=
  [test_stats_aggregate_default; test_stats_aggregate_with_range_last_24h; test_stats_aggregate_with_range_last_30d;
   test_stats_explicit_time_range; test_stats_explicit_overrides_preset; test_stats_filter_by_model;
   test_stats_filter_by_provider; test_stats_filter_case_insensitive; test_stats_filter_nonexistent_model_404;
   test_stats_filter_nonexistent_provider_404; test_stats_group_by_model; test_stats_empty_time_range;
   test_stats_invalid_timestamp_400; test_stats_invalid_range_preset_400; test_stats_group_by_tier_empty;
   test_stats_group_by_tier_with_data; test_stats_group_by_tier_null_tier; test_stats_group_by_invalid_400].

Example stats_suite_passes : forallb app_passes suite = true.
Proof. vm_compute. reflexivity. Qed.

End Stats.
