(* ===== verification/VaultTests.v ===== *)
(** * The integration tests of billing and of its fault tolerance
    ([src/tests/{vault_billing,vault_fault_tolerance}.rs]), on the model

    The mock servers log calls through the state of the application: [w_calls] for the vault,
    [aw_sent] for the providers.  A pause of a test lets the spawned tasks run. *)

From S2P Require Import Prelude Machine RustStr Timed Config Types Storage Vault Http Handlers Streaming Reservations.
From S2P Require Import Server Serde JsonCodec Wire VaultJson Replies App Testing ApiTests TestApp.

Open Scope test_scope.

#[local] Existing Instance Responses.codec_text.

Definition no_db_error (n : nat) : option string := None.

(** [tokio::time::sleep]: the spawned tasks run, the items of streams arrive at once. *)
Definition sleep (v : VaultMock) (sv : Server) (d : Duration) : AppTest :=
  let! w := t_get in
  t_modify (fun w => with_spawned w []) >>;
  match st_vault (sv_state sv) with
  | Some vc =>
      t_for (aw_spawned w)
        (run_task (mock_post v) no_db_error (sv_db sv) (sv_state sv) vc (fun _ => 0) (fun _ => (0, true)) (fun _ => []))
  | None => t_ret tt
  end >>;
  t_await d.

(** The calls of the log: their paths and bodies. *)
Definition operation (c : VaultCall) : string :=
  match c with CallReserve _ _ _ _ => "reserve" | CallSettle _ _ _ => "settle" | CallRelease _ _ => "release" end.

Definition calls_to (op : string) (w : AppWorld) : list Tree :=
  omap (fun c => if String.eqb (operation (lc_call c)) op then Some (vault_body (lc_call c)) else None)
    (w_calls (aw_vault w)).

Definition first_call (op : string) : Timed AppWorld Tree :=
  let! w := t_get in t_index (calls_to op w) 0.

Definition assert_calls (op : string) (n : nat) : AppTest :=
  let! w := t_get in assert_eq (length (calls_to op w)) n.

(** What the mock checks: the header, and the path of each operation. *)
Definition assert_addressed (vault_url : string) : AppTest :=
  let! w := t_get in
  assert (forallb (fun c => String.eqb (lc_token c) "test-internal-token" &&
            String.eqb (lc_url c) (vault_url +:+ "/internal/" +:+ operation (lc_call c))) (w_calls (aw_vault w))).

(** ** [vault_billing.rs] *)

Module VaultBilling.

Definition vault_url : string := "http://127.0.0.1:11001".
Definition provider_url : string := "http://127.0.0.1:11002".

Definition chat_request_body : Tree := json_object
  [("model", SStr "gpt-4o"); ("messages", SSeq [user_message "hello world test message"])].

Definition valid_completion_response : Tree := json_object
  [("id", SStr "chatcmpl-test"); ("object", SStr "chat.completion"); ("created", SInt 1234567890);
   ("model", SStr "gpt-4o");
   ("choices", SSeq [json_object
      [("index", SInt 0); ("message", json_object [("role", SStr "assistant"); ("content", SStr "test response")]);
       ("finish_reason", SStr "stop")]]);
   ("usage", json_object [("prompt_tokens", SInt 10); ("completion_tokens", SInt 20); ("total_tokens", SInt 30)])].

Definition mock_provider (fail : bool) : Network :=
  [(provider_url +:+ "/v1",
    if fail then (500, json_object [("error", json_object
                    [("message", SStr "provider failure"); ("type", SStr "server_error")])])
    else (200, valid_completion_response))].

(** [start_mock_vault(error_override)] *)
Definition mock_vault (error_override : option Z) : VaultMock :=
  {| on_reserve := default 200 error_override; on_settle := 200; on_release := 200 |}.

Definition billed : Server := setup_vault_test_app vault_url provider_url.
Definition bearer (token : string) : list (string * string) := [("authorization", "Bearer " +:+ token)].
Definition agent : list (string * string) := bearer "agent-token-abc".

Definition assert_completion (body : Tree) : AppTest :=
  assert_text body ["model"] "gpt-4o" >>;
  assert_text (at_index (at_key body "choices") 0) ["message"; "content"] "test response".

Definition test_vault_reserve_requires_bearer_token : AppTest :=
  start billed >>;
  let! response := chat (mock_provider false) (mock_vault None) billed [] chat_request_body in
  let '(status, body) := parse_body response in
  assert_eq status 401 >>;
  assert_text body ["error"; "message"] "Authorization: Bearer <token> required" >>;
  assert_text body ["error"; "type"] "authentication_error".

(** The vault refuses the reservation: the client is told, and no provider is called. *)
Definition reserve_refused (code : Z) : AppTest :=
  start billed >>;
  let! response := chat (mock_provider false) (mock_vault (Some code)) billed agent chat_request_body in
  let '(status, body) := parse_body response in
  assert_eq status code >>;
  assert_text body ["error"; "type"] "billing_error" >>;
  let! w := t_get in assert_eq (aw_sent w) [].

Definition test_vault_reserve_insufficient_balance : AppTest := reserve_refused 402.
Definition test_vault_reserve_policy_denied : AppTest := reserve_refused 403.
Definition test_vault_reserve_rate_limited : AppTest := reserve_refused 429.

Definition test_vault_reserve_uses_frontier_rates : AppTest :=
  start billed >>;
  let! _ := chat (mock_provider false) (mock_vault None) billed agent chat_request_body in
  let! reserve_call := first_call "reserve" in
  let! amount_msats := opt_unwrap (v_as_u64 (at_key reserve_call "amount_msats")) in
  assert (100000 <? amount_msats) >>;
  (* the sum in the comment of the test *)
  assert_eq amount_msats 124940 >>;
  assert_addressed vault_url.

(** That the reservation comes first is [reserve_refused]. *)
Definition test_full_reserve_route_settle_path : AppTest :=
  start billed >>;
  let! response := chat (mock_provider false) (mock_vault None) billed agent chat_request_body in
  let '(status, body) := parse_body response in
  assert_eq status 200 >>;
  assert_completion body >>;
  let! w := t_get in
  assert (negb (bool_decide (aw_sent w = []))) >>;
  let! reserve_call := first_call "reserve" in
  assert (is_some (text (at_key reserve_call "agent_token"))) >>;
  assert (is_some (text (at_key reserve_call "correlation_id"))) >>;
  assert_text reserve_call ["model"] "gpt-4o" >>;
  sleep (mock_vault None) billed (millis 200) >>;
  let! settle_call := first_call "settle" in
  assert_text settle_call ["reservation_id"] "res-test-123" >>;
  assert (is_number (at_key settle_call "actual_msats")) >>;
  assert (is_object (at_key settle_call "metadata")) >>;
  assert (is_some (text (at_path settle_call ["metadata"; "provider"]))) >>;
  assert (is_number (at_path settle_call ["metadata"; "latency_ms"])) >>;
  assert_addressed vault_url.

Definition test_vault_release_on_provider_failure : AppTest :=
  start billed >>;
  let! response := chat (mock_provider true) (mock_vault None) billed agent chat_request_body in
  assert (is_server_error (rp_status response)) >>;
  sleep (mock_vault None) billed (millis 200) >>;
  let! _ := first_call "release" in
  assert_calls "settle" 0.

Definition test_free_proxy_mode_no_vault : AppTest :=
  let free := setup_free_proxy_test_app provider_url in
  start free >>;
  let! response := chat (mock_provider false) vault_up free [] chat_request_body in
  let '(status, body) := parse_body response in
  assert_eq status 200 >>;
  assert_completion body >>;
  let! w := t_get in assert (negb (bool_decide (aw_sent w = []))).

Definition test_vault_auth_replaces_server_auth : AppTest :=
  let sv := setup_vault_test_app_with_auth vault_url provider_url (Some "server-secret-token") in
  start sv >>;
  let! response := chat (mock_provider false) (mock_vault None) sv
                     (bearer "vault-agent-token-not-server-token") chat_request_body in
  assert_eq (rp_status response) 200 >>;
  let! _ := first_call "reserve" in t_ret tt.

Definition suite : list AppTest :=
  [test_vault_reserve_requires_bearer_token; test_vault_reserve_insufficient_balance;
   test_vault_reserve_policy_denied; test_vault_reserve_rate_limited; test_vault_reserve_uses_frontier_rates;
   test_full_reserve_route_settle_path; test_vault_release_on_provider_failure; test_free_proxy_mode_no_vault;
   test_vault_auth_replaces_server_auth].

Example billing_suite_passes : forallb app_passes suite = true.
Proof. vm_compute. reflexivity. Qed.

End VaultBilling.

(** ** [vault_fault_tolerance.rs] *)

Module FaultTolerance.

Definition vault_url : string := "http://127.0.0.1:12001".
Definition provider_url : string := "http://127.0.0.1:12002".

(** [start_mock_vault_for_reconciliation(settle_status, release_status)] *)
Definition mock_vault (settle_status release_status : Z) : VaultMock :=
  {| on_reserve := 200; on_settle := settle_status; on_release := release_status |}.

Definition create_test_vault_client (url : string) : VaultClient := VaultClient_new (test_vault url).

(** [setup_test_db] *)
Definition setup_test_db : AppTest := t_modify (fun w => with_vault w World_new).

Definition insert (s : PendingSettlement) : AppTest :=
  let! r := in_vault (insert_pending_settlement no_db_error s) in unwrap r.

Definition assert_pending (n : Z) : AppTest :=
  let! r := in_vault (count_pending no_db_error) in
  let! count := unwrap r in
  assert_eq count n.

(** [reconcile_once(&vault, &pool).await], and its counts. *)
Definition reconcile (v : VaultMock) (url : string) : Timed AppWorld counts :=
  in_vault (reconcile_once (mock_post v) (fun _ => []) no_db_error (create_test_vault_client url)).

Definition reconciles_to (v : VaultMock) (expected : counts) : AppTest :=
  let! counts := reconcile v vault_url in assert_eq counts expected.

(** [UPDATE pending_settlements SET attempts = ? WHERE reservation_id = ?] *)
Definition set_attempts (reservation_id : string) (n : Z) : AppTest :=
  t_modify (fun w => let v := aw_vault w in
    with_vault w (with_pending v
      {| rows := map (fun r => if String.eqb (row_reservation_id r) reservation_id
                               then mkRow (row_id r) (row_type r) (row_reservation_id r) (row_amount r) (row_metadata r)
                                      (row_created_at r) n
                               else r) (rows (w_pending v));
         next_id := next_id (w_pending v) |})).

Definition to_settle (reservation_id : string) (amount ti to : Z) (provider : string) (latency : Z) : PendingSettlement := {|
  settlement_type := "settle"; ps_reservation_id := reservation_id; amount_msats := Some amount;
  ps_metadata := print_json (json_object
    [("tokens_in", SInt ti); ("tokens_out", SInt to); ("provider", SStr provider); ("latency_ms", SInt latency)]) |}.
Definition to_release (reservation_id : string) : PendingSettlement := {|
  settlement_type := "release"; ps_reservation_id := reservation_id; amount_msats := None;
  ps_metadata := "provider failure" |}.

Definition test_reconcile_replays_pending_settlements : AppTest :=
  setup_test_db >>;
  insert (to_settle "res-001" 5000 10 20 "alpha" 100) >>;
  insert (to_settle "res-002" 3000 5 10 "beta" 50) >>;
  insert (to_release "res-003") >>;
  assert_pending 3 >>;
  reconciles_to (mock_vault 200 200) (3, 0, 0) >>;
  assert_pending 0 >>;
  assert_calls "settle" 2 >>;
  assert_calls "release" 1.

Definition test_reconcile_increments_attempts_on_failure : AppTest :=
  setup_test_db >>;
  insert (to_settle "res-fail-001" 5000 10 20 "alpha" 100) >>;
  reconciles_to (mock_vault 500 500) (0, 1, 0) >>;
  assert_pending 1 >>;
  let! r := in_vault (fetch_pending no_db_error) in
  let! pending := unwrap r in
  assert_eq (length pending) 1%nat >>;
  let! row := t_index pending 0 in
  assert_eq (snd row) 1.

Definition test_reconcile_evicts_after_max_attempts : AppTest :=
  setup_test_db >>;
  insert (to_settle "res-stale-001" 5000 10 20 "alpha" 100) >>;
  set_attempts "res-stale-001" 10 >>;
  reconciles_to (mock_vault 200 200) (0, 0, 1) >>;
  assert_pending 0 >>;
  assert_calls "settle" 0 >>;
  assert_calls "release" 0.

Definition test_reconcile_mixed_eviction_and_replay : AppTest :=
  setup_test_db >>;
  insert (to_settle "res-replay-001" 5000 10 20 "alpha" 100) >>;
  set_attempts "res-replay-001" 9 >>;
  insert (to_release "res-evict-001") >>;
  set_attempts "res-evict-001" 10 >>;
  assert_pending 2 >>;
  reconciles_to (mock_vault 200 200) (1, 0, 1) >>;
  assert_pending 0 >>;
  assert_calls "settle" 1 >>;
  assert_calls "release" 0.

(** [setup_vault_test_app_with_db] *)
Definition setup_vault_test_app_with_db : Server :=
  test_app (with_vault_config (test_vault vault_url)
              (test_config [priced "test-provider" (provider_url +:+ "/v1") 10 30 1 Standard]))
    true ["test-provider"].

Definition new_vault_url : string := "http://127.0.0.1:12003".

(** The log has the calls to both vaults: the second one's by its address. *)
Definition calls_at (url : string) (w : AppWorld) : nat :=
  length (List.filter (fun c => String.eqb (lc_url c) (url +:+ "/internal/settle")) (w_calls (aw_vault w))).

Definition test_full_cycle_settle_failure_and_reconciliation : AppTest :=
  let sv := setup_vault_test_app_with_db in
  start sv >>;
  let! response := chat [(provider_url +:+ "/v1", (200, VaultBilling.valid_completion_response))] (mock_vault 504 200) sv
                     VaultBilling.agent
                     (json_object [("model", SStr "gpt-4o"); ("messages", SSeq [user_message "hello"])]) in
  assert_eq (rp_status response) 200 >>;
  sleep (mock_vault 504 200) sv (millis 1000) >>;
  let! r := in_vault (count_pending no_db_error) in
  let! pending_count := unwrap r in
  assert (1 <=? pending_count) >>;
  let! (replayed, failed, evicted) := reconcile (mock_vault 200 200) new_vault_url in
  assert (1 <=? replayed) >>;
  assert_eq failed 0 >>;
  assert_eq evicted 0 >>;
  assert_pending 0 >>;
  let! w := t_get in
  assert (1 <=? calls_at new_vault_url w)%nat >>;
  assert (1 <=? calls_at vault_url w)%nat.

Definition suite : list AppTest :=
  [test_reconcile_replays_pending_settlements; test_reconcile_increments_attempts_on_failure;
   test_reconcile_evicts_after_max_attempts; test_reconcile_mixed_eviction_and_replay;
   test_full_cycle_settle_failure_and_reconciliation].

Example fault_tolerance_suite_passes : forallb app_passes suite = true.
Proof. vm_compute. reflexivity. Qed.

End FaultTolerance.
