(* ===== verification/SetupTests.v ===== *)
(** * The integration tests of discovery, of the loading of configurations and of
    [stream_options] ([src/tests/{discovery,env_expansion,stream_options}.rs]), on the model *)

From S2P Require Import Prelude Machine RustStr Timed Config Types Vault Server Serde JsonCodec Wire VaultJson ConfigFile.
From S2P Require Import Testing ApiTests ConfigTests.

Open Scope test_scope.

#[local] Existing Instances AsciiCase TextJson PlainValue.

(** ** [discovery.rs] *)

Module Discovery.

Definition test_provider (name url : string) (auto_discover : bool) (models : list string) : ProviderConfig := {|
  p_name := name; p_url := url; p_api_key := None; p_models := models; p_input_rate := 0; p_output_rate := 0;
  p_base_fee := 0; p_tier := Local; p_auto_discover := auto_discover |}.

Definition mock_uri : string := "http://127.0.0.1:13001".

(** The mock server, if there is one, and the models it lists. *)
Definition mock_server (models : option (list string)) (url : string) (_ : option ApiKey) : result ModelsReply string :=
  match models with
  | Some ids => if String.eqb url (mock_uri +:+ "/v1/models") then Ok {| mp_status := 200; mp_models := Ok ids |}
                else Err "connection refused"
  | None => Err "connection refused"
  end.

Definition discovers (server : option (list string)) (p : ProviderConfig) (models : list string) : Test :=
  let! found := t_index (discover_models (mock_server server) [p]) 0 in
  assert_eq (p_models found) models.

Definition discovery_success : Test :=
  discovers (Some ["model-a"; "model-b"]) (test_provider "test-discoverable" (mock_uri +:+ "/v1") true ["fallback"])
    ["model-a"; "model-b"].

Definition discovery_unreachable : Test :=
  discovers None (test_provider "unreachable" "http://127.0.0.1:1" true ["static-model"]) ["static-model"].

Definition discovery_unreachable_empty : Test :=
  discovers None (test_provider "unreachable-empty" "http://127.0.0.1:1" true []) [].

(** The mock is not called: any server does. *)
Definition discovery_skipped (server : option (list string)) : Test :=
  discovers server (test_provider "no-discover" (mock_uri +:+ "/v1") false ["original-model"]) ["original-model"].

Definition discovery_replaces_static : Test :=
  discovers (Some ["new-model"]) (test_provider "replace-test" (mock_uri +:+ "/v1") true ["old-model-a"; "old-model-b"])
    ["new-model"].

Definition config_backward_compat : Test :=
  let! config := parse (SMap
    [("server", SMap [("listen", SStr "127.0.0.1:8080")]);
     ("database", SMap [("path", SStr "./test.db")]);
     ("providers", SSeq [SMap
        [("name", SStr "legacy-provider"); ("url", SStr "https://example.com/v1"); ("models", SSeq [SStr "gpt-4o"]);
         ("input_rate", SInt 10); ("output_rate", SInt 30)]]);
     ("policies", SMap [("default_strategy", SStr "cheapest")])]) in
  let! p := provider0 config in
  assert (negb (p_auto_discover p)).

Example discovery_suite_passes (server : option (list string)) :
  forallb passes [discovery_success; discovery_unreachable; discovery_unreachable_empty; discovery_skipped server;
                  discovery_replaces_static; config_backward_compat] = true.
Proof. vm_compute. reflexivity. Qed.

End Discovery.

(** ** [env_expansion.rs] *)

Module EnvExpansion.

(** A file with one provider. *)
Definition file (name : string) (api_key : option string) : Tree :=
  SMap [("server", SMap [("listen", SStr "127.0.0.1:19876")]);
        ("providers", SSeq [SMap
           ([("name", SStr name); ("url", SStr "https://example.com/v1")] ++
            match api_key with Some k => [("api_key", SStr k)] | None => [] end ++
            [("models", SSeq [SStr "gpt-4o"]); ("input_rate", SInt 10); ("output_rate", SInt 30)])])].

#[local] Existing Instance TomlFormat.

(** [Config::from_file_with_env(config_path)] of a file with this tree. *)
Definition load_file (vars : list (string * string)) (t : Tree) : result (Config * list (string * KeySource)) ConfigError :=
  from_file_with_env (fun _ => Ok "") (env vars) (toml_from (fun _ => Ok t) id de_raw_config) "/tmp/arbstr_e2e.toml".

Definition key_and_source (vars : list (string * string)) (name : string) (api_key : option string)
    : Timed unit (option ApiKey * KeySource) :=
  let result := load_file vars (file name api_key) in
  assert (is_ok result) >>;
  let! (config, key_sources) := unwrap result in
  let! provider := opt_unwrap (List.find (fun p => String.eqb (p_name p) name) (providers config)) in
  let! source := opt_unwrap (List.find (fun s => String.eqb (fst s) name) key_sources) in
  t_ret (p_api_key provider, snd source).

Definition resolves_to (vars : list (string * string)) (name : string) (api_key : option string) (value : string)
    (source : KeySource) : Test :=
  let! (key, found) := key_and_source vars name api_key in
  let! key := opt_unwrap key in
  assert_eq (expose_secret key) value >>;
  assert_eq found source.

Definition test_env_expansion_resolves_var : Test :=
  resolves_to [("TEST_E2E_06_01_KEY", "cashuResolved")] "env-test" (Some "${TEST_E2E_06_01_KEY}") "cashuResolved"
    EnvExpanded.

Definition test_env_expansion_missing_var_errors : Test :=
  let result := load_file [] (file "missing-test" (Some "${TEST_E2E_06_02_MISSING}")) in
  assert (is_err result) >>;
  let! err := unwrap_err result in
  assert (str_contains (ConfigError_to_string err) "TEST_E2E_06_02_MISSING") >>;
  assert (str_contains (ConfigError_to_string err) "missing-test").

Definition test_env_convention_discovers_key : Test :=
  let var_name := "ARBSTR_CONV_PROVIDER_API_KEY" in
  resolves_to [(var_name, "cashuConvention")] "conv-provider" None "cashuConvention" (Convention var_name).

Definition test_env_no_key_produces_none_source : Test :=
  let! (key, source) := key_and_source [] "nokey-provider" None in
  assert (is_none key) >>;
  assert_eq source NoKey.

Definition test_env_literal_key_passthrough : Test :=
  resolves_to [] "literal-test" (Some "cashuLiteral") "cashuLiteral" Literal.

Example env_expansion_suite_passes :
  forallb passes [test_env_expansion_resolves_var; test_env_expansion_missing_var_errors;
                  test_env_convention_discovers_key; test_env_no_key_produces_none_source;
                  test_env_literal_key_passthrough] = true.
Proof. vm_compute. reflexivity. Qed.

End EnvExpansion.

(** ** [stream_options.rs] *)

Module StreamOptionsTests.

Definition request (content : string) (stream : bool) (options : option StreamOptions) : ChatCompletionRequest := {|
  model := "gpt-4o";
  messages := [{| m_role := "user"; m_content := Text content; m_name := None; m_extra := [] |}];
  temperature := None; max_tokens := None; stream := Some stream; stream_options := options;
  top_p := None; frequency_penalty := None; presence_penalty := None; stop := None; user := None; extra := [] |}.

Definition with_usage : string := json "'stream_options':{'include_usage':true}".

Definition streaming_request_gets_stream_options_injected : Test :=
  assert (str_contains (Requests.request_text (ensure_stream_options (request "Write a poem" true None))) with_usage).

Definition non_streaming_request_has_no_stream_options : Test :=
  assert (negb (str_contains (Requests.request_text (request "Write a poem" false None)) "stream_options")).

Definition client_stream_options_preserved_on_merge : Test :=
  let! opts := opt_unwrap (stream_options
    (ensure_stream_options (request "Hello" true (Some {| include_usage := Some false |})))) in
  assert_eq (include_usage opts) (Some false).

Definition stream_options_roundtrip_json : Test :=
  let! t := opt_unwrap (read_json id (json
    "{ 'model': 'gpt-4o', 'messages': [{'role': 'user', 'content': 'hi'}], 'stream': true, 'stream_options': {'include_usage': true} }")) in
  let! request := opt_unwrap (de_request t) in
  let! opts := opt_unwrap (stream_options request) in
  assert_eq (include_usage opts) (Some true) >>;
  assert (str_contains (Requests.request_text request) with_usage).

Example stream_options_suite_passes :
  forallb passes [streaming_request_gets_stream_options_injected; non_streaming_request_has_no_stream_options;
                  client_stream_options_preserved_on_merge; stream_options_roundtrip_json] = true.
Proof. vm_compute. reflexivity. Qed.

End StreamOptionsTests.
